(* ===== verification/_CoqProject ===== *)
-Q . S2P
Prelude.v
Bytes.v
GoErrors.v
Frame.v
Handshake.v
LinkSession.v
LinkReceive.v
LinkSend.v
LinkEndpoint.v
LinkSystem.v
LinkLiveness.v
LinkBinding.v
Traffic.v
Compression.v
MuxServices.v
MuxStream.v
MuxFlow.v
MuxPipe.v
MuxSession.v
MuxThreads.v
MuxPool.v
GoStrings.v
AppServices.v
Identity.v
AppPeer.v
ServerLoop.v
Proxy.v
Bridge.v
BleScan.v
BleConnect.v
BleAdapter.v
BleConn.v
BlePeripheral.v
BleStart.v
ClientLoop.v
Reconnect.v
Benchmark.v
BenchmarkRun.v
BenchmarkEnd.v
Picker.v
CommandLine.v
Format.v
Console.v
ConsoleScreen.v
PickerView.v
TransportDebug.v
Listing.v
Platform.v
SleepInhibitor.v
ServerStart.v
Tunnel.v
TunnelLiveness.v
MuxActions.v
MuxIds.v
MuxWire.v
