(* ===== verification/Prelude.v ===== *)
(** * LightningBNB: a verification development of the TCP-over-BLE bridge

    LightningBNB forwards TCP connections over Bluetooth Low Energy.  A client
    listens on local ports; every connection becomes a stream of a multiplexing
    session, which runs over a reliable, resumable link, which runs over the
    packets of a BLE connection; the server opens a TCP connection to the target
    of each stream and copies bytes both ways.  The link survives lost BLE
    connections: the two sides rebind it and continue at the byte they stopped.

    This library models the Go sources under src/ (module
    github.com/Sygmei/LightningBNB) in layers and proves, for each layer, what the
    layer above relies on.  All paths below are relative to src/.

    ** How the code is modelled

    - A struct is a [Record] with the fields of the source; a mutable object is a
      value passed through its operations, [s <| f := v |>] being the assignment
      [s.f = v].  Machine integers are [Z] with the wrap-around written out
      ([u16], [u32], [u64]); byte slices are lists of bytes; Go strings are byte
      strings; maps are stdpp's [gmap]; where the code ranges over a map, its loop
      runs over the list of entries and a theorem shows that their order does not
      matter ([accept_order_independent]).
    - A critical section of a mutex is one function.  Where goroutines interleave,
      each is cut at its locks, channel operations and blocking calls, and a
      relation runs one step of any of them; theorems quantify over every
      interleaving.  What blocks (a timer, a native Bluetooth call, a read) has
      an outcome the environment chooses, given as an event.
    - Errors are values ([GoErrors]): sentinels, wrapped and fresh errors, with
      [errors.Is] and the text the source builds from them.  A run-time panic is
      [None] (Picker).
    - Time is an argument, in nanoseconds.

    ** The files

    - Prelude: record update, machine integers, slices, sums over maps, automation.
      Bytes, GoErrors, GoStrings, Format: bytes and big-endian integers, error
      values, the string functions used (Cut, TrimSpace, Atoi, SplitHostPort,
      quoting), float64 and fmt.
    - Frame (internal/protocol/frame.go): the multiplexing frames, their writer
      over any [io.Writer] and their reader.
    - Handshake (internal/link/handshake.go): HELLO, HELLO_ACK, REJECT.
    - LinkSession (internal/link/session.go, stats.go): the reliable session, one
      definition per critical section.  LinkReceive, LinkSend: the invariants of
      the two directions.  LinkEndpoint: every operation of one endpoint keeps
      them.  LinkSystem: two endpoints over a link that loses, duplicates and
      reorders packets, with detachment and rebinding.  LinkLiveness: everything
      written can be delivered.  LinkBinding: heartbeats, detachment, resume
      timeout, closing, wakeups, negotiation.
    - Traffic (internal/traffic/counter.go), Compression, MuxServices
      (internal/mux/compression.go, session.go): counters, DATA encoding, service
      lists.
    - MuxStream (internal/mux/stream.go): the critical sections of a stream.
      MuxFlow: flow control of a stream direction.  MuxPipe: the bounded pipe it
      refines.  MuxSession (internal/mux/session.go): the session as programs over
      atomic actions.  MuxThreads: a weakest-precondition calculus for them.
      MuxPool: any number of goroutines of a session, with a peer that opens no
      id twice.  MuxActions: the actions a program can still take.  MuxIds: the
      ids, for any peer.  MuxWire: the order of the frames they write.
    - Tunnel: a stream direction over the two sessions of LinkSystem, through the
      write loops and read loops: all layers below the bridge at once.
      TunnelLiveness: the loops alone can always deliver what was written.
    - AppServices (internal/app/services.go, target selection of
      internal/bridge/server.go), Identity (internal/ble/identity.go,
      internal/app/server_id.go).
    - AppPeer, ServerLoop (internal/app/server.go), ClientLoop
      (internal/app/client.go), Reconnect: the loops that accept, dial and rebind
      sessions, and both together.
    - Proxy (internal/bridge/proxy.go, server.go), Bridge
      (internal/bridge/client.go): copying, target dialling, the client's queue.
    - BleScan, BleConnect (internal/ble/ble.go): scanning, identification, Find,
      Connect and the ownership of native connections.  BleConn
      (internal/ble/client_conn.go, send_lock.go, server_supported.go): the packet
      connections.  BlePeripheral, BleStart (server_supported.go,
      server_config.go): the server's connections, advertisement restarts, start.
      BleAdapter: the register of transports behind connectionChanged.
    - Benchmark (internal/app/benchmark.go): plan, handshake and pumps.
      BenchmarkRun: the setup of the streams and the responder.  BenchmarkEnd: the
      client's pumps with its timer, context and select, until it returns.  Picker (internal/app/picker.go): the Bubble Tea model;
      PickerView: what it draws and the feed of its scan.
    - Console and ConsoleScreen (internal/app/console.go, traffic.go), Listing
      (scan.go, list_services.go, the reporters), TransportDebug
      (transport_debug.go), CommandLine (cmd/lightningbnb/main.go), ServerStart
      (what RunServer acquires around its loop).
    - Platform, SleepInhibitor (internal/app/ble_service_recovery_*.go,
      prevent_sleep_*.go): the elevated recovery and the sleep inhibitors.

    ** What the theorems show

    - The link is a reliable stream: [link_stream_integrity] (each side has read a
      prefix of what the other wrote and the rest is retained),
      [link_delivery_possible] (by retransmission alone, after any losses),
      [accept_order_independent], [link_bounds].
    - Bindings: [no_lost_wakeup]; [late_hello_ack_detaches] is a defect.
    - All layers: [tunnel_refines_pipe] (what the users of a stream see is a
      bounded pipe, whatever the packets do), [tunnel_delivers] (the loops alone
      bring everything written, also when every packet sent so far was lost).
    - Streams: [flow_refines_pipe], [flow_integrity], [flow_progress];
      [scheduler_never_overflows], [no_frame_forgotten], [wire_in_order] (of a
      session whose peer opens no id twice), [stream_ids] (whatever the peer
      opens); encodings: [WriteFrame_ReadFrame], [compression_roundtrip];
      [service_list_asymmetry] is a divergence between writer and reader.
    - Sessions: [server_one_session], [server_resumes_session],
      [client_one_session], [client_keeps_session], and the composition
      [reconnect_resumes].
    - Bridge: [client_accounting], [proxy_forwards],
      [advertised_services_reachable].
    - Bluetooth: [conn_delivers_in_order], [sends_serialised],
      [one_open_connection], [find_connect_owned] (which also shows that a
      connection to the wrong device is left open), [startBLEServer_bounds].
    - Benchmark: [benchmark_setup] (all streams start together or every one is
      closed), [benchmark_returns] (every fair run ends with nothing left behind).
    - Commands: [accepted_commands], [scan_prints_servers], [console_screen],
      [picker_safe], [hover_selects_row] (the row under the mouse is selected
      only if the view starts at the terminal's top row).
    - Platform: [inhibitor_released], [powershell_roundtrip].
    Further theorems of the files are not listed here, among them
    [acceptDataLocked_delivers_prefix], [heartbeat_detach_justified],
    [closed_is_final], [shutdown_resets_streams], [services_roundtrip],
    [negotiation_agrees], [proxy_can_return], [pump_accounts], [pump_drains],
    [RunServer_releases] and [disconnect_closes_newest]; each states what it shows.
    Every theorem with hypotheses has a [_witness] that runs the definitions on a
    concrete input.

    ** Bounds and fuel

    - [Write] of a session and of a stream, and [Read], are loops around a wait;
      each turn is a total function, and a run is a list of turns.  [readLoop]
      consumes a list of frames; [writeAll] and [ReadHello] recurse on their input.
    - [select] in the mux chooses among the ready cases by an oracle; theorems hold
      for every oracle.
    - [writeFull] has the length of its data as fuel: every turn of the loop takes
      at least one byte ([writeFullLoop_spec]).  [inevitably] says that every run
      reaches a state; it is proved by a measure that every step decreases.
      [fair_run] is an infinite run in which no goroutine stays due for ever
      without a turn; [eventually] is proved from the goroutines that are due and
      the work they leave.
    - [startLoop] has the four attempts of the source as its measure.
    - Counters that would need 2^64 steps to wrap are bounded by a hypothesis where
      the code has no check: [in_range] for the benchmark's byte counter, [msg_ok]
      for the picker's probe counter.  The link's offsets are not: the source
      refuses to wrap them and so does the model.

    ** Assumptions on code outside src/

    - DEFLATE of the Go standard library: a class of its documented behaviour
      (inflating what was deflated gives it back, bounded reads), with a stored
      codec as instance for the witnesses.
    - The Bluetooth stack (third_party/bluetooth): every call returns what the
      environment chooses.
    - The random source, the file system, the clock and the terminal: arguments.
      The terminal of ConsoleScreen knows the escape sequences the console writes
      and is wide enough for a dashboard row.
    - lipgloss: boxes and joins keep lines in rows ([hover_selects_row]).
    - Connections of the benchmark: [Write] takes a part of its argument, [open]
      returns a new connection, a call on a closed one returns ([outcome_ok]).
    - The flag package: the outcome of [flags.Parse] is an argument.

    ** Not modelled

    - The styling library of the picker (lipgloss) is a parameter, with the laws of
      [LipglossLaws]; the choice of its colours and the terminal test are left out.
    - The vendored Bluetooth stack under third_party, and what the operating system
      does when it is called (ShellExecuteExW, logind, SetThreadExecutionState).
      Of isExpectedNetworkClose the Unix version is modelled.
    - Logging beyond what the console shows, and reading flags from text.
*)

From stdpp Require Export base gmap list strings pretty sorting.
From Stdlib Require Export ZArith Lia.

Declare Scope go_scope.
Delimit Scope go_scope with go.
#[global] Open Scope Z_scope.
#[global] Open Scope go_scope.

(** ** Record update

    Go mutates one field of a struct at a time; [s <| f := v |>] is the struct
    [s] with field [f] replaced.  Each record declares its eta expansion once
    ([Eta]); the setter of a projection is computed from it. *)

Class Eta (R : Type) := eta : R -> R.
Class Setter {R T : Type} (proj : R -> T) := upd : (T -> T) -> R -> R.
Arguments upd {R T} proj {_} _ _ /.

Ltac build_setter proj :=
  match type of proj with
  | ?R -> ?T =>
      let inst := constr:(_ : Eta R) in
      let e := (eval hnf in inst) in
      let p := (eval pattern proj in e) in
      match p with
      ?F _ =>
        let f := (eval cbv beta in
          (fun (g : T -> T) (s : R) => F (fun s' : R => g (proj s')) s)) in
        exact f
      end
  end.

#[export] Hint Extern 1 (Setter ?proj) => build_setter proj : typeclass_instances.

Notation "s <| f := v |>" := (upd f (fun _ => v) s)
  (at level 1, left associativity, format "s  <| f  :=  v |>") : go_scope.

(** ** Go's fixed-width unsigned integers

    A [uintN] is a [Z] in [0, 2^N); arithmetic that can leave the range is
    wrapped where the source computes it. *)

Definition u16 (z : Z) : Z := z mod 2 ^ 16.
Definition u32 (z : Z) : Z := z mod 2 ^ 32.
Definition u64 (z : Z) : Z := z mod 2 ^ 64.
Definition max_u16 : Z := 2 ^ 16 - 1.
Definition max_u32 : Z := 2 ^ 32 - 1.
Definition max_u64 : Z := 2 ^ 64 - 1.

Lemma u64_id z : 0 <= z < 2 ^ 64 -> u64 z = z.
Proof. intros. by apply Z.mod_small. Qed.

Lemma u32_id z : 0 <= z < 2 ^ 32 -> u32 z = z.
Proof. intros. by apply Z.mod_small. Qed.

Lemma u16_id z : 0 <= z < 2 ^ 16 -> u16 z = z.
Proof. intros. by apply Z.mod_small. Qed.

Lemma u64_range z : 0 <= u64 z < 2 ^ 64.
Proof. by apply Z.mod_pos_bound. Qed.

Lemma u32_range z : 0 <= u32 z < 2 ^ 32.
Proof. by apply Z.mod_pos_bound. Qed.

Lemma u16_range z : 0 <= u16 z < 2 ^ 16.
Proof. by apply Z.mod_pos_bound. Qed.

(** ** Slices

    [zlen] is Go's [len] as an [int]; [slice l a b] is [l[a:b]]. *)

Definition zlen {A} (l : list A) : Z := Z.of_nat (length l).
Definition slice_to {A} (l : list A) (b : Z) : list A := take (Z.to_nat b) l.
Definition slice_from {A} (l : list A) (a : Z) : list A := drop (Z.to_nat a) l.
Definition slice {A} (l : list A) (a b : Z) : list A :=
  take (Z.to_nat (b - a)) (drop (Z.to_nat a) l).

Create Rewrite HintDb golen.
#[export] Hint Rewrite @length_app @length_take @length_drop @length_cons @length_nil
  @length_replicate @length_fmap @length_reverse : golen.

(** [zl] decides goals about lengths of slices. *)
Ltac zl :=
  unfold zlen, slice, slice_to, slice_from in *;
  autorewrite with golen in *; simpl in *; try lia.

(** [bool2prop] turns the boolean tests of the source's guards into
    propositions that [lia] reads. *)
Ltac bool2prop :=
  repeat match goal with
  | H : _ && _ = true |- _ => apply andb_true_iff in H as [? ?]
  | H : _ || _ = false |- _ => apply orb_false_iff in H as [? ?]
  | H : negb _ = true |- _ => apply negb_true_iff in H
  | H : negb _ = false |- _ => apply negb_false_iff in H
  | H : (_ <? _) = true |- _ => apply Z.ltb_lt in H
  | H : (_ <? _) = false |- _ => apply Z.ltb_ge in H
  | H : (_ <=? _) = true |- _ => apply Z.leb_le in H
  | H : (_ <=? _) = false |- _ => apply Z.leb_gt in H
  | H : (_ =? _) = true |- _ => apply Z.eqb_eq in H
  | H : (_ =? _) = false |- _ => apply Z.eqb_neq in H
  | H : bool_decide _ = true |- _ => apply bool_decide_eq_true in H
  | H : bool_decide _ = false |- _ => apply bool_decide_eq_false in H
  end.

(** [if_cases] splits on the innermost guard of the goal (or of a hypothesis)
    and keeps the guard's outcome as a proposition. *)
Ltac if_cases :=
  match goal with
  | |- context [if ?b then _ else _] => let E := fresh "Hif" in destruct b eqn:E
  | H : context [if ?b then _ else _] |- _ => let E := fresh "Hif" in destruct b eqn:E
  end; bool2prop.

Lemma zlen_nonneg {A} (l : list A) : 0 <= zlen l.
Proof. zl. Qed.

Lemma zlen_nil {A} : zlen (@nil A) = 0.
Proof. done. Qed.

Lemma zlen_cons {A} (x : A) l : zlen (x :: l) = 1 + zlen l.
Proof. zl. Qed.

Lemma zlen_app {A} (l k : list A) : zlen (l ++ k) = zlen l + zlen k.
Proof. zl. Qed.

Lemma zlen_slice_to {A} (l : list A) b :
  0 <= b <= zlen l -> zlen (slice_to l b) = b.
Proof. zl. Qed.

Lemma zlen_slice_from {A} (l : list A) a :
  0 <= a <= zlen l -> zlen (slice_from l a) = zlen l - a.
Proof. zl. Qed.

Lemma zlen_slice {A} (l : list A) a b :
  0 <= a <= b -> b <= zlen l -> zlen (slice l a b) = b - a.
Proof. zl. Qed.

Lemma zlen_zero_nil {A} (l : list A) : zlen l = 0 -> l = [].
Proof. destruct l; [done|zl]. Qed.

Lemma zlen_pos_cons {A} (l : list A) : 0 < zlen l -> exists x k, l = x :: k.
Proof. destruct l; [zl|eauto]. Qed.

Lemma slice_to_from {A} (l : list A) n : slice_to l n ++ slice_from l n = l.
Proof. apply take_drop. Qed.

Lemma slice_to_all {A} (l : list A) n : zlen l <= n -> slice_to l n = l.
Proof. intros. apply take_ge. zl. Qed.

Lemma slice_to_app_l {A} (l k : list A) n : n = zlen l -> slice_to (l ++ k) n = l.
Proof. intros ->. unfold slice_to, zlen. rewrite Nat2Z.id. apply take_app_length. Qed.

Lemma slice_from_app_l {A} (l k : list A) n : n = zlen l -> slice_from (l ++ k) n = k.
Proof. intros ->. unfold slice_from, zlen. rewrite Nat2Z.id. apply drop_app_length. Qed.

Lemma slice_from_0 {A} (l : list A) : slice_from l 0 = l.
Proof. done. Qed.

Lemma slice_from_slice_from {A} (l : list A) a b :
  0 <= a -> 0 <= b -> slice_from (slice_from l a) b = slice_from l (a + b).
Proof.
  intros. unfold slice_from. rewrite drop_drop. f_equal. lia.
Qed.

(** ** Fragments of a byte stream

    [fragment σ k p] says that the bytes [p] are what the stream [σ] holds from
    offset [k] on.  It is the meaning of a DATA packet with sequence number
    [k], of a retained out-of-order fragment, and of the replay buffer. *)

Definition fragment {A} (σ : list A) (k : Z) (p : list A) : Prop :=
  0 <= k /\ forall i b, p !! i = Some b -> σ !! (Z.to_nat k + i)%nat = Some b.

Lemma fragment_nil {A} (σ : list A) k : 0 <= k -> fragment σ k [].
Proof. by split. Qed.

Lemma fragment_app {A} (σ x : list A) k p : fragment σ k p -> fragment (σ ++ x) k p.
Proof. intros [? H]; split; [done|]. intros i b Hi. apply lookup_app_l_Some; eauto. Qed.

Lemma fragment_slice_from {A} (σ : list A) k p n :
  0 <= n -> fragment σ k p -> fragment σ (k + n) (slice_from p n).
Proof.
  intros Hn [? H]; split; [lia|]. intros i b Hi. unfold slice_from in Hi.
  rewrite lookup_drop in Hi. apply H in Hi. rewrite <- Hi. f_equal. lia.
Qed.

Lemma fragment_slice_to {A} (σ : list A) k p n :
  fragment σ k p -> fragment σ k (slice_to p n).
Proof.
  intros [? H]; split; [lia|]. intros i b Hi. unfold slice_to in Hi.
  apply lookup_take_Some in Hi as [Hi _]. eauto.
Qed.

Lemma fragment_slice {A} (σ : list A) k p a b :
  0 <= a -> fragment σ k p -> fragment σ (k + a) (slice p a b).
Proof.
  intros. apply (fragment_slice_to _ _ (slice_from p a) (b - a)).
  by apply fragment_slice_from.
Qed.

(** A non-empty fragment lies within the stream. *)
Lemma fragment_bound {A} (σ : list A) k p :
  fragment σ k p -> 0 < zlen p -> k + zlen p <= zlen σ.
Proof.
  intros [? H] Hp.
  destruct (lookup_lt_is_Some_2 p (length p - 1)) as [b Hb]; [zl|].
  apply H, lookup_lt_Some in Hb. zl.
Qed.

(** Two fragments at the same offset agree on their common length. *)
Lemma fragment_agree {A} (σ : list A) k p q n :
  fragment σ k p -> fragment σ k q -> n <= zlen p -> n <= zlen q ->
  slice_to p n = slice_to q n.
Proof.
  intros [_ Hp] [_ Hq] Hnp Hnq. apply list_eq. intros i. unfold slice_to.
  destruct (decide (i < Z.to_nat n)%nat).
  - rewrite !lookup_take_lt by done.
    destruct (lookup_lt_is_Some_2 p i) as [x Hx]; [zl|].
    destruct (lookup_lt_is_Some_2 q i) as [y Hy]; [zl|].
    rewrite Hx, Hy. apply Hp in Hx. apply Hq in Hy. congruence.
  - by rewrite !lookup_take_ge by lia.
Qed.

(** Appending the fragment at the delivered offset extends the delivered
    prefix. *)
Lemma fragment_extend {A} (σ : list A) k p :
  fragment σ k p -> k <= zlen σ -> slice_to σ k ++ p = slice_to σ (k + zlen p).
Proof.
  intros Hf Hk. pose proof Hf as [? H]. apply list_eq. intros i. unfold slice_to.
  destruct (decide (i < Z.to_nat k)%nat).
  - rewrite lookup_app_l by zl. rewrite !lookup_take_lt by zl. done.
  - rewrite lookup_app_r by zl.
    replace (length (take (Z.to_nat k) σ)) with (Z.to_nat k) by zl.
    destruct (p !! (i - Z.to_nat k)%nat) eqn:E.
    + pose proof (lookup_lt_Some _ _ _ E). apply H in E.
      rewrite lookup_take_lt by zl. rewrite <- E. f_equal. lia.
    + apply lookup_ge_None in E. rewrite lookup_take_ge; [done|zl].
Qed.

(** The stream itself, from any offset, is a fragment. *)
Lemma fragment_self {A} (σ : list A) k : 0 <= k -> fragment σ k (slice_from σ k).
Proof.
  intros. split; [done|]. intros i b Hi. unfold slice_from in Hi.
  by rewrite lookup_drop in Hi.
Qed.

Lemma fragment_concat {A} (σ : list A) k p q :
  fragment σ k p -> fragment σ (k + zlen p) q -> fragment σ k (p ++ q).
Proof.
  intros [? Hp] [_ Hq]; split; [done|]. intros i b Hi.
  apply lookup_app_Some in Hi as [Hi|[Hge Hi]]; [eauto|].
  apply Hq in Hi. rewrite <- Hi. f_equal. zl.
Qed.

Create HintDb frag.
#[export] Hint Resolve fragment_nil fragment_app fragment_slice_to fragment_self : frag.

(** ** Prefixes *)

Lemma prefix_slice_to {A} (σ : list A) n : slice_to σ n `prefix_of` σ.
Proof. exists (slice_from σ n). symmetry. apply slice_to_from. Qed.

Lemma prefix_slice_eq {A} (p σ : list A) : p `prefix_of` σ -> p = slice_to σ (zlen p).
Proof. intros [q ->]. by rewrite slice_to_app_l. Qed.

(** A prefix of [a ++ b] ends inside [a] or contains [a]. *)
Lemma prefix_app_short {A} (p a b : list A) :
  p `prefix_of` a ++ b -> zlen p <= zlen a -> p = slice_to a (zlen p).
Proof.
  intros Hp%prefix_slice_eq Hlen. rewrite Hp at 1. unfold slice_to.
  apply take_app_le. zl.
Qed.

Lemma prefix_app_long {A} (p a b : list A) :
  p `prefix_of` a ++ b -> zlen a <= zlen p -> exists q, p = a ++ q /\ q `prefix_of` b.
Proof.
  intros Hp Hlen. pose proof (prefix_slice_eq _ _ Hp) as Heq.
  unfold slice_to in Heq. rewrite take_app_ge in Heq by zl.
  eexists. split; [exact Heq|]. apply prefix_take.
Qed.

(** Two prefixes of one list are comparable by length. *)
Lemma prefix_le {A} (p q σ : list A) :
  p `prefix_of` σ -> q `prefix_of` σ -> zlen p <= zlen q -> p `prefix_of` q.
Proof.
  intros Hp%prefix_slice_eq Hq%prefix_slice_eq Hlen. rewrite Hp, Hq.
  exists (drop (Z.to_nat (zlen p)) (take (Z.to_nat (zlen q)) σ)). unfold slice_to.
  rewrite <- (take_drop (Z.to_nat (zlen p)) (take (Z.to_nat (zlen q)) σ)) at 1.
  f_equal. rewrite take_take. f_equal. lia.
Qed.

(** ** Sums over finite maps and disjoint intervals *)

Section MapSum.
Context {V : Type} (w : Z -> V -> Z).

Definition msum (m : gmap Z V) : Z := map_fold (fun k v n => w k v + n) 0 m.

Lemma msum_empty : msum ∅ = 0.
Proof. apply map_fold_empty. Qed.

Lemma msum_insert m k v : m !! k = None -> msum (<[k := v]> m) = w k v + msum m.
Proof. intros. unfold msum. rewrite map_fold_insert_L; [done|intros; lia|done]. Qed.

Lemma msum_delete m k v : m !! k = Some v -> msum m = w k v + msum (delete k m).
Proof. intros. unfold msum. rewrite (map_fold_delete_L _ _ k v); [done|intros; lia|done]. Qed.

Lemma msum_list m : msum m = foldr (fun kv n => w kv.1 kv.2 + n) 0 (map_to_list m).
Proof.
  unfold msum. rewrite map_fold_foldr.
  induction (map_to_list m) as [|[k v] l IH]; simpl; congruence.
Qed.
End MapSum.

Definition interval_sum (l : list (Z * Z)) : Z :=
  foldr (fun i n => Z.max 0 (i.2 - i.1) + n) 0 l.

Definition interval_points (i : Z * Z) : list Z := seqZ i.1 (i.2 - i.1).

(** Pairwise disjoint intervals within [a, b) have a total length of at most
    [b - a]: their points are distinct points of [a, b). *)
Lemma disjoint_intervals_bound (l : list (Z * Z)) a b :
  (forall i, i ∈ l -> a <= i.1 /\ i.2 <= b) ->
  ForallOrdPairs (fun i j => i.2 <= j.1 \/ j.2 <= i.1) l ->
  interval_sum l <= Z.max 0 (b - a).
Proof.
  intros Hin Hdisj.
  assert (interval_sum l = zlen (concat (interval_points <$> l))) as ->.
  { clear. induction l as [|i l IH]; [done|]. cbn [fmap list_fmap map concat interval_sum foldr].
    rewrite zlen_app. fold (interval_sum l). rewrite IH.
    unfold zlen, interval_points. rewrite length_seqZ. lia. }
  assert (NoDup (concat (interval_points <$> l))) as Hnd.
  { clear Hin. induction Hdisj as [|i l Hi Hl IH]; [constructor|].
    simpl. apply NoDup_app. split; [apply NoDup_seqZ|]. split; [|done].
    intros x Hx Hx2. apply elem_of_seqZ in Hx.
    apply list_elem_of_In, in_concat in Hx2 as (y & Hy & Hxy).
    apply list_elem_of_In, list_elem_of_fmap in Hy as (j & -> & Hj).
    apply list_elem_of_In, elem_of_seqZ in Hxy.
    rewrite Forall_forall in Hi. specialize (Hi j). specialize (Hi Hj). lia. }
  assert (concat (interval_points <$> l) ⊆ seqZ a (b - a)) as Hsub.
  { intros x Hx. apply list_elem_of_In, in_concat in Hx as (y & Hy & Hxy).
    apply list_elem_of_In, list_elem_of_fmap in Hy as (j & -> & Hj).
    apply list_elem_of_In, elem_of_seqZ in Hxy. apply elem_of_seqZ.
    specialize (Hin j Hj). lia. }
  apply NoDup_submseteq in Hsub; [|done]. apply submseteq_length in Hsub.
  rewrite length_seqZ in Hsub. unfold zlen. lia.
Qed.

(** ** Counting the elements that satisfy a test *)

Definition countb {A} (f : A -> bool) (l : list A) : nat := length (List.filter f l).

Lemma countb_app {A} (f : A -> bool) l l' : countb f (l ++ l') = (countb f l + countb f l')%nat.
Proof. unfold countb. by rewrite List.filter_app, length_app. Qed.

Lemma countb_one {A} (f : A -> bool) x : countb f [x] = Nat.b2n (f x).
Proof. unfold countb. cbn. by destruct (f x). Qed.

Lemma countb_insert {A} (f : A -> bool) l k x y :
  l !! k = Some x -> (countb f (<[k := y]> l) + Nat.b2n (f x) = countb f l + Nat.b2n (f y))%nat.
Proof.
  unfold countb. revert k. induction l as [|z l IH]; intros k; [done|]. destruct k as [|k].
  - cbn. intros [= ->]. destruct (f x), (f y); cbn; lia.
  - change (<[S k := y]> (z :: l)) with (z :: <[k := y]> l). cbn [List.filter]. intros Hk%IH.
    destruct (f z); cbn [length]; lia.
Qed.

Lemma sum_list_with_insert {A} (f : A -> nat) l k x y :
  l !! k = Some x -> (sum_list_with f (<[k := y]> l) + f x = sum_list_with f l + f y)%nat.
Proof.
  revert k. induction l as [|z l IH]; intros k; [done|]. destruct k as [|k].
  - intros [= ->]. cbn. lia.
  - intros Hk. specialize (IH k Hk). cbn [sum_list_with insert list_insert] in *. unfold insert in *. lia.
Qed.

Lemma countb_pos {A} (f : A -> bool) l k x : l !! k = Some x -> f x = true -> (0 < countb f l)%nat.
Proof.
  unfold countb. revert k. induction l as [|z l IH]; intros k; [done|]. destruct k as [|k]; cbn.
  - intros [= ->] ->. cbn. lia.
  - intros Hk Hf. specialize (IH k Hk Hf). destruct (f z); cbn [length]; lia.
Qed.

(** Two elements, one count. *)
Lemma countb_unique {A} (f : A -> bool) l i j x y :
  (countb f l <= 1)%nat -> l !! i = Some x -> l !! j = Some y -> f x = true -> f y = true -> i = j.
Proof.
  intros Hc Hi Hj Hx Hy. destruct (decide (i = j)) as [|Hne]; [done|].
  assert (exists k, countb f l = S (S k)) as [k Hk]; [|lia].
  revert i j Hi Hj Hne. induction l as [|z l IH]; intros i j Hi Hj Hne; [done|]. unfold countb in *. cbn in *.
  destruct i as [|i], j as [|j]; [done|..]; cbn in Hi, Hj.
  - injection Hi as ->. rewrite Hx. cbn. pose proof (countb_pos f l j y Hj Hy) as Hp. unfold countb in Hp.
    destruct (length (List.filter f l)) as [|k]; [lia|]. by exists k.
  - injection Hj as ->. rewrite Hy. cbn. pose proof (countb_pos f l i x Hi Hx) as Hp. unfold countb in Hp.
    destruct (length (List.filter f l)) as [|k]; [lia|]. by exists k.
  - destruct (f z); cbn in *; [|by apply (IH Hc i j); [..|congruence]].
    destruct (IH ltac:(lia) i j Hi Hj ltac:(congruence)) as [k Hk]. rewrite Hk. by eexists.
Qed.

(** ** Inevitability

    For a machine with step function [step]: every run from [s], however its
    steps interleave, reaches [P], and cannot stop before as long as the [fair]
    turns are taken. *)

Section Inevitably.
Context {S T : Type} (step : S -> T -> option S) (fair : S -> T -> Prop) (P : S -> Prop).

Inductive inevitably : S -> Prop :=
  | InNow s : P s -> inevitably s
  | InStep s :
      (exists t s', fair s t /\ step s t = Some s') -> (forall t s', step s t = Some s' -> inevitably s') -> inevitably s.

(** Work that every step reduces, an invariant, and progress suffice. *)
Lemma inevitably_work (work : S -> nat) (I : S -> Prop) :
  (forall s t s', step s t = Some s' -> (work s' < work s)%nat) ->
  (forall s t s', I s -> step s t = Some s' -> I s') ->
  (forall s, I s -> P s \/ exists t s', fair s t /\ step s t = Some s') ->
  forall s, I s -> inevitably s.
Proof.
  intros Hwork HI Hmove s. remember (work s) as m eqn:Hm. revert s Hm.
  induction (lt_wf m) as [m _ IH]. intros s -> Hs. destruct (Hmove s Hs) as [HP|Hex]; [by apply InNow|].
  apply InStep; [done|]. intros t s' Hst. eapply IH; [by eapply Hwork|done|by eapply HI].
Qed.
End Inevitably.

(** ** Fair runs

    Every turn belongs to an agent, or to the environment; [due g s] says that
    agent [g] has a step in [s] that waits for nobody.  In a fair run — infinite,
    and free to stay where it is — no agent whose step stays due is passed over
    for ever. *)

Section Fairness.
Context {St T G : Type} (step : St -> T -> option St) (agent : T -> option G) (due : G -> St -> Prop).

Record fair_run (run : nat -> St) : Prop := {
  fr_step k : run (1 + k)%nat = run k \/ exists t, step (run k) t = Some (run (1 + k)%nat);
  fr_fair g k : exists j, (k <= j)%nat /\
    (~ due g (run j) \/ exists t, agent t = Some g /\ step (run j) t = Some (run (1 + j)%nat))
}.

(** [R] holds at [k] or later. *)
Definition eventually (run : nat -> St) (R : St -> Prop) (k : nat) : Prop := exists j, (k <= j)%nat /\ R (run j).

Lemma eventually_now run (R : St -> Prop) k : R (run k) -> eventually run R k.
Proof. intros HR. by exists k. Qed.

Lemma eventually_then run (Q R : St -> Prop) k :
  eventually run Q k -> (forall j, (k <= j)%nat -> Q (run j) -> eventually run R j) -> eventually run R k.
Proof. intros (j & Hj & HQ) H. destruct (H j Hj HQ) as (j' & Hj' & HR). exists j'. split; [lia|done]. Qed.

(** While [Q] holds [g] is due, every step keeps [Q] or reaches [R], and a step
    of [g] reaches [R]. *)
Lemma eventually_by run g (Q R : St -> Prop) k :
  fair_run run -> (forall s, Q s -> due g s) ->
  (forall s t s', Q s -> step s t = Some s' -> Q s' \/ R s') ->
  (forall s t s', Q s -> agent t = Some g -> step s t = Some s' -> R s') ->
  Q (run k) -> eventually run R k.
Proof.
  intros [Hstep Hfair] Hdue Hany Hg HQ. destruct (Hfair g k) as (j & Hj & Hmoved).
  assert (forall d, Q (run (d + k)%nat) \/ eventually run R k) as Hrun.
  { induction d as [|d IH]; [by left|]. destruct IH as [IH|IH]; [|by right].
    destruct (Hstep (d + k)%nat) as [Heq|(t & Ht)]; [left; change (S d + k)%nat with (1 + (d + k))%nat; by rewrite Heq|].
    destruct (Hany _ _ _ IH Ht) as [H|H]; [by left|right]. exists (1 + (d + k))%nat. split; [lia|done]. }
  destruct (Hrun (j - k)%nat) as [HQj|]; [|done]. replace (j - k + k)%nat with j in HQj by lia.
  destruct Hmoved as [Hn|(t & Hag & Ht)]; [by destruct Hn; apply Hdue|].
  exists (1 + j)%nat. split; [lia|by eapply Hg].
Qed.

(** While work is left somebody is due, every goroutine's step takes work away,
    and the environment's steps leave the work and those due as they are. *)
Lemma eventually_work run (I R : St -> Prop) (work : St -> nat) k :
  fair_run run ->
  (forall s t s', I s -> step s t = Some s' ->
    I s' /\ ((work s' < work s)%nat \/ agent t = None /\ work s' = work s /\ forall g, due g s -> due g s')) ->
  (forall s, I s -> R s \/ exists g, due g s) ->
  I (run k) -> eventually run R k.
Proof.
  intros Hfair Hstep Hdue. remember (work (run k)) as n eqn:Hn. revert k Hn.
  induction n as [n IH] using lt_wf_ind. intros k Hn HI. destruct (Hdue _ HI) as [HR|[g Hg]]; [by apply eventually_now|].
  apply (eventually_then run (fun s => I s /\ (work s < n)%nat)).
  - apply (eventually_by run g (fun s => I s /\ work s = n /\ due g s) _ k Hfair); [by intros s (_ & _ & H)|..|done].
    + intros s t s' (HI1 & Hw & Hg1) Hs. destruct (Hstep _ _ _ HI1 Hs) as [HI2 [Hlt|(_ & Heq & Hd)]]; [right; split; [done|lia]|].
      left. split_and!; [done|lia|by apply Hd].
    + intros s t s' (HI1 & Hw & Hg1) Hag Hs. destruct (Hstep _ _ _ HI1 Hs) as [HI2 [Hlt|(Hnone & _)]]; [split; [done|lia]|congruence].
  - intros j _ [HIj Hlt]. by apply (IH _ Hlt).
Qed.

Lemma fair_run_keeps run (I : St -> Prop) :
  fair_run run -> (forall s t s', I s -> step s t = Some s' -> I s') -> I (run 0%nat) -> forall k, I (run k).
Proof.
  intros [Hstep _] HI H0 k. induction k as [|k IH]; [done|].
  destruct (Hstep k) as [Heq|(t & Ht)]; [by rewrite <- Heq in IH|by eapply HI].
Qed.

(** A list of turns, after which nothing is due, played and then left. *)
Fixpoint turns (s : St) (ts : list T) : option St :=
  match ts with [] => Some s | t :: ts => s' ← step s t; turns s' ts end.

Definition play (s : St) (ts : list T) (k : nat) : St := default s (turns s (take k ts)).

Lemma turns_take s ts f k : turns s ts = Some f -> exists x, turns s (take k ts) = Some x /\ turns x (drop k ts) = Some f.
Proof.
  revert s k. induction ts as [|t ts IH]; intros s k; [intros [= ->]; exists f; by destruct k|]. cbn [turns].
  destruct (step s t) as [s'|] eqn:E; [|done]. cbn. intros Hf. destruct k as [|k]; [exists s; cbn; by rewrite E|].
  destruct (IH s' k Hf) as (x & Hx & Hd). exists x. cbn. by rewrite E.
Qed.

Lemma turns_app s l l' : turns s (l ++ l') = (x ← turns s l; turns x l').
Proof. revert s. induction l as [|t l IH]; intros s; [done|]. cbn. destruct (step s t); [apply IH|done]. Qed.

Lemma play_fair s ts f : turns s ts = Some f -> (forall g, ~ due g f) -> fair_run (play s ts).
Proof.
  intros Hf Hend.
  assert (forall k, (length ts <= k)%nat -> play s ts k = f) as Hlast.
  { intros k Hk. unfold play. by rewrite take_ge, Hf by done. }
  split.
  - intros k. destruct (Nat.lt_ge_cases k (length ts)) as [Hlt|Hge]; [right|left; by rewrite !Hlast by lia].
    destruct (lookup_lt_is_Some_2 ts k Hlt) as [t Ht]. exists t. unfold play. change (1 + k)%nat with (S k).
    rewrite (take_S_r _ _ _ Ht), turns_app. destruct (turns_take s ts f k Hf) as (x & -> & Hd). cbn.
    rewrite (drop_S _ _ _ Ht) in Hd. cbn in Hd. by destruct (step x t).
  - intros g k. exists (k `max` length ts)%nat. split; [lia|]. left. rewrite Hlast by lia. apply Hend.
Qed.
End Fairness.
