(* ===== verification/Bytes.v ===== *)
(** * Bytes, strings and big-endian integers

    The wire formats of LightningBNB are byte slices read and written with
    Go's [encoding/binary] ([BigEndian.PutUintN], [BigEndian.UintN]).  A byte
    slice is a [list byte]; a Go string is a Stdlib [string] and converts to
    and from its bytes. *)

From Stdlib Require Import Strings.Byte.
From Stdlib Require String.
From S2P Require Export Prelude.

Abbreviation byte := Byte.byte.
Abbreviation bytes := (list byte).

#[export] Instance byte_eq_decision : EqDecision byte := Byte.byte_eq_dec.

(** ** One byte *)

Definition byte_z (b : byte) : Z := Z.of_N (Byte.to_N b).
Definition z_byte (z : Z) : byte := default Byte.x00 (Byte.of_N (Z.to_N (z mod 256))).

Lemma byte_z_range b : 0 <= byte_z b < 256.
Proof. unfold byte_z. pose proof (Byte.to_N_bounded b). lia. Qed.

Lemma byte_z_z_byte z : byte_z (z_byte z) = z mod 256.
Proof.
  unfold byte_z, z_byte. pose proof (Z.mod_pos_bound z 256 eq_refl).
  destruct (Byte.of_N _) eqn:E; simpl.
  - apply Byte.to_of_N in E. lia.
  - apply Byte.of_N_None_iff in E. lia.
Qed.

Lemma z_byte_byte_z b : z_byte (byte_z b) = b.
Proof.
  unfold z_byte. rewrite Z.mod_small by apply byte_z_range.
  unfold byte_z. by rewrite N2Z.id, Byte.of_to_N.
Qed.

Lemma byte_z_inj b c : byte_z b = byte_z c -> b = c.
Proof. intros H. by rewrite <- (z_byte_byte_z b), H, z_byte_byte_z. Qed.

(** ** Big-endian integers

    [be_put n z] is [PutUint(8n)] of [z]; [be_get p] is [Uint(8n)] of an
    [n]-byte slice [p]. *)

Fixpoint be_put (n : nat) (z : Z) : bytes :=
  match n with
  | O => []
  | S m => z_byte (z / 256 ^ Z.of_nat m) :: be_put m z
  end.

Fixpoint be_get (p : bytes) : Z :=
  match p with
  | [] => 0
  | b :: q => byte_z b * 256 ^ zlen q + be_get q
  end.

Lemma length_be_put n z : length (be_put n z) = n.
Proof. induction n; simpl; congruence. Qed.
#[export] Hint Rewrite length_be_put : golen.

Lemma zlen_be_put n z : zlen (be_put n z) = Z.of_nat n.
Proof. unfold zlen. by rewrite length_be_put. Qed.

Lemma be_get_range p : 0 <= be_get p < 256 ^ zlen p.
Proof.
  induction p as [|b q IH]; simpl; [done|].
  rewrite zlen_cons, Z.pow_add_r by (done || apply zlen_nonneg).
  pose proof (byte_z_range b). nia.
Qed.

Lemma be_get_put n z : be_get (be_put n z) = z mod 256 ^ Z.of_nat n.
Proof.
  induction n as [|m IH]; simpl; [by rewrite Z.mod_1_r|].
  rewrite zlen_be_put, IH, byte_z_z_byte, Nat2Z.inj_succ, Z.pow_succ_r by lia.
  rewrite (Z.mul_comm 256), Z.rem_mul_r by lia. lia.
Qed.

Lemma be_get_put_id n z : 0 <= z < 256 ^ Z.of_nat n -> be_get (be_put n z) = z.
Proof. intros. rewrite be_get_put. by apply Z.mod_small. Qed.

Lemma be_put_mod n z : be_put n (z mod 256 ^ Z.of_nat n) = be_put n z.
Proof.
  enough (forall m, (m <= n)%nat -> be_put m (z mod 256 ^ Z.of_nat n) = be_put m z) as H
    by (by apply H).
  induction m as [|m IH]; intros; simpl; [done|]. f_equal; [|apply IH; lia].
  apply byte_z_inj. rewrite !byte_z_z_byte.
  set (A := 256 ^ Z.of_nat m). assert (0 < A) by lia.
  replace (256 ^ Z.of_nat n) with (A * 256 ^ (Z.of_nat n - Z.of_nat m))
    by (unfold A; rewrite <- Z.pow_add_r by lia; f_equal; lia).
  set (B := 256 ^ _). assert (0 < B) by lia.
  rewrite Z.rem_mul_r by lia.
  rewrite (Z.mul_comm A), Z.div_add, (Z.div_small (z mod A)) by (lia || by apply Z.mod_pos_bound).
  apply Z.mod_mod_divide. exists (256 ^ (Z.of_nat n - Z.of_nat m - 1)).
  unfold B. rewrite Z.mul_comm, <- Z.pow_succ_r by lia.
  f_equal. lia.
Qed.

Lemma be_put_get p : be_put (length p) (be_get p) = p.
Proof.
  induction p as [|b q IH]; simpl; [done|].
  pose proof (be_get_range q) as Hq. fold (zlen q). f_equal.
  - rewrite Z.div_add_l by lia. rewrite Z.div_small by done.
    by rewrite Z.add_0_r, z_byte_byte_z.
  - rewrite <- be_put_mod. fold (zlen q).
    rewrite Z.add_comm, Z.mod_add by lia. rewrite be_put_mod. exact IH.
Qed.

Lemma be_put_get_len n p : zlen p = Z.of_nat n -> be_put n (be_get p) = p.
Proof. intros H. replace n with (length p) by zl. apply be_put_get. Qed.

Lemma be_get_8_range p : zlen p = 8 -> 0 <= be_get p < 2 ^ 64.
Proof. intros H. pose proof (be_get_range p). rewrite H in *. lia. Qed.

Lemma be_get_4_range p : zlen p = 4 -> 0 <= be_get p < 2 ^ 32.
Proof. intros H. pose proof (be_get_range p). rewrite H in *. lia. Qed.

Lemma be_get_2_range p : zlen p = 2 -> 0 <= be_get p < 2 ^ 16.
Proof. intros H. pose proof (be_get_range p). rewrite H in *. lia. Qed.

#[global] Opaque be_put be_get.

(** [at_ p i] is [p[i]]; the default is never observed where the source
    checks the length first. *)
Definition at_ (p : bytes) (i : Z) : byte := default Byte.x00 (p !! Z.to_nat i).

(** ** Fields at fixed offsets

    The encoders build a packet as a concatenation of fields; [field_slices]
    computes the decoders' slices of it. *)

Lemma slice_skip {A} (h q : list A) a b n a' b' :
  zlen h = n -> 0 <= a' -> a = a' + n -> b = b' + n ->
  slice (h ++ q) a b = slice q a' b'.
Proof.
  intros <- ? -> ->. unfold slice. rewrite drop_app_ge by zl. f_equal; [lia|]. f_equal. zl.
Qed.

Lemma slice_cons_skip {A} (x : A) q a b a' b' :
  0 <= a' -> a = a' + 1 -> b = b' + 1 -> slice (x :: q) a b = slice q a' b'.
Proof. intros. by apply (slice_skip [x] q a b 1). Qed.

Lemma slice_field {A} (h q : list A) n : zlen h = n -> slice (h ++ q) 0 n = h.
Proof. intros <-. unfold slice. rewrite Z.sub_0_r. by apply slice_to_app_l. Qed.

Lemma slice_whole {A} (h : list A) n : zlen h = n -> slice h 0 n = h.
Proof. intros <-. unfold slice. rewrite Z.sub_0_r. apply slice_to_all. lia. Qed.

Ltac field_len h :=
  match h with
  | be_put ?k _ => let n := eval vm_compute in (Z.of_nat k) in n
  end.

Ltac field_slices :=
  repeat match goal with
  | |- context [slice (?x :: ?q) ?a ?b] =>
      let a' := eval vm_compute in (a - 1) in
      let b' := eval vm_compute in (b - 1) in
      rewrite (slice_cons_skip x q a b a' b' ltac:(lia) eq_refl eq_refl)
  | |- context [slice (?h ++ ?q) 0 ?b] =>
      rewrite (slice_field h q b) by apply zlen_be_put
  | |- context [slice (?h ++ ?q) ?a ?b] =>
      let n := field_len h in
      let a' := eval vm_compute in (a - n) in
      let b' := eval vm_compute in (b - n) in
      rewrite (slice_skip h q a b n a' b' (zlen_be_put _ _) ltac:(lia) eq_refl eq_refl)
  | |- context [slice (be_put ?k ?z) 0 ?b] =>
      rewrite (slice_whole (be_put k z) b) by apply zlen_be_put
  end.

(** ** Go strings *)

Definition str_bytes (s : string) : bytes := String.list_byte_of_string s.
Definition bytes_str (p : bytes) : string := String.string_of_list_byte p.

Lemma bytes_str_bytes s : bytes_str (str_bytes s) = s.
Proof. apply String.string_of_list_byte_of_string. Qed.

Lemma str_bytes_str p : str_bytes (bytes_str p) = p.
Proof. apply String.list_byte_of_string_of_list_byte. Qed.

(** [len(s)] of a Go string. *)
Definition slen (s : string) : Z := Z.of_nat (String.length s).

Lemma str_bytes_cons a s : str_bytes (String.String a s) = Ascii.byte_of_ascii a :: str_bytes s.
Proof. done. Qed.

Lemma zlen_str_bytes s : zlen (str_bytes s) = slen s.
Proof.
  unfold slen. induction s as [|a s IH]; [done|].
  rewrite str_bytes_cons, zlen_cons, IH. simpl. lia.
Qed.

Lemma slen_bytes_str p : slen (bytes_str p) = zlen p.
Proof. by rewrite <- zlen_str_bytes, str_bytes_str. Qed.

Lemma slen_nonneg s : 0 <= slen s.
Proof. unfold slen. lia. Qed.

Lemma slen_app s t : slen (s +:+ t) = slen s + slen t.
Proof.
  unfold slen. induction s as [|a s IH]; [done|].
  change (String.String a s +:+ t) with (String.String a (s +:+ t)). simpl. lia.
Qed.

(** [s[:n]] of a Go string. *)
Definition str_slice_to (s : string) (n : Z) : string := bytes_str (slice_to (str_bytes s) n).

Lemma slen_str_slice_to s n : 0 <= n <= slen s -> slen (str_slice_to s n) = n.
Proof.
  intros. unfold str_slice_to. rewrite slen_bytes_str.
  apply zlen_slice_to. by rewrite zlen_str_bytes.
Qed.
