(* ===== verification/GoErrors.v ===== *)
(** * Go error values

    The source compares errors with [errors.Is] against package-level
    sentinels, wraps them with [fmt.Errorf("... %w ...")], and sends their text
    to the peer.  An error is a sentinel, a fresh [errors.New] value, or a
    wrapper around another error with text before and after it. *)

From S2P Require Export Bytes.

(** The sentinels the source names: those of the standard library, of
    internal/protocol, of internal/link and of internal/mux. *)
Inductive sentinel :=
  | EOF | ErrUnexpectedEOF | ErrShortWrite | ErrNoProgress | ErrClosedPipe
  | NetErrClosed | ContextCanceled | ContextDeadlineExceeded
  | ECONNABORTED | ECONNRESET | EPIPE
  | ErrInvalidFrame | ErrFrameTooLarge
  | ErrProtocolVersion | ErrRejected | ErrSessionState | ErrHandshake
  | ErrResumeTimeout | ErrNotConnected | ErrSequenceExhausted | ErrCompression
  | ErrSessionClosed | ErrTooManyStreams | ErrStreamRejected | ErrProtocol.

#[export] Instance sentinel_eq_dec : EqDecision sentinel.
Proof. solve_decision. Defined.

Inductive error :=
  | Sent (s : sentinel)                                   (* a package-level var *)
  | ErrNew (text : string)                                (* errors.New, or Errorf without %w *)
  | ErrWrap (prefix : string) (inner : error) (suffix : string)  (* Errorf with one %w *)
  | RejectedError (reason : string)                       (* *link.RejectedError *)
  | TimeoutError.                                         (* timeoutError{}, streamTimeout{} *)

#[export] Instance error_eq_dec : EqDecision error.
Proof. solve_decision. Defined.

Definition sentinel_text (s : sentinel) : string :=
  match s with
  | EOF => "EOF"
  | ErrUnexpectedEOF => "unexpected EOF"
  | ErrShortWrite => "short write"
  | ErrNoProgress => "multiple Read calls return no data or error"
  | ErrClosedPipe => "io: read/write on closed pipe"
  | NetErrClosed => "use of closed network connection"
  | ContextCanceled => "context canceled"
  | ContextDeadlineExceeded => "context deadline exceeded"
  | ECONNABORTED => "software caused connection abort"
  | ECONNRESET => "connection reset by peer"
  | EPIPE => "broken pipe"
  | ErrInvalidFrame => "invalid multiplexing frame"
  | ErrFrameTooLarge => "multiplexing frame is too large"
  | ErrProtocolVersion => "unsupported LightningBNB protocol version"
  | ErrRejected => "BLE session rejected"
  | ErrSessionState => "peer requested unavailable session state"
  | ErrHandshake => "invalid BLE handshake"
  | ErrResumeTimeout => "BLE resume timeout expired"
  | ErrNotConnected => "BLE session is not connected"
  | ErrSequenceExhausted => "BLE session byte sequence exhausted"
  | ErrCompression => "BLE peer does not support requested compression"
  | ErrSessionClosed => "multiplexing session closed"
  | ErrTooManyStreams => "maximum concurrent stream count reached"
  | ErrStreamRejected => "stream rejected"
  | ErrProtocol => "multiplexing protocol error"
  end.

(** [err.Error()]. *)
Fixpoint error_text (e : error) : string :=
  match e with
  | Sent s => sentinel_text s
  | ErrNew t => t
  | ErrWrap p e s => p +:+ error_text e +:+ s
  | RejectedError r =>
      if decide (r = "") then sentinel_text ErrRejected
      else sentinel_text ErrRejected +:+ ": " +:+ r
  | TimeoutError => "i/o timeout"
  end.

(** [errors.Is(err, target)]: the chain of [Unwrap]s reaches the sentinel. *)
Fixpoint errors_Is (e : error) (target : sentinel) : bool :=
  match e with
  | Sent s => bool_decide (s = target)
  | ErrNew _ => false
  | ErrWrap _ e _ => errors_Is e target
  | RejectedError _ => bool_decide (ErrRejected = target)
  | TimeoutError => false
  end.

(** [errors.As(err, **RejectedError)]: the first rejection in the chain. *)
Fixpoint errors_As_Rejected (e : error) : option string :=
  match e with
  | RejectedError r => Some r
  | ErrWrap _ e _ => errors_As_Rejected e
  | _ => None
  end.

Lemma errors_Is_wrap p e s t : errors_Is (ErrWrap p e s) t = errors_Is e t.
Proof. done. Qed.

Lemma errors_Is_sent s t : errors_Is (Sent s) t = true <-> s = t.
Proof. simpl. apply bool_decide_eq_true. Qed.

(** ** Results

    A fallible Go call [(v, err)] is an error on the left or a value on the
    right. *)
Abbreviation result A := (sum error A).

Definition rbind {A B} (m : result A) (k : A -> result B) : result B :=
  match m with inl e => inl e | inr a => k a end.

Notation "'let?' x := m 'in' k" := (rbind m (fun x => k))
  (at level 10, x pattern, k at level 200) : go_scope.

(** An optional error, Go's [err error] with [nil] as [None]. *)
Abbreviation err := (option error).

(** [strconv.Itoa] and the [%d] verb. *)
Definition itoa (z : Z) : string := pretty z.

Lemma itoa_inj a b : itoa a = itoa b -> a = b.
Proof. apply (inj pretty). Qed.
