(* ===== verification/Frame.v ===== *)
(** * Multiplexing frames (internal/protocol/frame.go)

    [Frame], [Validate], [WriteFrame] with its [writeAll] loop, [ReadFrame],
    [WindowUpdate] and [WindowAmount].  A reader is the bytes it will deliver
    and the error it ends with; a writer is a state with a [Write] method, a
    parameter of [writeAll].  The theorems: a valid frame survives
    [WriteFrame]/[ReadFrame], [ReadFrame] accepts only valid frames, a
    truncated stream is an error and never a frame, and [writeAll] terminates
    and delivers exactly its data. *)

From S2P Require Export GoErrors.

Definition Version : byte := Byte.x03.
Definition HeaderSize : Z := 9.
Definition MaxDataPayload : Z := 16 * 1024.
Definition MaxErrorPayload : Z := 256.

(** [type FrameType uint8]: any byte can arrive on the wire. *)
Abbreviation FrameType := byte (only parsing).
Definition FrameOpen : FrameType := Byte.x01.
Definition FrameOpenOK : FrameType := Byte.x02.
Definition FrameOpenError : FrameType := Byte.x03.
Definition FrameData : FrameType := Byte.x04.
Definition FrameWindowUpdate : FrameType := Byte.x05.
Definition FrameFIN : FrameType := Byte.x06.
Definition FrameReset : FrameType := Byte.x07.
Definition FrameServiceList : FrameType := Byte.x08.

Record Frame := mkFrame {
  Type_ : FrameType;
  StreamID : Z;           (* uint32 *)
  Payload : bytes
}.

#[export] Instance eta_Frame : Eta Frame := fun f => mkFrame (Type_ f) (StreamID f) (Payload f).
#[export] Instance Frame_eq_dec : EqDecision Frame.
Proof. solve_decision. Defined.

Definition invalid (msg : string) : err := Some (ErrWrap "" (Sent ErrInvalidFrame) msg).
Definition tooLarge (msg : string) : err := Some (ErrWrap "" (Sent ErrFrameTooLarge) msg).

Definition Validate (frame : Frame) : err :=
  let t := Type_ frame in
  let n := zlen (Payload frame) in
  if (StreamID frame =? 0) && negb (bool_decide (t = FrameServiceList)) then
    invalid ": stream id is zero"
  else if bool_decide (t = FrameOpenOK) || bool_decide (t = FrameFIN) then
    if negb (n =? 0)
    then invalid (": frame type " +:+ itoa (byte_z t) +:+ " must not contain a payload")
    else None
  else if bool_decide (t = FrameOpen) then
    if 128 <? n then invalid ": service selector too long" else None
  else if bool_decide (t = FrameOpenError) || bool_decide (t = FrameReset) then
    if MaxErrorPayload <? n then tooLarge (": error payload length " +:+ itoa n) else None
  else if bool_decide (t = FrameServiceList) then
    if n =? 0 then invalid ": empty service list" else None
  else if bool_decide (t = FrameData) then
    if (n =? 0) || (MaxDataPayload <? n)
    then invalid (": invalid data payload length " +:+ itoa n) else None
  else if bool_decide (t = FrameWindowUpdate) then
    if negb (n =? 4) || (be_get (Payload frame) =? 0)
    then invalid ": invalid window update" else None
  else invalid (": unknown type " +:+ itoa (byte_z t)).

(** The bytes [WriteFrame] submits: header, then payload. *)
Definition encodeFrame (frame : Frame) : bytes :=
  Type_ frame :: be_put 4 (StreamID frame) ++ be_put 4 (u32 (zlen (Payload frame))) ++ Payload frame.

Definition WindowUpdate (streamID amount : Z) : Frame :=
  mkFrame FrameWindowUpdate streamID (be_put 4 amount).

Definition WindowAmount (frame : Frame) : Z :=
  if negb (bool_decide (Type_ frame = FrameWindowUpdate)) || negb (zlen (Payload frame) =? 4)
  then 0 else be_get (Payload frame).

(** ** Writers *)
Section Writer.
(** [Write p] on the writer's state: the new state, [n] and the error. *)
Context {W : Type} (Write : W -> bytes -> W * Z * err).

(** [writeAll], with fuel for its loop; [None] is the panic of a slice
    expression out of range, or fuel that ran out. *)
Fixpoint writeAll (fuel : nat) (w : W) (data : bytes) : option (W * err) :=
  if zlen data <=? 0 then Some (w, None) else
  match fuel with
  | O => None
  | S fuel =>
      let '(w, n, e) := Write w data in
      match e with
      | Some _ => Some (w, e)
      | None =>
          if n =? 0 then Some (w, Some (Sent ErrShortWrite))
          else if (n <? 0) || (zlen data <? n) then None
          else writeAll fuel w (slice_from data n)
      end
  end.

Definition WriteFrame (w : W) (frame : Frame) : option (W * err) :=
  match Validate frame with
  | Some e => Some (w, Some e)
  | None => writeAll (length (encodeFrame frame)) w (encodeFrame frame)
  end.
End Writer.

(** ** Readers *)

Record Reader := mkReader { rd_data : bytes; rd_end : error }.

#[export] Instance eta_Reader : Eta Reader := fun r => mkReader (rd_data r) (rd_end r).

(** [io.ReadFull] into an [n]-byte buffer. *)
Definition ReadFull (r : Reader) (n : Z) : result (bytes * Reader) :=
  if n <=? zlen (rd_data r)
  then inr (slice_to (rd_data r) n, r <| rd_data := slice_from (rd_data r) n |>)
  else inl (if zlen (rd_data r) =? 0 then rd_end r
            else if errors_Is (rd_end r) EOF then Sent ErrUnexpectedEOF else rd_end r).

Definition ReadFrame (r : Reader) : result (Frame * Reader) :=
  let? (header, r) := ReadFull r HeaderSize in
  let length := be_get (slice header 5 9) in
  if MaxDataPayload <? length
  then inl (ErrWrap "" (Sent ErrFrameTooLarge) (": payload length " +:+ itoa length))
  else
    let? (payload, r) := ReadFull r length in
    let frame := mkFrame (at_ header 0) (be_get (slice header 1 5)) payload in
    match Validate frame with
    | Some e => inl e
    | None => inr (frame, r)
    end.

(** The read loop's view of a whole connection: frames until the first
    error. *)
Fixpoint readFrames (fuel : nat) (r : Reader) : list Frame * error :=
  match fuel with
  | O => ([], rd_end r)
  | S fuel =>
      match ReadFrame r with
      | inl e => ([], e)
      | inr (f, r) => let (fs, e) := readFrames fuel r in (f :: fs, e)
      end
  end.

(** What a frame needs to be representable: a [uint32] stream id and a payload
    that fits one frame.  [Validate] alone does not bound a SERVICE_LIST. *)
Definition frame_ok (f : Frame) : Prop :=
  Validate f = None /\ 0 <= StreamID f < 2 ^ 32 /\ zlen (Payload f) <= MaxDataPayload.

(** * Lemmas *)

Lemma zlen_encodeFrame f : zlen (encodeFrame f) = HeaderSize + zlen (Payload f).
Proof. unfold encodeFrame, HeaderSize. rewrite zlen_cons, !zlen_app, !zlen_be_put. lia. Qed.

Lemma Validate_unfold_bound f :
  Validate f = None -> Type_ f <> FrameServiceList -> zlen (Payload f) <= MaxDataPayload.
Proof.
  unfold Validate, invalid, tooLarge, MaxDataPayload, MaxErrorPayload. intros H Ht.
  repeat (if_cases; try done); simplify_eq; bool2prop; try lia.
Qed.

Lemma Validate_frame_ok f :
  Validate f = None -> 0 <= StreamID f < 2 ^ 32 -> Type_ f <> FrameServiceList -> frame_ok f.
Proof. intros. repeat split; try done; try lia. by apply Validate_unfold_bound. Qed.

Lemma ReadFull_app p q e n :
  n = zlen p -> ReadFull (mkReader (p ++ q) e) n = inr (p, mkReader q e).
Proof.
  intros ->. unfold ReadFull. simpl.
  rewrite (proj2 (Z.leb_le _ _)) by (rewrite zlen_app; pose proof (zlen_nonneg q); lia).
  by rewrite slice_to_app_l, slice_from_app_l.
Qed.

Lemma header_slices t i n q :
  0 <= i < 2 ^ 32 -> 0 <= n < 2 ^ 32 ->
  let h := t :: be_put 4 i ++ be_put 4 n in
  zlen h = HeaderSize /\ at_ h 0 = t /\ be_get (slice h 1 5) = i /\ be_get (slice h 5 9) = n
  /\ (t :: be_put 4 i ++ be_put 4 n ++ q) = h ++ q.
Proof.
  intros Hi Hn h. subst h.
  assert (slice (t :: be_put 4 i ++ be_put 4 n) 1 5 = be_put 4 i) as -> by done.
  assert (slice (t :: be_put 4 i ++ be_put 4 n) 5 9 = be_put 4 n) as -> by done.
  rewrite !be_get_put_id by done. repeat split.
Qed.

(** Reading back what was written, with anything after it. *)
Lemma ReadFrame_encode f rest e :
  frame_ok f -> ReadFrame (mkReader (encodeFrame f ++ rest) e) = inr (f, mkReader rest e).
Proof.
  intros (Hv & Hid & Hn). unfold ReadFrame, encodeFrame.
  pose proof (zlen_nonneg (Payload f)). unfold MaxDataPayload in Hn.
  rewrite u32_id by lia.
  destruct (header_slices (Type_ f) (StreamID f) (zlen (Payload f)) (Payload f ++ rest))
    as (Hh & Ht & Hi & Hl & Heq); [lia..|].
  cbn [app]. rewrite <- !app_assoc, Heq.
  rewrite ReadFull_app by done. cbn [rbind]. rewrite Hl.
  rewrite (proj2 (Z.ltb_ge _ _)) by (unfold MaxDataPayload; lia).
  rewrite ReadFull_app by done. cbn [rbind]. rewrite Ht, Hi.
  destruct f; simpl in *. by rewrite Hv.
Qed.

Lemma ReadFull_inr r n p r' :
  0 <= n -> ReadFull r n = inr (p, r') ->
  zlen p = n /\ rd_data r = p ++ rd_data r' /\ rd_end r' = rd_end r.
Proof.
  unfold ReadFull. intros Hn. if_cases; [|done]. intros [= <- <-]. simpl.
  rewrite slice_to_from, zlen_slice_to by lia. done.
Qed.

(** Whatever [ReadFrame] returns is a valid frame, and the bytes it consumed
    are the frame's encoding. *)
Lemma ReadFrame_sound r f r' :
  ReadFrame r = inr (f, r') ->
  frame_ok f /\ rd_data r = encodeFrame f ++ rd_data r' /\ rd_end r' = rd_end r.
Proof.
  unfold ReadFrame. destruct (ReadFull r HeaderSize) as [|[h r1]] eqn:E1; [done|]. cbn [rbind].
  apply ReadFull_inr in E1 as (Hh & Hd1 & He1); [|done].
  if_cases; [done|].
  assert (zlen (slice h 5 9) = 4) as H59 by (rewrite zlen_slice; unfold HeaderSize in *; lia).
  assert (zlen (slice h 1 5) = 4) as H15 by (rewrite zlen_slice; unfold HeaderSize in *; lia).
  pose proof (be_get_4_range _ H59). pose proof (be_get_4_range _ H15).
  destruct (ReadFull r1 _) as [|[p r2]] eqn:E2; [done|]. cbn [rbind].
  apply ReadFull_inr in E2 as (Hp & Hd2 & He2); [|lia].
  destruct (Validate _) eqn:Ev; [done|]. intros [= <- <-].
  split; [split; [done|simpl; lia]|]. split; [|simpl; congruence].
  rewrite Hd1, Hd2. unfold encodeFrame. cbn [Type_ StreamID Payload].
  rewrite Hp, u32_id, !be_put_get_len by done.
  do 9 (destruct h as [|? h]; [done|]). destruct h; [|by unfold HeaderSize in Hh; zl].
  cbn [app]. by rewrite <- !app_assoc.
Qed.

(** A stream that ends inside a frame yields no frame.  The error is the
    reader's own at offset 0 and right after the header, and
    [ErrUnexpectedEOF] for an EOF anywhere else. *)
Definition truncation_error (k : Z) (e : error) : error :=
  if (k =? 0) || (k =? HeaderSize) then e
  else if errors_Is e EOF then Sent ErrUnexpectedEOF else e.

Lemma ReadFull_short p e n :
  zlen p < n ->
  ReadFull (mkReader p e) n =
  inl (if zlen p =? 0 then e else if errors_Is e EOF then Sent ErrUnexpectedEOF else e).
Proof. intros. unfold ReadFull. simpl. by rewrite (proj2 (Z.leb_gt _ _)). Qed.

Lemma ReadFrame_short_header p e :
  zlen p < HeaderSize -> ReadFrame (mkReader p e) = inl (truncation_error (zlen p) e).
Proof.
  intros Hp. unfold ReadFrame, truncation_error. rewrite ReadFull_short by done. cbn [rbind].
  rewrite (proj2 (Z.eqb_neq (zlen p) HeaderSize)) by lia. rewrite orb_false_r. done.
Qed.

(** Splitting a frame's bytes after the header. *)
Lemma encodeFrame_header f :
  frame_ok f -> exists h, encodeFrame f = h ++ Payload f /\ zlen h = HeaderSize /\
    forall q e, ReadFrame (mkReader (h ++ q) e) =
      let? (payload, r) := ReadFull (mkReader q e) (zlen (Payload f)) in
      match Validate (mkFrame (Type_ f) (StreamID f) payload) with
      | Some e => inl e
      | None => inr (mkFrame (Type_ f) (StreamID f) payload, r)
      end.
Proof.
  intros (Hv & Hid & Hn). pose proof (zlen_nonneg (Payload f)). unfold MaxDataPayload in Hn.
  destruct (header_slices (Type_ f) (StreamID f) (zlen (Payload f)) [])
    as (Hh & Ht & Hi & Hl & _); [lia..|].
  eexists. split; [|split; [exact Hh|]].
  - unfold encodeFrame. rewrite u32_id by lia. cbn [app]. by rewrite <- app_assoc.
  - intros q e. unfold ReadFrame. rewrite ReadFull_app by done. cbn [rbind].
    rewrite Hl, Ht, Hi. by rewrite (proj2 (Z.ltb_ge _ _)) by (unfold MaxDataPayload; lia).
Qed.

Lemma ReadFrame_truncated_aux f k e :
  frame_ok f -> 0 <= k < zlen (encodeFrame f) ->
  ReadFrame (mkReader (slice_to (encodeFrame f) k) e) = inl (truncation_error k e).
Proof.
  intros Hf Hk. pose proof (zlen_slice_to (encodeFrame f) k ltac:(lia)) as Hlen.
  destruct (Z.lt_ge_cases k HeaderSize).
  { rewrite ReadFrame_short_header by lia. by rewrite Hlen. }
  destruct (encodeFrame_header f Hf) as (h & Heq & Hh & Hread).
  rewrite zlen_encodeFrame in Hk.
  assert (slice_to (encodeFrame f) k = h ++ slice_to (Payload f) (k - HeaderSize)) as ->.
  { rewrite Heq. unfold slice_to. rewrite take_app_ge by zl. do 2 f_equal. zl. }
  assert (zlen (slice_to (Payload f) (k - HeaderSize)) = k - HeaderSize)
    by (apply zlen_slice_to; lia).
  rewrite Hread, ReadFull_short by lia. cbn [rbind]. unfold truncation_error.
  rewrite (proj2 (Z.eqb_neq k 0)) by (unfold HeaderSize in *; lia). simpl.
  destruct (Z.eqb_spec k HeaderSize), (Z.eqb_spec (zlen (slice_to (Payload f) (k - HeaderSize))) 0);
    done || lia.
Qed.

(** The bytes of a sequence of frames, as one connection carries them. *)
Definition encodeFrames (fs : list Frame) : bytes := concat (encodeFrame <$> fs).

Lemma encodeFrames_cons f fs : encodeFrames (f :: fs) = encodeFrame f ++ encodeFrames fs.
Proof. done. Qed.

Lemma encodeFrames_app fs gs : encodeFrames (fs ++ gs) = encodeFrames fs ++ encodeFrames gs.
Proof. unfold encodeFrames. by rewrite fmap_app, concat_app. Qed.

Lemma readFrames_prefix_aux fs fuel p e :
  Forall frame_ok fs -> p `prefix_of` encodeFrames fs ->
  exists n, (readFrames fuel (mkReader p e)).1 = take n fs /\
    encodeFrames (take n fs) `prefix_of` p.
Proof.
  intros Hfs. revert fuel p. induction Hfs as [|f fs Hf Hfs IH]; intros fuel p Hp.
  - exists 0%nat. apply prefix_nil_inv in Hp as ->. destruct fuel; done.
  - destruct fuel as [|fuel]; [exists 0%nat; split; [done|apply prefix_nil]|].
    rewrite encodeFrames_cons in Hp.
    destruct (Z.lt_ge_cases (zlen p) (zlen (encodeFrame f))) as [Hlt|Hge].
    + exists 0%nat. split; [|apply prefix_nil]. simpl.
      rewrite (prefix_app_short p _ _ Hp) by lia.
      rewrite ReadFrame_truncated_aux; [done|done|].
      pose proof (zlen_nonneg p). lia.
    + destruct (prefix_app_long p _ _ Hp) as (q & -> & Hq); [done|].
      cbn [readFrames]. rewrite ReadFrame_encode by done.
      destruct (IH fuel q Hq) as (n & Hn & Hpre). destruct (readFrames fuel _) as [gs e'].
      simpl in Hn. subst gs. exists (S n). split; [done|].
      cbn [take]. rewrite encodeFrames_cons. by apply prefix_app.
Qed.

Lemma readFrames_complete_aux fs n e :
  Forall frame_ok fs ->
  readFrames (S (length fs + n)) (mkReader (encodeFrames fs) e) = (fs, e).
Proof.
  intros Hfs. induction Hfs as [|f fs Hf Hfs IH].
  - cbn [length Nat.add readFrames]. change (encodeFrames []) with (@nil byte).
    by rewrite ReadFrame_short_header.
  - rewrite encodeFrames_cons. cbn [length Nat.add]. cbn [readFrames]. rewrite ReadFrame_encode by done.
    cbn [readFrames] in IH. by rewrite IH.
Qed.

(** ** The write loop *)

(** What [io.Writer] promises: [Write] takes a prefix of its argument, which
    the writer's log then ends with. *)
Class IoWriter (W : Type) := {
  wr_write : W -> bytes -> W * Z * err;
  wr_log : W -> bytes;
  wr_law : forall w p w' n e, wr_write w p = (w', n, e) ->
    0 <= n <= zlen p /\ wr_log w' = wr_log w ++ slice_to p n
}.

Lemma writeAll_spec_aux `{IoWriter W} fuel (w : W) data :
  (length data <= fuel)%nat ->
  exists w' e k, writeAll wr_write fuel w data = Some (w', e) /\
    0 <= k <= zlen data /\ wr_log w' = wr_log w ++ slice_to data k /\
    (e = None -> k = zlen data).
Proof.
  revert w data. induction fuel as [|fuel IH]; intros w data Hfuel.
  { exists w, None, 0. destruct data; [|simpl in Hfuel; lia]. simpl.
    rewrite app_nil_r. repeat split; done || lia. }
  cbn [writeAll]. if_cases.
  { exists w, None, 0. pose proof (zlen_nonneg data). simpl. rewrite app_nil_r.
    repeat split; done || lia. }
  destruct (wr_write w data) as [[w1 n] e] eqn:E. apply wr_law in E as [Hn Hlog].
  destruct e as [e|].
  { exists w1, (Some e), n. repeat split; done || lia. }
  destruct (Z.eqb_spec n 0).
  { exists w1, (Some (Sent ErrShortWrite)), n. repeat split; done || lia. }
  rewrite (proj2 (Z.ltb_ge n 0)), (proj2 (Z.ltb_ge (zlen data) n)) by lia. simpl.
  destruct (IH w1 (slice_from data n)) as (w2 & e2 & k & Heq & Hk & Hlog2 & He); [zl|].
  rewrite zlen_slice_from in Hk by lia. exists w2, e2, (n + k).
  repeat split; [done|lia|lia| |].
  - rewrite Hlog2, Hlog, <- app_assoc. f_equal. unfold slice_to, slice_from.
    rewrite Z2Nat.inj_add by lia. by rewrite take_take_drop.
  - intros Hnone. specialize (He Hnone). rewrite zlen_slice_from in He by lia. lia.
Qed.

(** The frames wholly contained in a prefix of a connection's bytes. *)
Lemma readFrames_maximal_aux fs fuel p e n m :
  Forall frame_ok fs -> p `prefix_of` encodeFrames fs -> (length fs <= fuel)%nat ->
  (readFrames fuel (mkReader p e)).1 = take n fs -> (n <= length fs)%nat ->
  (m <= length fs)%nat -> encodeFrames (take m fs) `prefix_of` p -> (m <= n)%nat.
Proof.
  intros Hfs. revert fuel p n m.
  induction Hfs as [|f fs Hf Hfs IH]; intros fuel p n m Hp Hfuel Hn Hnl Hml Hm.
  { simpl in *. lia. }
  destruct m as [|m]; [lia|]. destruct fuel as [|fuel]; [simpl in Hfuel; lia|].
  cbn [take] in Hm. rewrite encodeFrames_cons in Hm, Hp. destruct Hm as [q ->].
  rewrite <- app_assoc in Hp, Hn.
  apply prefix_app_inv in Hp. cbn [readFrames] in Hn. rewrite ReadFrame_encode in Hn by done.
  destruct (readFrames fuel _) as [gs e'] eqn:Er. destruct n as [|n]; [done|].
  cbn [take fst] in Hn. injection Hn as Hn. cbn [length] in *.
  assert (m <= n)%nat; [|lia].
  apply (IH fuel _ n m Hp); [lia|by rewrite Er|lia|lia|]. by exists q.
Qed.

(** A writer of its own log, three bytes at a time: an [io.Writer] that makes
    [writeAll] loop. *)
Definition chunkWrite (w p : bytes) : bytes * Z * err := (w ++ slice_to p 3, Z.min 3 (zlen p), None).

Lemma chunkWrite_law w p w' n e :
  chunkWrite w p = (w', n, e) -> 0 <= n <= zlen p /\ w' = w ++ slice_to p n.
Proof.
  intros [= <- <- <-]. pose proof (zlen_nonneg p). split; [lia|]. f_equal.
  unfold slice_to. destruct (Z.le_gt_cases 3 (zlen p)).
  - f_equal. lia.
  - rewrite !take_ge by zl. done.
Qed.

#[export] Instance chunkWriter : IoWriter bytes :=
  {| wr_write := chunkWrite; wr_log w := w; wr_law := chunkWrite_law |}.

(** * Properties *)

(** C27. Whatever writer is used, [WriteFrame] of a representable frame returns;
    when it returns no error it has appended bytes that [ReadFrame] turns back
    into exactly that frame, leaving the following bytes untouched. *)
Theorem WriteFrame_ReadFrame `{IoWriter W} (w : W) f :
  frame_ok f ->
  exists w' e, WriteFrame wr_write w f = Some (w', e) /\
    (e = None -> exists p, wr_log w' = wr_log w ++ p /\
       forall rest re, ReadFrame (mkReader (p ++ rest) re) = inr (f, mkReader rest re)).
Proof.
  intros Hf. pose proof Hf as (Hv & _). unfold WriteFrame. rewrite Hv.
  destruct (writeAll_spec_aux (length (encodeFrame f)) w (encodeFrame f)) as (w' & e & k & Hw & Hk & Hlog & He);
    [done|]. exists w', e. split; [done|]. intros Hn. rewrite (He Hn), slice_to_all in Hlog by lia.
  exists (encodeFrame f). split; [done|]. intros. by apply ReadFrame_encode.
Qed.

Lemma WriteFrame_ReadFrame_witness :
  exists w' e, WriteFrame wr_write (@nil byte) (mkFrame FrameData 7 [Byte.x61; Byte.x62]) = Some (w', e) /\
    (e = None -> exists p, wr_log w' = wr_log (@nil byte) ++ p /\
       forall rest re, ReadFrame (mkReader (p ++ rest) re)
         = inr (mkFrame FrameData 7 [Byte.x61; Byte.x62], mkReader rest re)).
Proof.
  apply (WriteFrame_ReadFrame (@nil byte) (mkFrame FrameData 7 [Byte.x61; Byte.x62])).
  repeat split; discriminate.
Defined.

(** A writer that fails, or stops making progress, never makes [WriteFrame]
    report success, and what it was given is a prefix of the frame: whatever
    the writer does, [writeAll] returns with the log extended by a prefix, the
    whole of it when the error is nil. *)
Theorem writeAll_delivers `{IoWriter W} (w : W) data :
  exists w' e k, writeAll wr_write (length data) w data = Some (w', e) /\
    0 <= k <= zlen data /\ wr_log w' = wr_log w ++ slice_to data k /\
    (e = None -> k = zlen data).
Proof. by apply writeAll_spec_aux. Qed.

(** [ReadFrame] accepts only frames that validate, and consumes exactly the
    encoding of the frame it returns. *)
Theorem ReadFrame_accepts_valid r f r' :
  ReadFrame r = inr (f, r') ->
  Validate f = None /\ zlen (Payload f) <= MaxDataPayload /\
  rd_data r = encodeFrame f ++ rd_data r' /\ rd_end r' = rd_end r.
Proof. intros ((? & ? & ?) & ? & ?)%ReadFrame_sound. done. Qed.

Lemma ReadFrame_accepts_valid_witness :
  Validate (mkFrame FrameFIN 5 []) = None /\ zlen (Payload (mkFrame FrameFIN 5 [])) <= MaxDataPayload /\
  encodeFrame (mkFrame FrameFIN 5 []) ++ [Byte.x2a]
    = encodeFrame (mkFrame FrameFIN 5 []) ++ [Byte.x2a] /\ Sent EOF = Sent EOF.
Proof.
  apply (ReadFrame_accepts_valid (mkReader (encodeFrame (mkFrame FrameFIN 5 []) ++ [Byte.x2a]) (Sent EOF))
    (mkFrame FrameFIN 5 []) (mkReader [Byte.x2a] (Sent EOF))).
  apply ReadFrame_encode. repeat split; discriminate.
Defined.

(** Reading a connection that carries frames [fs] and ends at any byte
    yields exactly the frames that arrived completely, in order: no frame is
    invented, skipped or returned in part. *)
Theorem readFrames_of_prefix fs p e :
  Forall frame_ok fs -> p `prefix_of` encodeFrames fs ->
  exists n, (n <= length fs)%nat /\ (readFrames (length fs) (mkReader p e)).1 = take n fs /\
    forall m, (m <= length fs)%nat -> encodeFrames (take m fs) `prefix_of` p <-> (m <= n)%nat.
Proof.
  intros Hfs Hp. destruct (readFrames_prefix_aux fs (length fs) p e Hfs Hp) as (n & Hn & Hpre).
  exists (Nat.min n (length fs)). split; [lia|].
  assert (take (Nat.min n (length fs)) fs = take n fs) as Ht.
  { rewrite <- take_take. f_equal. by rewrite take_ge. }
  rewrite Ht. split; [done|]. intros m Hm. split.
  - intros Hmp. eapply readFrames_maximal_aux; [done|exact Hp|done|by rewrite Hn, Ht|lia|done|done].
  - intros Hle. etrans; [|exact Hpre].
    exists (encodeFrames (drop m (take n fs))). rewrite <- encodeFrames_app.
    replace (take m fs) with (take m (take n fs)) by (rewrite take_take; f_equal; lia).
    by rewrite take_drop.
Qed.

Lemma readFrames_of_prefix_witness :
  let fs := [mkFrame FrameFIN 5 []; mkFrame FrameReset 6 [Byte.x61]] in
  exists n, (n <= length fs)%nat /\
    (readFrames (length fs) (mkReader (take 12 (encodeFrames fs)) (Sent EOF))).1 = take n fs /\
    forall m, (m <= length fs)%nat -> encodeFrames (take m fs) `prefix_of` take 12 (encodeFrames fs)
      <-> (m <= n)%nat.
Proof.
  apply readFrames_of_prefix; [|apply prefix_take].
  repeat constructor; discriminate.
Defined.

(** A connection that ends inside a frame is an error, never a frame, and
    the error tells a clean end from a truncated one except right after a
    header, where the reader's own end is reported. *)
Theorem ReadFrame_truncated f k e :
  frame_ok f -> 0 <= k < zlen (encodeFrame f) ->
  ReadFrame (mkReader (slice_to (encodeFrame f) k) e) =
  inl (if (k =? 0) || (k =? HeaderSize) then e
       else if errors_Is e EOF then Sent ErrUnexpectedEOF else e).
Proof. apply ReadFrame_truncated_aux. Qed.

Lemma ReadFrame_truncated_witness :
  ReadFrame (mkReader (slice_to (encodeFrame (mkFrame FrameReset 6 [Byte.x61])) 4) (Sent EOF))
  = inl (Sent ErrUnexpectedEOF).
Proof.
  apply (ReadFrame_truncated (mkFrame FrameReset 6 [Byte.x61]) 4 (Sent EOF)).
  - repeat split; discriminate.
  - rewrite zlen_encodeFrame. split; [discriminate|reflexivity].
Defined.

(** C33. [Validate] does not bound a SERVICE_LIST: a list above 16 KiB is
    validated and encoded, and then refused by every [ReadFrame]. *)
Theorem service_list_asymmetry i payload rest e :
  0 <= i < 2 ^ 32 -> MaxDataPayload < zlen payload < 2 ^ 32 ->
  let f := mkFrame FrameServiceList i payload in
  Validate f = None /\
  exists err, ReadFrame (mkReader (encodeFrame f ++ rest) e) = inl err /\
    errors_Is err ErrFrameTooLarge = true.
Proof.
  intros Hi Hp f. unfold MaxDataPayload in Hp. split.
  - unfold Validate, f. cbn [StreamID Type_ Payload].
    rewrite (bool_decide_eq_true_2 (FrameServiceList = FrameServiceList)) by done.
    cbn [negb]. rewrite andb_false_r.
    rewrite !bool_decide_eq_false_2 by done. cbn [orb].
    by rewrite (proj2 (Z.eqb_neq _ _)) by lia.
  - unfold ReadFrame, encodeFrame, f. cbn [StreamID Type_ Payload].
    rewrite u32_id by lia.
    destruct (header_slices FrameServiceList i (zlen payload) (payload ++ rest))
      as (Hh & Ht & Hid & Hl & Heq); [lia..|].
    cbn [app]. rewrite <- !app_assoc, Heq. rewrite ReadFull_app by done. cbn [rbind]. rewrite Hl.
    rewrite (proj2 (Z.ltb_lt _ _)) by (unfold MaxDataPayload; lia). eauto.
Qed.

Lemma service_list_asymmetry_witness :
  let f := mkFrame FrameServiceList 1 (replicate (Z.to_nat 16385) Byte.x7b) in
  Validate f = None /\
  exists err, ReadFrame (mkReader (encodeFrame f ++ []) (Sent EOF)) = inl err /\
    errors_Is err ErrFrameTooLarge = true.
Proof.
  apply service_list_asymmetry; [lia|].
  unfold zlen, MaxDataPayload. rewrite length_replicate, Z2Nat.id by discriminate. split; reflexivity.
Defined.
