(* ===== verification/Handshake.v ===== *)
(** * Session bootstrap packets (internal/link/handshake.go)

    The packet type bytes, [Hello], the encoders and decoders of HELLO_ID,
    HELLO and HELLO_ACK, [ReadHello] as a fold over the packets a connection
    delivers, [SendReject], [durationMilliseconds], [normalizeMTU] and
    [validatePeerExpected]; and [Config] with [normalized]
    (internal/link/session.go), which the encoders read. *)

From S2P Require Export GoErrors.
From S2P Require Import Frame.

(** ** Packet types and constants *)

Definition packetHelloID : byte := Byte.x01.
Definition packetHello : byte := Byte.x02.
Definition packetHelloAck : byte := Byte.x03.
Definition packetData : byte := Byte.x04.
Definition packetAck : byte := Byte.x05.
Definition packetPing : byte := Byte.x06.
Definition packetPong : byte := Byte.x07.
Definition packetClose : byte := Byte.x08.
Definition packetReject : byte := Byte.x09.

Definition minimumPacketMTU : Z := 20.
Definition capabilityCompression : Z := 1.
Definition knownCapabilities : Z := capabilityCompression.

(** [time.Duration]s and [time.Time]s are nanoseconds; a [time.Time] counts
    from the zero time, so [IsZero] is [=? 0]. *)
Definition Millisecond : Z := 1000000.
Definition Second : Z := 1000 * Millisecond.

Definition DefaultReplayWindow : Z := 2 ^ 20.
Definition DefaultResumeTimeout : Z := 60 * Second.
Definition DefaultMaxConnections : Z := 32.

(** ** Config *)

Record Config := mkConfig {
  ResumeTimeout : Z;
  ReplayWindow : Z;
  MaxConnections : Z;
  Compression : bool
}.

#[export] Instance eta_Config : Eta Config := fun c =>
  mkConfig (ResumeTimeout c) (ReplayWindow c) (MaxConnections c) (Compression c).

Definition normalized (cfg : Config) : Config :=
  let cfg := if ResumeTimeout cfg <=? 0 then cfg <| ResumeTimeout := DefaultResumeTimeout |> else cfg in
  let cfg := if ReplayWindow cfg <=? 0 then cfg <| ReplayWindow := DefaultReplayWindow |> else cfg in
  let cfg := if MaxConnections cfg <=? 0 then cfg <| MaxConnections := DefaultMaxConnections |> else cfg in
  if max_u16 <? MaxConnections cfg then cfg <| MaxConnections := max_u16 |> else cfg.

(** ** Hello *)

(** [type SessionID [16]byte]. *)
Abbreviation SessionID := bytes (only parsing).

Record Hello := mkHello {
  h_ID : SessionID;
  ExpectedRemote : Z;          (* uint64 *)
  h_ResumeTimeout : Z;
  h_MaxConnections : Z;
  AdvertisedPacketMTU : Z;
  h_Compression : bool
}.

#[export] Instance eta_Hello : Eta Hello := fun h =>
  mkHello (h_ID h) (ExpectedRemote h) (h_ResumeTimeout h) (h_MaxConnections h)
    (AdvertisedPacketMTU h) (h_Compression h).

Definition zeroHello : Hello := mkHello (replicate 16 Byte.x00) 0 0 0 0 false.

Definition durationMilliseconds (d : Z) : Z :=
  let ms := Z.quot d Millisecond in
  if ms <=? 0 then 1 else if max_u32 <? ms then max_u32 else u32 ms.

Definition normalizeMTU (mtu : Z) : Z :=
  if mtu <? minimumPacketMTU then minimumPacketMTU
  else if 244 <? mtu then 244 else mtu.

Definition validatePeerExpected (base next expected : Z) : err :=
  if (expected <? base) || (next <? expected)
  then Some (ErrWrap "" (Sent ErrSessionState)
         (": peer expects " +:+ itoa expected +:+ ", retained range is [" +:+ itoa base
           +:+ "," +:+ itoa next +:+ "]"))
  else None.

(** The capability byte: [x &^ knownCapabilities != 0] and
    [x & capabilityCompression != 0]. *)
Definition unknownCapabilities (x : byte) : bool :=
  negb (Z.land (byte_z x) (Z.lnot knownCapabilities) =? 0).
Definition wantsCompression (x : byte) : bool :=
  negb (Z.land (byte_z x) capabilityCompression =? 0).

(** ** Encoders *)

Definition encodeHelloID (id : SessionID) : bytes := packetHelloID :: Version :: id.

Definition encodeHello (id : SessionID) (expectedRemote : Z) (cfg : Config) (packetMTU : Z)
    : bytes * bytes :=
  let second := packetHello :: be_put 8 expectedRemote
    ++ be_put 4 (durationMilliseconds (ResumeTimeout cfg))
    ++ be_put 2 (u16 (MaxConnections cfg))
    ++ be_put 2 (u16 (normalizeMTU packetMTU))
    ++ (if Compression cfg then [z_byte capabilityCompression] else []) in
  (encodeHelloID id, second).

Definition encodeHelloAck (expectedRemote : Z) (cfg : Config) (packetMTU : Z) : bytes :=
  packetHelloAck :: Version :: be_put 8 expectedRemote
    ++ be_put 4 (durationMilliseconds (ResumeTimeout cfg))
    ++ be_put 2 (u16 (MaxConnections cfg))
    ++ be_put 2 (u16 (normalizeMTU packetMTU))
    ++ (if Compression cfg then [z_byte capabilityCompression] else []).

(** [SendReject]'s packet: a reason of at most 18 bytes. *)
Definition SendReject (reason : string) : bytes :=
  let reason := if 18 <? slen reason then str_slice_to reason 18 else reason in
  packetReject :: str_bytes reason.

(** [RejectionReason]. *)
Definition RejectionReason (e : error) : string := default "" (errors_As_Rejected e).

(** ** Decoders *)

Definition decodeHelloAck (packet : bytes) : result (Z * Config * Z) :=
  if (negb (zlen packet =? 18) && negb (zlen packet =? 19))
     || negb (bool_decide (at_ packet 0 = packetHelloAck)) then inl (Sent ErrHandshake)
  else if negb (bool_decide (at_ packet 1 = Version)) then inl (Sent ErrProtocolVersion)
  else if (zlen packet =? 19) && unknownCapabilities (at_ packet 18) then inl (Sent ErrHandshake)
  else
    let cfg := mkConfig (be_get (slice packet 10 14) * Millisecond) 0
                 (be_get (slice packet 14 16))
                 (if zlen packet =? 19 then wantsCompression (at_ packet 18) else false) in
    let mtu := be_get (slice packet 16 18) in
    if (ResumeTimeout cfg <=? 0) || (MaxConnections cfg <=? 0) || (mtu <? minimumPacketMTU)
    then inl (Sent ErrHandshake)
    else inr (be_get (slice packet 2 10), cfg, mtu).

(** One packet of [ReadHello]'s loop: [hello] and [haveID] are its variables;
    [inl] is a return, [inr] another turn of the loop. *)
Definition readHelloPacket (hello : Hello) (haveID : bool) (packet : bytes)
    : result Hello + (Hello * bool) :=
  match packet with
  | [] => inr (hello, haveID)
  | t :: _ =>
    if bool_decide (t = packetHelloID) then
      if negb (zlen packet =? 18) then inr (hello, haveID)
      else if negb (bool_decide (at_ packet 1 = Version)) then inl (inl (Sent ErrProtocolVersion))
      else inr (hello <| h_ID := slice packet 2 18 |>, true)
    else if bool_decide (t = packetHello) then
      if negb haveID || (negb (zlen packet =? 17) && negb (zlen packet =? 18))
      then inr (hello, haveID)
      else
        let hello := hello <| ExpectedRemote := be_get (slice packet 1 9) |>
                       <| h_ResumeTimeout := be_get (slice packet 9 13) * Millisecond |>
                       <| h_MaxConnections := be_get (slice packet 13 15) |>
                       <| AdvertisedPacketMTU := be_get (slice packet 15 17) |> in
        if (zlen packet =? 18) && unknownCapabilities (at_ packet 17)
        then inl (inl (Sent ErrHandshake))
        else
          let hello := if zlen packet =? 18
                       then hello <| h_Compression := wantsCompression (at_ packet 17) |>
                       else hello in
          if (h_ResumeTimeout hello <=? 0) || (h_MaxConnections hello <=? 0)
             || (AdvertisedPacketMTU hello <? minimumPacketMTU)
          then inl (inl (Sent ErrHandshake))
          else inl (inr hello)
    else inr (hello, haveID)
  end.

(** The loop over the packets the connection delivers; the second component is
    what is left in the receive channel.  When the packets run out the channel
    was closed or the context expired, [e]. *)
Fixpoint readHelloLoop (hello : Hello) (haveID : bool) (packets : list bytes) (e : error)
    : result Hello * list bytes :=
  match packets with
  | [] => (inl e, [])
  | p :: rest =>
      match readHelloPacket hello haveID p with
      | inl r => (r, rest)
      | inr (hello, haveID) => readHelloLoop hello haveID rest e
      end
  end.

Definition ReadHello (packets : list bytes) (e : error) : result Hello * list bytes :=
  readHelloLoop zeroHello false packets e.

Definition closedDuringHandshake : error := ErrNew "BLE connection closed during handshake".

(** * Lemmas *)

Lemma normalizeMTU_range mtu : minimumPacketMTU <= normalizeMTU mtu <= 244.
Proof. unfold normalizeMTU, minimumPacketMTU. repeat if_cases; lia. Qed.

Lemma normalizeMTU_idem mtu : 20 <= mtu <= 244 -> normalizeMTU mtu = mtu.
Proof. unfold normalizeMTU, minimumPacketMTU. intros. repeat if_cases; lia. Qed.

Lemma durationMilliseconds_range d : 1 <= durationMilliseconds d <= max_u32.
Proof.
  unfold durationMilliseconds, max_u32. repeat if_cases; try lia.
  rewrite u32_id by lia. lia.
Qed.

(** A duration of 1 to 2^32-1 milliseconds survives to the millisecond. *)
Lemma durationMilliseconds_exact d :
  Millisecond <= d <= max_u32 * Millisecond -> durationMilliseconds d = d / Millisecond.
Proof.
  unfold durationMilliseconds, max_u32, Millisecond. intros H.
  rewrite Z.quot_div_nonneg by lia.
  assert (1 <= d / 1000000 <= 2 ^ 32 - 1).
  { split; [apply Z.div_le_lower_bound; lia|].
    apply Z.lt_succ_r, Z.div_lt_upper_bound; lia. }
  repeat if_cases; try lia. by apply u32_id; lia.
Qed.

Lemma validatePeerExpected_None base next expected :
  validatePeerExpected base next expected = None <-> base <= expected <= next.
Proof.
  unfold validatePeerExpected. if_cases; split; intros; try done; try lia.
Qed.

Lemma validatePeerExpected_Some base next expected e :
  validatePeerExpected base next expected = Some e -> errors_Is e ErrSessionState = true.
Proof. unfold validatePeerExpected. if_cases; [|done]. by intros [= <-]. Qed.

Lemma capability_byte :
  unknownCapabilities (z_byte capabilityCompression) = false /\
  wantsCompression (z_byte capabilityCompression) = true.
Proof. done. Qed.

(** A normalised config is within the ranges the packets can carry. *)
Definition config_ok (cfg : Config) : Prop :=
  0 < ResumeTimeout cfg /\ 0 < ReplayWindow cfg /\ 1 <= MaxConnections cfg <= max_u16.

Lemma normalized_ok cfg : config_ok (normalized cfg).
Proof.
  unfold normalized, config_ok, DefaultResumeTimeout, DefaultReplayWindow,
    DefaultMaxConnections, Second, Millisecond, max_u16.
  destruct cfg as [r w m c]; simpl. repeat (if_cases; simpl in *); lia.
Qed.

Lemma normalized_id cfg : config_ok cfg -> normalized cfg = cfg.
Proof.
  intros (? & ? & ?). destruct cfg as [r w m c]; unfold normalized, max_u16 in *; simpl in *.
  repeat (if_cases; simpl in *); done || lia.
Qed.


(** ** Round trips *)

Lemma zlen_encodeHelloAck exp cfg mtu :
  zlen (encodeHelloAck exp cfg mtu) = if Compression cfg then 19 else 18.
Proof.
  unfold encodeHelloAck. rewrite !zlen_cons, !zlen_app, !zlen_be_put. by destruct (Compression cfg).
Qed.

Lemma zlen_encodeHello id exp cfg mtu :
  zlen (encodeHello id exp cfg mtu).2 = if Compression cfg then 18 else 17.
Proof.
  unfold encodeHello; simpl. rewrite zlen_cons, !zlen_app, !zlen_be_put. by destruct (Compression cfg).
Qed.

(** What the peer of a bootstrap packet learns of a config. *)
Definition wire_config (cfg : Config) : Config :=
  mkConfig (durationMilliseconds (ResumeTimeout cfg) * Millisecond) 0
    (MaxConnections cfg) (Compression cfg).

Lemma at_app_back (h : bytes) x n : n = zlen h -> at_ (h ++ [x]) n = x.
Proof.
  intros ->. unfold at_, zlen. rewrite Nat2Z.id, lookup_app_r by done.
  by rewrite Nat.sub_diag.
Qed.

Lemma decodeHelloAck_encode_aux exp cfg mtu :
  config_ok cfg -> 0 <= exp < 2 ^ 64 ->
  decodeHelloAck (encodeHelloAck exp cfg mtu) = inr (exp, wire_config cfg, normalizeMTU mtu).
Proof.
  intros (Hr & Hw & Hm) He. unfold decodeHelloAck.
  rewrite zlen_encodeHelloAck.
  pose proof (durationMilliseconds_range (ResumeTimeout cfg)) as Hd.
  pose proof (normalizeMTU_range mtu) as Hn.
  unfold max_u16, max_u32, minimumPacketMTU, Millisecond in *.
  assert (at_ (encodeHelloAck exp cfg mtu) 0 = packetHelloAck) as -> by done.
  assert (at_ (encodeHelloAck exp cfg mtu) 1 = Version) as -> by done.
  assert (Compression cfg = true -> at_ (encodeHelloAck exp cfg mtu) 18 = z_byte capabilityCompression) as Hc.
  { intros Hc. unfold encodeHelloAck. rewrite Hc, !app_assoc, !app_comm_cons.
    apply at_app_back. zl. }
  unfold encodeHelloAck in *. field_slices.
  rewrite !be_get_put_id by (rewrite ?u16_id by lia; lia).
  rewrite !u16_id by lia. rewrite !u16_id in Hc by lia.
  unfold wire_config, Millisecond. cbn [ResumeTimeout MaxConnections].
  rewrite (proj2 (Z.leb_gt _ _)), (proj2 (Z.leb_gt _ _)), (proj2 (Z.ltb_ge _ _)) by lia.
  destruct (Compression cfg); [|done]. cbn [negb Z.eqb andb orb].
  by rewrite (Hc eq_refl).
Qed.

(** [ReadHello] on the client's two packets: packets before them that are not
    bootstrap packets, and packets after them, do not matter. *)
Definition wire_hello (id : SessionID) (exp : Z) (cfg : Config) (mtu : Z) : Hello :=
  mkHello id exp (durationMilliseconds (ResumeTimeout cfg) * Millisecond)
    (MaxConnections cfg) (normalizeMTU mtu) (Compression cfg).

Lemma readHelloPacket_id hello haveID id :
  zlen id = 16 ->
  readHelloPacket hello haveID (encodeHelloID id) = inr (hello <| h_ID := id |>, true).
Proof.
  intros Hid. unfold readHelloPacket, encodeHelloID.
  assert (zlen (packetHelloID :: Version :: id) = 18) as -> by (rewrite !zlen_cons; lia).
  cbn [bool_decide decide]. field_slices. rewrite slice_whole by done. done.
Qed.

Lemma readHelloPacket_hello hello id exp cfg mtu :
  config_ok cfg -> 0 <= exp < 2 ^ 64 -> h_ID hello = id -> h_Compression hello = false ->
  readHelloPacket hello true (encodeHello id exp cfg mtu).2 = inl (inr (wire_hello id exp cfg mtu)).
Proof.
  intros (Hr & Hw & Hm) He Hi Hcomp. pose proof (zlen_encodeHello id exp cfg mtu) as Hlen.
  pose proof (durationMilliseconds_range (ResumeTimeout cfg)) as Hd.
  pose proof (normalizeMTU_range mtu) as Hn.
  unfold max_u16, max_u32, minimumPacketMTU, Millisecond in *.
  assert (Compression cfg = true -> at_ (encodeHello id exp cfg mtu).2 17 = z_byte capabilityCompression) as Hc.
  { intros Hc. unfold encodeHello. cbn [snd]. rewrite Hc, !app_assoc, !app_comm_cons.
    apply at_app_back. zl. }
  unfold readHelloPacket. unfold encodeHello in *. cbn [snd] in *. rewrite Hlen.
  cbn [bool_decide decide]. field_slices.
  rewrite !be_get_put_id by (rewrite ?u16_id by lia; lia).
  rewrite !u16_id by lia. rewrite !u16_id in Hc by lia.
  unfold wire_hello, Millisecond.
  destruct hello as [hid ? ? ? ? hc]; simpl in Hi, Hcomp. subst hid hc.
  destruct (Compression cfg); simpl.
  - rewrite (Hc eq_refl). simpl.
    rewrite (proj2 (Z.leb_gt _ _)), (proj2 (Z.leb_gt _ _)), (proj2 (Z.ltb_ge _ _))
      by (unfold minimumPacketMTU; lia). done.
  - rewrite (proj2 (Z.leb_gt _ _)), (proj2 (Z.leb_gt _ _)), (proj2 (Z.ltb_ge _ _))
      by (unfold minimumPacketMTU; lia). done.
Qed.

(** Packets [ReadHello] skips: empty ones and any other type. *)
Definition ignoredByHello (p : bytes) : bool :=
  match p with
  | [] => true
  | t :: _ => negb (bool_decide (t = packetHelloID)) && negb (bool_decide (t = packetHello))
  end.

Lemma readHelloLoop_skip hello haveID noise rest e :
  forallb ignoredByHello noise = true ->
  readHelloLoop hello haveID (noise ++ rest) e = readHelloLoop hello haveID rest e.
Proof.
  induction noise as [|p noise IH]; [done|]. simpl. intros [Hp Hn]%andb_true_iff.
  unfold readHelloPacket. destruct p as [|t p]; [by apply IH|].
  simpl in Hp. apply andb_true_iff in Hp as [H1%negb_true_iff H2%negb_true_iff].
  rewrite H1, H2. by apply IH.
Qed.

(** * Properties *)

(** A server's [ReadHello] recovers what a client's two bootstrap packets
    say, whatever non-bootstrap packets come before or between them, and leaves
    the packets after them unread. *)
Theorem ReadHello_encodeHello id exp cfg mtu noise1 noise2 rest e :
  zlen id = 16 -> config_ok cfg -> 0 <= exp < 2 ^ 64 ->
  forallb ignoredByHello noise1 = true -> forallb ignoredByHello noise2 = true ->
  let (first, second) := encodeHello id exp cfg mtu in
  ReadHello (noise1 ++ first :: noise2 ++ second :: rest) e =
    (inr (mkHello id exp (durationMilliseconds (ResumeTimeout cfg) * Millisecond)
            (MaxConnections cfg) (normalizeMTU mtu) (Compression cfg)), rest).
Proof.
  intros Hid Hc He H1 H2. destruct (encodeHello id exp cfg mtu) as [first second] eqn:E.
  assert (first = encodeHelloID id) as -> by (unfold encodeHello in E; by simplify_eq).
  assert (second = (encodeHello id exp cfg mtu).2) as -> by by rewrite E.
  unfold ReadHello. rewrite readHelloLoop_skip by done. cbn [readHelloLoop].
  rewrite readHelloPacket_id by done. rewrite readHelloLoop_skip by done. cbn [readHelloLoop].
  by rewrite (readHelloPacket_hello _ id).
Qed.

Lemma ReadHello_encodeHello_witness :
  let cfg := normalized (mkConfig 0 0 0 true) in
  let id := replicate 16 Byte.x41 in
  let (first, second) := encodeHello id 5 cfg 185 in
  ReadHello ([[]] ++ first :: [[packetPing]] ++ second :: [[packetData]]) (Sent EOF) =
    (inr (mkHello id 5 (durationMilliseconds (ResumeTimeout cfg) * Millisecond)
            (MaxConnections cfg) (normalizeMTU 185) (Compression cfg)), [[packetData]]).
Proof.
  apply (ReadHello_encodeHello (replicate 16 Byte.x41) 5 (normalized (mkConfig 0 0 0 true)) 185
    [[]] [[packetPing]] [[packetData]] (Sent EOF)); [reflexivity| |lia|reflexivity|reflexivity].
  apply normalized_ok.
Defined.

(** A client decodes from a server's HELLO_ACK the offset, settings and
    packet size that were encoded. *)
Theorem decodeHelloAck_encode exp cfg mtu :
  config_ok cfg -> 0 <= exp < 2 ^ 64 ->
  decodeHelloAck (encodeHelloAck exp cfg mtu) =
    inr (exp, mkConfig (durationMilliseconds (ResumeTimeout cfg) * Millisecond) 0
                (MaxConnections cfg) (Compression cfg), normalizeMTU mtu).
Proof. apply decodeHelloAck_encode_aux. Qed.

Lemma decodeHelloAck_encode_witness :
  let cfg := normalized (mkConfig 0 0 0 false) in
  decodeHelloAck (encodeHelloAck 77 cfg 10) =
    inr (77, mkConfig (durationMilliseconds (ResumeTimeout cfg) * Millisecond) 0
               (MaxConnections cfg) (Compression cfg), normalizeMTU 10).
Proof. apply decodeHelloAck_encode; [apply normalized_ok|lia]. Defined.
