(* ===== verification/LinkSession.v ===== *)
(** * The reliable session: state and operations (internal/link/session.go)

    [Session] is the struct guarded by [Session.mu]; every operation below is
    one critical section of the Go method it is named after, from [Lock] to
    [Unlock].  A method that locks twice is two definitions.  [time.Now()] is
    an argument.  A [*binding] pointer is its generation number [gen]
    ([bindGen] never repeats), and a binding is only written while it is
    [current], so it lives inside the session.  What a critical section leaves
    for other goroutines is in its list of [effect]s.

    [notify] counts the channels made so far: [signalLocked] closes the current
    one, so a waiter that captured [n] wakes when [notify] exceeds [n]. *)

From S2P Require Export Handshake.
From S2P Require Import Frame.

(** ** Constants *)

Definition retransmitInterval : Z := Second.
Definition heartbeatInterval : Z := 3 * Second.
Definition heartbeatResponseTimeout : Z := 2 * Second.
Definition heartbeatFailureLimit : Z := 2.
Definition liveWriteWindow : Z := 64 * 1024.
Definition fastRetransmitACKs : Z := 3.
Definition ackBatchPackets : Z := 8.
Definition initialFlightWindowPackets : Z := ackBatchPackets.
Definition maxFlightWindowPackets : Z := 128.
Definition ackMaxDelay : Z := 40 * Millisecond.

(** ** State *)

Record binding := mkBinding {
  conn : nat;                (* the PacketConn, by identity *)
  gen : Z;
  mtu : Z;
  lastRX : Z;
  lastTX : Z;
  lastHeartbeat : Z;
  heartbeatPending : bool;
  heartbeatSentAt : Z;
  heartbeatFailures : Z;
  sendNext : Z;              (* uint64 *)
  retransmitAt : Z;
  duplicateACK : Z;
  flightPackets : Z
}.

#[export] Instance eta_binding : Eta binding := fun b =>
  mkBinding (conn b) (gen b) (mtu b) (lastRX b) (lastTX b) (lastHeartbeat b)
    (heartbeatPending b) (heartbeatSentAt b) (heartbeatFailures b) (sendNext b)
    (retransmitAt b) (duplicateACK b) (flightPackets b).

(** internal/link/stats.go *)
Record transportStats := mkStats {
  dataTXPackets : Z; dataTXBytes : Z; dataRXPackets : Z; dataRXBytes : Z;
  ackTXPackets : Z; ackRXPackets : Z; heartbeatTX : Z; heartbeatRX : Z;
  stHeartbeatFailures : Z; retransmissions : Z; fastRetransmissions : Z;
  outOfOrderDataPackets : Z; rejectedDataPackets : Z;
  sendCalls : Z; sendDuration : Z; maxSendDuration : Z
}.

#[export] Instance eta_stats : Eta transportStats := fun t =>
  mkStats (dataTXPackets t) (dataTXBytes t) (dataRXPackets t) (dataRXBytes t)
    (ackTXPackets t) (ackRXPackets t) (heartbeatTX t) (heartbeatRX t)
    (stHeartbeatFailures t) (retransmissions t) (fastRetransmissions t)
    (outOfOrderDataPackets t) (rejectedDataPackets t)
    (sendCalls t) (sendDuration t) (maxSendDuration t).

Definition zeroStats : transportStats := mkStats 0 0 0 0 0 0 0 0 0 0 0 0 0 0 0 0.

Record Session := mkSession {
  id : SessionID;
  config : Config;
  txBase : Z;                 (* uint64 *)
  txNext : Z;                 (* uint64 *)
  txBuf : bytes;
  rxNext : Z;                 (* uint64 *)
  rxBuf : bytes;
  rxPending : gmap Z bytes;   (* the nil map is empty *)
  rxPendingBytes : Z;
  current : option binding;
  bindGen : Z;
  detachedAt : Z;
  ackDirty : bool;
  ackPackets : Z;
  ackDeadline : Z;
  pongDirty : bool;
  helloReply : bytes;
  pendingHelloID : SessionID;
  havePendingHello : bool;
  stats : transportStats;
  readDeadline : Z;
  writeDeadline : Z;
  notify : Z;
  closed : bool;              (* also: the done channel is closed *)
  err_ : err;
  detachCount : Z;
  lastDetachReason : string
}.

#[export] Instance eta_Session : Eta Session := fun s =>
  mkSession (id s) (config s) (txBase s) (txNext s) (txBuf s) (rxNext s) (rxBuf s)
    (rxPending s) (rxPendingBytes s) (current s) (bindGen s) (detachedAt s)
    (ackDirty s) (ackPackets s) (ackDeadline s) (pongDirty s) (helloReply s)
    (pendingHelloID s) (havePendingHello s) (stats s) (readDeadline s)
    (writeDeadline s) (notify s) (closed s) (err_ s) (detachCount s) (lastDetachReason s).

Definition NewSessionWithID (sid : SessionID) (cfg : Config) : Session :=
  mkSession sid (normalized cfg) 0 0 [] 0 [] ∅ 0 None 0 0 false 0 0 false []
    (replicate 16 Byte.x00) false zeroStats 0 0 0 false None 0 "".

(** [NewSession], with [rand.Read]'s outcome: an error, or the 16 random
    bytes. *)
Definition NewSession (random : result SessionID) (cfg : Config) : result Session :=
  match random with
  | inl e => inl (ErrWrap "create session id: " e "")
  | inr sid => inr (NewSessionWithID sid cfg)
  end.

(** What a critical section leaves to be done outside the lock. *)
Inductive effect :=
  | Cancel (g : Z)                      (* b.cancel() *)
  | CloseConn (c : nat)                 (* b.conn.Close() *)
  | GoLoops (g : Z)                     (* go receiveLoop, sendLoop, heartbeatLoop *)
  | GoExpireAfter (at_ timeout : Z)
  | GoCloseWithError (e : error).

(** [s.current == b] for the binding of generation [g]. *)
Definition bound_to (s : Session) (g : Z) : option binding :=
  match current s with
  | Some b => if (gen b =? g) && negb (closed s) then Some b else None
  | None => None
  end.

Definition Matches (s : Session) (sid : SessionID) : bool := bool_decide (id s = sid).

Definition signalLocked (s : Session) : Session := s <| notify := notify s + 1 |>.

Definition sessionErrorLocked (s : Session) : error :=
  match err_ s with
  | None => Sent EOF
  | Some e => if errors_Is e EOF then Sent EOF else e
  end.

(** ** Receiving DATA *)

(** The first loop of [acceptDataLocked], over the retained fragments in the
    order the map yields them. *)
Inductive overlapResult := OverlapRejected | OverlapConflict | OverlapOK (overlap : Z).

Fixpoint overlapLoop (next seq end_ : Z) (payload : bytes) (pend : list (Z * bytes)) (overlap : Z)
    : overlapResult :=
  match pend with
  | [] => OverlapOK overlap
  | (pendingSeq, pendingPayload) :: pend =>
      let pendingEnd := u64 (pendingSeq + zlen pendingPayload) in
      if (seq <? pendingEnd) && (pendingSeq <? end_) then
        if negb (seq =? next) then OverlapRejected
        else
          let n := u64 (Z.min end_ pendingEnd - pendingSeq) in
          let off := u64 (pendingSeq - seq) in
          if bool_decide (slice payload off (off + n) = slice_to pendingPayload n)
          then overlapLoop next seq end_ payload pend (overlap + n)
          else OverlapConflict
      else overlapLoop next seq end_ payload pend overlap
  end.

(** The second loop: drop the fragments the packet covers, keep the suffix of
    the one that reaches beyond it. *)
Fixpoint coverLoop (end_ : Z) (pend : list (Z * bytes)) (m : gmap Z bytes) (pendingBytes : Z)
    (suffix : bytes) : gmap Z bytes * Z * bytes :=
  match pend with
  | [] => (m, pendingBytes, suffix)
  | (pendingSeq, pendingPayload) :: pend =>
      if end_ <=? pendingSeq then coverLoop end_ pend m pendingBytes suffix
      else
        let pendingEnd := u64 (pendingSeq + zlen pendingPayload) in
        coverLoop end_ pend (delete pendingSeq m) (pendingBytes - zlen pendingPayload)
          (if end_ <? pendingEnd then slice_from pendingPayload (u64 (end_ - pendingSeq)) else suffix)
  end.

(** The third loop: deliver the retained fragments the packet unblocked.  Each
    turn removes one, so the number retained is enough fuel. *)
Fixpoint drainLoop (fuel : nat) (next : Z) (buf : bytes) (m : gmap Z bytes) (pendingBytes advanced : Z)
    : Z * bytes * gmap Z bytes * Z * Z :=
  match fuel with
  | O => (next, buf, m, pendingBytes, advanced)
  | S fuel =>
      match m !! next with
      | None => (next, buf, m, pendingBytes, advanced)
      | Some pending =>
          drainLoop fuel (u64 (next + zlen pending)) (buf ++ pending) (delete next m)
            (pendingBytes - zlen pending) (advanced + 1)
      end
  end.

(** The cover loop, the suffix it keeps, and the drain: the end of
    [acceptDataLocked] on a packet at the delivered offset. *)
Definition gapFill (end_ : Z) (buf : bytes) (m : gmap Z bytes) (pb : Z)
    : Z * bytes * gmap Z bytes * Z * Z :=
  let '(m, pendingBytes, suffix) := coverLoop end_ (map_to_list m) m pb [] in
  let '(m, pendingBytes) :=
    if 0 <? zlen suffix then (<[end_ := suffix]> m, pendingBytes + zlen suffix)
    else (m, pendingBytes) in
  drainLoop (size m) end_ buf m pendingBytes 1.

(** [(advancedPackets, buffered, rejected, err)]. *)
Definition acceptResult : Type := Z * bool * bool * err.
Definition rejectedResult : acceptResult := (0, false, true, None).

Definition acceptDataLocked (s : Session) (seq : Z) (payload : bytes) : Session * acceptResult :=
  if max_u64 - seq <? zlen payload then
    (s, (0, false, false, Some (Sent ErrSequenceExhausted)))
  else
  let end_ := u64 (seq + zlen payload) in
  if end_ <=? rxNext s then (s, rejectedResult)
  else
  let '(payload, seq) :=
    if seq <? rxNext s then (slice_from payload (rxNext s - seq), rxNext s) else (payload, seq) in
  if ReplayWindow (config s) <? end_ - rxNext s then (s, rejectedResult)
  else
  match overlapLoop (rxNext s) seq end_ payload (map_to_list (rxPending s)) 0 with
  | OverlapRejected => (s, rejectedResult)
  | OverlapConflict => (s, (0, false, false, Some (ErrNew "conflicting replay data")))
  | OverlapOK overlap =>
    if ReplayWindow (config s) <? zlen (rxBuf s) + rxPendingBytes s + zlen payload - overlap
    then (s, rejectedResult)
    else if rxNext s <? seq then
      if maxFlightWindowPackets <=? Z.of_nat (size (rxPending s)) then (s, rejectedResult)
      else
        let t := stats s in
        (s <| rxPending := <[seq := payload]> (rxPending s) |>
           <| rxPendingBytes := rxPendingBytes s + zlen payload |>
           <| stats := t <| dataRXBytes := u64 (dataRXBytes t + zlen payload) |>
                         <| outOfOrderDataPackets := u64 (outOfOrderDataPackets t + 1) |> |>,
         (0, true, false, None))
    else
      let t := stats s in
      let '(next, buf, m, pendingBytes, advanced) :=
        gapFill end_ (rxBuf s ++ payload) (rxPending s) (rxPendingBytes s) in
      (signalLocked
        (s <| rxBuf := buf |> <| rxNext := next |> <| rxPending := m |>
           <| rxPendingBytes := pendingBytes |>
           <| stats := t <| dataRXBytes := u64 (dataRXBytes t + (zlen payload - overlap)) |> |>),
       (advanced, false, false, None))
  end.

(** ** Acknowledgements and the send window *)

Definition reduceFlightWindow (b : binding) : binding :=
  let p := if flightPackets b <? initialFlightWindowPackets
           then initialFlightWindowPackets else flightPackets b in
  b <| flightPackets := Z.max initialFlightWindowPackets (p / 2) |>.

(** Drop the acknowledged prefix of the replay buffer. *)
Definition reconcilePeerLocked (s : Session) (expected : Z) : Session * err :=
  match validatePeerExpected (txBase s) (txNext s) expected with
  | Some e => (s, Some e)
  | None =>
      let delta := u64 (expected - txBase s) in
      if 0 <? delta
      then (signalLocked (s <| txBuf := slice_from (txBuf s) delta |> <| txBase := expected |>), None)
      else (s, None)
  end.

Definition handleAckLocked (s : Session) (b : binding) (expected now : Z) : Session * binding * err :=
  if expected <? txBase s then (s, b, None)
  else
  let previousBase := txBase s in
  let '(s, e) := reconcilePeerLocked s expected in
  match e with
  | Some e => (s, b, Some e)
  | None =>
    if previousBase <? txBase s then
      let b := b <| duplicateACK := 0 |> in
      let b := if flightPackets b <? initialFlightWindowPackets
               then b <| flightPackets := initialFlightWindowPackets |>
               else if flightPackets b <? maxFlightWindowPackets
               then b <| flightPackets := flightPackets b + 1 |> else b in
      let b := if sendNext b <? txBase s then b <| sendNext := txBase s |> else b in
      let b := if txBase s <? sendNext b then b <| retransmitAt := now + retransmitInterval |>
               else b <| retransmitAt := 0 |> in
      (s, b, None)
    else if (expected =? txBase s) && (txBase s <? sendNext b) then
      let b := b <| duplicateACK := duplicateACK b + 1 |> in
      if fastRetransmitACKs <=? duplicateACK b then
        let b := reduceFlightWindow
                   (b <| sendNext := txBase s |> <| retransmitAt := now + retransmitInterval |>
                      <| duplicateACK := 0 |>) in
        let t := stats s in
        (signalLocked (s <| stats := t <| fastRetransmissions := u64 (fastRetransmissions t + 1) |> |>),
         b, None)
      else (s, b, None)
    else (s, b, None)
  end.

(** The DATA part of [nextPacketLocked]: window repair, retransmission
    timeout, then the next fragment of the replay buffer. *)
Definition repairSendNext (s : Session) (b : binding) : binding :=
  if (sendNext b <? txBase s) || (txNext s <? sendNext b)
  then b <| sendNext := txBase s |> <| retransmitAt := 0 |> <| duplicateACK := 0 |> else b.

Definition retransmitExpired (s : Session) (b : binding) (now : Z) : bool :=
  (txBase s <? sendNext b) && negb (retransmitAt b =? 0) && negb (now <? retransmitAt b).

Definition dataPacket (seq : Z) (payload : bytes) : bytes := packetData :: be_put 8 seq ++ payload.
Definition ackPacket (expected : Z) : bytes := packetAck :: be_put 8 expected.

(** The last part of [nextDataLocked], from the flight window on. *)
Definition sendWindow (s : Session) (b : binding) (now : Z) : option bytes * Session * binding :=
  let payloadSize := if mtu b - 9 <? 1 then 1 else mtu b - 9 in
  let b := if flightPackets b <? initialFlightWindowPackets
           then b <| flightPackets := initialFlightWindowPackets |> else b in
  let flightWindow := u64 (payloadSize * flightPackets b) in
  let windowEnd := Z.min (txNext s) (u64 (txBase s + flightWindow)) in
  if sendNext b <? windowEnd then
    let payloadSize := Z.min payloadSize (windowEnd - sendNext b) in
    let start := u64 (sendNext b - txBase s) in
    let packet := dataPacket (sendNext b) (slice (txBuf s) start (start + payloadSize)) in
    let b := if (sendNext b =? txBase s) && (retransmitAt b =? 0)
             then b <| retransmitAt := now + retransmitInterval |> else b in
    (Some packet, s, b <| sendNext := u64 (sendNext b + payloadSize) |>)
  else (None, s, b).

Definition nextDataLocked (s : Session) (b : binding) (now : Z) : option bytes * Session * binding :=
  let b := repairSendNext s b in
  let '(s, b) :=
    if retransmitExpired s b now then
      let t := stats s in
      (s <| stats := t <| retransmissions := u64 (retransmissions t + 1) |> |>,
       reduceFlightWindow (b <| sendNext := txBase s |> <| retransmitAt := now + retransmitInterval |>
                             <| duplicateACK := 0 |>))
    else (s, b) in
  sendWindow s b now.

Definition nextPacketLocked (s : Session) (b : binding) (now : Z) : option bytes * Session * binding :=
  if 0 <? zlen (helloReply s) then (Some (helloReply s), s <| helloReply := [] |>, b)
  else if pongDirty s then (Some [packetPong], s <| pongDirty := false |>, b)
  else if ackDirty s && ((ackBatchPackets <=? ackPackets s) || (ackDeadline s =? 0)
                         || negb (now <? ackDeadline s)) then
    (Some (ackPacket (rxNext s)),
     s <| ackDirty := false |> <| ackPackets := 0 |> <| ackDeadline := 0 |>, b)
  else nextDataLocked s b now.

Definition set_current (s : Session) (b : binding) : Session := s <| current := Some b |>.

(** [sendLoop], first critical section: [None] when the loop returns, else the
    packet to send, if any. *)
Definition sendLoop_take (s : Session) (g now : Z) : option (option bytes) * Session :=
  match bound_to s g with
  | None => (None, s)
  | Some b =>
      let '(packet, s, b) := nextPacketLocked s b now in
      (Some packet, set_current s b)
  end.

Definition countSend (t : transportStats) (duration : Z) : transportStats :=
  t <| sendCalls := u64 (sendCalls t + 1) |> <| sendDuration := sendDuration t + duration |>
    <| maxSendDuration := Z.max (maxSendDuration t) duration |>.

(** [sendLoop], second critical section, after [conn.Send] returned [e]: the
    reason the loop fails the binding with, if it does. *)
Definition sendLoop_sent (s : Session) (g : Z) (packet : bytes) (duration now : Z) (e : err)
    : Session * err :=
  let t := countSend (stats s) duration in
  let t := match e with
           | Some _ => t
           | None =>
               if bool_decide (at_ packet 0 = packetData)
               then t <| dataTXPackets := u64 (dataTXPackets t + 1) |>
                      <| dataTXBytes := u64 (dataTXBytes t + (zlen packet - 9)) |>
               else if bool_decide (at_ packet 0 = packetAck)
               then t <| ackTXPackets := u64 (ackTXPackets t + 1) |> else t
           end in
  let s := s <| stats := t |> in
  let s := match current s, e with
           | Some b, None => if gen b =? g then set_current s (b <| lastTX := now |>) else s
           | _, _ => s
           end in
  (s, match e with
      | Some e => Some (ErrWrap ("send packet type " +:+ itoa (byte_z (at_ packet 0)) +:+ ": ") e "")
      | None => None
      end).

(** ** Heartbeats *)

Definition heartbeatCheckLocked (s : Session) (b : binding) (now : Z)
    : Session * binding * (bool * bool) :=
  if heartbeatPending b && (now - heartbeatSentAt b <? heartbeatResponseTimeout)
  then (s, b, (false, false))
  else
  let probeAfterFailure := heartbeatPending b in
  let '(s, b) :=
    if heartbeatPending b then
      let t := stats s in
      (s <| stats := t <| stHeartbeatFailures := u64 (stHeartbeatFailures t + 1) |> |>,
       b <| heartbeatPending := false |> <| heartbeatFailures := heartbeatFailures b + 1 |>)
    else (s, b) in
  if probeAfterFailure && (heartbeatFailureLimit <=? heartbeatFailures b)
  then (s, b, (false, true))
  else if negb probeAfterFailure && negb (heartbeatSentAt b =? 0)
          && (now - heartbeatSentAt b <? heartbeatInterval)
  then (s, b, (false, false))
  else (s, b <| heartbeatPending := true |> <| heartbeatSentAt := now |>, (true, false)).

(** [heartbeatLoop], first critical section: [None] when the loop returns, else
    [(probe, detach)]. *)
Definition heartbeatLoop_tick (s : Session) (g now : Z) : option (bool * bool) * Session :=
  match bound_to s g with
  | None => (None, s)
  | Some b =>
      let '(s, b, r) := heartbeatCheckLocked s b now in
      (Some r, set_current s b)
  end.

Definition heartbeatSendResultLocked (s : Session) (g started finished : Z) (e : err) : Session * bool :=
  match bound_to s g with
  | None => (s, false)
  | Some b =>
      match e with
      | None =>
          let b := b <| lastTX := finished |> in
          (set_current s (if heartbeatPending b then b <| heartbeatSentAt := finished |> else b), false)
      | Some e =>
          if errors_Is e ContextDeadlineExceeded && negb (lastRX b <? started)
          then (set_current s (b <| heartbeatPending := false |> <| heartbeatFailures := 0 |>
                                 <| heartbeatSentAt := finished |>), false)
          else (s, true)
      end
  end.

(** [heartbeatLoop], second critical section, after the PING was sent. *)
Definition heartbeatLoop_sent (s : Session) (g started finished : Z) (e : err) : Session * bool :=
  let t := countSend (stats s) (finished - started) in
  let t := match e with
           | None => t <| heartbeatTX := u64 (heartbeatTX t + 1) |>
           | Some _ => t
           end in
  heartbeatSendResultLocked (s <| stats := t |>) g started finished e.

(** ** Negotiation and incoming packets *)

Definition negotiateLocked (s : Session) (peer : Config) : Session :=
  let c := config s in
  let c := if (0 <? ResumeTimeout peer) && (ResumeTimeout peer <? ResumeTimeout c)
           then c <| ResumeTimeout := ResumeTimeout peer |> else c in
  let c := if (0 <? MaxConnections peer) && (MaxConnections peer <? MaxConnections c)
           then c <| MaxConnections := MaxConnections peer |> else c in
  s <| config := c <| Compression := Compression c && Compression peer |> |>.

(** [case packetData] of [handlePacket], at time [now]. *)
Definition handleData (s : Session) (packet : bytes) (now : Z) : Session * err :=
  if zlen packet <=? 9 then (s, Some (Sent ErrHandshake))
  else
  let t := stats s in
  let s := s <| stats := t <| dataRXPackets := u64 (dataRXPackets t + 1) |> |> in
  let '(s, (advancedPackets, buffered, rejected, e)) :=
    acceptDataLocked s (be_get (slice packet 1 9)) (slice_from packet 9) in
  match e with
  | Some e => (s, Some e)
  | None =>
    let t := stats s in
    let s := if rejected : bool
             then s <| stats := t <| rejectedDataPackets := u64 (rejectedDataPackets t + 1) |> |> else s in
    let s := s <| ackDirty := true |> in
    let s :=
      if 0 <? advancedPackets then
        let s := s <| ackPackets := ackPackets s + advancedPackets |> in
        if ackDeadline s =? 0 then s <| ackDeadline := now + ackMaxDelay |> else s
      else if buffered || rejected then
        s <| ackPackets := ackBatchPackets |> <| ackDeadline := now |>
      else s in
    (signalLocked s, None)
  end.

(** [case packetHello]: the peer repeats its bootstrap on a live binding. *)
Definition handleHello (s : Session) (b : binding) (packet : bytes) : Session * err :=
  if (negb (zlen packet =? 17) && negb (zlen packet =? 18)) || negb (havePendingHello s)
     || negb (bool_decide (pendingHelloID s = id s)) then (s, None)
  else
  let peerCompression := (zlen packet =? 18) && wantsCompression (at_ packet 17) in
  if ((zlen packet =? 18) && unknownCapabilities (at_ packet 17))
     || negb (Bool.eqb peerCompression (Compression (config s)))
  then (s, Some (Sent ErrCompression))
  else
  let '(s, e) := reconcilePeerLocked s (be_get (slice packet 1 9)) in
  match e with
  | Some e => (s, Some e)
  | None =>
    let peerCfg := mkConfig (be_get (slice packet 9 13) * Millisecond) 0
                     (be_get (slice packet 13 15)) peerCompression in
    let m := Z.min (mtu b) (normalizeMTU (be_get (slice packet 15 17))) in
    let s := negotiateLocked s peerCfg in
    let s := set_current s (b <| mtu := Z.min (mtu b) m |>) in
    let s := s <| helloReply := encodeHelloAck (rxNext s) (config s) m |>
               <| havePendingHello := false |> in
    (signalLocked s, None)
  end.

Definition handlePacket (s : Session) (g : Z) (packet : bytes) (now : Z)
    : Session * list effect * err :=
  match packet with
  | [] => (s, [], None)
  | kind :: _ =>
    match bound_to s g with
    | None => (s, [], None)
    | Some b =>
      let b := b <| lastRX := now |> <| heartbeatPending := false |> <| heartbeatFailures := 0 |> in
      let s := set_current s b in
      if bool_decide (kind = packetData) then
        let '(s, e) := handleData s packet now in (s, [], e)
      else if bool_decide (kind = packetAck) then
        if negb (zlen packet =? 9) then (s, [], Some (Sent ErrHandshake))
        else
          let '(s, b, e) := handleAckLocked s b (be_get (slice packet 1 9)) now in
          let s := set_current s b in
          match e with
          | Some e => (s, [], Some e)
          | None => let t := stats s in
                    (s <| stats := t <| ackRXPackets := u64 (ackRXPackets t + 1) |> |>, [], None)
          end
      else if bool_decide (kind = packetPing) then
        if negb (zlen packet =? 1) then (s, [], Some (Sent ErrHandshake))
        else (signalLocked (s <| pongDirty := true |>), [], None)
      else if bool_decide (kind = packetPong) then
        if negb (zlen packet =? 1) then (s, [], Some (Sent ErrHandshake))
        else let t := stats s in
             (set_current (s <| stats := t <| heartbeatRX := u64 (heartbeatRX t + 1) |> |>)
                (b <| lastHeartbeat := now |>), [], None)
      else if bool_decide (kind = packetClose) then (s, [GoCloseWithError (Sent EOF)], None)
      else if bool_decide (kind = packetHelloID) then
        if (zlen packet =? 18) && bool_decide (at_ packet 1 = Version)
        then (s <| pendingHelloID := slice_from packet 2 |> <| havePendingHello := true |>, [], None)
        else (s, [], None)
      else if bool_decide (kind = packetHello) then
        let '(s, e) := handleHello s b packet in (s, [], e)
      else if bool_decide (kind = packetReject) then (s, [], Some (Sent ErrRejected))
      else (s, [], Some (Sent ErrHandshake))
    end
  end.

(** ** Binding and detaching *)

(** [attach]; [connMTU] is [conn.MTU()]. *)
Definition attach (s : Session) (c : nat) (connMTU mtu now : Z) : Session * list effect * err :=
  if closed s then (s, [], Some (sessionErrorLocked s))
  else
  let old := current s in
  let g := u64 (bindGen s + 1) in
  let b := mkBinding c g (Z.min (normalizeMTU connMTU) (normalizeMTU mtu)) now now 0
             false now 0 (txBase s) 0 0 initialFlightWindowPackets in
  let s := s <| bindGen := g |> <| rxPending := ∅ |> <| rxPendingBytes := 0 |>
             <| current := Some b |> <| detachedAt := 0 |> in
  let s := if ackDirty s then s <| ackDeadline := now |> else s in
  (signalLocked s,
   match old with Some o => [Cancel (gen o); CloseConn (conn o)] | None => [] end ++ [GoLoops g],
   None).

(** [BindClient], first critical section: the HELLO packets to send. *)
Definition BindClient_hello (s : Session) (connMTU : Z) : result (bytes * bytes) :=
  if closed s then inl (sessionErrorLocked s)
  else inr (encodeHello (id s) (rxNext s) (config s) connMTU).

(** What the reply loop of [BindClient] waits for. *)
Inductive handshakeEvent :=
  | EvPacket (p : bytes)
  | EvRetry                   (* the retransmit timer *)
  | EvClosed                  (* the receive channel was closed *)
  | EvDone (e : error).       (* the context ended *)

(** The reply loop: how often the HELLO pair was sent again, and the outcome;
    [None] while it still waits. *)
Fixpoint handshakeReply (events : list handshakeEvent) (resent : nat)
    : nat * option (result (Z * Config * Z)) :=
  match events with
  | [] => (resent, None)
  | EvDone e :: _ => (resent, Some (inl e))
  | EvRetry :: events => handshakeReply events (S resent)
  | EvClosed :: _ => (resent, Some (inl closedDuringHandshake))
  | EvPacket p :: events =>
      if (0 <? zlen p) && bool_decide (at_ p 0 = packetReject)
      then (resent, Some (inl (RejectedError (bytes_str (slice_from p 1)))))
      else match decodeHelloAck p with
           | inr ack => (resent, Some (inr ack))
           | inl _ => handshakeReply events resent
           end
  end.

(** [BindClient] after the reply, up to [attach]: the packet size to attach
    with; [cfg] is the config its HELLO offered. *)
Definition BindClient_finish (s : Session) (connMTU : Z) (cfg : Config)
    (peerExpected : Z) (peerCfg : Config) (peerMTU : Z) : Session * result Z :=
  if Compression cfg && negb (Compression peerCfg) then (s, inl (Sent ErrCompression))
  else if negb (Compression cfg) && Compression peerCfg then (s, inl (Sent ErrHandshake))
  else
  let '(s, e) := reconcilePeerLocked s peerExpected in
  match e with
  | Some e => (s, inl e)
  | None => (negotiateLocked s peerCfg, inr (Z.min (normalizeMTU connMTU) peerMTU))
  end.

(** [BindServer] up to [conn.Send]: the HELLO_ACK and the packet size to attach
    with.  The config check before the lock reads the same config, which only
    another bootstrap could change. *)
Definition BindServer_ack (s : Session) (connMTU : Z) (hello : Hello) : Session * result (bytes * Z) :=
  if negb (Matches s (h_ID hello)) then (s, inl (Sent ErrRejected))
  else if negb (Bool.eqb (h_Compression hello) (Compression (config s)))
  then (s, inl (Sent ErrCompression))
  else if closed s then (s, inl (sessionErrorLocked s))
  else
  let '(s, e) := reconcilePeerLocked s (ExpectedRemote hello) in
  match e with
  | Some e => (s, inl e)
  | None =>
    let peerCfg := mkConfig (h_ResumeTimeout hello) 0 (h_MaxConnections hello) (h_Compression hello) in
    let m := Z.min (normalizeMTU connMTU) (normalizeMTU (AdvertisedPacketMTU hello)) in
    let s := negotiateLocked s peerCfg in
    (s, inr (encodeHelloAck (rxNext s) (config s) m, m))
  end.

Definition failBinding (s : Session) (g detached : Z) (reason : error) : Session * list effect :=
  match bound_to s g with
  | None => (s, [])
  | Some b =>
      (signalLocked
         (s <| current := None |> <| detachedAt := detached |>
            <| detachCount := u64 (detachCount s + 1) |> <| lastDetachReason := error_text reason |>),
       [Cancel g; GoExpireAfter detached (ResumeTimeout (config s)); CloseConn (conn b)])
  end.

(** [receiveLoop]: one turn, the channel closed or a packet. *)
Definition receiveLoop_turn (s : Session) (g : Z) (packet : option bytes) (now : Z)
    : Session * list effect * bool :=
  match packet with
  | None =>
      let '(s, eff) := failBinding s g now (ErrNew "BLE receive channel closed") in (s, eff, false)
  | Some p =>
      let '(s, eff, e) := handlePacket s g p now in
      match e with
      | None => (s, eff, true)
      | Some e =>
          let '(s, eff') := failBinding s g now (ErrWrap "receive packet: " e "") in
          (s, eff ++ eff', false)
      end
  end.

Definition closeWithError (s : Session) (e : error) : Session * list effect :=
  if closed s then (s, [])
  else
    (signalLocked (s <| closed := true |> <| err_ := Some e |> <| current := None |>),
     match current s with Some b => [Cancel (gen b); CloseConn (conn b)] | None => [] end).

(** [expireAfter] once its timer fired. *)
Definition expireAfter (s : Session) (detached : Z) : Session * list effect :=
  if negb (closed s) && bool_decide (current s = None) && (detachedAt s =? detached)
  then closeWithError s (Sent ErrResumeTimeout) else (s, []).

(** [Close]: the CLOSE packet, if a binding is there to carry it, then
    [closeWithError]. *)
Definition Close (s : Session) : option bytes * Session * list effect :=
  let packet := match current s with Some _ => Some [packetClose] | None => None end in
  let '(s, eff) := closeWithError s (Sent EOF) in (packet, s, eff).

(** ** The byte stream *)

(** One turn of the loops of [Read] and [Write]. *)
Inductive readTurn := ReadData (p : bytes) | ReadError (e : error) | ReadWait (n deadline : Z).

Definition Read (s : Session) (n : Z) : Session * readTurn :=
  if n =? 0 then (s, ReadData [])
  else if 0 <? zlen (rxBuf s) then
    let k := Z.min n (zlen (rxBuf s)) in
    (signalLocked (s <| rxBuf := slice_from (rxBuf s) k |>), ReadData (slice_to (rxBuf s) k))
  else if closed s then (s, ReadError (sessionErrorLocked s))
  else (s, ReadWait (notify s) (readDeadline s)).

Inductive writeTurn := Wrote (n : Z) | WriteError (e : error) | WriteWait (n deadline : Z).

Definition writeSpace (s : Session) : Z :=
  let space := ReplayWindow (config s) - zlen (txBuf s) in
  match current s with
  | Some _ => Z.min space (liveWriteWindow - zlen (txBuf s))
  | None => space
  end.

Definition Write_turn (s : Session) (p : bytes) : Session * writeTurn :=
  if closed s then (s, WriteError (sessionErrorLocked s))
  else if 0 <? writeSpace s then
    let n := Z.min (writeSpace s) (zlen p) in
    if max_u64 - txNext s <? n then (s, WriteError (Sent ErrSequenceExhausted))
    else (signalLocked (s <| txBuf := txBuf s ++ slice_to p n |> <| txNext := u64 (txNext s + n) |>),
          Wrote n)
  else (s, WriteWait (notify s) (writeDeadline s)).

(** [Write] until it returns or has to wait: [(written, outcome)], where the
    outcome is the error it returns, or the wait it blocks in. *)
Fixpoint Write (fuel : nat) (s : Session) (p : bytes) (written : Z) : Session * Z * option writeTurn :=
  if zlen p =? 0 then (s, written, None) else
  match fuel with
  | O => (s, written, None)
  | S fuel =>
      match Write_turn s p with
      | (s, Wrote n) => Write fuel s (slice_from p n) (written + n)
      | (s, t) => (s, written, Some t)
      end
  end.

(** [waitForSignal]: what happened first, when several could have. *)
Inductive waitEvent := Notified | DoneClosed | TimerFired.

Definition waitForSignal (deadline now : Z) (ev : waitEvent) : err :=
  if deadline =? 0 then None
  else if deadline - now <=? 0 then Some TimeoutError
  else match ev with TimerFired => Some TimeoutError | _ => None end.

(** ** Queries and deadlines *)

Definition IsBound (s : Session) : bool :=
  negb (bool_decide (current s = None)) && negb (closed s).

Definition PacketMTU (s : Session) : Z :=
  match current s with
  | Some b => if closed s then 0 else mtu b
  | None => 0
  end.

(** One turn of [WaitBound]: [None] is waiting on [notify]. *)
Definition WaitBound (s : Session) : option err :=
  if closed s then Some (Some (sessionErrorLocked s))
  else match current s with Some _ => Some None | None => None end.

Definition SetReadDeadline (s : Session) (d : Z) : Session := signalLocked (s <| readDeadline := d |>).
Definition SetWriteDeadline (s : Session) (d : Z) : Session := signalLocked (s <| writeDeadline := d |>).
Definition SetDeadline (s : Session) (d : Z) : Session :=
  signalLocked (s <| readDeadline := d |> <| writeDeadline := d |>).
