(* ===== verification/LinkReceive.v ===== *)
(** * The receive window of the reliable session

    Invariant of [rxPending] and [rxBuf], its preservation by
    [acceptDataLocked], and what the operation delivers: against any stream
    [σ] that the received packets are fragments of, the receiver holds exactly
    a prefix of [σ], never conflicts, and a packet that fills the gap is always
    accepted once the application has drained the buffer. *)

From S2P Require Export LinkSession.

(** The retained fragments lie in [lo, hi), are not empty and do not overlap. *)
Definition pend_ok (m : gmap Z bytes) (lo hi : Z) : Prop :=
  (forall k p, m !! k = Some p -> lo <= k /\ 0 < zlen p /\ k + zlen p <= hi) /\
  (forall k1 p1 k2 p2, m !! k1 = Some p1 -> m !! k2 = Some p2 -> k1 < k2 -> k1 + zlen p1 <= k2).

Definition pendingBytes (m : gmap Z bytes) : Z := msum (fun _ p => zlen p) m.

(** The upper end of the receive window, within the sequence space. *)
Definition rx_limit (s : Session) : Z := Z.min max_u64 (rxNext s + ReplayWindow (config s)).

Record rx_inv (s : Session) : Prop := {
  rx_range : 0 <= rxNext s <= max_u64;
  rx_window_pos : 0 < ReplayWindow (config s);
  rx_pend : pend_ok (rxPending s) (rxNext s + 1) (rx_limit s);
  rx_bytes : rxPendingBytes s = pendingBytes (rxPending s);
  rx_window : zlen (rxBuf s) + rxPendingBytes s <= ReplayWindow (config s);
  rx_count : Z.of_nat (size (rxPending s)) <= maxFlightWindowPackets
}.

(** The receiver holds a prefix of [σ]: [consumed] was read by the
    application, [rxBuf] is next, and every retained fragment is in place. *)
Record rx_stream (σ consumed : bytes) (s : Session) : Prop := {
  rs_prefix : consumed ++ rxBuf s = slice_to σ (rxNext s);
  rs_bound : rxNext s <= zlen σ;
  rs_pend : forall k p, rxPending s !! k = Some p -> fragment σ k p
}.

Lemma pend_ok_empty lo hi : pend_ok ∅ lo hi.
Proof. split; intros; simplify_map_eq. Qed.

Lemma pend_ok_sub m m' lo hi :
  m' ⊆ m -> pend_ok m lo hi -> pend_ok m' lo hi.
Proof.
  intros Hsub [H1 H2]. split; intros *.
  - intros. by eapply H1, lookup_weaken.
  - intros. eapply H2; by eauto using lookup_weaken.
Qed.

Lemma pend_ok_weaken m lo hi lo' hi' :
  lo' <= lo -> hi <= hi' -> pend_ok m lo hi -> pend_ok m lo' hi'.
Proof. intros ? ? [H1 H2]. split; [|done]. intros k p Hk. specialize (H1 k p Hk). lia. Qed.

(** ** The overlap loop *)

(** Bytes of a fragment that a packet ending at [end_] covers. *)
Definition covered (end_ k : Z) (p : bytes) : Z :=
  if k <? end_ then Z.min end_ (k + zlen p) - k else 0.

Definition coveredSum (end_ : Z) (l : list (Z * bytes)) : Z :=
  foldr (fun kp n => covered end_ kp.1 kp.2 + n) 0 l.

(** The entries of a window, as a list the loops run over. *)
Definition entries_ok (l : list (Z * bytes)) (lo hi : Z) : Prop :=
  forall k p, (k, p) ∈ l -> lo <= k /\ 0 < zlen p /\ k + zlen p <= hi.

Lemma pend_entries m lo hi : pend_ok m lo hi -> entries_ok (map_to_list m) lo hi.
Proof. intros [H _] k p Hin. apply H. by apply elem_of_map_to_list. Qed.

Lemma entries_ok_cons k p l lo hi :
  entries_ok ((k, p) :: l) lo hi ->
  (lo <= k /\ 0 < zlen p /\ k + zlen p <= hi) /\ entries_ok l lo hi.
Proof. intros H. split; [apply H; by left|]. intros ???. apply H. by right. Qed.

(** A packet at the delivered offset whose bytes agree with every fragment is
    counted exactly; it never conflicts. *)
Lemma overlapLoop_at_next σ next end_ payload l ov hi :
  0 <= next -> entries_ok l (next + 1) hi -> hi <= max_u64 ->
  end_ = next + zlen payload -> end_ <= max_u64 ->
  fragment σ next payload -> (forall k p, (k, p) ∈ l -> fragment σ k p) ->
  overlapLoop next next end_ payload l ov = OverlapOK (ov + coveredSum end_ l).
Proof.
  intros Hn0 Hl Hhi Hend Hmax Hf Hfl. revert ov. induction l as [|[k p] l IH]; intros ov.
  { simpl. f_equal. lia. }
  apply entries_ok_cons in Hl as [(Hk & Hp & Hkp) Hl].
  unfold max_u64 in *. cbn [overlapLoop coveredSum foldr fst snd]. fold (coveredSum end_ l).
  unfold covered. rewrite (u64_id (k + zlen p)) by lia. rewrite Z.eqb_refl. cbn [negb].
  rewrite (proj2 (Z.ltb_lt next (k + zlen p))) by lia. cbn [andb].
  destruct (Z.ltb_spec k end_) as [Hlt|Hge].
  - rewrite !u64_id by lia. rewrite bool_decide_eq_true_2.
    + rewrite IH; [f_equal; lia|done|]. intros. apply Hfl. by right.
    + set (n := Z.min end_ (k + zlen p) - k).
      unfold slice. replace (k - next + n - (k - next)) with n by lia.
      apply (fragment_agree σ k).
      * replace k with (next + (k - next)) at 1 by lia.
        apply fragment_slice_from; [lia|done].
      * apply Hfl. by left.
      * unfold n. zl.
      * unfold n. lia.
  - rewrite IH; [f_equal; lia|done|]. intros. apply Hfl. by right.
Qed.

(** In any case at the delivered offset, success counts exactly the covered
    bytes. *)
Lemma overlapLoop_at_next_count next end_ payload l ov n hi :
  0 <= next -> entries_ok l (next + 1) hi -> hi <= max_u64 -> end_ <= max_u64 ->
  overlapLoop next next end_ payload l ov = OverlapOK n -> n = ov + coveredSum end_ l.
Proof.
  intros Hn0 Hl Hhi Hmax. revert ov. induction l as [|[k p] l IH]; intros ov.
  { simpl. intros [= <-]. lia. }
  apply entries_ok_cons in Hl as [(Hk & Hp & Hkp) Hl].
  unfold max_u64 in *. cbn [overlapLoop coveredSum foldr fst snd]. fold (coveredSum end_ l).
  unfold covered. rewrite (u64_id (k + zlen p)) by lia. rewrite Z.eqb_refl. cbn [negb].
  rewrite (proj2 (Z.ltb_lt next (k + zlen p))) by lia. cbn [andb].
  destruct (Z.ltb_spec k end_) as [Hlt|Hge].
  - rewrite !u64_id by lia. case_bool_decide; [|done]. intros Hov%IH; [|done]. lia.
  - intros Hov%IH; [|done]. lia.
Qed.

(** Ahead of the delivered offset a packet is kept only when it overlaps no
    retained fragment. *)
Lemma overlapLoop_ahead next seq end_ payload l ov n hi :
  0 <= next < seq -> entries_ok l (next + 1) hi -> hi <= max_u64 ->
  overlapLoop next seq end_ payload l ov = OverlapOK n ->
  n = ov /\ forall k p, (k, p) ∈ l -> k + zlen p <= seq \/ end_ <= k.
Proof.
  intros Hn Hl Hhi. revert ov. induction l as [|[k p] l IH]; intros ov.
  { simpl. intros [= <-]. split; [done|]. intros ?? Hin. by apply elem_of_nil in Hin. }
  apply entries_ok_cons in Hl as [(Hk & Hp & Hkp) Hl].
  unfold max_u64 in *. cbn [overlapLoop]. rewrite (u64_id (k + zlen p)) by lia.
  rewrite (proj2 (Z.eqb_neq seq next)) by lia. cbn [negb].
  if_cases; [done|]. intros [-> Hrest]%IH; [|done]. split; [done|].
  intros k' p' [[= -> ->]|Hin]%elem_of_cons; [lia|by apply Hrest].
Qed.

Lemma overlapLoop_no_conflict σ next seq end_ payload l ov hi :
  0 <= next <= seq -> entries_ok l (next + 1) hi -> hi <= max_u64 ->
  end_ = seq + zlen payload -> end_ <= max_u64 ->
  fragment σ seq payload -> (forall k p, (k, p) ∈ l -> fragment σ k p) ->
  overlapLoop next seq end_ payload l ov <> OverlapConflict.
Proof.
  intros Hn Hl Hhi Hend Hmax Hf Hfl. destruct (Z.eq_dec seq next) as [->|Hne].
  - erewrite overlapLoop_at_next; done || lia.
  - clear Hf Hfl. revert ov. induction l as [|[k p] l IH]; intros ov; [done|].
    apply entries_ok_cons in Hl as [_ Hl]. cbn [overlapLoop].
    rewrite (proj2 (Z.eqb_neq seq next)) by lia. cbn [negb]. if_cases; [done|]. by apply IH.
Qed.

(** ** The cover loop *)

Record cover_spec (end_ : Z) (l : list (Z * bytes)) (m : gmap Z bytes) (pb : Z) (suf : bytes)
    (m' : gmap Z bytes) (pb' : Z) (suf' : bytes) : Prop := {
  cv_lookup : forall k q, m' !! k = Some q <-> m !! k = Some q /\ (k ∈ l.*1 -> end_ <= k);
  cv_bytes : pb' - pendingBytes m' = pb - pendingBytes m;
  cv_covered : pb' + zlen suf' <= pb + zlen suf - coveredSum end_ l;
  cv_suffix : (suf' = suf \/
    (size m' < size m)%nat /\
    exists k p, (k, p) ∈ l /\ k < end_ < k + zlen p /\ suf' = slice_from p (end_ - k));
  cv_size : (size m' <= size m)%nat
}.

Lemma coverLoop_spec end_ l m pb suf m' pb' suf' hi :
  0 <= end_ <= max_u64 -> entries_ok l 0 hi -> hi <= max_u64 -> NoDup l.*1 ->
  (forall k p, (k, p) ∈ l -> m !! k = Some p) ->
  coverLoop end_ l m pb suf = (m', pb', suf') ->
  cover_spec end_ l m pb suf m' pb' suf'.
Proof.
  intros Hend Hl Hhi Hnd Hm. revert m pb suf Hm.
  induction l as [|[k p] l IH]; intros m pb suf Hm; cbn [coverLoop].
  { intros [= <- <- <-]. split; [|done|simpl; lia|by left|done].
    intros k q. split; [|by intros [? _]]. intros Hk. split; [done|].
    intros Hin. by apply elem_of_nil in Hin. }
  apply entries_ok_cons in Hl as [(Hk & Hp & Hkp) Hl].
  apply NoDup_cons in Hnd as [Hnk Hnd]. cbn [fst fmap list_fmap] in *.
  assert (m !! k = Some p) as Hkm by (apply Hm; by left).
  destruct (Z.leb_spec end_ k) as [Hge|Hlt].
  - intros Heq. apply IH in Heq as [L B C S Z']; [|done..|by intros; apply Hm; right].
    split; [|done| | |done].
    + intros k' q. rewrite L. cbn [fmap list_fmap fst]. rewrite elem_of_cons.
      split; intros [? Hb]; (split; [done|]); [intros [->|?]; [done|by apply Hb]|auto].
    + cbn [coveredSum foldr fst snd]. fold (coveredSum end_ l). unfold covered.
      rewrite (proj2 (Z.ltb_ge k end_)) by lia. lia.
    + destruct S as [?|(? & k' & p' & ? & ? & ?)]; [by left|right]. split; [done|].
      exists k', p'. split; [by right|done].
  - unfold max_u64 in *. rewrite (u64_id (k + zlen p)), (u64_id (end_ - k)) by lia. intros Heq.
    apply IH in Heq as [L B C S Z']; [|done..|].
    2:{ intros k' p' Hin. rewrite lookup_delete_ne; [apply Hm; by right|].
        intros ->. apply Hnk. by apply (list_elem_of_fmap_2 fst _ (k', p')). }
    assert (size m = Datatypes.S (size (delete k m))) as Hsz.
    { rewrite map_size_delete_Some by eauto.
      destruct (size m) eqn:E; [|done]. apply map_size_empty_inv in E. by simplify_map_eq. }
    pose proof (msum_delete (fun _ q => zlen q) m k p Hkm) as Hsum. cbn beta in Hsum.
    split; [|unfold pendingBytes in *; lia| | |lia].
    + intros k' q. rewrite L. cbn [fmap list_fmap fst].
      rewrite elem_of_cons, lookup_delete_Some. split.
      * intros [[? ?] Hb]. split; [done|]. intros [->|?]; [done|by apply Hb].
      * intros [? Hb]. split; [split; [|done]|auto].
        intros ->. specialize (Hb (or_introl eq_refl)). lia.
    + cbn [coveredSum foldr fst snd]. fold (coveredSum end_ l). unfold covered.
      rewrite (proj2 (Z.ltb_lt k end_)) by lia.
      destruct (Z.ltb_spec end_ (k + zlen p)); [|lia].
      rewrite zlen_slice_from in C by lia. pose proof (zlen_nonneg suf). lia.
    + destruct S as [->|(? & k' & p' & ? & ? & ?)].
      * destruct (Z.ltb_spec end_ (k + zlen p)); [right|by left]. split; [lia|].
        exists k, p. split; [by left|]. split; [lia|done].
      * right. split; [lia|]. exists k', p'. split; [by right|done].
Qed.

(** Over the whole map, what remains starts at or after [end_]. *)
Lemma coverLoop_map end_ m pb m' pb' suf' lo hi :
  0 <= end_ <= max_u64 -> 0 <= lo -> pend_ok m lo hi -> hi <= max_u64 ->
  coverLoop end_ (map_to_list m) m pb [] = (m', pb', suf') ->
  pend_ok m' end_ hi /\ m' ⊆ m /\ pb' - pendingBytes m' = pb - pendingBytes m /\
  pb' + zlen suf' <= pb - coveredSum end_ (map_to_list m) /\ (size m' <= size m)%nat /\
  (0 < zlen suf' -> m' !! end_ = None /\ (size m' < size m)%nat /\
     (forall k p, m' !! k = Some p -> end_ + zlen suf' <= k) /\ end_ + zlen suf' <= hi /\
     exists k p, m !! k = Some p /\ k < end_ /\ suf' = slice_from p (end_ - k)).
Proof.
  intros Hend Hlo Hok Hhi Heq. pose proof Hok as [Hin Hdisj].
  apply (coverLoop_spec _ _ _ _ _ _ _ _ hi) in Heq as [L B C S Z'];
    [|done| |done|apply NoDup_fst_map_to_list|by intros ??; apply elem_of_map_to_list].
  2:{ intros k p H%elem_of_map_to_list%Hin. lia. }
  assert (forall k p, m' !! k = Some p -> m !! k = Some p /\ end_ <= k) as Hsub.
  { intros k p. rewrite L. intros [Hk Hb]. split; [done|]. apply Hb.
    by apply (list_elem_of_fmap_2 fst _ (k, p)), elem_of_map_to_list. }
  assert (m' ⊆ m) as Hsub'.
  { apply map_subseteq_spec. intros k p [H _]%Hsub. done. }
  split; [|split; [done|split; [done|split; [change (zlen []) with 0 in C; lia|split; [done|]]]]].
  - split; [|by eapply pend_ok_sub]. intros k p [H ?]%Hsub. specialize (Hin k p H). lia.
  - intros Hs. destruct S as [->|(Hsz & k & p & Hkp & Hlt & ->)]; [done|].
    apply elem_of_map_to_list in Hkp. rewrite zlen_slice_from in * by lia.
    pose proof (Hin k p Hkp) as Hkb.
    assert (forall k' p', m' !! k' = Some p' -> k + zlen p <= k') as Hafter.
    { intros k' p' [Hk' ?]%Hsub. apply (Hdisj _ _ _ _ Hkp Hk'). lia. }
    split; [|split; [done|split; [|split; [lia|exists k, p; split_and!; done || lia]]]].
    + destruct (m' !! end_) eqn:E; [|done]. apply Hafter in E. lia.
    + intros k' p' H%Hafter. lia.
Qed.

(** ** The drain loop *)

Record drain_spec (next : Z) (buf : bytes) (m : gmap Z bytes) (pb adv hi : Z)
    (next' : Z) (buf' : bytes) (m' : gmap Z bytes) (pb' adv' : Z) : Prop := {
  dr_ok : pend_ok m' (next' + 1) hi;
  dr_sub : m' ⊆ m;
  dr_next : next <= next' <= Z.max next hi;
  dr_bytes : pb' - pendingBytes m' = pb - pendingBytes m;
  dr_window : zlen buf' + pb' = zlen buf + pb;
  dr_adv : adv <= adv';
  dr_size : (size m' <= size m)%nat;
  dr_data : exists x, buf' = buf ++ x /\ zlen x = next' - next /\
    forall σ, (forall k p, m !! k = Some p -> fragment σ k p) -> fragment σ next x
}.

Lemma drainLoop_spec fuel next buf m pb adv next' buf' m' pb' adv' hi :
  (size m <= fuel)%nat -> 0 <= next -> pend_ok m next hi -> hi <= max_u64 ->
  drainLoop fuel next buf m pb adv = (next', buf', m', pb', adv') ->
  drain_spec next buf m pb adv hi next' buf' m' pb' adv'.
Proof.
  revert next buf m pb adv. induction fuel as [|fuel IH]; intros next buf m pb adv Hfuel Hn Hok Hhi;
    cbn [drainLoop]; [|destruct (m !! next) as [p|] eqn:Hp].
  - intros [= <- <- <- <- <-]. assert (m = ∅) as -> by (apply map_size_empty_inv; lia).
    split; auto using pend_ok_empty; try lia. exists []. rewrite app_nil_r.
    split; [done|split; [|auto with frag]]. rewrite zlen_nil. lia.
  - pose proof Hok as [Hin Hdisj]. pose proof (Hin next p Hp) as (_ & Hpp & Hph).
    unfold max_u64 in *. rewrite u64_id by lia. intros Heq.
    assert (size m = S (size (delete next m))) as Hsz.
    { rewrite map_size_delete_Some by eauto.
      destruct (size m) eqn:E; [|done]. apply map_size_empty_inv in E. by simplify_map_eq. }
    apply IH in Heq as [D1 D2 D3 D4 D5 D6 D7 (x & -> & Hx & Hf)]; [|lia|lia| |done].
    2:{ split; intros *.
        - intros [Hne Hk]%lookup_delete_Some. specialize (Hin _ _ Hk).
          specialize (Hdisj _ _ _ _ Hp Hk). lia.
        - intros [_ ?]%lookup_delete_Some [_ ?]%lookup_delete_Some. eauto. }
    pose proof (msum_delete (fun _ q => zlen q) m next p Hp) as Hsum. cbn beta in Hsum.
    rewrite !zlen_app in D5.
    split; rewrite ?zlen_app; [done| |lia|unfold pendingBytes in *; lia|lia|lia|lia|].
    { etrans; [done|]. apply delete_subseteq. }
    exists (p ++ x). rewrite app_assoc. split; [done|]. split; [rewrite zlen_app; lia|].
    intros σ Hσ. apply fragment_concat; [by apply Hσ|]. apply Hf.
    intros k q [_ Hk]%lookup_delete_Some. by apply Hσ.
  - intros [= <- <- <- <- <-]. pose proof Hok as [Hin Hdisj].
    split; auto; try lia.
    + split; [|done]. intros k p Hk. specialize (Hin _ _ Hk). split; [|lia].
      assert (k <> next) by (by intros ->; simplify_eq). lia.
    + exists []. rewrite app_nil_r, zlen_nil. split; [done|split; [lia|auto with frag]].
Qed.

(** ** Filling the gap *)

Record gap_spec (end_ : Z) (buf : bytes) (m : gmap Z bytes) (pb hi : Z)
    (next' : Z) (buf' : bytes) (m' : gmap Z bytes) (pb' adv' : Z) : Prop := {
  gp_ok : pend_ok m' (next' + 1) hi;
  gp_next : end_ <= next' <= Z.max end_ hi;
  gp_bytes : pb' - pendingBytes m' = pb - pendingBytes m;
  gp_window : zlen buf' + pb' <= zlen buf + pb - coveredSum end_ (map_to_list m);
  gp_adv : 1 <= adv';
  gp_size : (size m' <= size m)%nat;
  gp_data : exists x, buf' = buf ++ x /\ zlen x = next' - end_ /\
    forall σ, (forall k p, m !! k = Some p -> fragment σ k p) ->
      fragment σ end_ x /\ forall k p, m' !! k = Some p -> fragment σ k p
}.

Lemma gapFill_spec end_ buf m pb lo hi next' buf' m' pb' adv' :
  0 <= end_ <= max_u64 -> 0 <= lo -> pend_ok m lo hi -> hi <= max_u64 ->
  gapFill end_ buf m pb = (next', buf', m', pb', adv') ->
  gap_spec end_ buf m pb hi next' buf' m' pb' adv'.
Proof.
  intros Hend Hlo Hok Hhi. unfold gapFill.
  destruct (coverLoop end_ _ m pb []) as [[m1 pb1] suf] eqn:Ec.
  eapply coverLoop_map in Ec as (Hok1 & Hsub1 & Hb1 & Hw1 & Hz1 & Hsuf); [|done..].
  assert (exists m2 pb2, (if 0 <? zlen suf then (<[end_ := suf]> m1, pb1 + zlen suf) else (m1, pb1))
            = (m2, pb2) /\
    pend_ok m2 end_ hi /\ pb2 - pendingBytes m2 = pb - pendingBytes m /\
    pb2 <= pb - coveredSum end_ (map_to_list m) /\ (size m2 <= size m)%nat /\
    forall σ, (forall k p, m !! k = Some p -> fragment σ k p) ->
              (forall k p, m2 !! k = Some p -> fragment σ k p)) as (m2 & pb2 & Heq & Hok2 & Hb2 & Hw2 & Hz2 & Hf2).
  { destruct (Z.ltb_spec 0 (zlen suf)) as [Hs|Hs].
    - destruct (Hsuf Hs) as (Hnone & Hlt & Hafter & Hbound & k & p & Hkp & Hke & Hsufeq).
      eexists _, _. split; [done|]. destruct Hok1 as [Hin1 Hd1].
      split; [|split; [|split; [lia|split]]].
      + split; intros *; rewrite !lookup_insert_Some.
        * intros [[<- <-]|[? Hk]]; [lia|by apply Hin1].
        * intros [[<- <-]|[? Hk1]] [[<- <-]|[? Hk2]]; try lia; try by eauto.
          intros. specialize (Hin1 _ _ Hk1). lia.
      + unfold pendingBytes in *. rewrite msum_insert by done. lia.
      + rewrite map_size_insert_None by done. lia.
      + intros σ Hσ k' p'. rewrite lookup_insert_Some. intros [[<- <-]|[? Hk]].
        * rewrite Hsufeq. replace end_ with (k + (end_ - k)) at 1 by lia.
          apply fragment_slice_from; [lia|by apply Hσ].
        * eapply Hσ, lookup_weaken; done.
    - exists m1, pb1. split; [done|]. split; [done|]. pose proof (zlen_nonneg suf).
      split; [lia|split; [lia|split; [lia|]]]. intros σ Hσ k' p' Hk.
      eapply Hσ, lookup_weaken; done. }
  rewrite Heq. intros Hd. eapply drainLoop_spec in Hd as [D1 D2 D3 D4 D5 D6 D7 (x & -> & Hx & Hf)];
    [|done|lia|done..].
  split; try done; try lia. exists x. split; [done|split; [done|]]. intros σ Hσ.
  split; [by apply Hf, Hf2|]. intros k p Hk. eapply Hf2, lookup_weaken; done.
Qed.

(** ** [acceptDataLocked] *)

(** Everything but the receive side, the counters and the notification. *)
Definition keeps_tx (s s' : Session) : Prop :=
  id s' = id s /\ config s' = config s /\ txBase s' = txBase s /\ txNext s' = txNext s /\
  txBuf s' = txBuf s /\ current s' = current s /\ bindGen s' = bindGen s /\
  closed s' = closed s /\ helloReply s' = helloReply s.

Lemma keeps_tx_refl s : keeps_tx s s.
Proof. by repeat split. Qed.

(** The unseen part of a packet: what the trimming at the delivered offset
    leaves. *)
Record trim_spec (next seq : Z) (payload : bytes) (sq : Z) (pl : bytes) : Prop := {
  tm_seq : sq = Z.max seq next;
  tm_end : sq + zlen pl = seq + zlen payload;
  tm_pos : 0 < zlen pl;
  tm_frag : forall σ, fragment σ seq payload -> fragment σ sq pl
}.

Lemma trim_ok next seq payload :
  0 <= seq -> 0 < zlen payload -> 0 <= next < seq + zlen payload ->
  let '(pl, sq) := if seq <? next then (slice_from payload (next - seq), next) else (payload, seq) in
  trim_spec next seq payload sq pl.
Proof.
  intros Hs Hp Hn. destruct (Z.ltb_spec seq next).
  - split; rewrite ?zlen_slice_from by lia; try lia. intros σ Hf.
    replace next with (seq + (next - seq)) at 1 by lia. apply fragment_slice_from; [lia|done].
  - split; try lia. auto.
Qed.

Lemma pend_insert_ahead m lo hi sq pl :
  pend_ok m lo hi -> lo <= sq -> 0 < zlen pl -> sq + zlen pl <= hi ->
  (forall k p, m !! k = Some p -> k + zlen p <= sq \/ sq + zlen pl <= k) ->
  m !! sq = None /\ pend_ok (<[sq := pl]> m) lo hi.
Proof.
  intros [Hin Hd] Hlo Hp Hhi Hno.
  assert (m !! sq = None) as Hnone.
  { destruct (m !! sq) as [p|] eqn:E; [|done]. specialize (Hno _ _ E). specialize (Hin _ _ E). lia. }
  split; [done|]. split; intros *; rewrite !lookup_insert_Some.
  - intros [[<- <-]|[? Hk]]; [lia|by apply Hin].
  - intros [[<- <-]|[? Hk1]] [[<- <-]|[? Hk2]] Hlt; try lia; try by eauto.
    + specialize (Hno _ _ Hk2). specialize (Hin _ _ Hk2). lia.
    + specialize (Hno _ _ Hk1). specialize (Hin _ _ Hk1). lia.
Qed.

(** The outcomes of [acceptDataLocked] that change nothing. *)
Definition accept_idle (r : acceptResult) : Prop :=
  r = rejectedResult \/ exists e, r = (0, false, false, Some e).

Record accept_spec (s : Session) (seq : Z) (payload : bytes) (s' : Session) (r : acceptResult) : Prop := {
  ac_inv : rx_inv s';
  ac_tx : keeps_tx s s';
  ac_next : rxNext s <= rxNext s';
  ac_buf : exists x, rxBuf s' = rxBuf s ++ x /\ zlen x = rxNext s' - rxNext s;
  ac_cases :
    (s' = s /\ accept_idle r) \/
    (r = (0, true, false, None) /\ rxNext s' = rxNext s /\
      rxPending s' = <[seq := payload]> (rxPending s) /\ rxNext s < seq) \/
    (exists n, r = (n, false, false, None) /\ 1 <= n /\ seq + zlen payload <= rxNext s' /\
      rxNext s < rxNext s' /\ notify s' = notify s + 1);
  ac_stream : forall σ consumed, rx_stream σ consumed s -> fragment σ seq payload ->
    seq + zlen payload <= max_u64 ->
    rx_stream σ consumed s' /\ r.2 = None
}.

Lemma accept_spec_idle s seq payload r :
  rx_inv s -> accept_idle r ->
  (forall σ consumed, rx_stream σ consumed s -> fragment σ seq payload ->
     seq + zlen payload <= max_u64 -> r.2 = None) ->
  accept_spec s seq payload s r.
Proof.
  intros. split; [done|apply keeps_tx_refl|lia| |by left|eauto].
  exists []. rewrite app_nil_r, zlen_nil. split; [done|lia].
Qed.

Lemma acceptDataLocked_spec s seq payload s' r :
  rx_inv s -> 0 <= seq < 2 ^ 64 -> 0 < zlen payload ->
  acceptDataLocked s seq payload = (s', r) -> accept_spec s seq payload s' r.
Proof.
  intros Hinv Hseq Hpos. pose proof Hinv as [Hr HW Hpend Hb Hwin Hcount].
  unfold acceptDataLocked, max_u64 in *. if_cases.
  { intros [= <- <-]. apply accept_spec_idle; [done|right; eauto|unfold max_u64; intros; exfalso; lia]. }
  rewrite u64_id by lia. if_cases.
  { intros [= <- <-]. apply accept_spec_idle; [done|by left|done]. }
  pose proof (trim_ok (rxNext s) seq payload ltac:(lia) Hpos ltac:(lia)) as Htrim.
  destruct (if seq <? rxNext s then _ else _) as [pl sq] eqn:Etrim.
  destruct Htrim as [Hsq Hend Hplpos Hfr].
  if_cases; [intros [= <- <-]; apply accept_spec_idle; [done|by left|done]|].
  set (end_ := seq + zlen payload) in *.
  assert (end_ <= rx_limit s) as Hlim by (unfold rx_limit, max_u64; lia).
  assert (rx_limit s <= max_u64) as Hlim2 by (unfold rx_limit, max_u64; lia).
  pose proof (pend_entries _ _ _ Hpend) as Hent.
  destruct (overlapLoop _ sq end_ pl _ 0) as [| |ov] eqn:Eov.
  { intros [= <- <-]. apply accept_spec_idle; [done|by left|done]. }
  { intros [= <- <-]. apply accept_spec_idle; [done|right; eauto|].
    intros σ c [_ _ Hfp] Hf _. exfalso. revert Eov.
    eapply (overlapLoop_no_conflict σ); [lia|done|done|lia|unfold max_u64; lia|by apply Hfr|].
    intros k p Hk%elem_of_map_to_list. by apply Hfp. }
  if_cases; [intros [= <- <-]; apply accept_spec_idle; [done|by left|done]|].
  destruct (Z.ltb_spec (rxNext s) sq) as [Hahead|Hat].
  - if_cases; [intros [= <- <-]; apply accept_spec_idle; [done|by left|done]|].
    intros [= <- <-].
    eapply overlapLoop_ahead in Eov as [-> Hno]; [|lia|done|done].
    rewrite (proj2 (Z.ltb_ge seq (rxNext s))) in Etrim by lia. injection Etrim as <- <-.
    destruct (pend_insert_ahead (rxPending s) (rxNext s + 1) (rx_limit s) seq payload)
      as [Hnone Hok]; [done|lia|done|done| |].
    { intros k p Hk. apply Hno. by apply elem_of_map_to_list. }
    split.
    + split; simpl; [unfold max_u64; lia|done|done| |lia|].
      * unfold pendingBytes in *. rewrite msum_insert by done. lia.
      * rewrite map_size_insert_None by done. lia.
    + by repeat split.
    + simpl. lia.
    + exists []. simpl. rewrite app_nil_r, zlen_nil. split; [done|lia].
    + right; left. simpl. split_and!; done || lia.
    + intros σ c [R1 R2 R3] Hf _. split; [|done]. split; simpl; [done|done|].
      intros k p. rewrite lookup_insert_Some. intros [[<- <-]|[? Hk]]; [done|by apply R3].
  - assert (sq = rxNext s) as -> by lia.
    destruct (gapFill _ _ _ _) as [[[[next buf] m] pb] adv] eqn:Eg.
    eapply gapFill_spec in Eg as [G1 G2 G3 G4 G5 G6 (x & -> & Hx & Hf)];
      [|unfold max_u64; lia| |done|done]; [|lia].
    eapply overlapLoop_at_next_count in Eov as ->; [|lia|done|done|unfold max_u64; lia].
    intros [= <- <-]. rewrite !zlen_app in G4.
    split.
    + split; simpl; [unfold max_u64 in *; lia|done| |lia|rewrite !zlen_app; lia|lia].
      eapply pend_ok_weaken; [| |done]; [lia|]. unfold rx_limit. simpl. lia.
    + by repeat split.
    + simpl. lia.
    + exists (pl ++ x). simpl. rewrite app_assoc, zlen_app. split; [done|lia].
    + right; right. exists adv. simpl. split_and!; done || lia.
    + intros σ c [R1 R2 R3] Hsf _. split; [|done]. apply Hfr in Hsf.
      destruct (Hf σ R3) as [Hfx Hfm].
      pose proof (fragment_bound _ _ _ Hsf Hplpos) as Hbd.
      split; simpl; [| |done].
      * rewrite <- app_assoc, app_assoc, R1, app_assoc.
        rewrite (fragment_extend σ _ pl) by (done || lia).
        replace (rxNext s + zlen pl) with end_ by lia.
        rewrite (fragment_extend σ _ x) by (done || lia). f_equal. lia.
      * destruct (Z.eq_dec (zlen x) 0); [lia|].
        pose proof (fragment_bound _ _ _ Hfx). pose proof (zlen_nonneg x). lia.
Qed.

(** ** The gap filler is accepted *)

(** What the retained fragments hold at or after [end_]. *)
Definition beyond (end_ : Z) (l : list (Z * bytes)) : list (Z * Z) :=
  (fun kp => (Z.max end_ kp.1, kp.1 + zlen kp.2)) <$> l.

Lemma beyond_sum end_ l lo hi :
  entries_ok l lo hi ->
  interval_sum (beyond end_ l) =
  foldr (fun kp n => zlen kp.2 + n) 0 l - coveredSum end_ l.
Proof.
  induction l as [|[k p] l IH]; [done|]. intros [(? & ? & ?) Hl]%entries_ok_cons.
  specialize (IH Hl). cbn [beyond fmap list_fmap interval_sum coveredSum foldr fst snd].
  fold (beyond end_ l) (interval_sum (beyond end_ l)) (coveredSum end_ l). rewrite IH.
  unfold covered. destruct (Z.ltb_spec k end_); lia.
Qed.

Lemma beyond_disjoint end_ m lo hi :
  pend_ok m lo hi ->
  ForallOrdPairs (fun i j => i.2 <= j.1 \/ j.2 <= i.1) (beyond end_ (map_to_list m)).
Proof.
  intros [Hin Hd].
  assert (forall k p, (k, p) ∈ map_to_list m -> m !! k = Some p) as Hm
    by (intros ??; apply elem_of_map_to_list).
  pose proof (NoDup_fst_map_to_list m) as Hnd. revert Hm Hnd.
  induction (map_to_list m) as [|[k p] l IH]; intros Hm Hnd; [constructor|].
  cbn [fmap list_fmap fst] in Hnd. apply NoDup_cons in Hnd as [Hk Hnd].
  constructor; [|apply IH; [intros; apply Hm; by right|done]].
  apply Forall_forall. intros i Hi. apply list_elem_of_fmap in Hi as ([k' p'] & -> & Hi).
  cbn [fst snd]. assert (k <> k') by (intros ->; apply Hk; by apply (list_elem_of_fmap_2 fst _ (k', p'))).
  assert (m !! k = Some p) as H1 by (apply Hm; by left).
  assert (m !! k' = Some p') as H2 by (apply Hm; by right).
  destruct (Z.lt_trichotomy k k') as [Hlt|[?|Hlt]]; [|done|].
  - specialize (Hd _ _ _ _ H1 H2 Hlt). lia.
  - specialize (Hd _ _ _ _ H2 H1 Hlt). lia.
Qed.

(** The bytes a gap filler adds fit the window beside what is retained. *)
Lemma pending_fits m end_ lo hi :
  pend_ok m lo hi -> pendingBytes m - coveredSum end_ (map_to_list m) <= Z.max 0 (hi - end_).
Proof.
  intros Hok. unfold pendingBytes. rewrite msum_list.
  rewrite <- (beyond_sum end_ _ lo hi) by by apply pend_entries.
  apply disjoint_intervals_bound; [|by eapply beyond_disjoint].
  intros i Hi. apply list_elem_of_fmap in Hi as ([k p] & -> & Hi).
  apply elem_of_map_to_list, Hok in Hi. cbn [fst snd]. lia.
Qed.

Lemma acceptDataLocked_gap_filler σ consumed s seq payload :
  rx_inv s -> rx_stream σ consumed s -> rxBuf s = [] ->
  0 <= seq <= rxNext s -> rxNext s < seq + zlen payload <= max_u64 ->
  seq + zlen payload <= rxNext s + ReplayWindow (config s) ->
  fragment σ seq payload ->
  exists s' n, acceptDataLocked s seq payload = (s', (n, false, false, None)) /\ 1 <= n /\
    seq + zlen payload <= rxNext s'.
Proof.
  intros Hinv Hst Hbuf Hseq Hend HW Hf. pose proof Hinv as [Hr HWp Hpend Hb Hwin Hcount].
  assert (0 < zlen payload) as Hpos by lia.
  destruct (acceptDataLocked s seq payload) as [s' r] eqn:Ea.
  pose proof Ea as Hspec. apply acceptDataLocked_spec in Hspec; [|done|unfold max_u64 in *; lia|done].
  destruct (ac_cases _ _ _ _ _ Hspec) as [[-> Hidle]|[(_ & _ & _ & Hlt)|(n & -> & Hn & He & _)]];
    [|lia|by exists s', n].
  exfalso. revert Ea. unfold acceptDataLocked, max_u64 in *.
  rewrite (proj2 (Z.ltb_ge _ _)) by lia. rewrite u64_id by lia.
  rewrite (proj2 (Z.leb_gt _ _)) by lia.
  pose proof (trim_ok (rxNext s) seq payload ltac:(lia) Hpos ltac:(lia)) as Htrim.
  destruct (if seq <? rxNext s then _ else _) as [pl sq] eqn:Etrim.
  destruct Htrim as [Hsq Hpe Hplpos Hfr]. rewrite Z.max_r in Hsq by lia. subst sq.
  rewrite (proj2 (Z.ltb_ge _ _)) by lia.
  assert (rx_limit s <= max_u64) as Hlim by (unfold rx_limit, max_u64; lia).
  erewrite (overlapLoop_at_next σ); cycle 1;
    [lia|by apply pend_entries|done|lia|unfold max_u64; lia|by apply Hfr| |].
  { intros k p Hk%elem_of_map_to_list. by apply (rs_pend _ _ _ Hst). }
  pose proof (pending_fits _ (seq + zlen payload) _ _ Hpend) as Hfit.
  unfold rx_limit in Hfit. rewrite Hbuf, zlen_nil. rewrite <- Hb in Hfit.
  rewrite (proj2 (Z.ltb_ge _ _)) by (unfold max_u64 in *; lia).
  rewrite (proj2 (Z.ltb_ge (rxNext s) (rxNext s))) by lia.
  destruct (gapFill _ _ _ _) as [[[[next buf] m] pb] adv] eqn:Eg.
  intros [= Hs Hrr]. destruct Hidle as [->|[e ->]]; [done|done].
Qed.

(** ** Map iteration order

    Go ranges over [rxPending] in an unspecified order; the loops give the same
    result in every order. *)

Lemma overlapLoop_perm next seq end_ payload l l' ov :
  l ≡ₚ l' -> overlapLoop next seq end_ payload l ov = overlapLoop next seq end_ payload l' ov.
Proof.
  intros Hp. revert ov. induction Hp as [|[k p] l l' Hp IH|[k p] [k' p'] l|l l2 l3 Hp IH Hp2 IH2]; intros ov.
  - done.
  - cbn [overlapLoop]. repeat case_match; auto.
  - cbn [overlapLoop]. destruct (_ && _), (_ && _); try done.
    destruct (negb (seq =? next)); [done|]. repeat case_match; try done. f_equal. lia.
  - congruence.
Qed.

(** At most one retained fragment reaches beyond [end_] from below it. *)
Definition one_straddler (end_ : Z) (l : list (Z * bytes)) : Prop :=
  forall k p k' p', (k, p) ∈ l -> (k', p') ∈ l ->
    k < end_ < u64 (k + zlen p) -> k' < end_ < u64 (k' + zlen p') -> k = k'.

Lemma coverLoop_perm end_ l l' m pb suf :
  l ≡ₚ l' -> NoDup l.*1 -> one_straddler end_ l ->
  coverLoop end_ l m pb suf = coverLoop end_ l' m pb suf.
Proof.
  intros Hp. revert m pb suf.
  induction Hp as [|[k p] l l' Hp IH|[k p] [k' p'] l|l l2 l3 Hp IH Hp2 IH2]; intros m pb suf Hnd Hone.
  - done.
  - cbn [coverLoop]. cbn [fmap list_fmap] in Hnd. apply NoDup_cons in Hnd as [_ Hnd].
    assert (one_straddler end_ l) by (intros ??????; apply Hone; by right).
    case_match; by apply IH.
  - cbn [coverLoop]. cbn [fmap list_fmap fst] in Hnd.
    destruct (Z.leb_spec end_ k), (Z.leb_spec end_ k'); try done.
    rewrite (delete_delete m). replace (pb - zlen p - zlen p') with (pb - zlen p' - zlen p) by lia.
    destruct (Z.ltb_spec end_ (u64 (k + zlen p))), (Z.ltb_spec end_ (u64 (k' + zlen p'))); try done.
    exfalso. apply NoDup_cons in Hnd as [Hk _]. apply Hk.
    assert (k' = k) as -> by (apply (Hone k' p' k p); [by left|by right; left|lia|lia]). by left.
  - rewrite IH by done. apply IH2.
    + by rewrite <- Hp.
    + intros ????; rewrite <- Hp. apply Hone.
Qed.

Lemma pend_one_straddler end_ m lo hi :
  0 <= lo -> hi <= max_u64 -> pend_ok m lo hi -> one_straddler end_ (map_to_list m).
Proof.
  intros Hlo Hhi [Hin Hd] k p k' p' Hk%elem_of_map_to_list Hk'%elem_of_map_to_list.
  pose proof (Hin _ _ Hk). pose proof (Hin _ _ Hk'). unfold max_u64 in *.
  rewrite !u64_id by lia. intros.
  destruct (Z.lt_trichotomy k k') as [Hlt|[?|Hlt]]; [|done|].
  - specialize (Hd _ _ _ _ Hk Hk' Hlt). lia.
  - specialize (Hd _ _ _ _ Hk' Hk Hlt). lia.
Qed.

(** * Properties *)

(** Receiving a DATA packet that is a fragment of the sender's stream never
    fails, keeps the bounded receive window, and leaves the receiver with
    exactly a prefix of the stream; a rejected packet changes nothing. *)
Theorem acceptDataLocked_delivers_prefix σ consumed s seq payload :
  rx_inv s -> rx_stream σ consumed s ->
  0 < zlen payload -> seq + zlen payload <= max_u64 -> fragment σ seq payload ->
  exists s' advanced buffered rejected,
    acceptDataLocked s seq payload = (s', (advanced, buffered, rejected, None)) /\
    rx_inv s' /\ consumed ++ rxBuf s' = slice_to σ (rxNext s') /\ rx_stream σ consumed s' /\
    rxNext s <= rxNext s' /\ (rejected = true -> s' = s) /\ (0 < advanced <-> rxNext s < rxNext s').
Proof.
  intros Hi Hs Hp Hmax Hf. destruct (acceptDataLocked s seq payload) as [s' r] eqn:Ea.
  pose proof Hf as [Hseq _]. unfold max_u64 in Hmax.
  pose proof (acceptDataLocked_spec s seq payload s' r Hi ltac:(lia) Hp Ea) as [A1 A2 A3 A4 A5 A6].
  destruct (A6 σ consumed Hs Hf Hmax) as [Hs' Hr]. destruct r as [[[adv buf] rej] e]. cbn in Hr. subst e.
  exists s', adv, buf, rej. split_and!; try done; [apply Hs'| |].
  - intros ->. destruct A5 as [[? _]|[(Hr & _)|(n & Hr & _)]]; simplify_eq; done.
  - destruct A5 as [[-> [Hr|[e Hr]]]|[(Hr & Hn & _)|(n & Hr & Hn & _ & Hlt & _)]];
      unfold rejectedResult in *; simplify_eq; lia.
Qed.

Definition demoSession : Session := NewSessionWithID (replicate 16 Byte.x00) (mkConfig 0 0 0 false).

Lemma demo_rx_inv : rx_inv demoSession.
Proof.
  split; [by split|done|apply pend_ok_empty|done|done|done].
Qed.

Lemma demo_rx_stream σ : rx_stream σ [] demoSession.
Proof. split; [by destruct σ|cbn; apply zlen_nonneg|]. intros k p Hk. done. Qed.

Lemma demo_fragment : fragment [Byte.x61; Byte.x62; Byte.x63] 1 [Byte.x62; Byte.x63].
Proof. apply (fragment_self [Byte.x61; Byte.x62; Byte.x63] 1). done. Qed.

Lemma acceptDataLocked_delivers_prefix_witness :
  exists s' advanced buffered rejected,
    acceptDataLocked demoSession 1 [Byte.x62; Byte.x63] = (s', (advanced, buffered, rejected, None)) /\
    rx_inv s' /\ [] ++ rxBuf s' = slice_to [Byte.x61; Byte.x62; Byte.x63] (rxNext s') /\
    rx_stream [Byte.x61; Byte.x62; Byte.x63] [] s' /\
    rxNext demoSession <= rxNext s' /\ (rejected = true -> s' = demoSession) /\
    (0 < advanced <-> rxNext demoSession < rxNext s').
Proof.
  apply (acceptDataLocked_delivers_prefix [Byte.x61; Byte.x62; Byte.x63] []
    demoSession 1 [Byte.x62; Byte.x63]);
    [apply demo_rx_inv|apply demo_rx_stream|reflexivity|discriminate|apply demo_fragment].
Defined.

(** A packet that fills the gap is always accepted once the application has
    drained the buffer, whatever fragments are retained: the receive window
    cannot be wedged by what it holds. *)
Theorem gap_filler_accepted σ consumed s seq payload :
  rx_inv s -> rx_stream σ consumed s -> rxBuf s = [] ->
  0 <= seq <= rxNext s -> rxNext s < seq + zlen payload <= max_u64 ->
  seq + zlen payload <= rxNext s + ReplayWindow (config s) ->
  fragment σ seq payload ->
  exists s' n, acceptDataLocked s seq payload = (s', (n, false, false, None)) /\ 1 <= n /\
    seq + zlen payload <= rxNext s'.
Proof. apply acceptDataLocked_gap_filler. Qed.

Lemma gap_filler_accepted_witness :
  let s := (acceptDataLocked demoSession 1 [Byte.x62; Byte.x63]).1 in
  exists s' n, acceptDataLocked s 0 [Byte.x61; Byte.x62] = (s', (n, false, false, None)) /\ 1 <= n /\
    0 + zlen [Byte.x61; Byte.x62] <= rxNext s'.
Proof.
  pose proof (acceptDataLocked_spec demoSession 1 [Byte.x62; Byte.x63] _ _ demo_rx_inv
    ltac:(split; [discriminate|reflexivity]) eq_refl (surjective_pairing _)) as [A1 _ _ _ _ A6].
  destruct (A6 [Byte.x61; Byte.x62; Byte.x63] [] (demo_rx_stream _) demo_fragment) as [Hs _];
    [discriminate|].
  apply (gap_filler_accepted [Byte.x61; Byte.x62; Byte.x63] [] _ 0 [Byte.x61; Byte.x62]);
    [exact A1|exact Hs|vm_compute; reflexivity| | | |].
  - split; [|vm_compute]; discriminate.
  - split; vm_compute; [reflexivity|discriminate].
  - vm_compute. discriminate.
  - apply (fragment_slice_to _ _ [Byte.x61; Byte.x62; Byte.x63] 2).
    apply (fragment_self [Byte.x61; Byte.x62; Byte.x63] 0). done.
Defined.

(** C28. The loops over [rxPending] give the same result in every iteration
    order Go may choose. *)
Theorem accept_order_independent s order seq end_ payload :
  rx_inv s -> order ≡ₚ map_to_list (rxPending s) ->
  overlapLoop (rxNext s) seq end_ payload order 0 =
    overlapLoop (rxNext s) seq end_ payload (map_to_list (rxPending s)) 0 /\
  coverLoop end_ order (rxPending s) (rxPendingBytes s) [] =
    coverLoop end_ (map_to_list (rxPending s)) (rxPending s) (rxPendingBytes s) [].
Proof.
  intros [R1 R2 R3 R4 R5 R6] Hp. split; [by apply overlapLoop_perm|]. symmetry.
  apply coverLoop_perm; [done|apply NoDup_fst_map_to_list|].
  eapply pend_one_straddler; [|unfold rx_limit; apply Z.le_min_l|done]. lia.
Qed.

Lemma accept_order_independent_witness :
  let s := (acceptDataLocked (acceptDataLocked demoSession 1 [Byte.x62]).1 4 [Byte.x63]).1 in
  let order := [(4, [Byte.x63]); (1, [Byte.x62])] in
  overlapLoop (rxNext s) 0 2 [Byte.x61; Byte.x62] order 0 =
    overlapLoop (rxNext s) 0 2 [Byte.x61; Byte.x62] (map_to_list (rxPending s)) 0 /\
  coverLoop 2 order (rxPending s) (rxPendingBytes s) [] =
    coverLoop 2 (map_to_list (rxPending s)) (rxPending s) (rxPendingBytes s) [].
Proof.
  pose proof (acceptDataLocked_spec demoSession 1 [Byte.x62] _ _ demo_rx_inv
    ltac:(split; [discriminate|reflexivity]) eq_refl (surjective_pairing _)) as [A1 _ _ _ _ _].
  pose proof (acceptDataLocked_spec _ 4 [Byte.x63] _ _ A1
    ltac:(split; [discriminate|reflexivity]) eq_refl (surjective_pairing _)) as [A2 _ _ _ _ _].
  apply accept_order_independent; [exact A2|].
  assert (map_to_list (rxPending (acceptDataLocked (acceptDataLocked demoSession 1 [Byte.x62]).1 4
    [Byte.x63]).1) = [(1, [Byte.x62]); (4, [Byte.x63])]
    \/ map_to_list (rxPending (acceptDataLocked (acceptDataLocked demoSession 1 [Byte.x62]).1 4
    [Byte.x63]).1) = [(4, [Byte.x63]); (1, [Byte.x62])]) as [-> | ->]
    by (first [left; vm_compute; reflexivity|right; vm_compute; reflexivity]).
  - apply Permutation_swap.
  - reflexivity.
Defined.
