(* ===== verification/LinkSend.v ===== *)
(** * The send window of the reliable session

    Invariant of the replay buffer ([txBase], [txNext], [txBuf]) and of a
    binding's send state ([sendNext], [retransmitAt], [flightPackets]), its
    preservation by [reconcilePeerLocked], [handleAckLocked],
    [nextPacketLocked] and [Write], and what they guarantee: every DATA packet
    is a fragment of the written stream within the packet size and the flight
    window, acknowledgements only ever remove acknowledged bytes, and
    unacknowledged bytes are sent again when the retransmit timer expires. *)

From S2P Require Export LinkReceive.

Record tx_inv (s : Session) : Prop := {
  tx_range : 0 <= txBase s <= txNext s /\ txNext s <= max_u64;
  tx_len : zlen (txBuf s) = txNext s - txBase s;
  tx_window : zlen (txBuf s) <= ReplayWindow (config s)
}.

(** [σ] is everything [Write] ever accepted; the replay buffer is its tail from
    the first unacknowledged byte on. *)
Record tx_stream (σ : bytes) (s : Session) : Prop := {
  ts_next : txNext s = zlen σ;
  ts_buf : txBuf s = slice_from σ (txBase s)
}.

Record binding_inv (base next : Z) (b : binding) : Prop := {
  bi_mtu : minimumPacketMTU <= mtu b <= 244;
  bi_flight : initialFlightWindowPackets <= flightPackets b <= maxFlightWindowPackets;
  bi_next : 0 <= sendNext b <= next;
  bi_timer : 0 <= retransmitAt b;
  bi_armed : base < sendNext b -> 0 < retransmitAt b
}.

Lemma binding_inv_mono base next base' next' b :
  binding_inv base next b -> base <= base' -> next <= next' -> binding_inv base' next' b.
Proof.
  intros [B1 B2 B3 B4 B5] Hb Hn. split; [done|done|lia|done|]. intros. apply B5. lia.
Qed.

(** The receive side and the identity of a session. *)
Definition keeps_rx (s s' : Session) : Prop :=
  id s' = id s /\ config s' = config s /\ rxNext s' = rxNext s /\ rxBuf s' = rxBuf s /\
  rxPending s' = rxPending s /\ rxPendingBytes s' = rxPendingBytes s /\
  bindGen s' = bindGen s /\ closed s' = closed s.

Lemma keeps_rx_refl s : keeps_rx s s.
Proof. by repeat split. Qed.

Lemma keeps_rx_trans s1 s2 s3 : keeps_rx s1 s2 -> keeps_rx s2 s3 -> keeps_rx s1 s3.
Proof.
  unfold keeps_rx. intros H1 H2. destruct_and!. split_and!; congruence.
Qed.

Lemma rx_inv_keeps s s' : keeps_rx s s' -> rx_inv s -> rx_inv s'.
Proof.
  intros (_ & Hc & Hn & Hb & Hp & Hpb & _) [R1 R2 R3 R4 R5 R6].
  assert (rx_limit s' = rx_limit s) as Hl by (unfold rx_limit; congruence).
  split; rewrite ?Hl, ?Hc, ?Hn, ?Hb, ?Hp, ?Hpb; done.
Qed.

Lemma rx_stream_keeps σ c s s' : keeps_rx s s' -> rx_stream σ c s -> rx_stream σ c s'.
Proof.
  intros (_ & Hc & Hn & Hb & Hp & Hpb & _) [R1 R2 R3]. split; rewrite ?Hn, ?Hb, ?Hp; done.
Qed.

Lemma tx_inv_keeps s s' :
  config s' = config s -> txBase s' = txBase s -> txNext s' = txNext s -> txBuf s' = txBuf s ->
  tx_inv s -> tx_inv s'.
Proof. intros Hc Hb Hn Hu [T1 T2 T3]. split; rewrite ?Hc, ?Hb, ?Hn, ?Hu; done. Qed.

(** ** Acknowledgement *)

Record reconcile_spec (s : Session) (expected : Z) (s' : Session) : Prop := {
  rc_range : txBase s <= expected <= txNext s;
  rc_base : txBase s' = expected;
  rc_next : txNext s' = txNext s;
  rc_buf : txBuf s' = slice_from (txBuf s) (expected - txBase s);
  rc_rx : keeps_rx s s';
  rc_current : current s' = current s;
  rc_inv : tx_inv s';
  rc_stream : forall σ, tx_stream σ s -> tx_stream σ s'
}.

Lemma reconcilePeerLocked_spec s expected s' e :
  tx_inv s -> reconcilePeerLocked s expected = (s', e) ->
  match e with
  | None => reconcile_spec s expected s'
  | Some e => s' = s /\ errors_Is e ErrSessionState = true /\ ~ txBase s <= expected <= txNext s
  end.
Proof.
  intros [[? ?] T2 T3]. unfold reconcilePeerLocked, max_u64 in *.
  destruct (validatePeerExpected _ _ _) as [err|] eqn:Ev.
  { intros [= <- <-]. split; [done|]. split; [by eapply validatePeerExpected_Some|].
    intros Hr. apply validatePeerExpected_None in Hr. congruence. }
  apply validatePeerExpected_None in Ev. rewrite u64_id by lia.
  destruct (Z.ltb_spec 0 (expected - txBase s)) as [Hd|Hd]; intros [= <- <-].
  - split; try done; cbn.
    + split; cbn; [unfold max_u64; lia| |]; rewrite zlen_slice_from by lia; lia.
    + intros σ [S1 S2]. split; cbn; [done|]. rewrite S2, slice_from_slice_from by lia.
      f_equal. lia.
  - assert (expected = txBase s) as -> by lia.
    split; try done.
    by rewrite Z.sub_diag, slice_from_0.
Qed.

Lemma reduceFlightWindow_range b :
  flightPackets b <= maxFlightWindowPackets ->
  initialFlightWindowPackets <= flightPackets (reduceFlightWindow b) <= maxFlightWindowPackets.
Proof.
  unfold reduceFlightWindow, initialFlightWindowPackets, maxFlightWindowPackets, ackBatchPackets.
  intros Hf. assert (flightPackets b / 2 <= 64) by (apply Z.div_le_upper_bound; lia).
  destruct (Z.ltb_spec (flightPackets b) 8); cbn [flightPackets upd]; [|lia].
  change (8 / 2) with 4. lia.
Qed.

Lemma handleAckLocked_spec s b expected now s' b' e :
  tx_inv s -> binding_inv (txBase s) (txNext s) b -> 0 <= now ->
  handleAckLocked s b expected now = (s', b', e) ->
  tx_inv s' /\ binding_inv (txBase s') (txNext s') b' /\ keeps_rx s s' /\ current s' = current s /\
  gen b' = gen b /\ mtu b' = mtu b /\ conn b' = conn b /\ txNext s' = txNext s /\
  (forall σ, tx_stream σ s -> tx_stream σ s') /\
  match e with
  | None => txBase s' = Z.max (txBase s) expected /\ expected <= txNext s
  | Some e => s' = s /\ errors_Is e ErrSessionState = true /\ txNext s < expected
  end.
Proof.
  intros Htx Hb Hnow. pose proof Hb as [B1 B2 B3 B4 B5]. unfold handleAckLocked.
  destruct (Z.ltb_spec expected (txBase s)) as [Hold|Hge].
  { intros [= <- <- <-]. pose proof Htx as [[? ?] ? ?].
    split_and!; try done; auto using keeps_rx_refl; lia. }
  destruct (reconcilePeerLocked s expected) as [s1 e1] eqn:Er.
  apply reconcilePeerLocked_spec in Er; [|done]. destruct e1 as [e1|].
  { destruct Er as (-> & Her & Hno). intros [= <- <- <-].
    split_and!; try done; auto using keeps_rx_refl. lia. }
  destruct Er as [E1 E2 E3 E4 E5 E6 E7 E8]. rewrite <- E2 in E1.
  unfold initialFlightWindowPackets, maxFlightWindowPackets, ackBatchPackets, retransmitInterval,
    Second, Millisecond in *.
  destruct (Z.ltb_spec (txBase s) (txBase s1)) as [Hadv|Hsame].
  - cbn. rewrite (proj2 (Z.ltb_ge (flightPackets b) 8)) by lia.
    repeat (cbn; if_cases); intros [= <- <- <-]; cbn in *;
      (split_and!; try done; [|lia..]); split; cbn; unfold initialFlightWindowPackets,
      maxFlightWindowPackets, ackBatchPackets; lia.
  - destruct (andb _ _) eqn:Edup.
    + unfold fastRetransmitACKs. cbn [duplicateACK upd]. if_cases; intros [= <- <- <-].
      * split_and!; try done; cbn; try lia.
        -- eapply tx_inv_keeps; [..|exact E7]; done.
        -- pose proof (reduceFlightWindow_range b ltac:(unfold maxFlightWindowPackets; lia)) as Hr.
           pose proof (tx_range _ E7). split; [done|exact Hr|cbn; lia..].
        -- intros σ Hσ. destruct (E8 σ Hσ). split; done.
      * split_and!; try done; cbn; try lia. rewrite E3. split; cbn; try done.
        intros. apply B5. lia.
    + intros [= <- <- <-]. split_and!; try done; try lia.
      eapply binding_inv_mono; [done|lia|lia].
Qed.

(** ** Sending DATA *)

Lemma u64_le z : 0 <= z -> u64 z <= z.
Proof. intros. unfold u64. by apply Z.mod_le. Qed.

Lemma repairSendNext_inv s b :
  tx_inv s -> binding_inv (txBase s) (txNext s) b ->
  binding_inv (txBase s) (txNext s) (repairSendNext s b) /\
  txBase s <= sendNext (repairSendNext s b).
Proof.
  intros [[? ?] ? ?] Hb. pose proof Hb as [B1 B2 B3 B4 B5]. unfold repairSendNext.
  if_cases.
  - split; [|cbn; lia]. split; try done; cbn; lia.
  - split; [done|lia].
Qed.

(** What a DATA packet taken from the replay buffer is. *)
Record data_spec (s : Session) (b : binding) (packet : bytes) (seq : Z) (payload : bytes) : Prop := {
  dp_packet : packet = dataPacket seq payload;
  dp_seq : txBase s <= seq;
  dp_end : seq + zlen payload <= txNext s;
  dp_flight : seq + zlen payload <= txBase s + (mtu b - 9) * flightPackets b;
  dp_size : 0 < zlen payload <= mtu b - 9;
  dp_fragment : forall σ, tx_stream σ s -> fragment σ seq payload
}.

Lemma fragment_slice_of_stream (σ : bytes) base seq n :
  0 <= base <= seq -> fragment σ seq (slice (slice_from σ base) (seq - base) (seq - base + n)).
Proof.
  intros. replace seq with (base + (seq - base)) at 1 by lia.
  apply fragment_slice; [lia|]. apply fragment_self. lia.
Qed.

Lemma sendWindow_spec s b now packet s' b' :
  tx_inv s -> binding_inv (txBase s) (txNext s) b -> txBase s <= sendNext b -> 0 < now ->
  sendWindow s b now = (packet, s', b') ->
  s' = s /\ binding_inv (txBase s) (txNext s) b' /\ gen b' = gen b /\ mtu b' = mtu b /\
  conn b' = conn b /\ flightPackets b' = flightPackets b /\
  match packet with
  | Some p => exists payload, data_spec s b' p (sendNext b) payload /\
                sendNext b' = sendNext b + zlen payload
  | None => b' = b /\ (txNext s <= sendNext b \/ u64 (txBase s + (mtu b - 9) * flightPackets b) <= sendNext b)
  end.
Proof.
  intros [[T1 T1'] T2 T3] Hb Hsn Hnow. pose proof Hb as [B1 B2 B3 B4 B5]. unfold sendWindow.
  unfold minimumPacketMTU, initialFlightWindowPackets, maxFlightWindowPackets, ackBatchPackets,
    max_u64 in *.
  rewrite (proj2 (Z.ltb_ge (mtu b - 9) 1)), (proj2 (Z.ltb_ge (flightPackets b) 8)) by lia.
  assert (0 < (mtu b - 9) * flightPackets b <= 235 * 128) as Hfw by nia.
  rewrite (u64_id (_ * _)) by lia.
  pose proof (u64_le (txBase s + (mtu b - 9) * flightPackets b) ltac:(lia)) as Hwrap.
  set (wend := Z.min _ _). destruct (Z.ltb_spec (sendNext b) wend) as [Hlt|Hge].
  2:{ intros [= <- <- <-]. split_and!; try done. lia. }
  set (n := Z.min (mtu b - 9) (wend - sendNext b)) in *.
  rewrite (u64_id (sendNext b - txBase s)) by lia.
  set (b1 := if _ && _ then _ else b).
  assert (sendNext b1 = sendNext b) as -> by (unfold b1; by destruct (_ && _)).
  rewrite (u64_id (sendNext b + n)) by lia. intros [= <- <- <-].
  assert (binding_inv (txBase s) (txNext s) b1 /\ gen b1 = gen b /\ mtu b1 = mtu b /\
    conn b1 = conn b /\ flightPackets b1 = flightPackets b /\ 0 < retransmitAt b1)
    as ([C1 C2 C3 C4 C5] & G & M & C & F & R).
  { unfold b1. destruct (andb _ _) eqn:E; bool2prop; cbn.
    - split_and!; try done; unfold retransmitInterval, Second, Millisecond in *; [|lia].
      split; try done; cbn; lia.
    - split_and!; try done. apply andb_false_iff in E as [E|E]; bool2prop; lia. }
  assert (zlen (slice (txBuf s) (sendNext b - txBase s) (sendNext b - txBase s + n)) = n) as Hlen
    by (rewrite zlen_slice; lia).
  split_and!; try done.
  - split; cbn; try done. lia.
  - eexists. rewrite Hlen. split; [|done].
    split; cbn [sendNext mtu flightPackets upd]; rewrite ?Hlen, ?M, ?F; try lia; [done|].
    intros σ [S1 S2]. rewrite S2. apply fragment_slice_of_stream. lia.
Qed.

Lemma retransmit_inv base next b now :
  0 <= base <= next -> binding_inv base next b -> 0 < now ->
  let b' := reduceFlightWindow (b <| sendNext := base |> <| retransmitAt := now + retransmitInterval |>
                                  <| duplicateACK := 0 |>) in
  binding_inv base next b' /\ sendNext b' = base /\ gen b' = gen b /\ mtu b' = mtu b /\ conn b' = conn b.
Proof.
  intros Hr [B1 B2 B3 B4 B5] Hnow. pose proof (reduceFlightWindow_range b ltac:(lia)) as Hf.
  cbn zeta. split_and!; try done. unfold retransmitInterval, Second, Millisecond.
  split; [done|exact Hf|cbn; lia..].
Qed.

(** Everything but [txBase], [txNext] and [txBuf] that [nextPacketLocked] may
    not change. *)
Definition keeps_tx_fields (s s' : Session) : Prop :=
  txBase s' = txBase s /\ txNext s' = txNext s /\ txBuf s' = txBuf s.

Lemma tx_keeps s s' :
  keeps_rx s s' -> keeps_tx_fields s s' -> tx_inv s -> tx_inv s'.
Proof. intros (_ & ? & _) (? & ? & ?). by apply tx_inv_keeps. Qed.

Lemma tx_stream_keeps σ s s' : keeps_tx_fields s s' -> tx_stream σ s -> tx_stream σ s'.
Proof. intros (Hb & Hn & Hu) [S1 S2]. split; rewrite ?Hb, ?Hn, ?Hu; done. Qed.

Lemma nextDataLocked_spec s b now packet s' b' :
  tx_inv s -> binding_inv (txBase s) (txNext s) b -> 0 < now ->
  nextDataLocked s b now = (packet, s', b') ->
  keeps_rx s s' /\ keeps_tx_fields s s' /\ current s' = current s /\
  binding_inv (txBase s) (txNext s) b' /\ gen b' = gen b /\ mtu b' = mtu b /\ conn b' = conn b /\
  match packet with
  | Some p => exists seq payload, data_spec s b' p seq payload /\ sendNext b' = seq + zlen payload
  | None => True
  end.
Proof.
  intros Htx Hb Hnow. unfold nextDataLocked. cbn zeta.
  pose proof (repairSendNext_inv s b Htx Hb) as [Hb1 Hsn].
  assert (gen (repairSendNext s b) = gen b /\ mtu (repairSendNext s b) = mtu b /\
          conn (repairSendNext s b) = conn b) as (Hg & Hm & Hc)
    by (unfold repairSendNext; case_match; done).
  revert Hb1 Hsn Hg Hm Hc. generalize (repairSendNext s b). intros b1 Hb1 Hsn Hg Hm Hc.
  pose proof (tx_range _ Htx).
  destruct (if retransmitExpired s b1 now then _ else _) as [s2 b2] eqn:E2.
  assert (keeps_rx s s2 /\ keeps_tx_fields s s2 /\ current s2 = current s /\
    binding_inv (txBase s) (txNext s) b2 /\ txBase s <= sendNext b2 /\
    gen b2 = gen b1 /\ mtu b2 = mtu b1 /\ conn b2 = conn b1)
    as (Hk & Ht & Hcur & Hb2 & Hs2 & Hg2 & Hm2 & Hc2).
  { destruct (retransmitExpired s b1 now); [|injection E2 as <- <-; by split_and!].
    injection E2 as <- <-.
    destruct (retransmit_inv (txBase s) (txNext s) b1 now) as (Hb2 & Hs2 & Hg2 & Hm2 & Hc2);
      [lia|done|done|]. by split_and!. }
  intros Heq. pose proof Ht as (Htb & Htn & Htu).
  apply sendWindow_spec in Heq as (-> & Hb3 & Hg3 & Hm3 & Hc3 & Hf3 & Hp);
    [|by eapply tx_keeps|by rewrite Htb, Htn|by rewrite Htb|done].
  rewrite Htb, Htn in Hb3. split_and!; try done; try congruence.
  destruct packet as [p|]; [|done]. destruct Hp as (payload & [D1 D2 D3 D4 D5 D6] & Hn).
  rewrite Htb, ?Htn in *. exists (sendNext b2), payload. split; [|done]. split; try done.
  intros σ Hσ. apply D6. by eapply tx_stream_keeps.
Qed.

(** The first unacknowledged byte is sent, or sent again, as soon as the send
    position is at it or the retransmit timer has expired. *)
Lemma nextDataLocked_resends s b now :
  tx_inv s -> binding_inv (txBase s) (txNext s) b -> 0 < now ->
  txBase s < txNext s -> txBase s + (mtu b - 9) * maxFlightWindowPackets < 2 ^ 64 ->
  sendNext b <= txBase s \/ retransmitAt b <= now ->
  exists payload s' b', nextDataLocked s b now = (Some (dataPacket (txBase s) payload), s', b') /\
    0 < zlen payload <= mtu b - 9 /\ sendNext b' = txBase s + zlen payload.
Proof.
  intros Htx Hb Hnow Hun Hwrap Htimer.
  pose proof (repairSendNext_inv s b Htx Hb) as [Hb1 Hsn].
  assert (mtu (repairSendNext s b) = mtu b /\
          (sendNext (repairSendNext s b) = txBase s \/ retransmitAt (repairSendNext s b) <= now))
    as [Hm Ht].
  { unfold repairSendNext. destruct (orb _ _) eqn:E; [by split; [|left]|]. split; [done|].
    apply orb_false_iff in E as [E1 E2]; bool2prop. destruct Htimer; [left; lia|by right]. }
  unfold nextDataLocked. cbn zeta. revert Hb1 Hsn Hm Ht. generalize (repairSendNext s b).
  intros b1 Hb1 Hsn Hm Ht.
  destruct (if retransmitExpired s b1 now then _ else _) as [s2 b2] eqn:E2.
  assert (keeps_rx s s2 /\ keeps_tx_fields s s2 /\ binding_inv (txBase s) (txNext s) b2 /\
    sendNext b2 = txBase s /\ mtu b2 = mtu b1) as (Hk & Ht2 & Hb2 & Hs2 & Hm2).
  { destruct (retransmitExpired s b1 now) eqn:Ex; injection E2 as <- <-.
    - destruct (retransmit_inv (txBase s) (txNext s) b1 now) as (? & ? & ? & ? & ?);
        [destruct (tx_range _ Htx); lia|done|done|]. by split_and!.
    - split_and!; try done. destruct Ht as [|Ht]; [done|].
      destruct (Z.eq_dec (sendNext b1) (txBase s)); [done|exfalso].
      pose proof (bi_armed _ _ _ Hb1 ltac:(lia)). unfold retransmitExpired in Ex.
      rewrite (proj2 (Z.ltb_lt _ _)), (proj2 (Z.eqb_neq _ _)), (proj2 (Z.ltb_ge _ _)) in Ex by lia.
      done. }
  destruct (sendWindow s2 b2 now) as [[pk s'] b'] eqn:Es. pose proof Ht2 as (Htb & Htn & Htu).
  apply sendWindow_spec in Es as (-> & Hb3 & Hg3 & Hm3 & Hc3 & Hf3 & Hp);
    [|by eapply tx_keeps|by rewrite Htb, Htn|rewrite Htb; lia|done].
  destruct pk as [p|].
  - destruct Hp as (payload & [-> D2 D3 D4 D5 D6] & Hn). rewrite Hs2 in *.
    exists payload, s2, b'. split_and!; try done; lia.
  - exfalso. pose proof (tx_range _ Htx). destruct Hp as [_ [Hp|Hp]]; rewrite ?Htb, ?Htn in *; [lia|].
    pose proof (bi_flight _ _ _ Hb2). pose proof (bi_mtu _ _ _ Hb2).
    unfold initialFlightWindowPackets, maxFlightWindowPackets, ackBatchPackets, minimumPacketMTU in *.
    assert ((mtu b2 - 9) * flightPackets b2 <= (mtu b - 9) * 128) by (apply Z.mul_le_mono_nonneg; lia).
    rewrite u64_id in Hp by nia. nia.
Qed.

(** ** Choosing the next packet *)

Inductive packetKind (s : Session) (b' : binding) : bytes -> Session -> Prop :=
  | PkHello s' : 0 < zlen (helloReply s) -> s' = s <| helloReply := [] |> ->
      packetKind s b' (helloReply s) s'
  | PkPong s' : pongDirty s = true -> s' = s <| pongDirty := false |> ->
      packetKind s b' [packetPong] s'
  | PkAck s' : ackDirty s = true ->
      s' = s <| ackDirty := false |> <| ackPackets := 0 |> <| ackDeadline := 0 |> ->
      packetKind s b' (ackPacket (rxNext s)) s'
  | PkData s' seq payload : data_spec s b' (dataPacket seq payload) seq payload ->
      packetKind s b' (dataPacket seq payload) s'.

Lemma nextPacketLocked_spec s b now packet s' b' :
  tx_inv s -> binding_inv (txBase s) (txNext s) b -> 0 < now ->
  nextPacketLocked s b now = (packet, s', b') ->
  keeps_rx s s' /\ keeps_tx_fields s s' /\ current s' = current s /\
  binding_inv (txBase s) (txNext s) b' /\ gen b' = gen b /\ mtu b' = mtu b /\ conn b' = conn b /\
  (helloReply s' = helloReply s \/ helloReply s' = []) /\
  match packet with Some p => packetKind s b' p s' | None => True end.
Proof.
  intros Htx Hb Hnow. unfold nextPacketLocked.
  destruct (Z.ltb_spec 0 (zlen (helloReply s))).
  { intros [= <- <- <-]. split_and!; try done; [by right|by constructor]. }
  destruct (pongDirty s) eqn:Ep.
  { intros [= <- <- <-]. split_and!; try done; [by left|by constructor]. }
  destruct (andb _ _) eqn:Ea.
  { apply andb_true_iff in Ea as [Ea _].
    intros [= <- <- <-]. split_and!; try done; [by left|by constructor]. }
  intros Heq. assert (helloReply s' = helloReply s) as Hh.
  { revert Heq. unfold nextDataLocked, sendWindow. cbn zeta.
    intros Heq. repeat case_match; simplify_eq; done. }
  apply nextDataLocked_spec in Heq as (? & ? & ? & ? & ? & ? & ? & Hp); [|done..].
  split_and!; try done; [by left|]. destruct packet as [p|]; [|done].
  destruct Hp as (seq & payload & Hd & _). pose proof (dp_packet _ _ _ _ _ Hd) as ->.
  by apply PkData.
Qed.

(** ** Writing *)

Lemma Write_turn_spec s p s' t :
  tx_inv s -> 0 < zlen p -> Write_turn s p = (s', t) ->
  tx_inv s' /\ keeps_rx s s' /\ current s' = current s /\ helloReply s' = helloReply s /\
  txBase s' = txBase s /\ txNext s <= txNext s' /\
  match t with
  | Wrote n => 0 < n <= zlen p /\ closed s = false /\
      (forall σ, tx_stream σ s -> tx_stream (σ ++ slice_to p n) s') /\
      (is_Some (current s) -> zlen (txBuf s') <= liveWriteWindow)
  | WriteError e => s' = s /\
      (closed s = true /\ e = sessionErrorLocked s \/ e = Sent ErrSequenceExhausted)
  | WriteWait _ _ => s' = s /\ closed s = false /\ writeSpace s <= 0
  end.
Proof.
  intros Htx Hp. pose proof Htx as [[T1 T1'] T2 T3]. unfold Write_turn, max_u64 in *.
  destruct (closed s) eqn:Ec.
  { intros [= <- <-]. split_and!; try done; try lia; by left. }
  destruct (Z.ltb_spec 0 (writeSpace s)) as [Hs|Hs].
  2:{ intros [= <- <-]. split_and!; try done; lia. }
  destruct (Z.ltb_spec (2 ^ 64 - 1 - txNext s) (Z.min (writeSpace s) (zlen p))) as [Hx|Hx].
  { intros [= <- <-]. split_and!; try done; try lia; by right. }
  set (n := Z.min _ _) in *. rewrite u64_id by lia.
  assert (n <= ReplayWindow (config s) - zlen (txBuf s) /\
    (is_Some (current s) -> n <= liveWriteWindow - zlen (txBuf s))) as [Hw Hlive].
  { unfold n, writeSpace. destruct (current s); split; try lia. by intros [? ?]. }
  intros [= <- <-]. split_and!; try done; cbn; try lia.
  - split; cbn; [unfold max_u64; lia| |]; rewrite zlen_app, zlen_slice_to by lia; lia.
  - intros σ [S1 S2]. split; cbn.
    + rewrite zlen_app, zlen_slice_to by lia. lia.
    + rewrite S2. unfold slice_from. rewrite drop_app_le; [done|]. zl.
  - intros Hc. specialize (Hlive Hc). rewrite zlen_app, zlen_slice_to by lia. lia.
Qed.

(** The loop: with as much fuel as there are bytes it never stops for lack of
    fuel, and it accepts a prefix. *)
Lemma Write_spec_aux fuel s p written s' k t :
  tx_inv s -> (length p <= fuel)%nat -> Write fuel s p written = (s', k, t) ->
  exists n, k = written + n /\ 0 <= n <= zlen p /\ tx_inv s' /\ keeps_rx s s' /\
    txBase s' = txBase s /\ current s' = current s /\ helloReply s' = helloReply s /\
    txNext s <= txNext s' /\
    (forall σ, tx_stream σ s -> tx_stream (σ ++ slice_to p n) s') /\
    match t with
    | None => n = zlen p
    | Some (WriteError _) | Some (WriteWait _ _) => n < zlen p
    | Some (Wrote _) => False
    end.
Proof.
  revert s p written. induction fuel as [|fuel IH]; intros s p written Htx Hfuel; cbn [Write].
  all: destruct (Z.eqb_spec (zlen p) 0) as [Hz|Hz].
  1,3: intros [= <- <- <-]; exists 0; split_and!; try done; try lia;
    intros σ Hσ; by rewrite app_nil_r.
  { destruct p; [done|simpl in Hfuel; lia]. }
  pose proof (zlen_nonneg p). destruct (Write_turn s p) as [s1 t1] eqn:Et.
  apply Write_turn_spec in Et as (Htx1 & Hk1 & Hc1 & Hh1 & Hb1 & Hn1 & Hcase); [|done|lia].
  destruct t1 as [n|e|nt d].
  - destruct Hcase as (Hn & _ & Hst & _). intros Heq. apply IH in Heq; [|done|zl].
    destruct Heq as (n' & -> & Hn' & Htx2 & Hk2 & Hb2 & Hc2 & Hh2 & Hx2 & Hst2 & Ht2).
    rewrite zlen_slice_from in Hn', Ht2 by lia.
    exists (n + n'). split_and!; try done; try lia; try congruence.
    + by eapply keeps_rx_trans.
    + intros σ Hσ%Hst%Hst2. revert Hσ. rewrite <- app_assoc. unfold slice_to, slice_from.
      rewrite Z2Nat.inj_add by lia. by rewrite take_take_drop.
    + destruct t as [[]|]; done || lia.
  - destruct Hcase as [-> _]. intros [= <- <- <-]. exists 0.
    split_and!; try done; try lia. intros σ Hσ. by rewrite app_nil_r.
  - destruct Hcase as [-> _]. intros [= <- <- <-]. exists 0.
    split_and!; try done; try lia. intros σ Hσ. by rewrite app_nil_r.
Qed.

(** * Properties *)

(** A DATA packet the send loop takes is a non-empty piece of the written
    stream that fits the packet size, lies in the retained range and within the
    flight window of 8 to 128 packets; taking it changes no stream state. *)
Theorem nextPacket_data_in_window s b now p s' b' :
  tx_inv s -> binding_inv (txBase s) (txNext s) b -> 0 < now ->
  at_ (helloReply s) 0 <> packetData ->
  nextPacketLocked s b now = (Some p, s', b') -> at_ p 0 = packetData ->
  exists seq payload, p = dataPacket seq payload /\
    0 < zlen payload /\ zlen p <= mtu b /\
    txBase s <= seq /\ seq + zlen payload <= txNext s /\
    seq + zlen payload <= txBase s + (mtu b - 9) * flightPackets b' /\
    initialFlightWindowPackets <= flightPackets b' <= maxFlightWindowPackets /\
    txBase s' = txBase s /\ txNext s' = txNext s /\ txBuf s' = txBuf s /\
    forall σ, tx_stream σ s -> fragment σ seq payload.
Proof.
  intros Htx Hb Hnow Hh Heq Hk.
  apply nextPacketLocked_spec in Heq as (K & (T1 & T2 & T3) & _ & Hb' & _ & Hm & _ & _ & Hp); [|done..].
  destruct Hp as [s1 _ _|s1 _ _|s1 _ _|s1 seq payload [_ D1 D2 D3 D4 D5]]; [done..|].
  rewrite Hm in *. exists seq, payload. split_and!; try done; try lia.
  - unfold dataPacket. rewrite zlen_cons, zlen_app, zlen_be_put. lia.
  - apply Hb'.
  - apply Hb'.
Qed.

(** A bound session with three bytes to send. *)
Definition demoBinding : binding :=
  mkBinding 1 1 40 1 1 0 false 1 0 0 0 0 initialFlightWindowPackets.
Definition demoSender : Session :=
  (Write_turn demoSession [Byte.x61; Byte.x62; Byte.x63]).1.

Lemma demo_tx_inv : tx_inv demoSender.
Proof. split; vm_compute; intuition discriminate. Qed.

Lemma demo_binding_inv : binding_inv 0 3 demoBinding.
Proof. split; vm_compute; intuition discriminate. Qed.

Lemma nextPacket_data_in_window_witness :
  exists seq payload, dataPacket 0 [Byte.x61; Byte.x62; Byte.x63] = dataPacket seq payload /\
    0 < zlen payload /\ zlen (dataPacket 0 [Byte.x61; Byte.x62; Byte.x63]) <= mtu demoBinding /\
    txBase demoSender <= seq /\ seq + zlen payload <= txNext demoSender /\
    seq + zlen payload <= txBase demoSender
      + (mtu demoBinding - 9) * flightPackets (nextPacketLocked demoSender demoBinding 5).2 /\
    initialFlightWindowPackets <= flightPackets (nextPacketLocked demoSender demoBinding 5).2
      <= maxFlightWindowPackets /\
    txBase (nextPacketLocked demoSender demoBinding 5).1.2 = txBase demoSender /\
    txNext (nextPacketLocked demoSender demoBinding 5).1.2 = txNext demoSender /\
    txBuf (nextPacketLocked demoSender demoBinding 5).1.2 = txBuf demoSender /\
    forall σ, tx_stream σ demoSender -> fragment σ seq payload.
Proof.
  apply (nextPacket_data_in_window demoSender demoBinding 5);
    [apply demo_tx_inv|apply demo_binding_inv|reflexivity|discriminate| |]; vm_compute; reflexivity.
Defined.

(** No unacknowledged byte is forgotten: as soon as the clock reaches the
    retransmit time (or nothing is in flight), the next DATA packet starts at
    the first unacknowledged byte. *)
Theorem sender_resends_oldest s b now :
  tx_inv s -> binding_inv (txBase s) (txNext s) b -> 0 < now ->
  txBase s < txNext s -> txBase s + (mtu b - 9) * maxFlightWindowPackets < 2 ^ 64 ->
  sendNext b <= txBase s \/ retransmitAt b <= now ->
  exists payload s' b', nextDataLocked s b now = (Some (dataPacket (txBase s) payload), s', b') /\
    0 < zlen payload <= mtu b - 9 /\ sendNext b' = txBase s + zlen payload.
Proof. apply nextDataLocked_resends. Qed.

Lemma sender_resends_oldest_witness :
  let b := demoBinding <| sendNext := 3 |> <| retransmitAt := 9 |> in
  exists payload s' b', nextDataLocked demoSender b 10 =
    (Some (dataPacket (txBase demoSender) payload), s', b') /\
    0 < zlen payload <= mtu b - 9 /\ sendNext b' = txBase demoSender + zlen payload.
Proof.
  apply (sender_resends_oldest demoSender (demoBinding <| sendNext := 3 |> <| retransmitAt := 9 |>) 10);
    [apply demo_tx_inv|split; vm_compute; intuition discriminate|reflexivity|reflexivity|reflexivity|].
  right. discriminate.
Defined.

(** An ACK moves [txBase] to the acknowledged offset and never backwards,
    removes exactly the acknowledged bytes from the replay buffer, and is an
    error exactly when it names a byte that was never written. *)
Theorem handleAck_removes_acknowledged s b expected now :
  tx_inv s -> binding_inv (txBase s) (txNext s) b -> 0 <= now ->
  exists s' b' e, handleAckLocked s b expected now = (s', b', e) /\
    tx_inv s' /\ binding_inv (txBase s') (txNext s') b' /\ txNext s' = txNext s /\
    (forall σ, tx_stream σ s -> tx_stream σ s') /\
    (e = None <-> expected <= txNext s) /\
    txBase s' = if expected <=? txNext s then Z.max (txBase s) expected else txBase s.
Proof.
  intros Htx Hb Hnow. destruct (handleAckLocked s b expected now) as [[s' b'] e] eqn:Eh.
  apply handleAckLocked_spec in Eh as (T & B & _ & _ & _ & _ & _ & N & S & Hcase); [|done..].
  exists s', b', e. split_and!; try done; destruct e as [e|].
  - destruct Hcase as (-> & _ & Hlt). split; [done|lia].
  - by destruct Hcase as [_ Hle].
  - destruct Hcase as (-> & _ & Hlt). by rewrite (proj2 (Z.leb_gt _ _)).
  - destruct Hcase as [-> Hle]. by rewrite (proj2 (Z.leb_le _ _)).
Qed.

Lemma handleAck_removes_acknowledged_witness :
  exists s' b' e, handleAckLocked demoSender (demoBinding <| sendNext := 3 |> <| retransmitAt := 9 |>) 2 8
      = (s', b', e) /\
    tx_inv s' /\ binding_inv (txBase s') (txNext s') b' /\ txNext s' = txNext demoSender /\
    (forall σ, tx_stream σ demoSender -> tx_stream σ s') /\
    (e = None <-> 2 <= txNext demoSender) /\
    txBase s' = if 2 <=? txNext demoSender then Z.max (txBase demoSender) 2 else txBase demoSender.
Proof.
  apply handleAck_removes_acknowledged;
    [apply demo_tx_inv|split; vm_compute; intuition discriminate|discriminate].
Defined.

(** [Write] accepts a prefix of its argument, appends exactly it to the
    stream, keeps the replay buffer within its window, and stops short only
    because the session is closed, the sequence space is used up or the window
    is full. *)
Theorem Write_accepts_prefix s p :
  tx_inv s ->
  exists s' n t, Write (length p) s p 0 = (s', n, t) /\
    0 <= n <= zlen p /\ tx_inv s' /\ txBase s' = txBase s /\
    rxNext s' = rxNext s /\ rxBuf s' = rxBuf s /\
    (forall σ, tx_stream σ s -> tx_stream (σ ++ slice_to p n) s') /\
    (t = None <-> n = zlen p).
Proof.
  intros Htx. destruct (Write (length p) s p 0) as [[s' n] t] eqn:Ew.
  apply Write_spec_aux in Ew as (k & -> & Hk & T & K & Hb & _ & _ & _ & Hst & Ht); [|done..].
  exists s', (0 + k), t. destruct K as (_ & _ & K1 & K2 & _).
  split_and!; try done; try lia.
  destruct t as [[]|]; split; done || lia.
Qed.

Lemma Write_accepts_prefix_witness :
  exists s' n t, Write 3 demoSession [Byte.x61; Byte.x62; Byte.x63] 0 = (s', n, t) /\
    0 <= n <= zlen [Byte.x61; Byte.x62; Byte.x63] /\ tx_inv s' /\ txBase s' = txBase demoSession /\
    rxNext s' = rxNext demoSession /\ rxBuf s' = rxBuf demoSession /\
    (forall σ, tx_stream σ demoSession -> tx_stream (σ ++ slice_to [Byte.x61; Byte.x62; Byte.x63] n) s') /\
    (t = None <-> n = zlen [Byte.x61; Byte.x62; Byte.x63]).
Proof.
  apply (Write_accepts_prefix demoSession [Byte.x61; Byte.x62; Byte.x63]).
  split; vm_compute; intuition discriminate.
Defined.
