(* ===== verification/LinkEndpoint.v ===== *)
(** * One endpoint of the link: every operation keeps its invariant

    [op] is one critical section of a [Session], whichever goroutine runs it,
    and [ep_run] executes it: the new session, the bytes [Write] accepted, the
    bytes [Read] returned and the packets handed to [conn.Send].  [ep_ok] is
    the endpoint's invariant against the two byte streams, and [ep_run_ok] its
    preservation by every operation in any order. *)

From S2P Require Export LinkSend.

(** ** Operations *)

Inductive op :=
  | OWrite (p : bytes)
  | ORead (n : Z)
  | OTake (g now : Z)                                  (* sendLoop, before Send *)
  | OSent (g : Z) (packet : bytes) (duration now : Z) (e : err)
  | OTick (g now : Z)                                  (* heartbeatLoop, the check *)
  | OPinged (g started finished : Z) (e : err)
  | OReceive (g : Z) (packet : option bytes) (now : Z) (* receiveLoop *)
  | OFail (g now : Z) (reason : error)                 (* failBinding *)
  | OExpire (detached : Z)
  | OCloseWithError (e : error)
  | OClose
  | OSetDeadline (d : Z)
  | OSetReadDeadline (d : Z)
  | OSetWriteDeadline (d : Z)
  | OClientHello (connMTU : Z)
  | OClientFinish (connMTU : Z) (cfg : Config) (packet : bytes)
  | OServerAck (connMTU : Z) (packets : list bytes)    (* ReadHello, BindServer *)
  | OAttach (c : nat) (connMTU mtu now : Z).

Record outcome := mkOutcome {
  oc_session : Session;
  oc_written : bytes;
  oc_read : bytes;
  oc_sent : list bytes
}.

Definition quiet (s : Session) : outcome := mkOutcome s [] [] [].

Definition ep_run (s : Session) (o : op) : outcome :=
  match o with
  | OWrite p =>
      let '(s, n, _) := Write (length p) s p 0 in mkOutcome s (slice_to p n) [] []
  | ORead n =>
      match Read s n with
      | (s, ReadData p) => mkOutcome s [] p []
      | (s, _) => quiet s
      end
  | OTake g now =>
      match sendLoop_take s g now with
      | (Some (Some packet), s) => mkOutcome s [] [] [packet]
      | (_, s) => quiet s
      end
  | OSent g packet duration now e => quiet (sendLoop_sent s g packet duration now e).1
  | OTick g now =>
      match heartbeatLoop_tick s g now with
      | (Some (true, _), s) => mkOutcome s [] [] [[packetPing]]
      | (_, s) => quiet s
      end
  | OPinged g started finished e => quiet (heartbeatLoop_sent s g started finished e).1
  | OReceive g packet now => quiet (receiveLoop_turn s g packet now).1.1
  | OFail g now reason => quiet (failBinding s g now reason).1
  | OExpire detached => quiet (expireAfter s detached).1
  | OCloseWithError e => quiet (closeWithError s e).1
  | OClose =>
      match Close s with
      | (Some packet, s, _) => mkOutcome s [] [] [packet]
      | (None, s, _) => quiet s
      end
  | OSetDeadline d => quiet (SetDeadline s d)
  | OSetReadDeadline d => quiet (SetReadDeadline s d)
  | OSetWriteDeadline d => quiet (SetWriteDeadline s d)
  | OClientHello connMTU =>
      match BindClient_hello s connMTU with
      | inr (first, second) => mkOutcome s [] [] [first; second]
      | inl _ => quiet s
      end
  | OClientFinish connMTU cfg packet =>
      match decodeHelloAck packet with
      | inr (peerExpected, peerCfg, peerMTU) =>
          quiet (BindClient_finish s connMTU cfg peerExpected peerCfg peerMTU).1
      | inl _ => quiet s
      end
  | OServerAck connMTU packets =>
      match (ReadHello packets (Sent ContextDeadlineExceeded)).1 with
      | inr hello =>
          match BindServer_ack s connMTU hello with
          | (s, inr (ack, _)) => mkOutcome s [] [] [ack]
          | (s, inl _) => quiet s
          end
      | inl _ => quiet s
      end
  | OAttach c connMTU mtu now => quiet (attach s c connMTU mtu now).1.1
  end.

(** The packets an operation consumes, and the clock it reads. *)
Definition op_packets (o : op) : list bytes :=
  match o with
  | OReceive _ (Some p) _ => [p]
  | OClientFinish _ _ p => [p]
  | OServerAck _ ps => ps
  | _ => []
  end.

Definition op_clock (o : op) : Prop :=
  match o with
  | OTake _ now | OReceive _ _ now | OAttach _ _ _ now => 0 < now
  | ORead n => 0 <= n
  | _ => True
  end.

(** ** What a packet claims *)

(** A DATA packet carries a fragment of its sender's stream. *)
Definition data_ok (σ p : bytes) : Prop :=
  at_ p 0 = packetData -> 9 < zlen p -> fragment σ (be_get (slice p 1 9)) (slice_from p 9).

(** The cumulative acknowledgement a packet carries. *)
Definition ack_value (p : bytes) : option Z :=
  match p with
  | [] => None
  | kind :: _ =>
      if bool_decide (kind = packetAck) || bool_decide (kind = packetHello)
      then Some (be_get (slice p 1 9))
      else if bool_decide (kind = packetHelloAck) then Some (be_get (slice p 2 10))
      else None
  end.

Definition ack_ok (next : Z) (p : bytes) : Prop :=
  forall e, ack_value p = Some e -> e <= next.

Definition packet_ok (σ : bytes) (next : Z) (p : bytes) : Prop := data_ok σ p /\ ack_ok next p.

Lemma packet_ok_mono σ x next next' p :
  next <= next' -> packet_ok σ next p -> packet_ok (σ ++ x) next' p.
Proof.
  intros Hn [Hd Ha]. split.
  - intros ? ?. by apply fragment_app, Hd.
  - intros e He. specialize (Ha e He). lia.
Qed.

(** ** The endpoint's invariant *)

Definition hello_reply_ok (s : Session) : Prop :=
  helloReply s = [] \/
  exists e cfg mtu, helloReply s = encodeHelloAck e cfg mtu /\ 0 <= e <= rxNext s.

Record ep_ok (σt σr consumed : bytes) (peerNext : Z) (s : Session) : Prop := {
  eo_rx : rx_inv s;
  eo_tx : tx_inv s;
  eo_config : config_ok (config s);
  eo_binding : forall b, current s = Some b -> binding_inv (txBase s) (txNext s) b;
  eo_closed : closed s = true -> current s = None;
  eo_reply : hello_reply_ok s;
  eo_txs : tx_stream σt s;
  eo_rxs : rx_stream σr consumed s;
  eo_peer : txBase s <= peerNext
}.

Record ep_result (σt σr consumed : bytes) (peerNext : Z) (s : Session) (oc : outcome) : Prop := {
  er_ok : ep_ok (σt ++ oc_written oc) σr (consumed ++ oc_read oc) peerNext (oc_session oc);
  er_next : rxNext s <= rxNext (oc_session oc);
  er_sent : forall p, p ∈ oc_sent oc -> packet_ok (σt ++ oc_written oc) (rxNext (oc_session oc)) p
}.

Lemma ep_result_quiet σt σr c n s s' :
  ep_ok σt σr c n s' -> rxNext s <= rxNext s' -> ep_result σt σr c n s (quiet s').
Proof.
  intros. split; cbn; rewrite ?app_nil_r; [done|done|]. intros p Hp. by apply elem_of_nil in Hp.
Qed.

Lemma ep_result_sent σt σr c n s s' ps :
  ep_ok σt σr c n s' -> rxNext s <= rxNext s' ->
  (forall p, p ∈ ps -> packet_ok σt (rxNext s') p) ->
  ep_result σt σr c n s (mkOutcome s' [] [] ps).
Proof. intros. split; cbn; rewrite ?app_nil_r; done. Qed.

(** The stream state: what [ep_ok] says of a session besides its binding. *)
Definition same_streams (s s' : Session) : Prop :=
  config s' = config s /\ rxNext s' = rxNext s /\ rxBuf s' = rxBuf s /\
  rxPending s' = rxPending s /\ rxPendingBytes s' = rxPendingBytes s /\
  txBase s' = txBase s /\ txNext s' = txNext s /\ txBuf s' = txBuf s.

Lemma ep_ok_same σt σr c n s s' :
  same_streams s s' -> (helloReply s' = helloReply s \/ helloReply s' = []) ->
  (forall b, current s' = Some b -> binding_inv (txBase s) (txNext s) b) ->
  (closed s' = true -> current s' = None) ->
  ep_ok σt σr c n s -> ep_ok σt σr c n s'.
Proof.
  intros (Hc & Hrn & Hrb & Hrp & Hrpb & Htb & Htn & Htu) Hh Hb Hcl
    [[R1 R2 R3 R4 R5 R6] [T1 T2 T3] Ec Eb Ecl Er [S1 S2] [X1 X2 X3] Ep].
  assert (rx_limit s' = rx_limit s) as Hl by (unfold rx_limit; congruence).
  split; rewrite ?Hc; try done.
  - split; rewrite ?Hl, ?Hc, ?Hrn, ?Hrb, ?Hrp, ?Hrpb; done.
  - split; rewrite ?Hc, ?Htb, ?Htn, ?Htu; done.
  - intros b Hb'. rewrite Htb, Htn. by apply Hb.
  - unfold hello_reply_ok in *. rewrite Hrn. destruct Hh as [->| ->]; [done|by left].
  - split; rewrite ?Htb, ?Htn, ?Htu; done.
  - split; rewrite ?Hrn, ?Hrb, ?Hrp; done.
  - by rewrite Htb.
Qed.

(** Operations that touch neither stream nor binding. *)
Lemma ep_ok_idle σt σr c n s s' :
  same_streams s s' -> helloReply s' = helloReply s -> current s' = current s ->
  closed s' = closed s -> ep_ok σt σr c n s -> ep_ok σt σr c n s'.
Proof.
  intros Hs Hh Hcur Hcl He. pose proof He as [_ _ _ Eb Ecl _ _ _ _].
  apply (ep_ok_same _ _ _ _ s); [done|by left|by rewrite Hcur|by rewrite Hcl, Hcur|done].
Qed.

(** Operations that only rewrite the current binding. *)
Lemma ep_ok_binding σt σr c n s s' b :
  same_streams s s' -> helloReply s' = helloReply s -> closed s' = closed s ->
  closed s = false -> current s' = Some b -> binding_inv (txBase s) (txNext s) b ->
  ep_ok σt σr c n s -> ep_ok σt σr c n s'.
Proof.
  intros Hs Hh Hcl Hopen Hcur Hb He.
  apply (ep_ok_same _ _ _ _ s); [done|by left| |by rewrite Hcl, Hopen|done].
  intros b' Hb'. by rewrite Hcur in Hb'; simplify_eq.
Qed.

(** Operations that drop the binding. *)
Lemma ep_ok_unbind σt σr c n s s' :
  same_streams s s' -> helloReply s' = helloReply s -> current s' = None ->
  ep_ok σt σr c n s -> ep_ok σt σr c n s'.
Proof.
  intros Hs Hh Hcur He. apply (ep_ok_same _ _ _ _ s); [done|by left| |done|done].
  intros b. by rewrite Hcur.
Qed.

Lemma bound_to_Some s g b :
  bound_to s g = Some b -> current s = Some b /\ gen b = g /\ closed s = false.
Proof.
  unfold bound_to. destruct (current s) as [b'|]; [|done].
  destruct (Z.eqb_spec (gen b') g), (closed s); try done. by intros [= ->].
Qed.

Lemma ep_ok_bound σt σr c n s g b :
  ep_ok σt σr c n s -> bound_to s g = Some b ->
  current s = Some b /\ gen b = g /\ closed s = false /\ binding_inv (txBase s) (txNext s) b.
Proof.
  intros He (Hc & Hg & Ho)%bound_to_Some. split_and!; try done. by apply (eo_binding _ _ _ _ _ He).
Qed.

(** ** The packets an endpoint sends *)

Lemma data_ok_other σ p : at_ p 0 <> packetData -> data_ok σ p.
Proof. by intros ? ?. Qed.

Lemma packet_ok_plain σ n k p :
  k <> packetData -> k <> packetAck -> k <> packetHello -> k <> packetHelloAck ->
  packet_ok σ n (k :: p).
Proof.
  intros Hd Ha Hh Hk. split; [by apply data_ok_other|]. intros e. cbn [ack_value].
  by rewrite !bool_decide_eq_false_2.
Qed.

Lemma packet_ok_data σ n seq payload :
  0 <= seq < 2 ^ 64 -> 0 < zlen payload -> fragment σ seq payload ->
  packet_ok σ n (dataPacket seq payload).
Proof.
  intros Hs Hp Hf. split; [|done]. intros _ _. unfold dataPacket.
  assert (slice_from (packetData :: be_put 8 seq ++ payload) 9 = payload) as ->.
  { rewrite app_comm_cons. apply slice_from_app_l. by rewrite zlen_cons, zlen_be_put. }
  field_slices. by rewrite be_get_put_id.
Qed.

Lemma packet_ok_ack σ e n : 0 <= e <= n -> n < 2 ^ 64 -> packet_ok σ n (ackPacket e).
Proof.
  intros He Hn. split; [by apply data_ok_other|]. intros e'. unfold ackPacket. cbn [ack_value].
  rewrite bool_decide_eq_true_2 by done. cbn [orb].
  rewrite (slice_cons_skip _ _ 1 9 0 8), slice_whole, be_get_put_id; [|lia|apply zlen_be_put|done..].
  intros [= <-]. lia.
Qed.

Lemma packet_ok_helloAck σ e cfg m n :
  0 <= e <= n -> n < 2 ^ 64 -> packet_ok σ n (encodeHelloAck e cfg m).
Proof.
  intros He Hn. split; [by apply data_ok_other|]. intros e'. unfold encodeHelloAck. cbn [ack_value].
  rewrite (bool_decide_eq_false_2 (packetHelloAck = packetAck)), bool_decide_eq_false_2,
    bool_decide_eq_true_2 by done. cbn [orb].
  field_slices. rewrite be_get_put_id by lia. intros [= <-]. lia.
Qed.

Lemma packet_ok_hello σ sid e cfg m n :
  0 <= e <= n -> n < 2 ^ 64 -> packet_ok σ n (encodeHello sid e cfg m).2.
Proof.
  intros He Hn. split; [by apply data_ok_other|]. intros e'. unfold encodeHello. cbn [snd ack_value].
  rewrite (bool_decide_eq_false_2 (packetHello = packetAck)), bool_decide_eq_true_2 by done.
  cbn [orb]. field_slices. rewrite be_get_put_id by lia. intros [= <-]. lia.
Qed.

(** ** The operations, one by one *)
Section Operations.
Context (σt σr consumed : bytes) (peerNext : Z).
Local Abbreviation ok := (ep_ok σt σr consumed peerNext).

Lemma failBinding_ok s g now reason : ok s -> ok (failBinding s g now reason).1.
Proof.
  intros He. unfold failBinding. destruct (bound_to s g) as [b|]; [|done].
  by eapply ep_ok_unbind; [..|exact He].
Qed.

Lemma closeWithError_ok s e : ok s -> ok (closeWithError s e).1.
Proof.
  intros He. unfold closeWithError. destruct (closed s); [done|].
  by eapply ep_ok_unbind; [..|exact He].
Qed.

Lemma expireAfter_ok s d : ok s -> ok (expireAfter s d).1.
Proof. intros. unfold expireAfter. case_match; [by apply closeWithError_ok|done]. Qed.

Lemma attach_ok s c connMTU m now : 0 < now -> ok s -> ok (attach s c connMTU m now).1.1.
Proof.
  intros Hnow He. unfold attach. destruct (closed s) eqn:Hcl; [done|]. cbn zeta.
  pose proof He as [[R1 R2 R3 R4 R5 R6] T Ec Eb Ecl Er S [X1 X2 X3] Ep].
  pose proof (tx_range _ T). pose proof (normalizeMTU_range connMTU) as H1.
  pose proof (normalizeMTU_range m) as H2.
  assert (forall s', rxNext s' = rxNext s -> rxBuf s' = rxBuf s -> rxPending s' = ∅ ->
    rxPendingBytes s' = 0 -> config s' = config s -> rx_inv s' /\ rx_stream σr consumed s') as Hrx.
  { intros s' Hn Hb Hp Hpb Hc.
    assert (0 <= rxPendingBytes s).
    { rewrite R4. unfold pendingBytes. rewrite msum_list.
      induction (map_to_list (rxPending s)) as [|kv l IH]; cbn [foldr]; [lia|].
      pose proof (zlen_nonneg kv.2). lia. }
    split; split; rewrite ?Hn, ?Hb, ?Hp, ?Hpb, ?Hc;
      try done; try lia; apply pend_ok_empty. }
  cbn. destruct (ackDirty s); cbn.
  all: split; cbn; try done; try (by apply Hrx); try (by destruct T; split);
    try (by destruct S; split); try congruence.
  all: intros b [= <-]; split; cbn; unfold initialFlightWindowPackets, maxFlightWindowPackets,
    ackBatchPackets, minimumPacketMTU in *; lia.
Qed.

Lemma packetKind_ok s b' p s' :
  ok s -> packetKind s b' p s' -> packet_ok σt (rxNext s) p.
Proof.
  intros [[R1 _ _ _ _ _] T _ _ _ Er Hs _ _] Hk. unfold max_u64 in *.
  pose proof (tx_range _ T) as [? ?]. unfold max_u64 in *.
  destruct Hk as [s1 Hpos _|s1 _ _|s1 _ _|s1 seq payload [_ D1 D2 D3 D4 D5]].
  - destruct Er as [Er|(e & cfg & m & -> & He)]; [by rewrite Er in Hpos|].
    by apply packet_ok_helloAck; lia.
  - by apply packet_ok_plain.
  - apply packet_ok_ack; lia.
  - apply packet_ok_data; [lia|lia|by apply D5].
Qed.

Lemma sendLoop_take_ok s g now r s' :
  0 < now -> ok s -> sendLoop_take s g now = (r, s') ->
  ok s' /\ rxNext s' = rxNext s /\
  forall p, r = Some (Some p) -> packet_ok σt (rxNext s') p.
Proof.
  intros Hnow He. unfold sendLoop_take. destruct (bound_to s g) as [b|] eqn:Eb.
  2:{ by intros [= <- <-]. }
  destruct (ep_ok_bound _ _ _ _ _ _ _ He Eb) as (Hcur & Hg & Hopen & Hb).
  destruct (nextPacketLocked s b now) as [[packet s1] b1] eqn:En.
  pose proof (eo_tx _ _ _ _ _ He) as Htx.
  apply nextPacketLocked_spec in En as (Hk & Ht & Hc & Hb1 & Hg1 & Hm1 & Hcn & Hh & Hp); [|done..].
  intros [= <- <-]. destruct Hk as (Hid & Hcfg & Hrn & Hrb & Hrp & Hrpb & Hbg & Hcl).
  destruct Ht as (Htb & Htn & Htu). split; [|split; [done|]].
  - apply (ep_ok_same _ _ _ _ s); [done|done| | |done]; cbn.
    + by intros b' [= <-].
    + rewrite Hcl, Hopen. done.
  - intros p [= ->]. cbn. rewrite Hrn. by eapply packetKind_ok.
Qed.

(** Rewriting only a binding's liveness fields keeps its invariant. *)
Lemma binding_inv_liveness base next b b' :
  mtu b' = mtu b -> flightPackets b' = flightPackets b -> sendNext b' = sendNext b ->
  retransmitAt b' = retransmitAt b -> binding_inv base next b -> binding_inv base next b'.
Proof. intros Hm Hf Hs Hr [B1 B2 B3 B4 B5]. split; rewrite ?Hm, ?Hf, ?Hs, ?Hr; done. Qed.

Lemma set_current_ok s b b' :
  ok s -> current s = Some b -> closed s = false ->
  mtu b' = mtu b -> flightPackets b' = flightPackets b -> sendNext b' = sendNext b ->
  retransmitAt b' = retransmitAt b -> ok (set_current s b').
Proof.
  intros He Hc Ho Hm Hf Hs Hr.
  eapply (ep_ok_binding _ _ _ _ s); try done.
  eapply binding_inv_liveness; [done..|]. by apply (eo_binding _ _ _ _ _ He).
Qed.

Lemma open_of_current s b : ok s -> current s = Some b -> closed s = false.
Proof.
  intros He Hc. destruct (closed s) eqn:E; [|done].
  by rewrite (eo_closed _ _ _ _ _ He E) in Hc.
Qed.

Lemma sendLoop_sent_ok s g packet d now e : ok s -> ok (sendLoop_sent s g packet d now e).1.
Proof.
  intros He. unfold sendLoop_sent. cbn [fst]. set (t := match e with Some _ => _ | None => _ end).
  assert (ok (s <| stats := t |>)) as He' by by eapply ep_ok_idle; [..|exact He].
  clearbody t. revert He'. generalize (s <| stats := t |>). clear He. intros s' He.
  destruct (current s') as [b|] eqn:Eb; [|done].
  destruct e; [done|]. destruct (gen b =? g); [|done].
  pose proof (open_of_current _ _ He Eb). by eapply set_current_ok.
Qed.

Lemma heartbeatCheck_fields s b now s' b' r :
  heartbeatCheckLocked s b now = (s', b', r) ->
  same_streams s s' /\ helloReply s' = helloReply s /\ current s' = current s /\
  closed s' = closed s /\ mtu b' = mtu b /\ flightPackets b' = flightPackets b /\
  sendNext b' = sendNext b /\ retransmitAt b' = retransmitAt b /\ gen b' = gen b.
Proof.
  unfold heartbeatCheckLocked. intros Heq.
  destruct (heartbeatPending b); cbn in Heq; repeat case_match; simplify_eq; by split_and!.
Qed.

Lemma heartbeatLoop_tick_ok s g now : ok s -> ok (heartbeatLoop_tick s g now).2.
Proof.
  intros He. unfold heartbeatLoop_tick. destruct (bound_to s g) as [b|] eqn:Eb; [|done].
  destruct (ep_ok_bound _ _ _ _ _ _ _ He Eb) as (Hcur & Hg & Hopen & Hb).
  destruct (heartbeatCheckLocked s b now) as [[s1 b1] r] eqn:Eh. cbn [snd].
  apply heartbeatCheck_fields in Eh as (Hs & Hh & Hc & Hcl & Hm & Hf & Hsn & Hr & _).
  eapply (set_current_ok s1 b); try done; [|congruence|congruence].
  by eapply ep_ok_idle.
Qed.

Lemma heartbeatLoop_sent_ok s g st fi e : ok s -> ok (heartbeatLoop_sent s g st fi e).1.
Proof.
  intros He. unfold heartbeatLoop_sent, heartbeatSendResultLocked. set (t := match e with Some _ => _ | None => _ end).
  assert (ok (s <| stats := t |>)) as He' by by eapply ep_ok_idle; [..|exact He].
  clearbody t. revert He'. generalize (s <| stats := t |>). clear He. intros s' He.
  destruct (bound_to s' g) as [b|] eqn:Eb; [|done].
  destruct (ep_ok_bound _ _ _ _ _ _ _ He Eb) as (Hcur & Hg & Hopen & Hb).
  destruct e as [e|]; [destruct (errors_Is e ContextDeadlineExceeded && _); [|done]|]; cbn.
  - by eapply set_current_ok.
  - destruct (heartbeatPending b); by eapply set_current_ok.
Qed.

(** ** Incoming packets *)

Lemma negotiateLocked_ok s peer : ok s -> ok (negotiateLocked s peer).
Proof.
  intros [[R1 R2 R3 R4 R5 R6] [T1 T2 T3] (C1 & C2 & C3) Eb Ecl Er S X Ep].
  assert (ReplayWindow (config (negotiateLocked s peer)) = ReplayWindow (config s)) as Hw.
  { unfold negotiateLocked. cbn. by repeat (case_match; cbn). }
  assert (rx_limit (negotiateLocked s peer) = rx_limit s) as Hl.
  { unfold rx_limit. by rewrite Hw. }
  split; try done.
  - split; rewrite ?Hl, ?Hw; done.
  - split; rewrite ?Hw; done.
  - unfold config_ok. rewrite Hw. unfold negotiateLocked. cbn.
    repeat (if_cases; cbn in *); lia.
  - by destruct S.
  - by destruct X.
Qed.

Lemma reconcile_ok s expected s' e :
  ok s -> expected <= peerNext -> reconcilePeerLocked s expected = (s', e) ->
  match e with None => ok s' | Some _ => s' = s end /\ keeps_rx s s' /\
  current s' = current s /\ helloReply s' = helloReply s.
Proof.
  intros He Hexp Hr.
  assert (helloReply s' = helloReply s) as Hh.
  { revert Hr. unfold reconcilePeerLocked. repeat case_match; intros; simplify_eq; done. }
  apply reconcilePeerLocked_spec in Hr; [|by apply (eo_tx _ _ _ _ _ He)].
  destruct e as [e|].
  { destruct Hr as (-> & _). split_and!; try done. }
  destruct Hr as [E1 E2 E3 E4 E5 E6 E7 E8]. split; [|done].
  destruct He as [R T C Eb Ecl Er S X Ep]. pose proof E5 as (Hid & Hcfg & Hrn & _ & _ & _ & Hbg & Hcl).
  split; rewrite ?Hcfg, ?E6, ?Hcl; try done.
  - by eapply rx_inv_keeps.
  - intros b Hb. rewrite E3. eapply binding_inv_mono; [by apply Eb|lia|lia].
  - unfold hello_reply_ok. by rewrite Hh, Hrn.
  - by apply E8.
  - by eapply rx_stream_keeps.
  - by rewrite E2.
Qed.

Context (Hσr : zlen σr <= max_u64).

Lemma acceptDataLocked_ok s seq payload s' r :
  ok s -> 0 <= seq < 2 ^ 64 -> 0 < zlen payload -> fragment σr seq payload ->
  acceptDataLocked s seq payload = (s', r) ->
  ok s' /\ rxNext s <= rxNext s' /\ current s' = current s /\ closed s' = closed s /\ r.2 = None.
Proof.
  intros [R T C Eb Ecl Er S X Ep] Hseq Hpos Hf Ha.
  apply acceptDataLocked_spec in Ha as [A1 A2 A3 A4 A5 A6]; [|done..].
  pose proof (fragment_bound _ _ _ Hf Hpos).
  destruct (A6 σr consumed X Hf ltac:(lia)) as [X' Hr].
  destruct A2 as (Hid & Hcfg & Htb & Htn & Htu & Hcur & Hbg & Hcl & Hh).
  split; [|done]. split; rewrite ?Hcfg, ?Hcur, ?Hcl, ?Htb, ?Htn; try done.
  - by eapply tx_inv_keeps.
  - destruct Er as [Er|(e & cfg & m & Er & He)]; [left; congruence|right].
    exists e, cfg, m. split; [congruence|lia].
  - destruct S. split; congruence.
Qed.

Lemma handleData_ok s p now :
  ok s -> data_ok σr p -> at_ p 0 = packetData ->
  let '(s', e) := handleData s p now in
  ok s' /\ rxNext s <= rxNext s' /\ (e = None \/ e = Some (Sent ErrHandshake) /\ zlen p <= 9).
Proof.
  intros He Hd Hk. unfold handleData. destruct (Z.leb_spec (zlen p) 9) as [Hl|Hl].
  { split; [done|split; [lia|by right]]. }
  specialize (Hd Hk Hl).
  set (t := (stats s) <| dataRXPackets := _ |>). clearbody t.
  assert (ok (s <| stats := t |>)) as He' by by eapply ep_ok_idle; [..|exact He].
  pose proof (be_get_8_range (slice p 1 9) ltac:(rewrite zlen_slice; lia)) as Hseq.
  destruct (acceptDataLocked (s <| stats := t |>) _ _) as [s1 [[[adv buf] rej] e]] eqn:Ea.
  eapply acceptDataLocked_ok in Ea as (He1 & Hn & Hc & Hcl & He2); [|done|done|rewrite zlen_slice_from; lia|done].
  cbn in He2. subst e. split; [|split; [|by left]].
  - assert (forall st, ok (s1 <| stats := st |>)) as Hst.
    { intros st. by eapply ep_ok_idle; [..|exact He1]. }
    destruct rej, (0 <? adv), buf; cbn [orb]; repeat case_match;
      by eapply ep_ok_idle; [..|exact He1].
  - destruct rej, (0 <? adv), buf; cbn [orb]; repeat case_match; apply Hn.
Qed.

Lemma handleHello_ok s b p :
  ok s -> current s = Some b -> ack_ok peerNext p -> at_ p 0 = packetHello ->
  ok (handleHello s b p).1 /\ rxNext (handleHello s b p).1 = rxNext s.
Proof.
  intros He Hc Ha Hk. unfold handleHello.
  destruct (_ || negb (bool_decide _)); [done|]. destruct (_ || negb (Bool.eqb _ _)); [done|].
  assert (p <> []) as Hne by (intros ->; discriminate Hk).
  assert (be_get (slice p 1 9) <= peerNext) as Hexp.
  { apply Ha. destruct p as [|k p]; [done|]. change (at_ (k :: p) 0) with k in Hk. subst k. done. }
  destruct (reconcilePeerLocked s _) as [s1 e] eqn:Er.
  apply reconcile_ok in Er as (He1 & Hk1 & Hc1 & Hh1); [|done|done].
  destruct e as [e|]; [subst s1; split; [exact He|done]|]. cbn [fst].
  set (peer := mkConfig _ _ _ _). set (m := Z.min (mtu b) (normalizeMTU _)).
  pose proof (negotiateLocked_ok s1 peer He1) as He2.
  assert (current (negotiateLocked s1 peer) = Some b) as Hc2 by by cbn; rewrite Hc1.
  pose proof (open_of_current _ _ He2 Hc2) as Ho2.
  assert (rxNext (negotiateLocked s1 peer) = rxNext s) as Hn2 by apply Hk1.
  revert He2 Hc2 Ho2 Hn2. generalize (negotiateLocked s1 peer). intros s2 He2 Hc2 Ho2 Hn2.
  split; [|done].
  assert (ok (set_current s2 (b <| mtu := Z.min (mtu b) m |>))) as He3.
  { eapply (ep_ok_binding _ _ _ _ s2); try done.
    destruct (eo_binding _ _ _ _ _ He2 b Hc2) as [B1 B2 B3 B4 B5].
    split; cbn; try done. unfold m.
    pose proof (normalizeMTU_range (be_get (slice p 15 17))). lia. }
  destruct He3 as [R T C Eb Ecl Er S X Ep]. pose proof (rx_range _ R).
  split; try done; try (by destruct R; split); try (by destruct T; split);
    try (by destruct S; split); try (by destruct X; split).
  right. eexists _, _, _. split; [done|]. cbn in *. lia.
Qed.

Lemma handleAck_ok s b expected now s' b' e :
  ok s -> current s = Some b -> expected <= peerNext -> 0 <= now ->
  handleAckLocked s b expected now = (s', b', e) ->
  ok (set_current s' b') /\ rxNext s' = rxNext s.
Proof.
  intros He Hc Hexp Hnow Ha. pose proof (open_of_current _ _ He Hc) as Ho.
  pose proof (eo_binding _ _ _ _ _ He b Hc) as Hb. pose proof (eo_tx _ _ _ _ _ He) as Htx.
  assert (helloReply s' = helloReply s) as Hh.
  { revert Ha. unfold handleAckLocked, reconcilePeerLocked.
    repeat case_match; intros; simplify_eq; done. }
  apply handleAckLocked_spec in Ha as (T' & B' & K & C' & G & M & Cn & N' & S' & Hcase); [|done..].
  destruct He as [R T C Eb Ecl Er S X Ep]. pose proof K as (Hid & Hcfg & Hrn & _ & _ & _ & Hbg & Hcl).
  split; [|done].
  assert (keeps_rx s (set_current s' b')) as K' by done.
  split; try done.
  - by eapply rx_inv_keeps.
  - by destruct T'; split.
  - cbn. by rewrite Hcfg.
  - by intros b0 [= <-].
  - cbn. by rewrite Hcl, Ho.
  - unfold hello_reply_ok. cbn. by rewrite Hh, Hrn.
  - destruct (S' _ S). by split.
  - by eapply rx_stream_keeps.
  - cbn. destruct e as [e|]; [by destruct Hcase as [-> _]|]. destruct Hcase as [-> _]. lia.
Qed.

Lemma handlePacket_ok s g p now :
  ok s -> packet_ok σr peerNext p -> 0 < now ->
  ok (handlePacket s g p now).1.1 /\ rxNext s <= rxNext (handlePacket s g p now).1.1.
Proof.
  intros He [Hd Ha] Hnow. unfold handlePacket. destruct p as [|kind q]; [done|].
  destruct (bound_to s g) as [b|] eqn:Eb; [|done].
  destruct (ep_ok_bound _ _ _ _ _ _ _ He Eb) as (Hcur & Hg & Hopen & Hb).
  set (b1 := b <| lastRX := now |> <| heartbeatPending := false |> <| heartbeatFailures := 0 |>).
  assert (ok (set_current s b1)) as He1 by by eapply set_current_ok.
  assert (rxNext s = rxNext (set_current s b1)) as -> by done.
  assert (current (set_current s b1) = Some b1) as Hcur1 by done.
  revert He1 Hcur1. generalize (set_current s b1). generalize b1.
  clear s b b1 He Eb Hcur Hg Hopen Hb. intros b s He Hcur. cbn zeta.
  pose proof (open_of_current _ _ He Hcur) as Hopen. set (p := kind :: q) in *.
  case_bool_decide as Ek.
  { pose proof (handleData_ok s p now He Hd Ek) as Hok.
    destruct (handleData s p now) as [s1 e]. by destruct Hok as (? & ? & _). }
  case_bool_decide as Ek2.
  { destruct (negb _); [done|].
    destruct (handleAckLocked s b (be_get (slice p 1 9)) now) as [[s1 b1] e] eqn:Eh.
    eapply handleAck_ok in Eh as [He1 Hn1]; [|done|done| |lia].
    2:{ apply Ha. unfold p. by subst kind. }
    destruct e as [e|]; cbn; [|split; [by eapply ep_ok_idle; [..|exact He1]|lia]].
    split; [done|lia]. }
  case_bool_decide; [destruct (negb _); [done|]; cbn;
    split; [by eapply ep_ok_idle; [..|exact He]|lia]|].
  case_bool_decide.
  { destruct (negb _); [done|]. cbn [fst]. split; [|done].
    apply (set_current_ok _ b); try done. by eapply ep_ok_idle; [..|exact He]. }
  case_bool_decide; [done|].
  case_bool_decide.
  { destruct (_ && _); [|done]. cbn. split; [by eapply ep_ok_idle; [..|exact He]|lia]. }
  case_bool_decide as Ek7.
  { destruct (handleHello_ok s b p He Hcur Ha Ek7) as [Hok Heq].
    destruct (handleHello s b p) as [s1 e]. cbn in *. split; [done|lia]. }
  by case_bool_decide.
Qed.

Lemma receiveLoop_turn_ok s g p now :
  ok s -> (forall q, p = Some q -> packet_ok σr peerNext q) -> 0 < now ->
  ok (receiveLoop_turn s g p now).1.1 /\ rxNext s <= rxNext (receiveLoop_turn s g p now).1.1.
Proof.
  intros He Hp Hnow. unfold receiveLoop_turn.
  assert (forall s g now e, rxNext (failBinding s g now e).1 = rxNext s) as Hf.
  { intros. unfold failBinding. by case_match. }
  destruct p as [p|].
  - destruct (handlePacket_ok s g p now He ltac:(by apply Hp) Hnow) as [Hok1 Hle1].
    destruct (handlePacket s g p now) as [[s1 eff] [e|]]; [|done]. cbn in Hok1, Hle1.
    pose proof (failBinding_ok s1 g now (ErrWrap "receive packet: " e "") Hok1) as Hok2.
    pose proof (Hf s1 g now (ErrWrap "receive packet: " e "")) as Heq2.
    destruct (failBinding s1 g now _) as [s2 eff2]. cbn in *. split; [done|lia].
  - pose proof (failBinding_ok s g now (ErrNew "BLE receive channel closed") He) as Hok2.
    pose proof (Hf s g now (ErrNew "BLE receive channel closed")) as Heq2.
    destruct (failBinding s g now _) as [s2 eff2]. cbn in *. split; [done|lia].
Qed.

(** ** Bootstrap *)

Lemma decodeHelloAck_ack p pe cfg m :
  decodeHelloAck p = inr (pe, cfg, m) -> ack_value p = Some pe.
Proof.
  unfold decodeHelloAck. destruct (_ || negb (bool_decide _)) eqn:E; [done|].
  apply orb_false_iff in E as [_ E]. apply negb_false_iff, bool_decide_eq_true in E.
  destruct p as [|k p]; [discriminate E|].
  change (at_ (k :: p) 0) with k in E. subst k.
  repeat case_match; try done; by intros [= <- <- <-].
Qed.

Lemma readHelloLoop_ack h have ps e hello rest :
  readHelloLoop h have ps e = (inr hello, rest) ->
  exists p, p ∈ ps /\ ack_value p = Some (ExpectedRemote hello).
Proof.
  revert h have. induction ps as [|p ps IH]; intros h have; cbn [readHelloLoop]; [done|].
  destruct (readHelloPacket h have p) as [r|[h' have']] eqn:Ep.
  - intros [= -> <-]. exists p. split; [by left|]. revert Ep. unfold readHelloPacket.
    destruct p as [|k q]; [done|]. repeat case_match; try done; intros [= <-];
      cbn [ack_value]; repeat (case_bool_decide; [|done]); subst; done.
  - intros (q & Hq & Ha)%IH. exists q. split; [by right|done].
Qed.

Lemma BindServer_ack_ok s connMTU hello s' r :
  ok s -> ExpectedRemote hello <= peerNext -> BindServer_ack s connMTU hello = (s', r) ->
  ok s' /\ rxNext s' = rxNext s /\
  forall ack m, r = inr (ack, m) -> packet_ok σt (rxNext s') ack.
Proof.
  intros He Hexp. unfold BindServer_ack. repeat (case_match; [by intros [= <- <-]|]).
  destruct (reconcilePeerLocked s _) as [s1 e] eqn:Er.
  apply reconcile_ok in Er as (He1 & Hk1 & Hc1 & Hh1); [|done|done].
  destruct e as [e|]; [subst s1; by intros [= <- <-]|]. intros [= <- <-].
  pose proof (negotiateLocked_ok s1 (mkConfig (h_ResumeTimeout hello) 0 (h_MaxConnections hello)
    (h_Compression hello)) He1) as He2.
  split; [done|]. split; [apply Hk1|]. intros ack m [= <- <-].
  pose proof (rx_range _ (eo_rx _ _ _ _ _ He1)). unfold max_u64 in *.
  apply packet_ok_helloAck; cbn; lia.
Qed.

Lemma BindClient_finish_ok s connMTU cfg pe pc pm :
  ok s -> pe <= peerNext ->
  ok (BindClient_finish s connMTU cfg pe pc pm).1 /\
  rxNext (BindClient_finish s connMTU cfg pe pc pm).1 = rxNext s.
Proof.
  intros He Hexp. unfold BindClient_finish. do 2 (case_match; [done|]).
  destruct (reconcilePeerLocked s pe) as [s1 e] eqn:Er.
  apply reconcile_ok in Er as (He1 & Hk1 & Hc1 & Hh1); [|done|done].
  destruct e as [e|]; [by subst s1|]. split; [by apply negotiateLocked_ok|apply Hk1].
Qed.

(** ** The byte stream *)

Lemma Read_ok s n s' p :
  ok s -> 0 <= n -> Read s n = (s', ReadData p) ->
  ep_ok σt σr (consumed ++ p) peerNext s' /\ rxNext s' = rxNext s /\
  zlen p <= n /\ (0 < n -> 0 < zlen p).
Proof.
  intros He Hn. unfold Read. destruct (Z.eqb_spec n 0).
  { intros [= <- <-]. rewrite app_nil_r. split_and!; try done; rewrite ?zlen_nil; lia. }
  destruct (Z.ltb_spec 0 (zlen (rxBuf s))).
  2:{ by destruct (closed s). }
  intros [= <- <-]. destruct He as [[R1 R2 R3 R4 R5 R6] T C Eb Ecl Er S [X1 X2 X3] Ep].
  split_and!; try done; rewrite ?zlen_slice_to by lia; try lia.
  split; try done.
  - split; cbn; try done. rewrite zlen_slice_from; lia.
  - by destruct T; split.
  - by destruct S; split.
  - split; cbn; try done. by rewrite <- app_assoc, slice_to_from.
Qed.

Lemma Write_ok s p :
  ok s ->
  let '(s', n, t) := Write (length p) s p 0 in
  ep_ok (σt ++ slice_to p n) σr consumed peerNext s' /\ rxNext s' = rxNext s.
Proof.
  intros He. destruct (Write (length p) s p 0) as [[s' n] t] eqn:Ew.
  apply Write_spec_aux in Ew; [|by apply (eo_tx _ _ _ _ _ He)|done].
  destruct Ew as (k & -> & Hk & T' & K & Hb & Hc & Hh & Hn & Hst & _).
  destruct He as [R T C Eb Ecl Er S X Ep].
  pose proof K as (Hid & Hcfg & Hrn & _ & _ & _ & Hbg & Hcl).
  split; [|done]. split; rewrite ?Hcfg, ?Hc, ?Hcl, ?Hb; try done.
  - by eapply rx_inv_keeps.
  - intros b Hbb. eapply binding_inv_mono; [by apply Eb|lia|lia].
  - unfold hello_reply_ok. by rewrite Hh, Hrn.
  - by apply Hst.
  - by eapply rx_stream_keeps.
Qed.
End Operations.

(** ** Every operation *)

Lemma ep_run_ok σt σr consumed peerNext s o :
  zlen σr <= max_u64 -> ep_ok σt σr consumed peerNext s -> op_clock o ->
  (forall p, p ∈ op_packets o -> packet_ok σr peerNext p) ->
  ep_result σt σr consumed peerNext s (ep_run s o).
Proof.
  intros Hσ He Hclock Hpk.
  destruct o as [p|n|g now|g packet d now e|g now|g st fi e|g packet now|g now reason|d|e| |d|d|d
    |connMTU|connMTU cfg packet|connMTU packets|c connMTU m now]; cbn [ep_run op_clock op_packets] in *.
  - pose proof (Write_ok σt σr consumed peerNext s p He) as Hw.
    destruct (Write (length p) s p 0) as [[s' n] t]. destruct Hw as [Hw Hn].
    split; cbn; rewrite ?app_nil_r; [done|lia|]. intros q Hq. by apply elem_of_nil in Hq.
  - destruct (Read s n) as [s' r] eqn:Er. destruct r as [p| |]; [|by
      revert Er; unfold Read; repeat case_match; intros; simplify_eq; apply ep_result_quiet..].
    eapply Read_ok in Er as (He' & Hn & _); [|done|done].
    split; cbn; rewrite ?app_nil_r; [done|lia|]. intros q Hq. by apply elem_of_nil in Hq.
  - destruct (sendLoop_take s g now) as [r s'] eqn:Et.
    eapply sendLoop_take_ok in Et as (He' & Hn & Hp); [|done|done].
    destruct r as [[p|]|]; [|apply ep_result_quiet; [done|lia]..].
    apply ep_result_sent; [done|lia|]. intros q ->%list_elem_of_singleton. by apply Hp.
  - apply ep_result_quiet; [by apply sendLoop_sent_ok|].
    unfold sendLoop_sent. cbn. repeat case_match; done.
  - pose proof (heartbeatLoop_tick_ok σt σr consumed peerNext s g now He) as He'.
    assert (rxNext (heartbeatLoop_tick s g now).2 = rxNext s) as Hn.
    { unfold heartbeatLoop_tick. destruct (bound_to s g) as [b|]; [|done].
      destruct (heartbeatCheckLocked s b now) as [[s1 b1] r] eqn:Eh.
      apply heartbeatCheck_fields in Eh as (Hs & _). apply Hs. }
    destruct (heartbeatLoop_tick s g now) as [[[[|] dt]|] s']; cbn in He', Hn;
      [|apply ep_result_quiet; [done|lia]..].
    apply ep_result_sent; [done|lia|]. intros q ->%list_elem_of_singleton. by apply packet_ok_plain.
  - apply ep_result_quiet; [by apply heartbeatLoop_sent_ok|].
    unfold heartbeatLoop_sent, heartbeatSendResultLocked. repeat case_match; done.
  - destruct (receiveLoop_turn_ok σt σr consumed peerNext Hσ s g packet now) as [H1 H2];
      [done| |done|by apply ep_result_quiet].
    intros q ->. apply Hpk. by left.
  - apply ep_result_quiet; [by apply failBinding_ok|]. unfold failBinding. by case_match.
  - apply ep_result_quiet; [by apply expireAfter_ok|]. unfold expireAfter, closeWithError.
    repeat case_match; done.
  - apply ep_result_quiet; [by apply closeWithError_ok|]. unfold closeWithError. by case_match.
  - unfold Close. pose proof (closeWithError_ok σt σr consumed peerNext s (Sent EOF) He) as Hc.
    assert (rxNext (closeWithError s (Sent EOF)).1 = rxNext s) as Hn
      by (unfold closeWithError; by case_match).
    destruct (closeWithError s (Sent EOF)) as [s' eff]. cbn in Hc, Hn.
    destruct (current s); [|apply ep_result_quiet; [done|lia]].
    apply ep_result_sent; [done|lia|]. intros q ->%list_elem_of_singleton. by apply packet_ok_plain.
  - apply ep_result_quiet; [by eapply ep_ok_idle; [..|exact He]|done].
  - apply ep_result_quiet; [by eapply ep_ok_idle; [..|exact He]|done].
  - apply ep_result_quiet; [by eapply ep_ok_idle; [..|exact He]|done].
  - unfold BindClient_hello. destruct (closed s); [by apply ep_result_quiet|].
    destruct (encodeHello _ _ _ _) as [p1 p2] eqn:Ehello.
    apply ep_result_sent; [done|done|]. pose proof (rx_range _ (eo_rx _ _ _ _ _ He)).
    unfold max_u64 in *.
    intros q Hq. apply elem_of_cons in Hq as [->|Hq]; [|apply list_elem_of_singleton in Hq as ->].
    + injection Ehello as <- <-. by apply packet_ok_plain.
    + replace p2 with (encodeHello (id s) (rxNext s) (config s) connMTU).2 by by rewrite Ehello.
      apply packet_ok_hello; lia.
  - destruct (decodeHelloAck packet) as [|[[pe pc] pm]] eqn:Ed; [by apply ep_result_quiet|].
    apply decodeHelloAck_ack in Ed.
    destruct (BindClient_finish_ok σt σr consumed peerNext s connMTU cfg pe pc pm He) as [H1 H2].
    { destruct (Hpk packet) as [_ Ha]; [by left|]. by apply Ha. }
    apply ep_result_quiet; [done|lia].
  - destruct (ReadHello packets _) as [[|hello] rest] eqn:Eh; cbn [fst]; [by apply ep_result_quiet|].
    apply readHelloLoop_ack in Eh as (p & Hp & Hack).
    destruct (BindServer_ack s connMTU hello) as [s' r] eqn:Eb.
    eapply BindServer_ack_ok in Eb as (H1 & H2 & H3); [|done|].
    2:{ destruct (Hpk p Hp) as [_ Ha]. by apply Ha. }
    destruct r as [e|[ack m]]; [apply ep_result_quiet; [done|lia]|].
    apply ep_result_sent; [done|lia|]. intros q ->%list_elem_of_singleton. by eapply H3.
  - apply ep_result_quiet; [by apply attach_ok|].
    unfold attach. destruct (closed s); [done|]. cbn. by destruct (ackDirty s).
Qed.
