(* ===== verification/LinkSystem.v ===== *)
(** * Two endpoints over an unreliable packet link

    A [link] is two sessions, the bytes each side wrote and read, and every
    packet either side ever handed to [conn.Send].  A step runs one operation
    of one side; a packet it receives is any packet the other side ever sent,
    so packets may be lost, duplicated, reordered and delayed across
    detachments.  Every reachable state keeps the streams: each side has read a
    prefix of what the other wrote, and what was not delivered yet is still in
    the sender's replay buffer. *)

From S2P Require Export LinkEndpoint.

Record link := mkLink {
  la : Session; lb : Session;       (* the two endpoints *)
  wa : bytes; wb : bytes;           (* written by A, by B *)
  ra : bytes; rb : bytes;           (* read by A, by B *)
  toA : list bytes; toB : list bytes
}.

Definition link_swap (l : link) : link :=
  mkLink (lb l) (la l) (wb l) (wa l) (rb l) (ra l) (toB l) (toA l).

Definition new_link (sid : SessionID) (cfgA cfgB : Config) : link :=
  mkLink (NewSessionWithID sid cfgA) (NewSessionWithID sid cfgB) [] [] [] [] [] [].

(** A runs [o]. *)
Definition run_a (l : link) (o : op) : link :=
  let r := ep_run (la l) o in
  mkLink (oc_session r) (lb l) (wa l ++ oc_written r) (wb l) (ra l ++ oc_read r) (rb l)
    (toA l) (toB l ++ oc_sent r).

Definition run_b (l : link) (o : op) : link := link_swap (run_a (link_swap l) o).

Inductive link_step : link -> link -> Prop :=
  | StepA l o : op_clock o -> (forall p, p ∈ op_packets o -> p ∈ toA l) -> link_step l (run_a l o)
  | StepB l o : op_clock o -> (forall p, p ∈ op_packets o -> p ∈ toB l) -> link_step l (run_b l o).

Inductive link_reachable (sid : SessionID) (cfgA cfgB : Config) : link -> Prop :=
  | LrInit : link_reachable sid cfgA cfgB (new_link sid cfgA cfgB)
  | LrStep l l' : link_reachable sid cfgA cfgB l -> link_step l l' -> link_reachable sid cfgA cfgB l'.

Record link_inv (l : link) : Prop := {
  li_a : ep_ok (wa l) (wb l) (ra l) (rxNext (lb l)) (la l);
  li_b : ep_ok (wb l) (wa l) (rb l) (rxNext (la l)) (lb l);
  li_toB : forall p, p ∈ toB l -> packet_ok (wa l) (rxNext (la l)) p;
  li_toA : forall p, p ∈ toA l -> packet_ok (wb l) (rxNext (lb l)) p
}.

Lemma ep_ok_new sid cfg : ep_ok [] [] [] 0 (NewSessionWithID sid cfg).
Proof.
  destruct (normalized_ok cfg) as (C1 & C2 & C3). split; cbn; try done.
  - split; cbn [NewSessionWithID rxNext rxBuf rxPending rxPendingBytes config].
    + unfold max_u64. lia.
    + done.
    + apply pend_ok_empty.
    + done.
    + change (zlen (@nil byte)) with 0. lia.
    + done.
  - split; cbn; unfold max_u64; rewrite ?zlen_nil; lia.
  - by left.
Qed.

(** What the peer does keeps an endpoint's invariant: its stream grows and so
    does the offset it expects. *)
Lemma ep_ok_peer σt σr x consumed n n' s :
  n <= n' -> ep_ok σt σr consumed n s -> ep_ok σt (σr ++ x) consumed n' s.
Proof.
  intros Hn [R T C Eb Ecl Er S [X1 X2 X3] Ep]. split; try done; [|lia].
  split; [| |intros; by apply fragment_app, X3].
  - rewrite X1. unfold slice_to. rewrite take_app_le; [done|]. zl.
  - rewrite zlen_app. pose proof (zlen_nonneg x). lia.
Qed.

Lemma ep_ok_stream_bound σt σr c n s : ep_ok σt σr c n s -> zlen σt <= max_u64.
Proof. intros [_ T _ _ _ _ S _ _]. rewrite <- (ts_next _ _ S). apply (tx_range _ T). Qed.

Lemma link_inv_swap l : link_inv l -> link_inv (link_swap l).
Proof. intros [H1 H2 H3 H4]. by split. Qed.

Lemma link_inv_run_a l o :
  link_inv l -> op_clock o -> (forall p, p ∈ op_packets o -> p ∈ toA l) -> link_inv (run_a l o).
Proof.
  intros [H1 H2 H3 H4] Hc Hp.
  destruct (ep_run_ok (wa l) (wb l) (ra l) (rxNext (lb l)) (la l) o) as [R1 R2 R3]; try done.
  { by eapply ep_ok_stream_bound. }
  { intros p ?. by apply H4, Hp. }
  split; cbn; [done|by eapply ep_ok_peer| |done].
  intros p [Hin|Hin]%elem_of_app; [|by apply R3]. by eapply packet_ok_mono, H3.
Qed.

Lemma link_inv_step l l' : link_step l l' -> link_inv l -> link_inv l'.
Proof.
  intros [? ? Hc Hp|? ? Hc Hp] Hi.
  - by apply link_inv_run_a.
  - apply link_inv_swap, link_inv_run_a; [by apply link_inv_swap|done..].
Qed.

Lemma link_reachable_inv sid cfgA cfgB l : link_reachable sid cfgA cfgB l -> link_inv l.
Proof.
  induction 1 as [|l l' _ IH Hs]; [|by eapply link_inv_step].
  split; cbn; try apply ep_ok_new; intros p Hp; by apply elem_of_nil in Hp.
Qed.

(** What one side has not received yet, the other still holds. *)
Lemma streams_complete σ c s r :
  tx_stream σ s -> rx_stream σ c r -> 0 <= txBase s <= rxNext r ->
  σ = c ++ rxBuf r ++ slice_from (txBuf s) (rxNext r - txBase s).
Proof.
  intros [S1 S2] [X1 X2 X3] Hb. rewrite S2, slice_from_slice_from by lia.
  replace (txBase s + (rxNext r - txBase s)) with (rxNext r) by lia.
  by rewrite app_assoc, X1, slice_to_from.
Qed.

Lemma link_streams_a l :
  link_inv l ->
  wa l = rb l ++ rxBuf (lb l) ++ slice_from (txBuf (la l)) (rxNext (lb l) - txBase (la l)).
Proof.
  intros [[_ T _ _ _ _ S _ P] [_ _ _ _ _ _ _ X _] _ _].
  apply streams_complete; try done. pose proof (tx_range _ T). lia.
Qed.

(** ** Executable runs

    A schedule names, for each step, the side (true for A) and its operation. *)

#[export] Instance op_clock_dec o : Decision (op_clock o).
Proof. destruct o; apply _. Defined.

Definition allowed (l : link) (side : bool) (o : op) : bool :=
  bool_decide (op_clock o) &&
  forallb (fun p => bool_decide (p ∈ (if side then toA l else toB l))) (op_packets o).

Fixpoint run_schedule (l : link) (ops : list (bool * op)) : option link :=
  match ops with
  | [] => Some l
  | (side, o) :: ops =>
      if allowed l side o then run_schedule (if side then run_a l o else run_b l o) ops else None
  end.

Lemma run_schedule_reachable sid cfgA cfgB l ops l' :
  link_reachable sid cfgA cfgB l -> run_schedule l ops = Some l' ->
  link_reachable sid cfgA cfgB l'.
Proof.
  revert l. induction ops as [|[side o] ops IH]; intros l Hr; cbn [run_schedule].
  { by intros [= <-]. }
  destruct (allowed l side o) eqn:Ea; [|done]. apply andb_true_iff in Ea as [Hc Hp].
  apply bool_decide_eq_true in Hc. rewrite forallb_forall in Hp.
  assert (forall p, p ∈ op_packets o -> p ∈ (if side then toA l else toB l)) as Hp'.
  { intros p Hin. apply list_elem_of_In in Hin. by apply Hp, bool_decide_eq_true in Hin. }
  apply IH. eapply LrStep; [exact Hr|]. destruct side; [by apply StepA|by apply StepB].
Qed.

(** A writes, both sides bind over the bootstrap packets, and B receives the
    DATA twice before its application reads. *)
Definition demoID : SessionID := replicate 16 Byte.x07.
Definition demoConfig : Config := mkConfig 0 0 0 true.
Definition demoHello : bytes * bytes := encodeHello demoID 0 (normalized demoConfig) 185.
Definition demoAck : bytes := encodeHelloAck 0 (normalized demoConfig) 185.
Definition demoText : bytes := [Byte.x68; Byte.x69; Byte.x21].

Definition demoSchedule : list (bool * op) :=
  [ (true, OWrite demoText);
    (true, OClientHello 185);
    (false, OServerAck 200 [demoHello.1; demoHello.2]);
    (false, OAttach 1 200 185 1000);
    (true, OClientFinish 185 (normalized demoConfig) demoAck);
    (true, OAttach 1 185 185 1000);
    (true, OTake 1 2000);
    (false, OReceive 1 (Some (dataPacket 0 demoText)) 3000);
    (false, OReceive 1 (Some (dataPacket 0 demoText)) 3001);
    (false, ORead 2);
    (false, OTake 1 4000);
    (true, OReceive 1 (Some (ackPacket 3)) 5000) ].

Definition demoLink : link :=
  default (new_link demoID demoConfig demoConfig)
    (run_schedule (new_link demoID demoConfig demoConfig) demoSchedule).

Lemma demoLink_reachable : link_reachable demoID demoConfig demoConfig demoLink.
Proof.
  eapply run_schedule_reachable; [apply LrInit|].
  instantiate (1 := demoSchedule). vm_compute. reflexivity.
Qed.

(** * Properties *)

(** C1. The link is a reliable byte stream over any packet loss, duplication,
    reordering, detachment and rebinding: in every reachable state each side
    has read a prefix of what the other wrote, and the part not yet received is
    exactly what the sender still retains for replay. *)
Theorem link_stream_integrity sid cfgA cfgB l :
  link_reachable sid cfgA cfgB l ->
  rb l `prefix_of` wa l /\ ra l `prefix_of` wb l /\
  wa l = rb l ++ rxBuf (lb l) ++ slice_from (txBuf (la l)) (rxNext (lb l) - txBase (la l)) /\
  wb l = ra l ++ rxBuf (la l) ++ slice_from (txBuf (lb l)) (rxNext (la l) - txBase (lb l)).
Proof.
  intros Hr%link_reachable_inv. pose proof (link_streams_a l Hr) as Ha.
  pose proof (link_streams_a _ (link_inv_swap _ Hr)) as Hb. cbn in Hb.
  split_and!; try done; eexists; [exact Ha|exact Hb].
Qed.

Lemma link_stream_integrity_witness :
  rb demoLink `prefix_of` wa demoLink /\ ra demoLink `prefix_of` wb demoLink /\
  wa demoLink = rb demoLink ++ rxBuf (lb demoLink)
    ++ slice_from (txBuf (la demoLink)) (rxNext (lb demoLink) - txBase (la demoLink)) /\
  wb demoLink = ra demoLink ++ rxBuf (la demoLink)
    ++ slice_from (txBuf (lb demoLink)) (rxNext (la demoLink) - txBase (lb demoLink)).
Proof. apply (link_stream_integrity demoID demoConfig demoConfig), demoLink_reachable. Defined.

(** The run delivers: B's application has two bytes, one is buffered. *)
Example demoLink_delivers :
  rb demoLink = take 2 demoText /\ rxBuf (lb demoLink) = drop 2 demoText /\
  txBase (la demoLink) = 3 /\ txBuf (la demoLink) = [].
Proof. vm_compute. done. Qed.

(** C29. Receiver and sender states stay within their bounds on every reachable
    state: windows, fragment count, packet size, flight window, and offsets in
    the 64-bit sequence space; an ACK never overtakes the receiver. *)
Theorem link_bounds sid cfgA cfgB l :
  link_reachable sid cfgA cfgB l ->
  0 <= txBase (la l) <= rxNext (lb l) /\ rxNext (lb l) <= txNext (la l) <= max_u64 /\
  zlen (rxBuf (lb l)) + rxPendingBytes (lb l) <= ReplayWindow (config (lb l)) /\
  zlen (txBuf (la l)) <= ReplayWindow (config (la l)) /\
  Z.of_nat (size (rxPending (lb l))) <= maxFlightWindowPackets /\
  forall b, current (la l) = Some b ->
    minimumPacketMTU <= mtu b <= 244 /\
    initialFlightWindowPackets <= flightPackets b <= maxFlightWindowPackets.
Proof.
  intros [A B _ _]%link_reachable_inv.
  pose proof (tx_range _ (eo_tx _ _ _ _ _ A)) as [? ?].
  pose proof (rs_bound _ _ _ (eo_rxs _ _ _ _ _ B)) as Hb.
  rewrite <- (ts_next _ _ (eo_txs _ _ _ _ _ A)) in Hb.
  split_and!; try lia.
  - apply (eo_peer _ _ _ _ _ A).
  - apply (rx_window _ (eo_rx _ _ _ _ _ B)).
  - apply (tx_window _ (eo_tx _ _ _ _ _ A)).
  - apply (rx_count _ (eo_rx _ _ _ _ _ B)).
  - intros b [? ? _ _ _]%(eo_binding _ _ _ _ _ A). done.
Qed.

Lemma link_bounds_witness :
  0 <= txBase (la demoLink) <= rxNext (lb demoLink) /\
  rxNext (lb demoLink) <= txNext (la demoLink) <= max_u64 /\
  zlen (rxBuf (lb demoLink)) + rxPendingBytes (lb demoLink) <= ReplayWindow (config (lb demoLink)) /\
  zlen (txBuf (la demoLink)) <= ReplayWindow (config (la demoLink)) /\
  Z.of_nat (size (rxPending (lb demoLink))) <= maxFlightWindowPackets /\
  forall b, current (la demoLink) = Some b ->
    minimumPacketMTU <= mtu b <= 244 /\
    initialFlightWindowPackets <= flightPackets b <= maxFlightWindowPackets.
Proof. apply (link_bounds demoID demoConfig demoConfig), demoLink_reachable. Defined.
