(* ===== verification/LinkLiveness.v ===== *)
(** * Delivery over the link is always possible

    From every reachable state in which both endpoints have a binding, even with
    every packet sent before lost, some execution of the send loops, the receive
    loops and the readers alone delivers everything written so far: control
    packets drain, an unacknowledged byte is sent again once the clock reaches the
    retransmit time, a packet at the delivered offset is accepted, and a rejected
    one provokes the ACK that moves the sender. *)

From stdpp Require Import relations.
From S2P Require Export LinkSystem.

(** One turn of a loop: of the send loop — a packet is taken and [conn.Send] of it
    succeeds — of the receive loop, or one [Read]. *)
Inductive turn := SendTurn | ReceiveTurn (p : bytes) | ReadTurn (n : Z).

Definition turn_a (now : Z) (l : link) (t : turn) : link :=
  match t, current (la l) with
  | SendTurn, Some b =>
      let o := OTake (gen b) now in
      foldl (fun l p => run_a l (OSent (gen b) p 0 now None)) (run_a l o) (oc_sent (ep_run (la l) o))
  | ReceiveTurn p, Some b => run_a l (OReceive (gen b) (Some p) now)
  | ReadTurn n, _ => run_a l (ORead n)
  | _, None => l
  end.

(** The operations of a turn. *)
Definition linkTurnOp (t : turn) (o : op) : bool :=
  match t, o with
  | SendTurn, OTake _ _ | SendTurn, OSent _ _ _ _ _ | ReceiveTurn _, OReceive _ _ _ | ReadTurn _, ORead _ => true
  | _, _ => false
  end.

Definition turn_b (now : Z) (l : link) (t : turn) : link := link_swap (turn_a now (link_swap l) t).

(** A packet received is one the other side has sent. *)
Definition turn_ok (sent : list bytes) (t : turn) : Prop :=
  match t with SendTurn => True | ReceiveTurn p => p ∈ sent | ReadTurn n => 0 <= n end.

(** The link and the clock, which never goes back. *)
Inductive link_move : Z * link -> Z * link -> Prop :=
  | MoveA τ now l t : τ <= now -> 0 < now -> turn_ok (toA l) t -> link_move (τ, l) (now, turn_a now l t)
  | MoveB τ now l t : τ <= now -> 0 < now -> turn_ok (toB l) t -> link_move (τ, l) (now, turn_b now l t).

(** Every packet sent so far is lost. *)
Definition lose (l : link) : link := mkLink (la l) (lb l) (wa l) (wb l) (ra l) (rb l) [] [].

Lemma lose_inv l : link_inv l -> link_inv (lose l).
Proof. intros [H1 H2 _ _]. split; try done; intros p Hp; by apply elem_of_nil in Hp. Qed.

(** A property kept by the operations a turn is made of. *)
Lemma turn_a_ind (P : link -> Prop) now l t :
  (forall l o, linkTurnOp t o = true -> op_clock o -> (forall p, p ∈ op_packets o -> p ∈ toA l) -> P l -> P (run_a l o)) ->
  0 < now -> turn_ok (toA l) t -> P l -> P (turn_a now l t).
Proof.
  intros Hop Hnow Ht HP. unfold turn_a. destruct t as [|p|n].
  - destruct (current (la l)) as [b|]; [|done]. cbn zeta.
    assert (P (run_a l (OTake (gen b) now))) as H1 by (apply Hop; [done|done|intros p Hp; by apply elem_of_nil in Hp|done]).
    revert H1. generalize (run_a l (OTake (gen b) now)) as l1. induction (oc_sent _) as [|p ps IH]; intros l1 H1; cbn [foldl]; [done|].
    apply IH, Hop; [done|done|intros q Hq; by apply elem_of_nil in Hq|done].
  - destruct (current (la l)) as [b|]; [|done]. apply Hop; [done|done| |done].
    intros q Hq. cbn in Hq. by apply list_elem_of_singleton in Hq as ->.
  - apply Hop; [done|done|intros p Hp; by apply elem_of_nil in Hp|done].
Qed.

Lemma link_inv_move m m' : link_move m m' -> link_inv m.2 -> link_inv m'.2.
Proof.
  intros [τ now l t _ Hnow Ht|τ now l t _ Hnow Ht] Hi; cbn [snd] in *.
  - apply turn_a_ind; try done. intros. by apply link_inv_run_a.
  - apply link_inv_swap, turn_a_ind; try done; [intros; by apply link_inv_run_a|by apply link_inv_swap].
Qed.

Lemma bound_open_a l b : link_inv l -> current (la l) = Some b -> closed (la l) = false.
Proof. intros [Ha _ _ _]. by eapply open_of_current. Qed.

Lemma bound_open_b l b : link_inv l -> current (lb l) = Some b -> closed (lb l) = false.
Proof. intros [_ Hb _ _]. by eapply open_of_current. Qed.

(** What a run of A's send loop leaves alone. *)
Record quiet_a (l l' : link) : Prop := {
  qa_b : lb l' = lb l;
  qa_wa : wa l' = wa l; qa_wb : wb l' = wb l;
  qa_ra : ra l' = ra l; qa_rb : rb l' = rb l;
  qa_base : txBase (la l') = txBase (la l);
  qa_next : txNext (la l') = txNext (la l);
  qa_rx : rxNext (la l') = rxNext (la l);
  qa_buf : rxBuf (la l') = rxBuf (la l);
  qa_config : config (la l') = config (la l);
  qa_bound : is_Some (current (la l')) <-> is_Some (current (la l));
  qa_toA : toA l' = toA l;
  qa_toB : toB l ⊆ toB l'
}.

#[export] Instance quiet_a_preorder : PreOrder quiet_a.
Proof.
  split; [by split|]. intros l1 l2 l3 [] []. split; try congruence; [tauto|by etrans].
Qed.

(** Control packets waiting in [nextPacketLocked]'s order. *)
Definition settled (s : Session) : Prop :=
  helloReply s = [] /\ pongDirty s = false /\ ackDirty s = false.

Definition controls (s : Session) : nat :=
  (if 0 <? zlen (helloReply s) then 1 else 0) + (if pongDirty s then 1 else 0)
  + (if ackDirty s then 1 else 0).

Lemma settled_controls s : controls s = 0%nat -> settled s.
Proof.
  unfold controls, settled. destruct (Z.ltb_spec 0 (zlen (helloReply s))), (pongDirty s), (ackDirty s);
    try done. intros _. split_and!; try done. apply zlen_zero_nil. pose proof (zlen_nonneg (helloReply s)). lia.
Qed.

Lemma bound_to_current s b : current s = Some b -> closed s = false -> bound_to s (gen b) = Some b.
Proof. intros Hc Ho. unfold bound_to. by rewrite Hc, Z.eqb_refl, Ho. Qed.

(** One turn of the send loop on a pending control packet. *)
Lemma take_control s b now :
  current s = Some b -> closed s = false -> controls s <> 0%nat -> ackDeadline s <= now ->
  exists p s', ep_run s (OTake (gen b) now) = mkOutcome s' [] [] [p] /\
    current s' = Some b /\ same_streams s s' /\ ackDeadline s' <= Z.max 0 now /\
    (controls s' < controls s)%nat /\
    (ackDirty s = true -> ackDirty s' = true \/ p = ackPacket (rxNext s)).
Proof.
  intros Hc Ho Hn Hd. cbn [ep_run]. unfold sendLoop_take. rewrite bound_to_current by done.
  unfold nextPacketLocked, controls in *.
  destruct (Z.ltb_spec 0 (zlen (helloReply s))) as [Hh|Hh].
  { eexists _, _. split; [done|]. cbn. split_and!; try done; try lia; [|tauto].
    change (zlen (@nil byte)) with 0. rewrite Z.ltb_irrefl.
    destruct (pongDirty s), (ackDirty s); lia. }
  destruct (pongDirty s) eqn:Ep.
  { eexists _, _. split; [done|]. cbn. split_and!; try done; try lia; [|tauto].
    rewrite (proj2 (Z.ltb_ge _ _)) by lia. destruct (ackDirty s); lia. }
  destruct (ackDirty s) eqn:Ea; [|done].
  assert ((ackBatchPackets <=? ackPackets s) || (ackDeadline s =? 0) || negb (now <? ackDeadline s) = true)
    as -> by (rewrite (proj2 (Z.ltb_ge now (ackDeadline s))) by done; by rewrite orb_true_r).
  cbn [andb]. eexists _, _. split; [done|]. cbn. split_and!; try done; try lia; [|by right].
  rewrite (proj2 (Z.ltb_ge _ _)), Ep by lia. lia.
Qed.

(** What [Send]'s return leaves alone. *)
Lemma sent_keeps s g p d now :
  let s' := (sendLoop_sent s g p d now None).1 in
  same_streams s s' /\ (is_Some (current s') <-> is_Some (current s)) /\ controls s' = controls s /\
  ackDirty s' = ackDirty s /\ helloReply s' = helloReply s /\ pongDirty s' = pongDirty s.
Proof.
  unfold sendLoop_sent. cbn zeta. cbn [fst]. set (t := if bool_decide _ then _ else _). clearbody t.
  change (current (s <| stats := t |>)) with (current s). destruct (current s) as [b|] eqn:Ec; [destruct (gen b =? g)|].
  all: split_and!; try done; try (by split_and!); try (by rewrite <- Ec).
Qed.

(** A turn of the send loop that takes [p]. *)
Lemma send_turn l b now s' p :
  current (la l) = Some b -> ep_run (la l) (OTake (gen b) now) = mkOutcome s' [] [] [p] ->
  turn_a now l SendTurn =
    mkLink (sendLoop_sent s' (gen b) p 0 now None).1 (lb l) (wa l) (wb l) (ra l) (rb l) (toA l) (toB l ++ [p]).
Proof.
  intros Hc Hrun. unfold turn_a. rewrite Hc. cbn zeta. rewrite Hrun. cbn [oc_sent foldl].
  assert (run_a l (OTake (gen b) now) = mkLink s' (lb l) (wa l) (wb l) (ra l) (rb l) (toA l) (toB l ++ [p])) as ->.
  { unfold run_a. rewrite Hrun. cbn. by rewrite !app_nil_r. }
  unfold run_a. cbn [ep_run la lb wa wb ra rb toA toB quiet oc_session oc_written oc_read oc_sent]. by rewrite !app_nil_r.
Qed.

Lemma quiet_a_send l b now s' p :
  current (la l) = Some b -> ep_run (la l) (OTake (gen b) now) = mkOutcome s' [] [] [p] ->
  same_streams (la l) s' -> is_Some (current s') -> quiet_a l (turn_a now l SendTurn).
Proof.
  intros Hc Hrun (H1 & H2 & H3 & H4 & H5 & H6 & H7 & H8) Hb. rewrite (send_turn _ _ _ _ _ Hc Hrun).
  destruct (sent_keeps s' (gen b) p 0 now) as ((K1 & K2 & K3 & K4 & K5 & K6 & K7 & K8) & Hk & _).
  split; cbn [la lb wa wb ra rb toA toB]; try congruence.
  - rewrite Hk. split; intros _; [by exists b|done].
  - intros x Hx. apply elem_of_app. by left.
Qed.

(** A's send loop empties its control queue; a pending ACK goes out. *)
Lemma drain_controls τ l :
  link_inv l -> is_Some (current (la l)) ->
  exists τ' l', rtc link_move (τ, l) (τ', l') /\ quiet_a l l' /\ settled (la l') /\
    (ackDirty (la l) = true -> ackPacket (rxNext (la l)) ∈ toB l').
Proof.
  remember (controls (la l)) as n eqn:Hn. revert τ l Hn.
  induction (lt_wf n) as [n _ IH]. intros τ l -> Hi [b Hc]. pose proof (bound_open_a _ _ Hi Hc) as Ho.
  destruct (decide (controls (la l) = 0%nat)) as [Hz|Hz].
  { pose proof (settled_controls _ Hz) as Hs. exists τ, l. split_and!; try done.
    destruct Hs as (_ & _ & Ha). congruence. }
  set (now := Z.max (Z.max 1 τ) (ackDeadline (la l))).
  destruct (take_control (la l) b now) as (p & s' & Hrun & Hc' & Hst & Hd & Hlt & Hack);
    [done..|lia|].
  set (l1 := turn_a now l SendTurn).
  assert (link_move (τ, l) (now, l1)) as Hm by (apply MoveA; [lia|lia|done]).
  assert (quiet_a l l1) as Hq1 by (by eapply quiet_a_send).
  pose proof (send_turn _ _ _ _ _ Hc Hrun) as E1. fold l1 in E1.
  destruct (sent_keeps s' (gen b) p 0 now) as (_ & _ & Hk & Hka & _).
  destruct (IH (controls (la l1))) with (τ := now) (l := l1) as (τ2 & l2 & Hr & Hq & Hset & Hack2).
  { rewrite E1. cbn [la]. by rewrite Hk. }
  { done. }
  { by apply (link_inv_move _ _ Hm). }
  { apply (qa_bound _ _ Hq1). by exists b. }
  exists τ2, l2. split_and!; [by eapply rtc_l|by etrans|done|].
  intros Ha. destruct (Hack Ha) as [Hd'|Hp].
  - rewrite <- (qa_rx _ _ Hq1). apply Hack2. rewrite E1. cbn [la]. congruence.
  - apply (qa_toB _ _ Hq). rewrite E1. cbn. apply elem_of_app. right. rewrite Hp. by left.
Qed.

(** A settled sender with unacknowledged bytes sends the first of them. *)
Lemma take_data τ l :
  link_inv l -> is_Some (current (la l)) -> settled (la l) ->
  txBase (la l) < txNext (la l) -> txNext (la l) + 244 * maxFlightWindowPackets < 2 ^ 64 ->
  exists payload τ' l', link_move (τ, l) (τ', l') /\ quiet_a l l' /\
    dataPacket (txBase (la l)) payload ∈ toB l' /\ 0 < zlen payload <= 235.
Proof.
  intros [Ha _ _ _] [b Hc] (S1 & S2 & S3) Hun Hwrap. assert (closed (la l) = false) as Ho by (by eapply open_of_current).
  pose proof (eo_tx _ _ _ _ _ Ha) as Htx. pose proof (tx_range _ Htx) as [Hr _].
  pose proof (eo_binding _ _ _ _ _ Ha b Hc) as Hb. pose proof (bi_mtu _ _ _ Hb) as Hm.
  unfold minimumPacketMTU, maxFlightWindowPackets in *.
  set (now := Z.max (Z.max 1 τ) (retransmitAt b)).
  destruct (nextDataLocked_resends (la l) b now) as (payload & s' & b' & Hn & Hp & Hs); try done.
  { lia. } { unfold maxFlightWindowPackets. nia. } { right. lia. }
  pose proof Hn as Hspec.
  apply nextDataLocked_spec in Hspec as (K & (T1 & T2 & T3) & _); [|done|done|lia].
  assert (ep_run (la l) (OTake (gen b) now) =
    mkOutcome (set_current s' b') [] [] [dataPacket (txBase (la l)) payload]) as Hrun.
  { cbn [ep_run]. unfold sendLoop_take. rewrite bound_to_current by done.
    unfold nextPacketLocked. rewrite S1, S2, S3. change (0 <? zlen (@nil byte)) with false.
    cbn [andb]. by rewrite Hn. }
  exists payload, now, (turn_a now l SendTurn). destruct K as (K1 & K2 & K3 & K4 & K5 & K6 & K7 & K8).
  split_and!; try lia.
  - apply MoveA; [lia|lia|done].
  - eapply (quiet_a_send _ _ _ _ _ Hc Hrun); [by split_and!|by exists b'].
  - rewrite (send_turn _ _ _ _ _ Hc Hrun). cbn [toB]. apply elem_of_app. right. by left.
Qed.

(** What B's receive loop leaves alone when it handles a packet of A. *)
Record quiet_b (l l' : link) : Prop := {
  qb_a : la l' = la l;
  qb_w : wa l' = wa l; qb_w' : wb l' = wb l;
  qb_r : ra l' = ra l; qb_r' : rb l' = rb l;
  qb_config : config (lb l') = config (lb l);
  qb_bound : is_Some (current (lb l'));
  qb_toA : toA l ⊆ toA l';
  qb_toB : toB l' = toB l
}.

Lemma dataPacket_fields seq payload :
  0 <= seq < 2 ^ 64 ->
  zlen (dataPacket seq payload) = 9 + zlen payload /\
  be_get (slice (dataPacket seq payload) 1 9) = seq /\
  slice_from (dataPacket seq payload) 9 = payload.
Proof.
  intros Hs. unfold dataPacket. split; [rewrite zlen_cons, zlen_app, zlen_be_put; lia|].
  split; [field_slices; by rewrite be_get_put_id|].
  rewrite app_comm_cons. apply slice_from_app_l. by rewrite zlen_cons, zlen_be_put.
Qed.

(** A drained receiver takes the packet or asks for what it is missing. *)
Lemma receive_data τ l b seq payload :
  link_inv l -> current (lb l) = Some b -> closed (lb l) = false ->
  dataPacket seq payload ∈ toB l -> 0 <= seq <= rxNext (lb l) -> 0 < zlen payload <= 235 ->
  rxBuf (lb l) = [] -> 244 <= ReplayWindow (config (lb l)) ->
  exists τ' l', link_move (τ, l) (τ', l') /\ quiet_b l l' /\
    (rxNext (lb l) < rxNext (lb l') \/
     rxNext (lb l') = rxNext (lb l) /\ rxBuf (lb l') = [] /\ ackDirty (lb l') = true /\
     seq + zlen payload <= rxNext (lb l)).
Proof.
  intros Hi Hc Ho Hin Hseq Hlen Hbuf HW. pose proof Hi as [Ha Hb HtoB _].
  destruct (HtoB _ Hin) as [Hd _]. pose proof (eo_rx _ _ _ _ _ Hb) as Hrx.
  pose proof (rx_range _ Hrx) as Hr. unfold max_u64 in *.
  destruct (dataPacket_fields seq payload ltac:(lia)) as (Hz & Hs & Hp).
  assert (fragment (wa l) seq payload) as Hf.
  { rewrite <- Hs, <- Hp. apply Hd; [done|lia]. }
  pose proof (fragment_bound _ _ _ Hf ltac:(lia)) as Hbnd.
  pose proof (ep_ok_stream_bound _ _ _ _ _ Ha) as Hmax. unfold max_u64 in Hmax.
  set (now := Z.max 1 τ). set (o := OReceive (gen b) (Some (dataPacket seq payload)) now).
  assert (turn_b now l (ReceiveTurn (dataPacket seq payload)) = run_b l o) as Eo.
  { unfold turn_b, turn_a. cbn [link_swap la]. by rewrite Hc. }
  exists now, (run_b l o).
  split; [rewrite <- Eo; by apply MoveB; [lia..|]|].
  set (b1 := b <| lastRX := now |> <| heartbeatPending := false |> <| heartbeatFailures := 0 |>).
  set (s0 := set_current (lb l) b1).
  assert (exists s', handleData s0 (dataPacket seq payload) now = (s', None) /\
    current s' = Some b1 /\ config s' = config (lb l) /\
    (rxNext (lb l) < rxNext s' \/
     rxNext s' = rxNext (lb l) /\ rxBuf s' = [] /\ ackDirty s' = true /\
     seq + zlen payload <= rxNext (lb l))) as (s' & Hh & Hc' & Hcfg & Hcase).
  { unfold handleData. rewrite Hz, Hs, Hp. rewrite (proj2 (Z.leb_gt _ _)) by lia.
    set (t := (stats s0) <| dataRXPackets := _ |>). clearbody t. set (s1 := s0 <| stats := t |>).
    assert (rx_inv s1 /\ rx_stream (wa l) (rb l) s1) as [Hrx1 Hst1].
    { split; [by destruct Hrx; split|]. destruct (eo_rxs _ _ _ _ _ Hb). by split. }
    destruct (Z.leb_spec (seq + zlen payload) (rxNext (lb l))) as [Hold|Hnew].
    - assert (acceptDataLocked s1 seq payload = (s1, rejectedResult)) as ->.
      { unfold acceptDataLocked, max_u64. rewrite (proj2 (Z.ltb_ge _ _)), u64_id by lia.
        rewrite (proj2 (Z.leb_le _ _)) by (cbn; lia). done. }
      eexists. split; [reflexivity|]. split_and!; try done. right. cbn. split_and!; done || lia.
    - destruct (acceptDataLocked_gap_filler (wa l) (rb l) s1 seq payload)
        as (s2 & n & Hacc & Hn & Hadv); try done; unfold max_u64; cbn; try lia.
      rewrite Hacc. pose proof Hacc as Hspec.
      apply acceptDataLocked_spec in Hspec as [_ (_ & Hcfg & _ & _ & _ & Hcur & _) _ _ _ _];
        [|done|lia|lia].
      rewrite (proj2 (Z.ltb_lt 0 n)) by lia.
      eexists. split; [reflexivity|]. cbn.
      destruct (ackDeadline s2 =? 0); cbn; split_and!; try done; left; lia. }
  assert (run_b l o = mkLink (la l) s' (wa l) (wb l ++ []) (ra l) (rb l ++ []) (toA l ++ []) (toB l)) as ->.
  { unfold run_b, run_a, o. cbn [ep_run]. unfold receiveLoop_turn, handlePacket.
    unfold dataPacket at 1. rewrite (bound_to_current _ b) by done.
    fold (dataPacket seq payload). rewrite bool_decide_eq_true_2 by done.
    cbn [la link_swap]. fold b1. fold s0. rewrite Hh. done. }
  split; [|done]. rewrite !app_nil_r. by split.
Qed.

Lemma link_swap_swap l : link_swap (link_swap l) = l.
Proof. by destruct l. Qed.

Definition swap_at (m : Z * link) : Z * link := (m.1, link_swap m.2).

Lemma link_move_swap m m' : link_move m m' -> link_move (swap_at m) (swap_at m').
Proof.
  intros [τ now l t Hτ Hn Ht|τ now l t Hτ Hn Ht]; unfold swap_at; cbn [fst snd].
  - rewrite <- (link_swap_swap l) at 2. by apply (MoveB τ now (link_swap l)).
  - unfold turn_b. rewrite link_swap_swap. by apply MoveA.
Qed.

Lemma rtc_link_swap m m' : rtc link_move m m' -> rtc link_move (swap_at m) (swap_at m').
Proof.
  induction 1 as [|m1 m2 m3 Hs _ IH]; [reflexivity|].
  eapply rtc_l; [by apply link_move_swap|done].
Qed.

Lemma link_inv_rtc m m' : rtc link_move m m' -> link_inv m.2 -> link_inv m'.2.
Proof. induction 1; eauto using link_inv_move. Qed.

(** The sender moves to the offset a received ACK names. *)
Lemma receive_ack τ l b n :
  link_inv l -> current (la l) = Some b -> ackPacket n ∈ toA l -> 0 <= n ->
  txBase (la l) <= n <= txNext (la l) ->
  exists τ' l', link_move (τ, l) (τ', l') /\ lb l' = lb l /\ wa l' = wa l /\ rb l' = rb l /\
    is_Some (current (la l')) /\ txBase (la l') = n /\ txNext (la l') = txNext (la l).
Proof.
  intros Hi Hc Hin Hn Hr. pose proof Hi as [Ha _ _ _]. pose proof (bound_open_a _ _ Hi Hc) as Ho.
  pose proof (eo_tx _ _ _ _ _ Ha) as Htx. pose proof (tx_range _ Htx) as [_ Hmax].
  unfold max_u64 in *.
  set (now := Z.max 1 τ). set (o := OReceive (gen b) (Some (ackPacket n)) now).
  assert (turn_a now l (ReceiveTurn (ackPacket n)) = run_a l o) as Eo by (unfold turn_a; by rewrite Hc).
  exists now, (run_a l o). split; [rewrite <- Eo; by apply MoveA; [lia..|]|].
  set (b1 := b <| lastRX := now |> <| heartbeatPending := false |> <| heartbeatFailures := 0 |>).
  set (s0 := set_current (la l) b1).
  destruct (handleAckLocked s0 b1 n now) as [[s1 b2] e] eqn:Eh.
  pose proof Eh as Hspec.
  apply handleAckLocked_spec in Hspec as (_ & _ & K & _ & _ & _ & _ & Hnext & _ & Hcase);
    [|by destruct Htx; split| |lia].
  2:{ destruct (eo_binding _ _ _ _ _ Ha b Hc). by split. }
  destruct e as [e|]; [destruct Hcase as (_ & _ & Hlt); cbn in Hlt; lia|].
  destruct Hcase as [Hbase _]. cbn in Hbase, Hnext.
  assert (be_get (slice (ackPacket n) 1 9) = n) as Hget.
  { unfold ackPacket. rewrite (slice_cons_skip _ _ 1 9 0 8), slice_whole, be_get_put_id;
      [done|lia|apply zlen_be_put|lia|done|done]. }
  assert (zlen (ackPacket n) = 9) as Hlen by (unfold ackPacket; by rewrite zlen_cons, zlen_be_put).
  set (st := (stats s1) <| ackRXPackets := u64 (ackRXPackets (stats s1) + 1) |>).
  assert (run_a l o = mkLink (set_current (s1 <| stats := st |>) b2) (lb l) (wa l ++ []) (wb l)
    (ra l ++ []) (rb l) (toA l) (toB l ++ [])) as ->.
  { unfold run_a, o. cbn [ep_run]. unfold receiveLoop_turn, handlePacket.
    unfold ackPacket at 1. rewrite (bound_to_current _ b) by done. fold (ackPacket n).
    rewrite bool_decide_eq_false_2 by done. rewrite bool_decide_eq_true_2 by done.
    rewrite Hlen, Hget. cbn [negb Z.eqb Pos.eqb]. fold b1. fold s0. by rewrite Eh. }
  rewrite !app_nil_r. cbn. split_and!; try done. lia.
Qed.

(** One round: B's expected offset moves on. *)
Definition deliverable (l : link) : Prop :=
  link_inv l /\ is_Some (current (la l)) /\ is_Some (current (lb l)) /\
  244 <= ReplayWindow (config (lb l)) /\
  txNext (la l) + 244 * maxFlightWindowPackets < 2 ^ 64.

(** From a position at [txBase], the sender's next DATA packet reaches B. *)
Lemma deliver_data τ l :
  deliverable l -> rxBuf (lb l) = [] -> txBase (la l) < txNext (la l) ->
  exists τ' l', rtc link_move (τ, l) (τ', l') /\ deliverable l' /\ wa l' = wa l /\ rb l' = rb l /\
    txBase (la l') = txBase (la l) /\ txNext (la l') = txNext (la l) /\
    (rxNext (lb l) < rxNext (lb l') \/
     rxNext (lb l') = rxNext (lb l) /\ rxBuf (lb l') = [] /\ ackDirty (lb l') = true /\
     txBase (la l) < rxNext (lb l)).
Proof.
  intros (Hi & [ba Hca] & [bb Hcb] & HW & Hwrap) Hbuf Hun.
  destruct (drain_controls τ l) as (τ1 & l1 & Hr1 & Q1 & Hset & _); [done|by exists ba|].
  pose proof (link_inv_rtc _ _ Hr1 Hi) as Hi1. cbn [snd] in Hi1.
  assert (is_Some (current (la l1))) as Hc1 by (apply (qa_bound _ _ Q1); by exists ba).
  destruct (take_data τ1 l1) as (payload & τ2 & l2 & Hs2 & Q2 & Hin & Hlen); try done.
  { rewrite (qa_base _ _ Q1), (qa_next _ _ Q1). done. }
  { by rewrite (qa_next _ _ Q1). }
  pose proof (link_inv_move _ _ Hs2 Hi1) as Hi2. cbn [snd] in Hi2.
  assert (is_Some (current (la l2))) as [b2 Hc2] by (by apply (qa_bound _ _ Q2)).
  assert (lb l2 = lb l) as Hb2 by by rewrite (qa_b _ _ Q2), (qa_b _ _ Q1).
  rewrite (qa_base _ _ Q1) in Hin.
  pose proof (tx_range _ (eo_tx _ _ _ _ _ (li_a _ Hi))) as [[? ?] _].
  pose proof (eo_peer _ _ _ _ _ (li_a _ Hi)) as Hpeer.
  destruct (receive_data τ2 l2 bb (txBase (la l)) payload) as (τ3 & l3 & Hs3 & Q3 & Hcase);
    rewrite ?Hb2; try done.
  { by eapply bound_open_b. }
  exists τ3, l3. rewrite Hb2 in Hcase. split_and!.
  - etrans; [exact Hr1|]. eapply rtc_l; [done|]. by apply rtc_once.
  - split_and!.
    + by apply (link_inv_move _ _ Hs3).
    + rewrite (qb_a _ _ Q3). eauto.
    + apply (qb_bound _ _ Q3).
    + by rewrite (qb_config _ _ Q3), Hb2.
    + by rewrite (qb_a _ _ Q3), (qa_next _ _ Q2), (qa_next _ _ Q1).
  - by rewrite (qb_w _ _ Q3), (qa_wa _ _ Q2), (qa_wa _ _ Q1).
  - by rewrite (qb_r' _ _ Q3), (qa_rb _ _ Q2), (qa_rb _ _ Q1).
  - by rewrite (qb_a _ _ Q3), (qa_base _ _ Q2), (qa_base _ _ Q1).
  - by rewrite (qb_a _ _ Q3), (qa_next _ _ Q2), (qa_next _ _ Q1).
  - destruct Hcase as [?|(? & ? & ? & ?)]; [by left|right]. split_and!; try done. lia.
Qed.

(** B's rejection is answered by an ACK that A can act on. *)
Lemma deliver_ack τ l :
  deliverable l -> ackDirty (lb l) = true -> rxBuf (lb l) = [] ->
  exists τ' l', rtc link_move (τ, l) (τ', l') /\ deliverable l' /\ wa l' = wa l /\ rb l' = rb l /\
    txBase (la l') = rxNext (lb l) /\ txNext (la l') = txNext (la l) /\
    rxNext (lb l') = rxNext (lb l) /\ rxBuf (lb l') = [].
Proof.
  intros (Hi & [ba Hca] & [bb Hcb] & HW & Hwrap) Hack Hbuf.
  destruct (drain_controls τ (link_swap l)) as (τ1 & l1 & Hr1 & Q1 & _ & Hin);
    [by apply link_inv_swap|by exists bb|]. specialize (Hin Hack).
  assert (is_Some (current (la l1))) as [b1 Hc1] by (apply (qa_bound _ _ Q1); by exists bb). cbn in Hin.
  pose proof (rtc_link_swap _ _ Hr1) as Hr1'. unfold swap_at in Hr1'. cbn [fst snd] in Hr1'. rewrite link_swap_swap in Hr1'.
  pose proof (link_inv_rtc _ _ Hr1' Hi) as Hi1. cbn [snd] in Hi1.
  pose proof (qa_b _ _ Q1) as Qb. cbn in Qb.
  pose proof (eo_peer _ _ _ _ _ (li_a _ Hi)) as Hpeer.
  pose proof (rs_bound _ _ _ (eo_rxs _ _ _ _ _ (li_b _ Hi))) as Hbd.
  rewrite <- (ts_next _ _ (eo_txs _ _ _ _ _ (li_a _ Hi))) in Hbd.
  pose proof (rx_range _ (eo_rx _ _ _ _ _ (li_b _ Hi))) as [? _].
  destruct (receive_ack τ1 (link_swap l1) ba (rxNext (lb l))) as (τ2 & l2 & Hs2 & Hb2 & Hw2 & Hr2 & Hc2 & Htb & Htn);
    cbn; rewrite ?Qb; try done.
  cbn in Hb2, Hw2, Hr2, Htn. rewrite Qb in Htn.
  exists τ2, l2. split_and!.
  - etrans; [exact Hr1'|]. by apply rtc_once.
  - split_and!; try done.
    + by apply (link_inv_move _ _ Hs2).
    + rewrite Hb2. eauto.
    + rewrite Hb2, (qa_config _ _ Q1). done.
    + by rewrite Htn.
  - by rewrite Hw2, (qa_wb _ _ Q1).
  - by rewrite Hr2, (qa_ra _ _ Q1).
  - done.
  - done.
  - by rewrite Hb2, (qa_rx _ _ Q1).
  - by rewrite Hb2, (qa_buf _ _ Q1).
Qed.

Lemma deliver_round τ l :
  deliverable l -> rxBuf (lb l) = [] -> rxNext (lb l) < txNext (la l) ->
  exists τ' l', rtc link_move (τ, l) (τ', l') /\ deliverable l' /\ wa l' = wa l /\
    txNext (la l') = txNext (la l) /\ rxNext (lb l) < rxNext (lb l').
Proof.
  intros Hd Hbuf Hlt. pose proof (eo_peer _ _ _ _ _ (li_a _ (proj1 Hd))) as Hpeer.
  destruct (deliver_data τ l Hd Hbuf ltac:(lia)) as (τ1 & l1 & Hr1 & Hd1 & Hw1 & Hrb1 & Hb1 & Hn1 & Hcase).
  destruct Hcase as [?|(Hrn1 & Hbuf1 & Hack1 & Hbase)]; [exists τ1, l1; by split_and!|].
  destruct (deliver_ack τ1 l1 Hd1 Hack1 Hbuf1) as (τ2 & l2 & Hr2 & Hd2 & Hw2 & Hrb2 & Hb2 & Hn2 & Hrn2 & Hbuf2).
  destruct (deliver_data τ2 l2 Hd2 Hbuf2 ltac:(lia)) as (τ3 & l3 & Hr3 & Hd3 & Hw3 & Hrb3 & Hb3 & Hn3 & Hcase).
  exists τ3, l3. split_and!; try done; [by etrans; [|etrans]|congruence|congruence|].
  destruct Hcase as [?|(_ & _ & _ & ?)]; lia.
Qed.

(** B's application reads everything buffered. *)
Lemma drain_reader τ l :
  deliverable l ->
  exists τ' l', rtc link_move (τ, l) (τ', l') /\ deliverable l' /\ la l' = la l /\ wa l' = wa l /\
    rxBuf (lb l') = [] /\ rxNext (lb l') = rxNext (lb l) /\ rb l' = rb l ++ rxBuf (lb l).
Proof.
  intros Hd. pose proof Hd as (Hi & Hca & Hcb & HW & Hwrap).
  destruct (decide (rxBuf (lb l) = [])) as [Hz|Hz].
  { exists τ, l. rewrite Hz, app_nil_r. split_and!; done. }
  assert (0 < zlen (rxBuf (lb l))) as Hpos by (destruct (rxBuf (lb l)); [done|zl]).
  set (o := ORead (zlen (rxBuf (lb l)))).
  assert (link_move (τ, l) (Z.max 1 τ, run_b l o)) as Hs.
  { change (run_b l o) with (turn_b (Z.max 1 τ) l (ReadTurn (zlen (rxBuf (lb l))))). apply MoveB; cbn; lia. }
  assert (Read (lb l) (zlen (rxBuf (lb l))) =
    (signalLocked ((lb l) <| rxBuf := [] |>), ReadData (rxBuf (lb l)))) as Hread.
  { unfold Read. rewrite (proj2 (Z.eqb_neq _ _)), (proj2 (Z.ltb_lt _ _)) by lia.
    rewrite Z.min_id, slice_to_all by lia. unfold slice_from. rewrite drop_ge by zl. done. }
  assert (run_b l o = mkLink (la l) (signalLocked ((lb l) <| rxBuf := [] |>)) (wa l) (wb l ++ [])
    (ra l) (rb l ++ rxBuf (lb l)) (toA l ++ []) (toB l)) as E.
  { unfold run_b, run_a, o. cbn [ep_run la link_swap]. by rewrite Hread. }
  exists (Z.max 1 τ), (run_b l o). split; [by apply rtc_once|].
  pose proof (link_inv_move _ _ Hs Hi) as Hi'. cbn [snd] in Hi'. rewrite E in *. by split_and!.
Qed.

Lemma deliver_all τ l n :
  deliverable l -> rxBuf (lb l) = [] -> txNext (la l) - rxNext (lb l) <= Z.of_nat n ->
  exists τ' l', rtc link_move (τ, l) (τ', l') /\ deliverable l' /\ wa l' = wa l /\ rb l' = wa l /\
    rxBuf (lb l') = [] /\ rxNext (lb l') = txNext (la l').
Proof.
  revert τ l. induction n as [|n IH]; intros τ l Hd Hbuf Hn.
  all: pose proof Hd as (Hi & _).
  all: pose proof (rs_bound _ _ _ (eo_rxs _ _ _ _ _ (li_b _ Hi))) as Hbd.
  all: pose proof (ts_next _ _ (eo_txs _ _ _ _ _ (li_a _ Hi))) as Htn.
  all: pose proof (rs_prefix _ _ _ (eo_rxs _ _ _ _ _ (li_b _ Hi))) as Hpre.
  all: rewrite Hbuf, app_nil_r in Hpre.
  all: destruct (Z.lt_ge_cases (rxNext (lb l)) (txNext (la l))) as [Hlt|Hge];
    [|exists τ, l; split_and!; [reflexivity|done|done|rewrite Hpre; apply slice_to_all; lia|done|lia]].
  { lia. }
  destruct (deliver_round τ l Hd Hbuf Hlt) as (τ1 & l1 & Hr1 & Hd1 & Hw1 & Hn1 & Hlt1).
  destruct (drain_reader τ1 l1 Hd1) as (τ2 & l2 & Hr2 & Hd2 & Ha2 & Hw2 & Hbuf2 & Hrn2 & _).
  destruct (IH τ2 l2 Hd2 Hbuf2) as (τ3 & l3 & Hr3 & Hd3 & Hw3 & Hrb3 & Hbuf3 & Hrn3); [rewrite Ha2, Hn1; lia|].
  exists τ3, l3. split_and!; [by etrans; [|etrans]|done|congruence|congruence|done|done].
Qed.

(** ... and A learns of it. *)
Lemma deliver_acks τ l :
  deliverable l -> rxBuf (lb l) = [] -> rxNext (lb l) = txNext (la l) ->
  exists τ' l', rtc link_move (τ, l) (τ', l') /\ deliverable l' /\ wa l' = wa l /\ rb l' = rb l /\ txBase (la l') = txNext (la l').
Proof.
  intros Hd Hbuf Hn. pose proof (tx_range _ (eo_tx _ _ _ _ _ (li_a _ (proj1 Hd)))) as [Hr _].
  destruct (Z.lt_ge_cases (txBase (la l)) (txNext (la l))) as [Hlt|Hge]; [|exists τ, l; split_and!; try done; lia].
  destruct (deliver_data τ l Hd Hbuf Hlt) as (τ1 & l1 & Hr1 & Hd1 & Hw1 & Hrb1 & Hb1 & Hn1 & Hcase).
  pose proof (rs_bound _ _ _ (eo_rxs _ _ _ _ _ (li_b _ (proj1 Hd1)))) as Hbd.
  rewrite <- (ts_next _ _ (eo_txs _ _ _ _ _ (li_a _ (proj1 Hd1)))) in Hbd.
  destruct Hcase as [?|(Hrn1 & Hbuf1 & Hack1 & _)]; [lia|].
  destruct (deliver_ack τ1 l1 Hd1 Hack1 Hbuf1) as (τ2 & l2 & Hr2 & Hd2 & Hw2 & Hrb2 & Hb2 & Hn2 & _).
  exists τ2, l2. split_and!; try done; [by etrans|congruence|congruence|congruence].
Qed.

Lemma link_flush τ l :
  deliverable l ->
  exists τ' l', rtc link_move (τ, l) (τ', l') /\ deliverable l' /\ wa l' = wa l /\ rb l' = wa l /\ txBase (la l') = txNext (la l').
Proof.
  intros Hd. destruct (drain_reader τ l Hd) as (τ1 & l1 & Hr1 & Hd1 & Ha1 & Hw1 & Hbuf1 & _).
  destruct (deliver_all τ1 l1 (Z.to_nat (txNext (la l1) - rxNext (lb l1))) Hd1 Hbuf1)
    as (τ2 & l2 & Hr2 & Hd2 & Hw2 & Hrb2 & Hbuf2 & Hrn2); [lia|].
  destruct (deliver_acks τ2 l2 Hd2 Hbuf2 Hrn2) as (τ3 & l3 & Hr3 & Hd3 & Hw3 & Hrb3 & Hb3).
  exists τ3, l3. split_and!; try done; [by etrans; [|etrans]|congruence|congruence].
Qed.

(** * Properties *)

(** C9. Delivery is never out of reach: from every reachable state in which both
    endpoints hold a binding, and with every packet sent before lost, some
    execution of the loops alone — turns of the two send loops and receive
    loops, on packets sent from now on, and [Read]s, under a clock that starts
    anywhere and never goes back — makes B's application read everything A
    wrote.  The receiver's replay window must hold one packet, and the 64-bit
    offsets must not be about to run out. *)
Theorem link_delivery_possible sid cfgA cfgB l τ :
  link_reachable sid cfgA cfgB l ->
  is_Some (current (la l)) -> is_Some (current (lb l)) ->
  244 <= ReplayWindow (config (lb l)) ->
  txNext (la l) + 244 * maxFlightWindowPackets < 2 ^ 64 ->
  exists τ' l', rtc link_move (τ, lose l) (τ', l') /\ wa l' = wa l /\ rb l' = wa l.
Proof.
  intros Hr Ha Hb HW Hwrap. apply link_reachable_inv in Hr.
  destruct (link_flush τ (lose l)) as (τ' & l' & Hm & _ & Hw & Hrb & _); [split_and!; try done; by apply lose_inv|].
  by exists τ', l'.
Qed.

(** A wrote, its DATA went out, and B has not received it. *)
Definition sentLink : link :=
  default (new_link demoID demoConfig demoConfig)
    (run_schedule (new_link demoID demoConfig demoConfig) (take 7 demoSchedule)).

Lemma sentLink_reachable : link_reachable demoID demoConfig demoConfig sentLink.
Proof.
  eapply run_schedule_reachable; [apply LrInit|].
  instantiate (1 := take 7 demoSchedule). vm_compute. reflexivity.
Qed.

Lemma link_delivery_possible_witness :
  exists τ' l', rtc link_move (2000, lose sentLink) (τ', l') /\ wa l' = demoText /\ rb l' = demoText.
Proof.
  apply (link_delivery_possible demoID demoConfig demoConfig sentLink 2000); [apply sentLink_reachable| | | |].
  - vm_compute. eexists. reflexivity.
  - vm_compute. eexists. reflexivity.
  - vm_compute. discriminate.
  - vm_compute. reflexivity.
Defined.
