(* ===== verification/LinkBinding.v ===== *)
(** * Bindings: heartbeats, detachment, closing and wakeups

    When a binding is declared dead, what a goroutine of an old binding can
    still do, that a closed session stays closed, that a waiting [Read] or
    [Write] is woken whenever it could proceed, and what the two sides agree on
    at bootstrap. *)

From S2P Require Export LinkSystem.

(** internal/link/stats.go *)
Record TransportSnapshot := mkSnapshot {
  Bound : bool; DetachCount : Z; LastDetachReason : string; Stats : transportStats;
  OutstandingBytes : Z; BufferedRXBytes : Z;
  SnHeartbeatPending : bool; HeartbeatConsecutiveFailures : Z; LastReceived : Z; LastHeartbeat : Z;
  SnPacketMTU : Z; FlightLimitPackets : Z; FlightBytes : Z
}.

#[export] Instance eta_snapshot : Eta TransportSnapshot := fun n =>
  mkSnapshot (Bound n) (DetachCount n) (LastDetachReason n) (Stats n) (OutstandingBytes n)
    (BufferedRXBytes n) (SnHeartbeatPending n) (HeartbeatConsecutiveFailures n) (LastReceived n)
    (LastHeartbeat n) (SnPacketMTU n) (FlightLimitPackets n) (FlightBytes n).

(** [Session.TransportSnapshot]; the counters are copied as one record. *)
Definition transportSnapshot (s : Session) : TransportSnapshot :=
  let snapshot := mkSnapshot (IsBound s) (detachCount s) (lastDetachReason s) (stats s)
    (u64 (txNext s - txBase s)) (u64 (zlen (rxBuf s) + rxPendingBytes s)) false 0 0 0 0 0 0 in
  match current s with
  | None => snapshot
  | Some b =>
      let snapshot := snapshot <| SnHeartbeatPending := heartbeatPending b |>
        <| HeartbeatConsecutiveFailures := heartbeatFailures b |>
        <| LastReceived := lastRX b |> <| LastHeartbeat := lastHeartbeat b |>
        <| SnPacketMTU := mtu b |>
        <| FlightLimitPackets := Z.max initialFlightWindowPackets (flightPackets b) |> in
      if txBase s <? sendNext b
      then snapshot <| FlightBytes := u64 (sendNext b - txBase s) |> else snapshot
  end.

(** ** Heartbeats

    A run of the heartbeat loop on one binding: checks, probe results and
    packets received, in the order they take the lock. *)
Inductive hbEvent :=
  | HbTick (now : Z)
  | HbSent (finished : Z)        (* the PING was written *)
  | HbPacket (now : Z).          (* handlePacket on any non-empty packet *)

Definition hbTime (ev : hbEvent) : Z :=
  match ev with HbTick t | HbSent t | HbPacket t => t end.

(** The binding after the event, and the time of a detach decision. *)
Definition hbStep (s : Session) (b : binding) (ev : hbEvent) : Session * binding * option Z :=
  match ev with
  | HbTick now =>
      let '(s, b, (_, detach)) := heartbeatCheckLocked s b now in
      (s, b, if detach : bool then Some now else None)
  | HbSent finished =>
      (s, let b := b <| lastTX := finished |> in
          if heartbeatPending b then b <| heartbeatSentAt := finished |> else b, None)
  | HbPacket now =>
      (s, b <| lastRX := now |> <| heartbeatPending := false |> <| heartbeatFailures := 0 |>, None)
  end.

Fixpoint hbRun (s : Session) (b : binding) (evs : list hbEvent) : option Z * binding :=
  match evs with
  | [] => (None, b)
  | ev :: evs =>
      match hbStep s b ev with
      | (s, b, Some t) => (Some t, b)
      | (s, b, None) => hbRun s b evs
      end
  end.

(** The clock does not run backwards. *)
Fixpoint hbOrdered (t : Z) (evs : list hbEvent) : Prop :=
  match evs with
  | [] => True
  | ev :: evs => t <= hbTime ev /\ hbOrdered (hbTime ev) evs
  end.

(** The state between events at time [t]: each unanswered probe was sent a full
    response timeout after the one before it. *)
Definition hb_inv (t : Z) (b : binding) : Prop :=
  0 <= heartbeatFailures b < heartbeatFailureLimit /\ heartbeatSentAt b <= t /\ lastRX b <= t /\
  if heartbeatPending b
  then lastRX b + heartbeatResponseTimeout * heartbeatFailures b <= heartbeatSentAt b
  else heartbeatFailures b = 0.

Lemma hbStep_inv s b t ev s' b' r :
  hb_inv t b -> t <= hbTime ev -> hbStep s b ev = (s', b', r) ->
  match r with
  | None => hb_inv (hbTime ev) b'
  | Some now => now = hbTime ev /\ lastRX b + heartbeatFailureLimit * heartbeatResponseTimeout <= now
  end.
Proof.
  unfold hb_inv, heartbeatFailureLimit. intros (Hf & Ht & Hr & Hp) Hle.
  destruct ev as [now|fin|now]; cbn [hbTime hbStep] in *.
  - unfold heartbeatCheckLocked, heartbeatFailureLimit.
    assert (heartbeatResponseTimeout = 2000000000) as -> by done.
    assert (heartbeatResponseTimeout = 2000000000) as Hrt by done. rewrite Hrt in Hp. clear Hrt.
    destruct (heartbeatPending b) eqn:Ep; cbn.
    + destruct (Z.ltb_spec (now - heartbeatSentAt b) 2000000000); cbn.
      { intros [= <- <- <-]. rewrite Ep. lia. }
      destruct (Z.leb_spec 2 (heartbeatFailures b + 1)); intros [= <- <- <-]; cbn; lia.
    + destruct (negb _ && _); intros [= <- <- <-]; cbn; rewrite ?Ep; lia.
  - intros [= <- <- <-]. cbn. destruct (heartbeatPending b) eqn:Ep; cbn; rewrite ?Ep; lia.
  - intros [= <- <- <-]. cbn. lia.
Qed.

(** The last time a packet arrived. *)
Fixpoint lastPacket (t : Z) (evs : list hbEvent) : Z :=
  match evs with
  | [] => t
  | HbPacket now :: evs => lastPacket now evs
  | _ :: evs => lastPacket t evs
  end.

Lemma hbStep_lastRX s b ev s' b' :
  hbStep s b ev = (s', b', None) ->
  lastRX b' = match ev with HbPacket now => now | _ => lastRX b end.
Proof.
  destruct ev as [now|fin|now]; cbn.
  - unfold heartbeatCheckLocked.
    destruct (heartbeatPending b); cbn; repeat case_match; intros; simplify_eq; done.
  - intros [= <- <-]. by destruct (heartbeatPending b).
  - by intros [= <- <-].
Qed.

Lemma hbRun_detach_aux s b t evs d b' :
  hb_inv t b -> hbOrdered t evs -> hbRun s b evs = (Some d, b') ->
  exists before after, evs = before ++ HbTick d :: after /\
    lastPacket (lastRX b) before + heartbeatFailureLimit * heartbeatResponseTimeout <= d.
Proof.
  revert s b t. induction evs as [|ev evs IH]; intros s b t Hi Ho; [done|].
  cbn [hbRun hbOrdered] in *. destruct Ho as [Hle Ho].
  destruct (hbStep s b ev) as [[s1 b1] r] eqn:Es. pose proof Es as Hinv.
  eapply hbStep_inv in Hinv; [|done|done]. destruct r as [now|].
  - intros [= <- <-]. destruct Hinv as [-> Hlim]. exists [], evs. split; [|done].
    destruct ev; cbn in Es |- *; [done|by repeat case_match|done].
  - intros (before & after & -> & Hb)%(IH _ _ (hbTime ev)); [|done|done].
    exists (ev :: before), after. split; [done|].
    apply hbStep_lastRX in Es. rewrite Es in Hb. by destruct ev.
Qed.

(** ** A silent link is detected *)

(** Only ticks, each at most one check interval after the one before; probes
    complete at once. *)
Definition heartbeatCheckInterval : Z := 250 * Millisecond.

Fixpoint regularTicks (t : Z) (ticks : list Z) : Prop :=
  match ticks with
  | [] => True
  | now :: ticks => t <= now <= t + heartbeatCheckInterval /\ regularTicks now ticks
  end.

(** The time by which a silent binding is declared dead. *)
Definition hbDeadline (b : binding) : Z :=
  let late := heartbeatResponseTimeout + heartbeatCheckInterval in
  if heartbeatPending b
  then heartbeatSentAt b + (if heartbeatFailures b =? 0 then 2 * late else late)
  else heartbeatSentAt b + heartbeatInterval + heartbeatCheckInterval + 2 * late.

(** When the next phase starts. *)
Definition hbThreshold (b : binding) : Z :=
  heartbeatSentAt b + if heartbeatPending b then heartbeatResponseTimeout else heartbeatInterval.

Lemma hbRun_silent_aux s b t ticks :
  hb_inv t b -> heartbeatSentAt b <> 0 -> 0 < t -> t < hbThreshold b -> regularTicks t ticks ->
  Exists (fun now => hbDeadline b <= now) ticks ->
  exists d b', hbRun s b (HbTick <$> ticks) = (Some d, b') /\ d <= hbDeadline b.
Proof.
  revert s b t. induction ticks as [|now ticks IH]; intros s b t Hi Hnz Ht Hth Hreg Hex.
  { by apply Exists_nil in Hex. }
  cbn [regularTicks] in Hreg. destruct Hreg as [Hle Hreg]. cbn [fmap list_fmap hbRun hbStep].
  pose proof Hi as (Hf & Hs & Hr & Hp). unfold heartbeatFailureLimit in *.
  destruct (heartbeatCheckLocked s b now) as [[s1 b1] [pr det]] eqn:Eh.
  pose proof (hbStep_inv s b t (HbTick now) s1 b1 (if det then Some now else None) Hi) as Hinv.
  cbn [hbTime hbStep] in Hinv. rewrite Eh in Hinv. specialize (Hinv ltac:(lia) eq_refl).
  revert Eh. unfold heartbeatCheckLocked, heartbeatFailureLimit.
  assert (heartbeatResponseTimeout = 2000000000) as Ert by done.
  assert (heartbeatInterval = 3000000000) as Ei by done.
  assert (heartbeatCheckInterval = 250000000) as Ec by done.
  unfold hbThreshold in Hth. rewrite Ert, Ei, Ec in *.
  destruct (heartbeatPending b) eqn:Ep; cbn.
  - destruct (Z.ltb_spec (now - heartbeatSentAt b) 2000000000) as [Hlt|Hge]; cbn.
    + intros [= <- <- <- <-]. cbn in Hinv. apply Exists_cons in Hex as [Hex|Hex].
      { unfold hbDeadline in Hex. rewrite Ep, Ert, Ec in Hex. case_match; lia. }
      eapply IH; try done; [lia|]. unfold hbThreshold. rewrite Ep, Ert. lia.
    + destruct (Z.leb_spec 2 (heartbeatFailures b + 1)) as [Hl|Hl]; intros [= <- <- <- <-].
      * eexists _, _. split; [done|]. unfold hbDeadline. rewrite Ep, Ert, Ec. case_match; lia.
      * cbn in Hinv. assert (heartbeatFailures b = 0) as Hz by lia.
        match type of Hinv with hb_inv _ ?x => set (b2 := x) in * end.
        assert (hbDeadline b2 <= hbDeadline b) as Hdl.
        { unfold hbDeadline, b2. cbn. rewrite Ep, Hz, Ert, Ec. change (0 + 1 =? 0) with false.
          change (0 =? 0) with true. cbn. lia. }
        apply Exists_cons in Hex as [Hex|Hex].
        { unfold hbDeadline in Hex. rewrite Ep, Hz, Ert, Ec in Hex. cbn in Hex. lia. }
        match goal with |- context [hbRun ?s2 b2 _] =>
          destruct (IH s2 b2 now) as (d & b' & Hrun & Hd) end; try done.
        -- cbn. lia.
        -- lia.
        -- unfold hbThreshold, b2. cbn. lia.
        -- eapply Exists_impl; [exact Hex|]. intros x. cbv beta. lia.
        -- exists d, b'. split; [done|lia].
  - rewrite (proj2 (Z.eqb_neq _ _)) by done. cbn.
    destruct (Z.ltb_spec (now - heartbeatSentAt b) 3000000000) as [Hlt|Hge]; intros [= <- <- <- <-].
    + cbn in Hinv. apply Exists_cons in Hex as [Hex|Hex].
      { unfold hbDeadline in Hex. rewrite Ep, Ert, Ec, Ei in Hex. lia. }
      eapply IH; try done; [lia|]. unfold hbThreshold. rewrite Ep, Ei. lia.
    + cbn in Hinv.
      match type of Hinv with hb_inv _ ?x => set (b2 := x) in * end.
      assert (hbDeadline b2 <= hbDeadline b) as Hdl.
      { unfold hbDeadline, b2. cbn. rewrite Ep, Hp, Ert, Ec, Ei. cbn. lia. }
      apply Exists_cons in Hex as [Hex|Hex].
      { unfold hbDeadline in Hex. rewrite Ep, Ert, Ec, Ei in Hex. lia. }
      destruct (IH s b2 now) as (d & b' & Hrun & Hd); try done.
      * cbn. lia.
      * lia.
      * unfold hbThreshold, b2. cbn. lia.
      * eapply Exists_impl; [exact Hex|]. intros x. cbv beta. lia.
      * exists d, b'. split; [done|lia].
Qed.

(** ** Old bindings *)

(** The goroutines of a replaced or dropped binding. *)
Definition op_binding (o : op) : option Z :=
  match o with
  | OTake g _ | OTick g _ | OReceive g _ _ | OFail g _ _ => Some g
  | _ => None
  end.

Lemma stale_op_aux s o g :
  op_binding o = Some g -> bound_to s g = None -> ep_run s o = quiet s.
Proof.
  destruct o; try done; intros [= ->] Hb; cbn.
  - unfold sendLoop_take. by rewrite Hb.
  - unfold heartbeatLoop_tick. by rewrite Hb.
  - unfold receiveLoop_turn, handlePacket, failBinding. destruct packet as [[|]|]; cbn; by rewrite ?Hb.
  - unfold failBinding. by rewrite Hb.
Qed.

(** ** Closing *)

(** What closing fixes for good. *)
Definition closed_like (s s' : Session) : Prop :=
  closed s' = true /\ err_ s' = err_ s /\ current s' = None /\ txNext s' = txNext s.

Lemma closed_bound_to s g : closed s = true -> bound_to s g = None.
Proof. intros Hc. unfold bound_to. destruct (current s); [|done]. by rewrite Hc, andb_false_r. Qed.

Lemma Write_closed fuel s p n :
  closed s = true -> (Write fuel s p n).1.1 = s.
Proof.
  intros Hc. destruct fuel as [|fuel]; cbn; [by destruct (zlen p =? 0)|].
  destruct (zlen p =? 0); [done|]. unfold Write_turn. by rewrite Hc.
Qed.

Lemma closed_final_aux s o :
  closed s = true -> current s = None -> closed_like s (oc_session (ep_run s o)).
Proof.
  intros Hc Hn. assert (closed_like s s) as Hrefl by done.
  assert (forall e, closed_like s (reconcilePeerLocked s e).1) as Hrec.
  { intros e. unfold reconcilePeerLocked. by repeat case_match. }
  destruct (op_binding o) as [g|] eqn:Eb.
  { rewrite (stale_op_aux s o g); [done|done|by apply closed_bound_to]. }
  destruct o; try done; cbn [ep_run].
  - pose proof (Write_closed (length p) s p 0 Hc) as Hw.
    destruct (Write (length p) s p 0) as [[s' n] t]. cbn in *. by subst s'.
  - unfold Read. repeat case_match; simplify_eq; done.
  - unfold sendLoop_sent. cbn. rewrite Hn. by split_and!.
  - unfold heartbeatLoop_sent, heartbeatSendResultLocked, bound_to. cbn. rewrite Hn.
    by split_and!.
  - unfold expireAfter. by rewrite Hc.
  - unfold closeWithError. by rewrite Hc.
  - unfold Close, closeWithError. rewrite Hc, Hn. done.
  - unfold BindClient_hello. by rewrite Hc.
  - destruct (decodeHelloAck packet) as [|[[pe pc] pm]]; [done|]. cbn. unfold BindClient_finish.
    do 2 (case_match; [done|]). specialize (Hrec pe). destruct (reconcilePeerLocked s pe) as [s1 [e|]]; done.
  - destruct (ReadHello _ _).1 as [|h]; [done|]. unfold BindServer_ack.
    destruct (negb (Matches _ _)); [done|]. destruct (negb (Bool.eqb _ _)); [done|].
    by rewrite Hc.
  - unfold attach. by rewrite Hc.
Qed.

(** ** Wakeups *)

(** What a waiter's decision reads. *)
Definition same_wait (s s' : Session) : Prop :=
  rxBuf s' = rxBuf s /\ txBuf s' = txBuf s /\ closed s' = closed s /\
  (current s' = None <-> current s = None) /\
  ReplayWindow (config s') = ReplayWindow (config s) /\
  readDeadline s' = readDeadline s /\ writeDeadline s' = writeDeadline s.

(** Either [notify] was closed, or nothing a waiter reads changed. *)
Definition signals (s s' : Session) : Prop :=
  notify s <= notify s' /\ (notify s' = notify s -> same_wait s s').

#[export] Instance signals_preorder : PreOrder signals.
Proof.
  split; [by split|]. intros s1 s2 s3 [H1 H2] [H3 H4]. split; [lia|]. intros Heq.
  destruct (H2 ltac:(lia)) as (? & ? & ? & ? & ? & ? & ?).
  destruct (H4 ltac:(lia)) as (? & ? & ? & ? & ? & ? & ?).
  split_and!; try congruence; tauto.
Qed.

Lemma signals_bump s s' : notify s < notify s' -> signals s s'.
Proof. intros. split; lia. Qed.

Lemma signals_same s s' : notify s' = notify s -> same_wait s s' -> signals s s'.
Proof. intros. split; [lia|done]. Qed.

Lemma signals_set_current s b b' :
  current s = Some b -> signals s (set_current s b').
Proof. intros Hc. apply signals_same; [done|]. split_and!; try done. by rewrite Hc. Qed.

Ltac signal_same := apply signals_same; [done|by split_and!].
Ltac signal_bump := apply signals_bump; cbn; lia.

Lemma reconcile_signals s e : signals s (reconcilePeerLocked s e).1.
Proof.
  unfold reconcilePeerLocked. repeat case_match; cbn; try reflexivity. signal_bump.
Qed.

Lemma handleAck_signals s b e now s' b' r :
  handleAckLocked s b e now = (s', b', r) -> signals s s' /\ current s' = current s.
Proof.
  unfold handleAckLocked. case_match; [by intros [= <- <- <-]|].
  pose proof (reconcile_signals s e) as Hr.
  assert (current (reconcilePeerLocked s e).1 = current s) as Hc.
  { unfold reconcilePeerLocked. by repeat case_match. }
  destruct (reconcilePeerLocked s e) as [s1 [x|]]; cbn in Hr, Hc; [by intros [= <- <- <-]|].
  cbn zeta. repeat (case_match; try done); intros [= <- <- <-]; try done.
  split; [|done]. etrans; [exact Hr|]. signal_bump.
Qed.

Lemma accept_signals s q p s' r :
  acceptDataLocked s q p = (s', r) -> signals s s' /\ current s' = current s.
Proof.
  unfold acceptDataLocked. intros Ha.
  repeat (case_match; simplify_eq; try done); (split; [|done]); try (by signal_same).
  all: signal_bump.
Qed.

Lemma nextPacket_signals s b now r s' b' :
  nextPacketLocked s b now = (r, s', b') -> signals s s' /\ current s' = current s.
Proof.
  unfold nextPacketLocked, nextDataLocked, sendWindow. cbn zeta. intros Hn.
  repeat (case_match; simplify_eq; try done); (split; [|done]); by signal_same.
Qed.

Lemma failBinding_signals s g now e : signals s (failBinding s g now e).1.
Proof. unfold failBinding. case_match; [|done]. cbn. signal_bump. Qed.

Lemma closeWithError_signals s e : signals s (closeWithError s e).1.
Proof. unfold closeWithError. case_match; [done|]. cbn. signal_bump. Qed.

Lemma negotiate_signals s peer : signals s (negotiateLocked s peer).
Proof.
  apply signals_same; [done|]. split_and!; try done. unfold negotiateLocked. cbn.
  by repeat (case_match; cbn).
Qed.

Lemma handleHello_signals s b p : current s = Some b -> signals s (handleHello s b p).1.
Proof.
  intros Hc. unfold handleHello.
  destruct (_ || negb (bool_decide _)); [done|]. destruct (_ || negb (Bool.eqb _ _)); [done|].
  pose proof (reconcile_signals s (be_get (slice p 1 9))) as Hr.
  destruct (reconcilePeerLocked s _) as [s1 [e|]]; [done|]. cbn [fst] in *.
  etrans; [exact Hr|]. signal_bump.
Qed.

Lemma handleData_signals s p now : signals s (handleData s p now).1.
Proof.
  unfold handleData. case_match; [done|].
  destruct (acceptDataLocked _ _ _) as [s1 [[[adv buf] rej] e]] eqn:Ea.
  apply accept_signals in Ea as [Hs _].
  assert (signals s s1) as Hs1 by (etrans; [|exact Hs]; by signal_same).
  destruct e as [e|]; [done|]. cbn [fst]. etrans; [exact Hs1|].
  destruct rej, (0 <? adv), buf; cbn [orb]; repeat case_match; signal_bump.
Qed.

Lemma handlePacket_signals s g p now : signals s (handlePacket s g p now).1.1.
Proof.
  unfold handlePacket. destruct p as [|kind q]; [done|].
  destruct (bound_to s g) as [b|] eqn:Eb; [|done]. apply bound_to_Some in Eb as (Hc & _ & _).
  set (b1 := b <| lastRX := now |> <| heartbeatPending := false |> <| heartbeatFailures := 0 |>).
  pose proof (signals_set_current s b b1 Hc) as H1. cbn zeta.
  etrans; [exact H1|]. assert (current (set_current s b1) = Some b1) as Hc1 by done.
  revert Hc1. generalize (set_current s b1). clearbody b1. clear s b Hc H1. intros s Hc.
  case_bool_decide.
  { pose proof (handleData_signals s (kind :: q) now).
    destruct (handleData s _ now) as [s1 e]. done. }
  case_bool_decide.
  { destruct (negb _); [done|].
    destruct (handleAckLocked s b1 _ now) as [[s1 b2] e] eqn:Eh.
    apply handleAck_signals in Eh as [Hs Hcur].
    assert (signals s (set_current s1 b2)) as Hs2.
    { etrans; [exact Hs|]. apply (signals_set_current _ b1). congruence. }
    destruct e; cbn; [done|]. etrans; [exact Hs2|]. by signal_same. }
  case_bool_decide; [destruct (negb _); [done|]; cbn; signal_bump|].
  case_bool_decide.
  { destruct (negb _); [done|]. cbn. apply signals_same; [done|].
    split_and!; try done. cbn. by rewrite Hc. }
  case_bool_decide; [done|].
  case_bool_decide; [destruct (_ && _); [|done]; by signal_same|].
  case_bool_decide; [|by case_bool_decide].
  pose proof (handleHello_signals s b1 (kind :: q) Hc).
  destruct (handleHello s b1 _) as [s1 e]. done.
Qed.

Lemma Write_signals fuel s p n : signals s (Write fuel s p n).1.1.
Proof.
  revert s p n. induction fuel as [|fuel IH]; intros s p n; cbn; case_match; try done.
  destruct (Write_turn s p) as [s1 t] eqn:Et.
  assert (signals s s1) as Hs.
  { revert Et. unfold Write_turn. repeat case_match; intros; simplify_eq; try done. signal_bump. }
  destruct t; [|done..]. etrans; [exact Hs|]. apply IH.
Qed.

(** Every operation, in any state, signals what it makes possible. *)
Lemma ep_run_signals s o : signals s (oc_session (ep_run s o)).
Proof.
  destruct o as [p|n|g now|g packet d now e|g now|g st fi e|g packet now|g now reason|d|e| |d|d|d
    |connMTU|connMTU cfg packet|connMTU packets|c connMTU m now]; cbn [ep_run].
  - pose proof (Write_signals (length p) s p 0).
    by destruct (Write (length p) s p 0) as [[s' n] t].
  - unfold Read. repeat case_match; simplify_eq; try done. signal_bump.
  - unfold sendLoop_take. destruct (bound_to s g) as [b|] eqn:Eb; [|done].
    apply bound_to_Some in Eb as (Hc & _ & _).
    destruct (nextPacketLocked s b now) as [[r s1] b1] eqn:En.
    apply nextPacket_signals in En as [Hs Hcur].
    destruct r; cbn; (etrans; [exact Hs|]); apply (signals_set_current _ b); congruence.
  - unfold sendLoop_sent. cbn [fst quiet oc_session].
    set (t := match e with Some _ => _ | None => _ end). clearbody t.
    transitivity (s <| stats := t |>); [by signal_same|].
    generalize (s <| stats := t |>). intros s'.
    destruct (current s') as [b|] eqn:Ec; [|done]. destruct e; [done|].
    destruct (gen b =? g); [|done]. by apply (signals_set_current _ b).
  - unfold heartbeatLoop_tick. destruct (bound_to s g) as [b|] eqn:Eb; [|done].
    apply bound_to_Some in Eb as (Hc & _ & _).
    destruct (heartbeatCheckLocked s b now) as [[s1 b1] [pr det]] eqn:Eh.
    assert (signals s s1 /\ current s1 = current s) as [Hs Hcur].
    { revert Eh. unfold heartbeatCheckLocked.
      repeat case_match; intros; simplify_eq; (split; [|done]); done || by signal_same. }
    destruct pr; cbn; (etrans; [exact Hs|]); apply (signals_set_current _ b); congruence.
  - unfold heartbeatLoop_sent, heartbeatSendResultLocked.
    set (t := match e with Some _ => _ | None => _ end). clearbody t. cbn [quiet oc_session].
    transitivity (s <| stats := t |>); [by signal_same|].
    generalize (s <| stats := t |>). intros s'.
    destruct (bound_to s' g) as [b|] eqn:Eb; [|done]. apply bound_to_Some in Eb as (Hc & _ & _).
    destruct e as [e|]; [destruct (_ && _); [|done]|]; by apply (signals_set_current _ b).
  - unfold receiveLoop_turn. destruct packet as [p|].
    + pose proof (handlePacket_signals s g p now) as Hp.
      destruct (handlePacket s g p now) as [[s1 eff] [x|]]; [|done].
      pose proof (failBinding_signals s1 g now (ErrWrap "receive packet: " x "")) as Hf.
      destruct (failBinding s1 g now _) as [s2 eff2]. cbn in *. by etrans.
    + pose proof (failBinding_signals s g now (ErrNew "BLE receive channel closed")) as Hf.
      destruct (failBinding s g now _) as [s2 eff2]. done.
  - apply failBinding_signals.
  - unfold expireAfter. case_match; [apply closeWithError_signals|done].
  - apply closeWithError_signals.
  - unfold Close. pose proof (closeWithError_signals s (Sent EOF)).
    destruct (closeWithError s (Sent EOF)). by destruct (current s).
  - signal_bump.
  - signal_bump.
  - signal_bump.
  - unfold BindClient_hello. destruct (closed s); [done|]. by destruct (encodeHello _ _ _ _).
  - destruct (decodeHelloAck packet) as [|[[pe pc] pm]]; [done|]. unfold BindClient_finish. cbn.
    do 2 (case_match; [done|]). pose proof (reconcile_signals s pe) as Hr.
    destruct (reconcilePeerLocked s pe) as [s1 [e|]]; [done|]. cbn in *.
    etrans; [exact Hr|]. apply negotiate_signals.
  - destruct (ReadHello _ _).1 as [|h]; [done|]. unfold BindServer_ack.
    destruct (negb (Matches _ _)); [done|]. destruct (negb (Bool.eqb _ _)); [done|].
    destruct (closed s); [done|]. pose proof (reconcile_signals s (ExpectedRemote h)) as Hr.
    destruct (reconcilePeerLocked s _) as [s1 [e|]]; [done|]. cbn in *.
    etrans; [exact Hr|]. apply negotiate_signals.
  - unfold attach. destruct (closed s); [done|]. cbn. destruct (ackDirty s); signal_bump.
Qed.

(** ** What both sides agree on *)

(** The settings that [negotiateLocked] makes common. *)
Definition min_config (c peer : Config) : Config :=
  mkConfig (Z.min (ResumeTimeout c) (ResumeTimeout peer)) (ReplayWindow c)
    (Z.min (MaxConnections c) (MaxConnections peer)) (Compression c && Compression peer).

Lemma negotiateLocked_min s peer :
  0 < ResumeTimeout peer -> 0 < MaxConnections peer ->
  negotiateLocked s peer = s <| config := min_config (config s) peer |>.
Proof.
  intros Hr Hm. unfold negotiateLocked, min_config. destruct s as []. cbn.
  destruct config as [r w m c]; cbn in *.
  destruct (Z.ltb_spec 0 (ResumeTimeout peer)), (Z.ltb_spec (ResumeTimeout peer) r); cbn; try lia;
  destruct (Z.ltb_spec 0 (MaxConnections peer)), (Z.ltb_spec (MaxConnections peer) m); cbn; try lia;
  repeat f_equal; cbn; lia.
Qed.

(** Durations the wire format carries exactly. *)
Definition whole_milliseconds (d : Z) : Prop :=
  Millisecond <= d <= max_u32 * Millisecond /\ d mod Millisecond = 0.

Lemma wire_duration d : whole_milliseconds d -> durationMilliseconds d * Millisecond = d.
Proof.
  intros [Hd Hm]. rewrite durationMilliseconds_exact by done.
  unfold Millisecond in *. pose proof (Z.div_mod d 1000000 ltac:(lia)). lia.
Qed.

Lemma wire_config_exact cfg :
  whole_milliseconds (ResumeTimeout cfg) ->
  wire_config cfg = cfg <| ReplayWindow := 0 |>.
Proof. intros. unfold wire_config. rewrite wire_duration by done. by destruct cfg. Qed.

Lemma BindServer_ack_inv s connMTU h s' ack m :
  BindServer_ack s connMTU h = (s', inr (ack, m)) ->
  closed s = false /\ id s = h_ID h /\ h_Compression h = Compression (config s) /\
  exists s1, reconcilePeerLocked s (ExpectedRemote h) = (s1, None) /\
    m = Z.min (normalizeMTU connMTU) (normalizeMTU (AdvertisedPacketMTU h)) /\
    s' = negotiateLocked s1 (mkConfig (h_ResumeTimeout h) 0 (h_MaxConnections h) (h_Compression h)) /\
    ack = encodeHelloAck (rxNext s') (config s') m.
Proof.
  unfold BindServer_ack, Matches. case_bool_decide; [|done]. cbn [negb].
  destruct (Bool.eqb _ _) eqn:Ec; [|done]. apply eqb_prop in Ec. cbn [negb].
  destruct (closed s); [done|]. destruct (reconcilePeerLocked s _) as [s1 [e|]]; [done|].
  intros [= <- <- <-]. split_and!; try done. exists s1. by split_and!.
Qed.

Lemma reconcile_config s e : config (reconcilePeerLocked s e).1 = config s.
Proof. unfold reconcilePeerLocked. by repeat case_match. Qed.

Lemma whole_min a b : whole_milliseconds a -> whole_milliseconds b -> whole_milliseconds (Z.min a b).
Proof. intros ? ?. destruct (Z.min_spec a b) as [[_ ->]|[_ ->]]; done. Qed.

(** * Properties *)

(** Heartbeats declare a binding dead only for cause: when a check decides
    to detach, no packet arrived for at least two full response timeouts. *)
Theorem heartbeat_detach_justified s b t evs d b' :
  hb_inv t b -> hbOrdered t evs -> hbRun s b evs = (Some d, b') ->
  exists before after, evs = before ++ HbTick d :: after /\
    lastPacket (lastRX b) before + 2 * heartbeatResponseTimeout <= d.
Proof. apply hbRun_detach_aux. Qed.

(** A binding as [attach] makes it at one second. *)
Definition freshBinding : binding :=
  mkBinding 1 1 185 Second Second 0 false Second 0 0 0 0 initialFlightWindowPackets.

Lemma fresh_hb_inv : hb_inv Second freshBinding.
Proof. repeat split; vm_compute; discriminate. Qed.

Lemma heartbeat_detach_justified_witness :
  exists before after,
    [HbTick (4 * Second); HbSent (4 * Second); HbPacket (5 * Second); HbTick (7 * Second);
     HbTick (9 * Second); HbTick (11 * Second); HbTick (12 * Second)]
      = before ++ HbTick (11 * Second) :: after /\
    lastPacket (lastRX freshBinding) before + 2 * heartbeatResponseTimeout <= 11 * Second.
Proof.
  eapply (heartbeat_detach_justified demoSession freshBinding Second); [apply fresh_hb_inv| |].
  - vm_compute. intuition discriminate.
  - vm_compute. reflexivity.
Defined.

(** A silent link is detected: if checks keep coming at the check interval
    and nothing arrives, the binding is declared dead at most 7.75 seconds after
    it was attached. *)
Theorem heartbeat_detects_silence s b t ticks :
  0 < t -> lastRX b = t -> heartbeatSentAt b = t -> heartbeatPending b = false ->
  heartbeatFailures b = 0 -> regularTicks t ticks ->
  Exists (fun now => t + 7750 * Millisecond <= now) ticks ->
  exists d b', hbRun s b (HbTick <$> ticks) = (Some d, b') /\ d <= t + 7750 * Millisecond.
Proof.
  intros Ht Hr Hs Hp Hf Hreg Hex.
  assert (hbDeadline b = t + 7750 * Millisecond) as Hdl.
  { unfold hbDeadline. rewrite Hp, Hs. unfold heartbeatInterval, heartbeatCheckInterval,
      heartbeatResponseTimeout, Second, Millisecond. lia. }
  rewrite <- Hdl. apply (hbRun_silent_aux s b t); try done.
  - unfold hb_inv, heartbeatFailureLimit. rewrite Hp, Hf, Hs, Hr. lia.
  - lia.
  - unfold hbThreshold. rewrite Hp, Hs. unfold heartbeatInterval, Second, Millisecond. lia.
  - by rewrite Hdl.
Qed.

Lemma heartbeat_detects_silence_witness :
  exists d b', hbRun demoSession freshBinding
      (HbTick <$> ((fun k => Second + k * heartbeatCheckInterval) <$> seqZ 1 40)) = (Some d, b') /\
    d <= Second + 7750 * Millisecond.
Proof.
  apply (heartbeat_detects_silence demoSession freshBinding Second
    ((fun k => Second + k * heartbeatCheckInterval) <$> seqZ 1 40)); try reflexivity.
  - vm_compute. intuition discriminate.
  - apply Exists_exists. exists (Second + 40 * heartbeatCheckInterval). split.
    + apply list_elem_of_fmap. exists 40. split; [done|]. by apply elem_of_seqZ.
    + vm_compute. discriminate.
Defined.

(** Nothing a goroutine of a replaced, dropped or closed binding does can
    disturb the session: its turns change nothing and send nothing. *)
Theorem stale_binding_inert s o g :
  op_binding o = Some g -> bound_to s g = None ->
  ep_run s o = mkOutcome s [] [] [].
Proof. apply stale_op_aux. Qed.

Lemma stale_binding_inert_witness :
  ep_run (la demoLink) (OReceive 7 (Some (dataPacket 0 demoText)) 9)
  = mkOutcome (la demoLink) [] [] [].
Proof. apply (stale_binding_inert _ _ 7); vm_compute; reflexivity. Defined.

(** A closed session stays closed: no operation reopens it, changes its
    error, gives it a binding or accepts more bytes. *)
Theorem closed_is_final s o :
  closed s = true -> current s = None ->
  let s' := oc_session (ep_run s o) in
  closed s' = true /\ err_ s' = err_ s /\ current s' = None /\ txNext s' = txNext s.
Proof. apply closed_final_aux. Qed.

Lemma closed_is_final_witness :
  let s := (closeWithError (la demoLink) (Sent EOF)).1 in
  let s' := oc_session (ep_run s (OAttach 4 185 185 9)) in
  closed s' = true /\ err_ s' = err_ s /\ current s' = None /\ txNext s' = txNext s.
Proof. apply closed_is_final; vm_compute; reflexivity. Defined.

(** C31. No wakeup is lost: when an operation makes a waiting [Read] or [Write]
    able to proceed, it also closes the channel the waiter captured. *)
Theorem no_lost_wakeup s o n p :
  let s' := oc_session (ep_run s o) in
  ((Read s n).2 = ReadWait (notify s) (readDeadline s) ->
     (Read s' n).2 <> ReadWait (notify s) (readDeadline s) -> notify s < notify s') /\
  ((Write_turn s p).2 = WriteWait (notify s) (writeDeadline s) ->
     (Write_turn s' p).2 <> WriteWait (notify s) (writeDeadline s) -> notify s < notify s').
Proof.
  intros s'. destruct (ep_run_signals s o) as [Hle Hsame]. fold s' in Hle, Hsame.
  destruct (Z.eq_dec (notify s') (notify s)) as [Heq|Hne]; [|split; intros; lia].
  destruct (Hsame Heq) as (Hrb & Htb & Hcl & Hcur & Hrw & Hrd & Hwd).
  split; intros H1 H2; exfalso; apply H2; rewrite <- H1.
  - unfold Read. rewrite Hrb, Hcl, Heq, Hrd. repeat case_match; try done.
    revert H1. unfold Read. repeat case_match; try done; congruence.
  - assert (writeSpace s' = writeSpace s) as Hsp.
    { unfold writeSpace. rewrite Htb, Hrw. destruct (current s), (current s'); try done;
        [discriminate (proj1 Hcur eq_refl)|discriminate (proj2 Hcur eq_refl)]. }
    revert H1. unfold Write_turn. rewrite Hcl, Hsp, Heq, Hwd.
    destruct (closed s); [done|]. destruct (0 <? writeSpace s); [|done].
    by destruct (max_u64 - txNext s <? _).
Qed.

Lemma no_lost_wakeup_witness :
  let s := lb (new_link demoID demoConfig demoConfig) in
  let s' := oc_session (ep_run s (OCloseWithError (Sent EOF))) in
  ((Read s 5).2 = ReadWait (notify s) (readDeadline s) ->
     (Read s' 5).2 <> ReadWait (notify s) (readDeadline s) -> notify s < notify s') /\
  ((Write_turn s []).2 = WriteWait (notify s) (writeDeadline s) ->
     (Write_turn s' []).2 <> WriteWait (notify s) (writeDeadline s) -> notify s < notify s').
Proof. apply no_lost_wakeup. Defined.

(** Bootstrap leaves both sides with the same resume timeout, stream limit,
    compression setting and packet size: the minimum of what each offered, for
    timeouts of whole milliseconds. *)
Theorem negotiation_agrees server client e serverMTU clientMTU server' ack m :
  config_ok (config server) -> config_ok (config client) ->
  whole_milliseconds (ResumeTimeout (config server)) ->
  whole_milliseconds (ResumeTimeout (config client)) ->
  0 <= rxNext server < 2 ^ 64 ->
  BindServer_ack server serverMTU (wire_hello (id server) e (config client) clientMTU)
    = (server', inr (ack, m)) ->
  m = Z.min (normalizeMTU serverMTU) (normalizeMTU clientMTU) /\
  exists pe pc pm, decodeHelloAck ack = inr (pe, pc, pm) /\
    forall client' m', BindClient_finish client clientMTU (config client) pe pc pm = (client', inr m') ->
      m' = m /\
      ResumeTimeout (config client') = ResumeTimeout (config server') /\
      MaxConnections (config client') = MaxConnections (config server') /\
      Compression (config client') = Compression (config server') /\
      ResumeTimeout (config server') =
        Z.min (ResumeTimeout (config server)) (ResumeTimeout (config client)) /\
      MaxConnections (config server') =
        Z.min (MaxConnections (config server)) (MaxConnections (config client)).
Proof.
  intros (S1 & S2 & S3) (C1 & C2 & C3) Ws Wc Hrx Hb.
  apply BindServer_ack_inv in Hb as (_ & _ & Hcomp & s1 & Hrec & Hm & Hs' & Hack).
  cbn [wire_hello AdvertisedPacketMTU h_ResumeTimeout h_MaxConnections h_Compression] in *.
  pose proof (normalizeMTU_range serverMTU) as HmS. pose proof (normalizeMTU_range clientMTU) as HmC.
  unfold minimumPacketMTU in *. rewrite (normalizeMTU_idem (normalizeMTU clientMTU)) in Hm by done.
  split; [done|].
  assert (config s1 = config server) as Hcfg.
  { pose proof (reconcile_config server (ExpectedRemote (wire_hello (id server) e (config client) clientMTU))) as Hc.
    cbn [wire_hello ExpectedRemote] in *. by rewrite Hrec in Hc. }
  assert (rxNext s1 = rxNext server) as Hrn.
  { revert Hrec. unfold reconcilePeerLocked. repeat case_match; intros; simplify_eq; done. }
  rewrite wire_duration in Hs' by done.
  rewrite negotiateLocked_min in Hs' by (cbn; lia). rewrite Hcfg in Hs'.
  pose proof (whole_min _ _ Ws Wc) as Wm.
  assert (config server' = min_config (config server)
    (mkConfig (ResumeTimeout (config client)) 0 (MaxConnections (config client)) (Compression (config client))))
    as Hcs by by rewrite Hs'.
  assert (config_ok (config server')) as Hok.
  { rewrite Hcs. unfold config_ok, min_config. cbn. lia. }
  assert (rxNext server' = rxNext server) as Hrs by by rewrite Hs'.
  rewrite Hack, decodeHelloAck_encode_aux by (done || lia).
  eexists _, _, _. split; [done|]. rewrite normalizeMTU_idem by lia.
  unfold wire_config. rewrite wire_duration by by rewrite Hcs.
  intros client' m'. unfold BindClient_finish.
  do 2 (case_match; [done|]). pose proof (reconcile_config client (rxNext server')) as Hcc.
  destruct (reconcilePeerLocked client _) as [c1 [x|]]; [done|]. cbn [fst] in Hcc.
  rewrite negotiateLocked_min by (destruct Hok as (? & ? & ?); cbn; lia).
  intros [= <- <-]. cbn [config upd]. rewrite Hcc, Hcs. unfold min_config.
  cbn [ResumeTimeout MaxConnections Compression]. cbn in Hcomp.
  split_and!; try lia. rewrite Hcomp. by destruct (Compression (config server)).
Qed.

Lemma negotiation_agrees_witness :
  let server := NewSessionWithID demoID (mkConfig (9 * Second) 0 4 true) in
  let client := NewSessionWithID demoID (mkConfig 0 0 0 true) in
  let r := BindServer_ack server 200 (wire_hello (id server) 0 (config client) 185) in
  exists pe pc pm, decodeHelloAck (encodeHelloAck 0 (config r.1) 185) = inr (pe, pc, pm) /\
    forall client' m', BindClient_finish client 185 (config client) pe pc pm = (client', inr m') ->
      m' = 185 /\ ResumeTimeout (config client') = ResumeTimeout (config r.1) /\
      MaxConnections (config client') = MaxConnections (config r.1) /\
      Compression (config client') = Compression (config r.1) /\
      ResumeTimeout (config r.1) = Z.min (9 * Second) (60 * Second) /\
      MaxConnections (config r.1) = Z.min 4 32.
Proof.
  intros server client r.
  apply (negotiation_agrees server client 0 200 185 r.1 (encodeHelloAck 0 (config r.1) 185) 185);
    [apply normalized_ok|apply normalized_ok| | | |].
  - split; [split|]; vm_compute; discriminate || reflexivity.
  - split; [split|]; vm_compute; discriminate || reflexivity.
  - split; [discriminate|reflexivity].
  - vm_compute. reflexivity.
Defined.

(** C32. A HELLO_ACK that reaches an established binding destroys it: the packet
    type is not handled after bootstrap, so the binding is failed with
    [ErrHandshake] and its connection closed. *)
Theorem late_hello_ack_detaches s g b e cfg m now :
  bound_to s g = Some b ->
  let '(s', eff, continues) := receiveLoop_turn s g (Some (encodeHelloAck e cfg m)) now in
  current s' = None /\ continues = false /\ CloseConn (conn b) ∈ eff /\
  detachCount s' = u64 (detachCount s + 1) /\
  lastDetachReason s' = "receive packet: invalid BLE handshake".
Proof.
  intros Hb. pose proof Hb as (Hc & Hg & Ho)%bound_to_Some.
  set (b1 := b <| lastRX := now |> <| heartbeatPending := false |> <| heartbeatFailures := 0 |>).
  assert (handlePacket s g (encodeHelloAck e cfg m) now
    = (set_current s b1, [], Some (Sent ErrHandshake))) as Hp.
  { unfold handlePacket, encodeHelloAck. rewrite Hb. by rewrite !bool_decide_eq_false_2 by done. }
  assert (bound_to (set_current s b1) g = Some b1) as Hb1.
  { unfold bound_to, set_current. cbn [current upd]. change (gen b1) with (gen b).
    change (closed (s <| current := Some b1 |>)) with (closed s). by rewrite Hg, Z.eqb_refl, Ho. }
  unfold receiveLoop_turn. rewrite Hp. unfold failBinding. rewrite Hb1.
  split_and!; try reflexivity. set_solver.
Qed.

(** The run that meets it: the server's first HELLO_ACK takes longer than the
    client's retry, the client repeats its HELLO, the server's established
    binding answers again, and the second answer detaches the client. *)
Definition duplicateHelloSchedule : list (bool * op) :=
  [ (true, OClientHello 185);
    (false, OServerAck 200 [demoHello.1; demoHello.2]);
    (false, OAttach 1 200 185 1000);
    (true, OClientHello 185);
    (true, OClientFinish 185 (normalized demoConfig) demoAck);
    (true, OAttach 1 185 185 2000);
    (false, OReceive 1 (Some demoHello.1) 3000);
    (false, OReceive 1 (Some demoHello.2) 3001);
    (false, OTake 1 3002) ].

Definition duplicateHelloLink : link :=
  default (new_link demoID demoConfig demoConfig)
    (run_schedule (new_link demoID demoConfig demoConfig) duplicateHelloSchedule).

Lemma late_hello_ack_detaches_witness :
  last (toA duplicateHelloLink) = Some demoAck /\
  let '(s', eff, continues) := receiveLoop_turn (la duplicateHelloLink) 1 (Some demoAck) 4000 in
  current s' = None /\ continues = false /\
  CloseConn (conn (default freshBinding (current (la duplicateHelloLink)))) ∈ eff /\
  detachCount s' = u64 (detachCount (la duplicateHelloLink) + 1) /\
  lastDetachReason s' = "receive packet: invalid BLE handshake".
Proof.
  split; [vm_compute; reflexivity|].
  apply (late_hello_ack_detaches (la duplicateHelloLink) 1
    (default freshBinding (current (la duplicateHelloLink))) 0 (normalized demoConfig) 185 4000).
  vm_compute. reflexivity.
Defined.

(** A detached session expires exactly when nothing replaced its binding
    before the resume timer fired: the timer closes it with
    [ErrResumeTimeout], and has no effect after a new binding was attached. *)
Theorem resume_timeout_exact s g b now reason :
  bound_to s g = Some b ->
  let '(s1, eff) := failBinding s g now reason in
  GoExpireAfter now (ResumeTimeout (config s)) ∈ eff /\
  (let '(s2, _) := expireAfter s1 now in
   closed s2 = true /\ err_ s2 = Some (Sent ErrResumeTimeout) /\
   sessionErrorLocked s2 = Sent ErrResumeTimeout) /\
  (forall c connMTU m t s2 eff2, attach s1 c connMTU m t = (s2, eff2, None) ->
     expireAfter s2 now = (s2, [])).
Proof.
  intros Hb. pose proof Hb as (Hc & Hg & Ho)%bound_to_Some.
  unfold failBinding. rewrite Hb. split; [set_solver|]. split.
  - unfold expireAfter. cbn. rewrite Ho, Z.eqb_refl. cbn.
    unfold closeWithError. cbn. by rewrite ?Ho.
  - intros c connMTU m t s2 eff2. unfold attach. cbn. rewrite Ho.
    intros [= <- _]. unfold expireAfter. by destruct (ackDirty s); cbn; rewrite ?andb_false_r.
Qed.

Lemma resume_timeout_exact_witness :
  let '(s1, eff) := failBinding (la demoLink) 1 77 (ErrNew "gone") in
  GoExpireAfter 77 (ResumeTimeout (config (la demoLink))) ∈ eff /\
  (let '(s2, _) := expireAfter s1 77 in
   closed s2 = true /\ err_ s2 = Some (Sent ErrResumeTimeout) /\
   sessionErrorLocked s2 = Sent ErrResumeTimeout) /\
  (forall c connMTU m t s2 eff2, attach s1 c connMTU m t = (s2, eff2, None) ->
     expireAfter s2 77 = (s2, [])).
Proof.
  apply (resume_timeout_exact (la demoLink) 1 (default freshBinding (current (la demoLink)))).
  vm_compute. reflexivity.
Defined.
