(* ===== verification/Traffic.v ===== *)
(** * Forwarded payload counters (internal/traffic/counter.go)

    A [Counter] is seven atomics.  [Snapshot] is seven loads, each of the state the
    counter has by then: it may fall between the two additions of
    [AddCompressionTX]. *)

From S2P Require Export GoErrors.

Module Traffic.

Record Counter := mkCounter {
  tx : Z;
  rx : Z;
  compressionEnabled : bool;
  txUncompressed : Z;
  txCompressed : Z;
  rxUncompressed : Z;
  rxCompressed : Z
}.

#[export] Instance eta_Counter : Eta Counter := fun c =>
  mkCounter (tx c) (rx c) (compressionEnabled c) (txUncompressed c) (txCompressed c)
    (rxUncompressed c) (rxCompressed c).

Definition zeroCounter : Counter := mkCounter 0 0 false 0 0 0 0.

Definition AddTX (c : Counter) (n : Z) : Counter := c <| tx := u64 (tx c + n) |>.
Definition AddRX (c : Counter) (n : Z) : Counter := c <| rx := u64 (rx c + n) |>.
Definition EnableCompression (c : Counter) : Counter := c <| compressionEnabled := true |>.

(** Two atomic additions, one after the other. *)
Definition AddCompressionTX (c : Counter) (uncompressed compressed : Z) : Counter :=
  let c := c <| txUncompressed := u64 (txUncompressed c + uncompressed) |> in
  c <| txCompressed := u64 (txCompressed c + compressed) |>.

Definition AddCompressionRX (c : Counter) (uncompressed compressed : Z) : Counter :=
  let c := c <| rxUncompressed := u64 (rxUncompressed c + uncompressed) |> in
  c <| rxCompressed := u64 (rxCompressed c + compressed) |>.

(** [Snapshot]: its [k]-th load reads the counter's [k]-th state. *)
Definition Snapshot (states : nat -> Counter) : Counter :=
  mkCounter (tx (states 0%nat)) (rx (states 1%nat)) (compressionEnabled (states 2%nat)) (txUncompressed (states 3%nat))
    (txCompressed (states 4%nat)) (rxUncompressed (states 5%nat)) (rxCompressed (states 6%nat)).

End Traffic.
