(* ===== verification/Compression.v ===== *)
(** * DATA payload compression (internal/mux/compression.go)

    The DEFLATE codec is [compress/flate], of which the source relies on one
    law: a reader of a deflated payload yields the payload.  [Flate] states it;
    [rawFlate] is an instance (stored blocks without compression), so the law
    can hold. *)

From S2P Require Export GoErrors.
From S2P Require Import Frame.

Definition compressionRaw : byte := Byte.x00.
Definition compressionDeflate : byte := Byte.x01.
Definition compressionMinimumSize : Z := 64.

(** [flate.NewWriter(BestSpeed)], [Write] and [Close] into a buffer; and
    [flate.NewReader] read to the end, which ends with an error on malformed or
    truncated input, after the bytes it produced. *)
Class Flate := {
  deflate : bytes -> result bytes;
  inflate : bytes -> bytes * err;
  deflate_nonempty : forall p, deflate p <> inr [];
  inflate_deflate : forall p c, deflate p = inr c -> inflate c = (p, None)
}.

#[export] Instance rawFlate : Flate.
Proof.
  refine {|
    deflate p := inr (Byte.x01 :: p);
    inflate c := match c with
                 | Byte.x01 :: p => (p, None)
                 | _ => ([], Some (ErrNew "flate: corrupt input"))
                 end
  |}.
  - done.
  - by intros p c [= <-].
Defined.

Section Codec.
Context `{Flate}.

Definition encodeCompressedPayload (data : bytes) : result bytes :=
  if (zlen data =? 0) || (MaxDataPayload - 1 <? zlen data)
  then inl (ErrNew "invalid uncompressed DATA size")
  else if zlen data <? compressionMinimumSize then inr (compressionRaw :: data)
  else
    match deflate data with
    | inl e => inl e
    | inr body =>
        let compressed := compressionDeflate :: body in
        if zlen data + 1 <=? zlen compressed then inr (compressionRaw :: data) else inr compressed
    end.

(** [io.ReadAll(io.LimitReader(reader, MaxDataPayload))]: at most that many
    bytes, and the reader's error only when it ends before the limit. *)
Definition readAllLimited (body : bytes) : bytes * err :=
  let '(p, e) := inflate body in
  if MaxDataPayload <=? zlen p then (slice_to p MaxDataPayload, None) else (p, e).

(** [closeErr] is what [reader.Close] returns: the reader's own error. *)
Definition decodeCompressedPayload (data : bytes) : result bytes :=
  match data with
  | kind :: body =>
      if zlen data <? 2 then inl (ErrNew "compressed DATA has no payload")
      else if bool_decide (kind = compressionRaw) then inr body
      else if bool_decide (kind = compressionDeflate) then
        let '(decoded, e) := readAllLimited body in
        match e with
        | Some e => inl e
        | None =>
            if (zlen decoded =? 0) || (MaxDataPayload - 1 <? zlen decoded)
            then inl (ErrNew ("invalid decompressed DATA size " +:+ itoa (zlen decoded)))
            else inr decoded
        end
      else inl (ErrNew ("unknown compression encoding " +:+ itoa (byte_z kind)))
  | [] => inl (ErrNew "compressed DATA has no payload")
  end.

(** What [encodeCompressedPayload] produces. *)
Lemma encodeCompressedPayload_spec data c :
  encodeCompressedPayload data = inr c ->
  0 < zlen data <= MaxDataPayload - 1 /\ 2 <= zlen c <= zlen data + 1 /\
  decodeCompressedPayload c = inr data.
Proof.
  unfold encodeCompressedPayload, MaxDataPayload. pose proof (zlen_nonneg data).
  destruct (Z.eqb_spec (zlen data) 0), (Z.ltb_spec (16 * 1024 - 1) (zlen data)); try done. cbn [orb].
  assert (decodeCompressedPayload (compressionRaw :: data) = inr data) as Hraw.
  { unfold decodeCompressedPayload. by rewrite zlen_cons, (proj2 (Z.ltb_ge _ _)) by lia. }
  assert (2 <= zlen (compressionRaw :: data) <= zlen data + 1) as Hlen by (rewrite zlen_cons; lia).
  destruct (Z.ltb_spec (zlen data) compressionMinimumSize); [intros [= <-]; split_and!; done || lia|].
  destruct (deflate data) as [e|body] eqn:Ed; [done|].
  destruct (Z.leb_spec (zlen data + 1) (zlen (compressionDeflate :: body))); [intros [= <-]; split_and!; done || lia|].
  intros [= <-]. rewrite zlen_cons in *.
  assert (body <> []) as Hne by (intros ->; exact (deflate_nonempty data Ed)).
  assert (0 < zlen body) as Hb.
  { destruct body as [|b body']; [done|]. rewrite zlen_cons. pose proof (zlen_nonneg body'). lia. }
  split; [lia|]. split; [lia|]. unfold decodeCompressedPayload, readAllLimited, MaxDataPayload.
  rewrite zlen_cons, (proj2 (Z.ltb_ge _ _)) by lia.
  rewrite bool_decide_eq_false_2, bool_decide_eq_true_2 by done.
  apply inflate_deflate in Ed. rewrite Ed.
  rewrite (proj2 (Z.leb_gt _ _)) by lia.
  rewrite (proj2 (Z.eqb_neq _ _)), (proj2 (Z.ltb_ge _ _)) by lia. done.
Qed.

(** Decoding never yields more than one frame carries. *)
Lemma decodeCompressedPayload_bound c data :
  decodeCompressedPayload c = inr data ->
  zlen data <= Z.max (zlen c - 1) (MaxDataPayload - 1) /\ 0 < zlen data.
Proof.
  unfold decodeCompressedPayload. destruct c as [|k body]; [done|].
  destruct (Z.ltb_spec (zlen (k :: body)) 2) as [|Hl]; [done|]. rewrite zlen_cons in *.
  case_bool_decide; [intros [= <-]; lia|]. case_bool_decide; [|done].
  destruct (readAllLimited body) as [d [e|]]; [done|].
  pose proof (zlen_nonneg d).
  destruct (Z.eqb_spec (zlen d) 0), (Z.ltb_spec (MaxDataPayload - 1) (zlen d)); try done.
  intros [= <-]. lia.
Qed.

End Codec.

(** * Properties *)

(** C26. Whatever the DEFLATE codec produces, a payload of 1 to 16383 bytes is
    encoded into at most one byte more, still fits a DATA frame, and decodes to
    itself; any other size is refused. *)
Theorem compression_roundtrip `{Flate} data :
  match encodeCompressedPayload data with
  | inr c => 0 < zlen data <= MaxDataPayload - 1 /\ 2 <= zlen c <= MaxDataPayload /\
             zlen c <= zlen data + 1 /\ decodeCompressedPayload c = inr data
  | inl _ => zlen data = 0 \/ MaxDataPayload - 1 < zlen data \/ exists e, deflate data = inl e
  end.
Proof.
  destruct (encodeCompressedPayload data) as [e|c] eqn:E.
  - revert E. unfold encodeCompressedPayload.
    destruct (Z.eqb_spec (zlen data) 0), (Z.ltb_spec (MaxDataPayload - 1) (zlen data));
      cbn [orb]; try by auto.
    destruct (zlen data <? compressionMinimumSize); [done|].
    destruct (deflate data); [by eauto|]. by destruct (_ <=? _).
  - apply encodeCompressedPayload_spec in E as (H1 & H2 & H3). split_and!; done || lia.
Qed.
