(* ===== verification/MuxServices.v ===== *)
(** * The SERVICE_LIST payload (internal/mux/session.go)

    [encodeServices] fills a buffer of computed length at a running offset,
    which is the concatenation of the fields; [decodeServices] reads at a
    running offset, which is the bytes left. *)

From S2P Require Export GoErrors.

Record Service := mkService { Name : string; Host : string; Port : Z }.

#[export] Instance eta_Service : Eta Service := fun s => mkService (Name s) (Host s) (Port s).
#[export] Instance Service_eq_dec : EqDecision Service.
Proof. solve_decision. Defined.

Definition maxServiceName : Z := 64.

Definition encodeService (service : Service) : bytes :=
  z_byte (slen (Name service)) :: str_bytes (Name service)
    ++ be_put 2 (slen (Host service)) ++ str_bytes (Host service)
    ++ be_put 2 (Port service).

Definition encodeServices (services : list Service) : bytes :=
  be_put 2 (zlen services) ++ concat (encodeService <$> services).

Definition protocolError (what : string) : error := ErrWrap "" (Sent ErrProtocol) (": " +:+ what).

(** One turn of the loop: the service and the rest of the payload. *)
Definition decodeService (p : bytes) : result (Service * bytes) :=
  match p with
  | [] => inl (protocolError "truncated service name")
  | n :: p =>
      let nameLength := byte_z n in
      if (maxServiceName <? nameLength) || (zlen p <? nameLength + 2)
      then inl (protocolError "invalid service entry")
      else
        let name := bytes_str (slice_to p nameLength) in
        let p := slice_from p nameLength in
        if zlen p <? 2 then inl (protocolError "truncated service host")
        else
          let hostLength := be_get (slice_to p 2) in
          let p := slice_from p 2 in
          if zlen p <? hostLength + 2 then inl (protocolError "invalid service host")
          else
            let host := bytes_str (slice_to p hostLength) in
            let p := slice_from p hostLength in
            let port := be_get (slice_to p 2) in
            let p := slice_from p 2 in
            if (port <? 1) || (65535 <? port) then inl (protocolError "invalid service port")
            else inr (mkService name host port, p)
  end.

Fixpoint decodeServiceLoop (count : nat) (p : bytes) : result (list Service * bytes) :=
  match count with
  | O => inr ([], p)
  | S count =>
      let? (service, p) := decodeService p in
      let? (services, p) := decodeServiceLoop count p in
      inr (service :: services, p)
  end.

Definition decodeServices (payload : bytes) : result (list Service) :=
  if zlen payload <? 2 then inl (protocolError "truncated service list")
  else
    let? (services, p) :=
      decodeServiceLoop (Z.to_nat (be_get (slice_to payload 2))) (slice_from payload 2) in
    if negb (zlen p =? 0) then inl (protocolError "trailing service list data")
    else inr services.

(** What the wire format can carry. *)
Definition service_ok (s : Service) : Prop :=
  slen (Name s) <= maxServiceName /\ slen (Host s) < 2 ^ 16 /\ 1 <= Port s <= 65535.

Lemma slice_to_app_exact (a b : bytes) n : zlen a = n -> slice_to (a ++ b) n = a.
Proof. intros <-. by apply slice_to_app_l. Qed.

Lemma slice_from_app_exact (a b : bytes) n : zlen a = n -> slice_from (a ++ b) n = b.
Proof. intros <-. by apply slice_from_app_l. Qed.

Lemma decodeService_encode s rest :
  service_ok s -> decodeService (encodeService s ++ rest) = inr (s, rest).
Proof.
  intros (Hn & Hh & Hp). unfold encodeService, decodeService, maxServiceName in *.
  pose proof (slen_nonneg (Name s)). pose proof (slen_nonneg (Host s)).
  cbn [app]. rewrite <- !app_assoc.
  rewrite byte_z_z_byte, Z.mod_small by lia.
  pose proof (zlen_nonneg rest).
  rewrite (proj2 (Z.ltb_ge 64 _)) by lia. rewrite (proj2 (Z.ltb_ge _ (slen (Name s) + 2)))
    by (rewrite zlen_app, zlen_str_bytes, zlen_app, zlen_be_put, !zlen_app;
        pose proof (zlen_nonneg (str_bytes (Host s))); pose proof (zlen_nonneg (be_put 2 (Port s))); lia).
  cbn [orb].
  rewrite slice_to_app_exact, slice_from_app_exact by apply zlen_str_bytes.
  rewrite (proj2 (Z.ltb_ge _ 2))
    by (rewrite zlen_app, zlen_be_put, !zlen_app;
        pose proof (zlen_nonneg (str_bytes (Host s))); pose proof (zlen_nonneg (be_put 2 (Port s))); lia).
  rewrite slice_to_app_exact, slice_from_app_exact by apply zlen_be_put.
  rewrite be_get_put_id by lia.
  rewrite (proj2 (Z.ltb_ge _ (slen (Host s) + 2)))
    by (rewrite !zlen_app, zlen_str_bytes, zlen_be_put; lia).
  rewrite slice_to_app_exact, slice_from_app_exact by apply zlen_str_bytes.
  rewrite slice_to_app_exact, slice_from_app_exact by apply zlen_be_put.
  rewrite be_get_put_id by lia.
  rewrite (proj2 (Z.ltb_ge (Port s) 1)), (proj2 (Z.ltb_ge 65535 (Port s))) by lia. cbn [orb].
  rewrite !bytes_str_bytes. by destruct s.
Qed.

Lemma decodeServiceLoop_encode l rest :
  Forall service_ok l ->
  decodeServiceLoop (length l) (concat (encodeService <$> l) ++ rest) = inr (l, rest).
Proof.
  induction 1 as [|s l Hs _ IH]; [done|]. cbn [length decodeServiceLoop fmap list_fmap concat].
  rewrite <- app_assoc, decodeService_encode by done. cbn [rbind]. rewrite IH. done.
Qed.

Lemma decodeService_sound p s rest :
  decodeService p = inr (s, rest) -> service_ok s /\ p = encodeService s ++ rest.
Proof.
  unfold decodeService, maxServiceName. destruct p as [|n p]; [done|].
  pose proof (byte_z_range n) as Hn.
  destruct (Z.ltb_spec 64 (byte_z n)), (Z.ltb_spec (zlen p) (byte_z n + 2)); try done. cbn [orb].
  set (p1 := slice_from p (byte_z n)).
  assert (zlen p1 = zlen p - byte_z n) as E1 by (apply zlen_slice_from; lia).
  destruct (Z.ltb_spec (zlen p1) 2); [done|].
  assert (zlen (slice_to p1 2) = 2) as E2 by (apply zlen_slice_to; lia).
  pose proof (be_get_2_range _ E2) as Hhr.
  set (p2 := slice_from p1 2). assert (zlen p2 = zlen p1 - 2) as E3 by (apply zlen_slice_from; lia).
  destruct (Z.ltb_spec (zlen p2) (be_get (slice_to p1 2) + 2)); [done|].
  set (h := be_get (slice_to p1 2)) in *.
  set (p3 := slice_from p2 h). assert (zlen p3 = zlen p2 - h) as E4 by (apply zlen_slice_from; lia).
  assert (zlen (slice_to p3 2) = 2) as E5 by (apply zlen_slice_to; lia).
  destruct (Z.ltb_spec (be_get (slice_to p3 2)) 1), (Z.ltb_spec 65535 (be_get (slice_to p3 2))); try done.
  cbn [orb]. intros [= <- <-].
  assert (zlen (slice_to p (byte_z n)) = byte_z n) as E6 by (apply zlen_slice_to; lia).
  assert (zlen (slice_to p2 h) = h) as E7 by (apply zlen_slice_to; lia).
  split.
  - unfold service_ok, maxServiceName. cbn [Name Host Port]. rewrite !slen_bytes_str. lia.
  - unfold encodeService. cbn [Name Host Port]. rewrite !slen_bytes_str, !str_bytes_str, E6, E7.
    rewrite z_byte_byte_z. unfold h at 1. rewrite !be_put_get_len by done.
    cbn [app]. f_equal. rewrite <- !app_assoc.
    rewrite (slice_to_from p3 2). unfold p3. rewrite (slice_to_from p2 h).
    unfold p2. rewrite (slice_to_from p1 2). unfold p1. by rewrite slice_to_from.
Qed.

Lemma decodeServiceLoop_sound n p l rest :
  decodeServiceLoop n p = inr (l, rest) ->
  length l = n /\ Forall service_ok l /\ p = concat (encodeService <$> l) ++ rest.
Proof.
  revert p l. induction n as [|n IH]; intros p l; cbn [decodeServiceLoop].
  { by intros [= <- <-]. }
  destruct (decodeService p) as [|[s p1]] eqn:Es; [done|]. cbn [rbind].
  destruct (decodeServiceLoop n p1) as [|[l1 p2]] eqn:El; [done|]. cbn [rbind].
  intros [= <- <-]. apply decodeService_sound in Es as [Hs ->]. apply IH in El as (<- & Hl & ->).
  split; [done|]. split; [by constructor|]. cbn [fmap list_fmap concat]. by rewrite app_assoc.
Qed.

Lemma services_roundtrip_aux services :
  Forall service_ok services -> zlen services < 2 ^ 16 ->
  decodeServices (encodeServices services) = inr services.
Proof.
  intros Hs Hn. unfold decodeServices, encodeServices. pose proof (zlen_nonneg services).
  rewrite (proj2 (Z.ltb_ge _ _))
    by (rewrite zlen_app, zlen_be_put; pose proof (zlen_nonneg (concat (encodeService <$> services))); lia).
  rewrite slice_to_app_exact, slice_from_app_exact by apply zlen_be_put.
  rewrite be_get_put_id by lia.
  replace (Z.to_nat (zlen services)) with (length services) by zl.
  rewrite <- (app_nil_r (concat _)), decodeServiceLoop_encode by done. done.
Qed.

(** * Properties *)

(** Client and server agree on the service list: every list of at most
    65535 services with names of at most 64 bytes, hosts below 64 KiB and valid
    ports decodes to itself. *)
Theorem services_roundtrip services :
  Forall service_ok services -> zlen services < 2 ^ 16 ->
  decodeServices (encodeServices services) = inr services.
Proof. apply services_roundtrip_aux. Qed.

Lemma services_roundtrip_witness :
  decodeServices (encodeServices [mkService "web" "" 80; mkService "ssh" "10.0.0.2" 22])
  = inr [mkService "web" "" 80; mkService "ssh" "10.0.0.2" 22].
Proof.
  apply services_roundtrip; [|vm_compute; reflexivity].
  repeat constructor; vm_compute; discriminate || reflexivity.
Defined.

(** The decoder accepts only canonical payloads: whatever it accepts is the
    encoding of the services it returns, each within the format's limits. *)
Theorem decodeServices_sound payload services :
  decodeServices payload = inr services ->
  Forall service_ok services /\ payload = encodeServices services.
Proof.
  unfold decodeServices. destruct (Z.ltb_spec (zlen payload) 2) as [|Hl]; [done|].
  destruct (decodeServiceLoop _ _) as [|[l p]] eqn:El; [done|]. cbn [rbind].
  destruct (Z.eqb_spec (zlen p) 0) as [Hp%zlen_zero_nil|]; [|done]. subst p. intros [= <-].
  apply decodeServiceLoop_sound in El as (Hn & Hs & Hp). split; [done|].
  assert (zlen (slice_to payload 2) = 2) as H2 by (apply zlen_slice_to; lia).
  pose proof (be_get_2_range _ H2). unfold encodeServices.
  replace (zlen l) with (be_get (slice_to payload 2)) by (unfold zlen; lia).
  rewrite be_put_get_len by done. rewrite app_nil_r in Hp. by rewrite <- Hp, slice_to_from.
Qed.

Lemma decodeServices_sound_witness :
  Forall service_ok [mkService "web" "" 80] /\
  encodeServices [mkService "web" "" 80] = encodeServices [mkService "web" "" 80].
Proof. apply decodeServices_sound. vm_compute. reflexivity. Defined.
