(* ===== verification/MuxStream.v ===== *)
(** * Multiplexed streams (internal/mux/stream.go)

    [Stream] is the struct guarded by [Stream.mu]; each operation is one
    critical section of the method it is named after.  What the method then does
    through its session ([schedule], [removeStream], [sendControl]) is part of
    the operation's result and is carried out in MuxSession.v.  The stream's
    back pointer is left out: the session's [compression] flag is an argument.
    [notify] counts the channels made so far. *)

From S2P Require Export Compression.
From S2P Require Export Frame.

Definition InitialStreamWindow : Z := 64 * 1024.
Definition windowUpdateThreshold : Z := Z.quot InitialStreamWindow 8.

Record Stream := mkStream {
  id : Z;                       (* uint32 *)
  service : string;
  opened : bool;
  openErr : err;
  closed : bool;
  err_ : err;
  localWriteClosed : bool;
  remoteWriteClosed : bool;
  closeAfterDrain : bool;
  sendWindow : Z;               (* uint32 *)
  receiveWindow : Z;            (* uint32 *)
  pendingWindowUpdate : Z;      (* uint32 *)
  inbound : bytes;
  outbound : list Frame;
  scheduled : bool;
  readDeadline : Z;
  writeDeadline : Z;
  notify : Z
}.

#[export] Instance eta_Stream : Eta Stream := fun s =>
  mkStream (id s) (service s) (opened s) (openErr s) (closed s) (err_ s) (localWriteClosed s)
    (remoteWriteClosed s) (closeAfterDrain s) (sendWindow s) (receiveWindow s)
    (pendingWindowUpdate s) (inbound s) (outbound s) (scheduled s) (readDeadline s)
    (writeDeadline s) (notify s).

Definition newStream (id : Z) : Stream :=
  mkStream id "" false None false None false false false InitialStreamWindow InitialStreamWindow
    0 [] [] false 0 0 0.

Definition signalLocked (s : Stream) : Stream := s <| notify := notify s + 1 |>.

Definition streamErrorLocked (s : Stream) : err :=
  match err_ s with
  | Some e => Some e
  | None =>
      match openErr s with
      | Some e => Some e
      | None => if closed s then Some (Sent ErrClosedPipe) else None
      end
  end.

Definition errorMessage (e : err) : string :=
  match e with
  | None => "stream reset"
  | Some e =>
      let message := error_text e in
      if MaxErrorPayload <? slen message then str_slice_to message MaxErrorPayload else message
  end.

Definition enqueueLocked (s : Stream) (frame : Frame) : Stream * bool :=
  let s := s <| outbound := outbound s ++ [frame] |> in
  if scheduled s then (s, false) else (s <| scheduled := true |>, true).

(** ** Opening *)

(** What is left to do after the critical section. *)
Inductive approval := Approved | AlreadyApproved | ApproveError (e : err).

Definition Approve (s : Stream) : Stream * approval :=
  if closed s then (s, ApproveError (streamErrorLocked s))
  else if opened s then (s, AlreadyApproved)
  else (signalLocked (s <| opened := true |>), Approved).

(** [Reject]: true when the stream is to be removed and OPEN_ERROR sent. *)
Definition Reject (s : Stream) : Stream * bool :=
  if closed s then (s, false)
  else (signalLocked (s <| closed := true |> <| err_ := Some (Sent ErrStreamRejected) |>), true).

(** One turn of [waitOpened]: [None] is waiting on [notify]. *)
Definition waitOpened (s : Stream) : option err :=
  if opened s then Some None
  else if negb (bool_decide (openErr s = None)) || closed s then Some (streamErrorLocked s)
  else None.

Definition markOpened (s : Stream) (e : err) : Stream :=
  if closed s then s
  else
    let s := s <| openErr := e |> <| opened := bool_decide (e = None) |> in
    let s := match e with
             | Some _ => s <| closed := true |> <| err_ := e |>
             | None => s
             end in
    signalLocked s.

(** ** Reading and writing *)

Inductive readTurn :=
  | ReadData (p : bytes) (windowUpdate : Z)   (* 0: no WINDOW_UPDATE to send *)
  | ReadError (e : err)
  | ReadWait (n deadline : Z).

Definition Read (s : Stream) (n : Z) : Stream * readTurn :=
  if n =? 0 then (s, ReadData [] 0)
  else if 0 <? zlen (inbound s) then
    let k := Z.min n (zlen (inbound s)) in
    let p := slice_to (inbound s) k in
    let s := s <| inbound := slice_from (inbound s) k |>
               <| receiveWindow := u32 (receiveWindow s + k) |>
               <| pendingWindowUpdate := u32 (pendingWindowUpdate s + k) |> in
    if windowUpdateThreshold <=? pendingWindowUpdate s
    then (s <| pendingWindowUpdate := 0 |>, ReadData p (pendingWindowUpdate s))
    else (s, ReadData p 0)
  else if remoteWriteClosed s then (s, ReadError (Some (Sent EOF)))
  else if closed s then (s, ReadError (streamErrorLocked s))
  else (s, ReadWait (notify s) (readDeadline s)).

Inductive writeTurn :=
  | WriteQueued (n encodedSize : Z) (needsSchedule : bool)
  | WriteError (e : error)
  | WriteWait (n deadline : Z).

Section Data.
Context `{Flate} (compression : bool).

(** One turn of [Write]'s loop, for a non-empty argument. *)
Definition Write (s : Stream) (p : bytes) : Stream * writeTurn :=
  if negb (opened s) then (s, WriteError (default (Sent ErrStreamRejected) (streamErrorLocked s)))
  else if closed s || localWriteClosed s
  then (s, WriteError (default (Sent ErrClosedPipe) (streamErrorLocked s)))
  else if 0 <? sendWindow s then
    let maxPayload := if compression then MaxDataPayload - 1 else MaxDataPayload in
    let n := Z.min (Z.min (zlen p) maxPayload) (sendWindow s) in
    match (if compression then encodeCompressedPayload (slice_to p n) else inr (slice_to p n)) with
    | inl e => (s, WriteError e)
    | inr payload =>
        let s := s <| sendWindow := u32 (sendWindow s - n) |> in
        let '(s, needsSchedule) := enqueueLocked s (mkFrame FrameData (id s) payload) in
        (s, WriteQueued n (zlen payload) needsSchedule)
    end
  else (s, WriteWait (notify s) (writeDeadline s)).

(** [receiveData]: the sizes it counts, or the error the stream is reset with. *)
Definition receiveData (s : Stream) (data : bytes) : Stream * result (Z * Z) :=
  match (if compression then decodeCompressedPayload data else inr data) with
  | inl e => (s, inl (ErrWrap "" (Sent ErrProtocol) (": compressed DATA: " +:+ error_text e)))
  | inr decoded =>
      if closed s || remoteWriteClosed s || negb (opened s) then (s, inl (Sent ErrProtocol))
      else if receiveWindow s <? u32 (zlen decoded)
      then (s, inl (ErrNew "peer exceeded stream receive window"))
      else
        (signalLocked (s <| receiveWindow := u32 (receiveWindow s - zlen decoded) |>
                         <| inbound := inbound s ++ decoded |>),
         inr (zlen decoded, zlen data))
  end.
End Data.

Definition updateSendWindow (s : Stream) (amount : Z) : Stream * err :=
  if (amount =? 0) || (u32 (InitialStreamWindow - sendWindow s) <? amount)
  then (s, Some (ErrNew "invalid stream window update"))
  else (signalLocked (s <| sendWindow := u32 (sendWindow s + amount) |>), None).

(** ** Closing *)

Definition receiveFIN (s : Stream) : Stream :=
  if closed s then s else signalLocked (s <| remoteWriteClosed := true |>).

Definition receiveReset (s : Stream) (e : err) : Stream :=
  if closed s then s
  else signalLocked (s <| closed := true |> <| err_ := Some (default (Sent ErrClosedPipe) e) |>).

(** [CloseWrite]: true when the stream is to be scheduled. *)
Definition CloseWrite (s : Stream) : Stream * bool :=
  if localWriteClosed s || closed s then (s, false)
  else
    let '(s, needsSchedule) :=
      enqueueLocked (s <| localWriteClosed := true |>) (mkFrame FrameFIN (id s) []) in
    (signalLocked s, needsSchedule).

Definition CloseRead (s : Stream) : Stream :=
  signalLocked (s <| remoteWriteClosed := true |> <| inbound := [] |>).

Inductive closeResult :=
  | CloseNothing
  | CloseRemove         (* removeStream *)
  | CloseReset.         (* removeStream, then RESET "stream closed" *)

Definition Close (s : Stream) : Stream * closeResult :=
  let graceful := localWriteClosed s && remoteWriteClosed s in
  if closed s then (s, CloseNothing)
  else
    let drained := bool_decide (outbound s = []) in
    let s := signalLocked (s <| closed := true |> <| closeAfterDrain := graceful |>) in
    (s, if graceful then (if drained then CloseRemove else CloseNothing) else CloseReset).

(** [Reset]: true when the stream is to be removed and RESET sent. *)
Definition Reset (s : Stream) (e : err) : Stream * bool :=
  if closed s then (s, false)
  else (signalLocked (s <| closed := true |> <| err_ := e |> <| outbound := [] |>
                        <| scheduled := false |>), true).

(** ** The writer's side *)

Inductive outboundNext := ORequeue | ORemove | ODone.

Definition nextOutbound (s : Stream) : Stream * option (Frame * outboundNext) :=
  match outbound s with
  | [] => (s <| scheduled := false |>, None)
  | frame :: rest =>
      let s := s <| outbound := rest |> in
      let requeue := 0 <? zlen rest in
      let s := if requeue then s else s <| scheduled := false |> in
      (s, Some (frame, if requeue then ORequeue
                       else if closeAfterDrain s then ORemove else ODone))
  end.

(** ** Deadlines and waiting *)

Definition SetReadDeadline (s : Stream) (d : Z) : Stream := signalLocked (s <| readDeadline := d |>).
Definition SetWriteDeadline (s : Stream) (d : Z) : Stream := signalLocked (s <| writeDeadline := d |>).
Definition SetDeadline (s : Stream) (d : Z) : Stream :=
  signalLocked (s <| readDeadline := d |> <| writeDeadline := d |>).

(** What happened first in [waitStream]'s select. *)
Inductive waitEvent := Notified | SessionDone | TimerFired.

Definition waitStream (deadline now : Z) (ev : waitEvent) : err :=
  if deadline =? 0 then
    match ev with SessionDone => Some (Sent ErrSessionClosed) | _ => None end
  else if deadline - now <=? 0 then Some TimeoutError
  else match ev with
       | Notified => None
       | SessionDone => Some (Sent ErrSessionClosed)
       | TimerFired => Some TimeoutError
       end.
