(* ===== verification/MuxFlow.v ===== *)
(** * Flow control of one stream direction (internal/mux/stream.go)

    A [flow] is the writing end and the reading end of one open stream, the
    stream's frames on their way in each direction, in order, and what was
    written and read.  The steps are the critical sections of [Write],
    [CloseWrite], [nextOutbound], [receiveData], [receiveFIN], [Read] and
    [updateSendWindow] in any interleaving.  Invariant: the bytes in flight,
    the unread bytes, the withheld and travelling window updates and the send
    window always add up to the initial window. *)

From S2P Require Export MuxStream.

Section Flow.
Context `{Flate} (compression : bool).

Record flow := mkFlow {
  writer : Stream;
  reader : Stream;
  forward : list Frame;       (* taken from outbound, not yet received *)
  updates : list Z;           (* WINDOW_UPDATE amounts on their way back *)
  written : bytes;
  received : bytes;           (* what Read returned *)
  failed : err                (* the error that would reset the stream *)
}.

Inductive flowOp :=
  | FWrite (p : bytes)
  | FCloseWrite
  | FSend
  | FDeliver
  | FRead (n : Z)
  | FUpdate.

Definition flowRun (f : flow) (o : flowOp) : flow :=
  match o with
  | FWrite p =>
      if zlen p =? 0 then f else
      match Write compression (writer f) p with
      | (s, WriteQueued n _ _) =>
          mkFlow s (reader f) (forward f) (updates f) (written f ++ slice_to p n) (received f) (failed f)
      | (s, _) => mkFlow s (reader f) (forward f) (updates f) (written f) (received f) (failed f)
      end
  | FCloseWrite =>
      mkFlow (CloseWrite (writer f)).1 (reader f) (forward f) (updates f) (written f) (received f) (failed f)
  | FSend =>
      match nextOutbound (writer f) with
      | (s, Some (frame, _)) =>
          mkFlow s (reader f) (forward f ++ [frame]) (updates f) (written f) (received f) (failed f)
      | (s, None) => mkFlow s (reader f) (forward f) (updates f) (written f) (received f) (failed f)
      end
  | FDeliver =>
      match forward f with
      | [] => f
      | frame :: rest =>
          if bool_decide (Type_ frame = FrameFIN)
          then mkFlow (writer f) (receiveFIN (reader f)) rest (updates f) (written f) (received f) (failed f)
          else
            match receiveData compression (reader f) (Payload frame) with
            | (s, inr _) => mkFlow (writer f) s rest (updates f) (written f) (received f) (failed f)
            | (s, inl e) => mkFlow (writer f) s rest (updates f) (written f) (received f) (Some e)
            end
      end
  | FRead n =>
      match Read (reader f) n with
      | (s, ReadData p w) =>
          mkFlow (writer f) s (forward f) (if 0 <? w then updates f ++ [w] else updates f)
            (written f) (received f ++ p) (failed f)
      | (s, _) => mkFlow (writer f) s (forward f) (updates f) (written f) (received f) (failed f)
      end
  | FUpdate =>
      match updates f with
      | [] => f
      | w :: rest =>
          let '(s, e) := updateSendWindow (writer f) w in
          mkFlow s (reader f) (forward f) rest (written f) (received f)
            (match e with Some e => Some e | None => failed f end)
      end
  end.

(** Both ends of stream [n] after OPEN and OPEN_OK. *)
Definition newFlow (n : Z) : flow :=
  mkFlow (markOpened (newStream n) None) (Approve (newStream n)).1 [] [] [] [] None.

Inductive flow_reachable (n : Z) : flow -> Prop :=
  | FlInit : flow_reachable n (newFlow n)
  | FlStep f o : flow_reachable n f -> (forall k, o = FRead k -> 0 <= k) ->
      flow_reachable n (flowRun f o).

(** ** Invariant *)

(** The bytes a DATA frame carries. *)
Definition frameBytes (f : Frame) : bytes :=
  match (if compression then decodeCompressedPayload (Payload f) else inr (Payload f)) with
  | inr d => d
  | inl _ => []
  end.

Definition data_frame (f : Frame) : Prop :=
  Type_ f = FrameData /\ 0 < zlen (frameBytes f) /\
  (if compression then decodeCompressedPayload (Payload f) else inr (Payload f)) = inr (frameBytes f).

Definition framesBytes (l : list Frame) : bytes := concat (frameBytes <$> l).

Fixpoint zsum (l : list Z) : Z := match l with [] => 0 | x :: l => x + zsum l end.

Record flow_inv (f : flow) : Prop := {
  fi_open : opened (writer f) = true /\ opened (reader f) = true /\
            closed (writer f) = false /\ closed (reader f) = false;
  fi_failed : failed f = None;
  (* what is on its way: DATA frames, then the FIN if the writer sent one *)
  fi_frames : exists ds n, forward f ++ outbound (writer f) =
      ds ++ (if localWriteClosed (writer f) && negb (remoteWriteClosed (reader f))
             then [mkFrame FrameFIN n []] else []) /\
      Forall data_frame ds /\ (remoteWriteClosed (reader f) = true -> ds = []) /\
      written f = received f ++ inbound (reader f) ++ framesBytes ds /\
      sendWindow (writer f) + zlen (framesBytes ds) + zlen (inbound (reader f))
        + pendingWindowUpdate (reader f) + zsum (updates f) = InitialStreamWindow;
  fi_fin : remoteWriteClosed (reader f) = true -> localWriteClosed (writer f) = true;
  fi_receive : receiveWindow (reader f) = InitialStreamWindow - zlen (inbound (reader f));
  fi_send : 0 <= sendWindow (writer f);
  fi_pending : 0 <= pendingWindowUpdate (reader f) < windowUpdateThreshold;
  fi_updates : Forall (fun w => 0 < w) (updates f)
}.

Lemma framesBytes_app l k : framesBytes (l ++ k) = framesBytes l ++ framesBytes k.
Proof. unfold framesBytes. by rewrite fmap_app, concat_app. Qed.

Lemma zsum_app l k : zsum (l ++ k) = zsum l + zsum k.
Proof. induction l as [|x l IH]; cbn; [done|]. rewrite IH. lia. Qed.

Lemma zsum_nonneg l : Forall (fun w => 0 < w) l -> 0 <= zsum l.
Proof. induction 1; cbn; lia. Qed.

Lemma newFlow_inv n : flow_inv (newFlow n).
Proof.
  split; cbn; try done.
  exists [], 0. by split_and!.
Qed.

(** A DATA frame as [Write] builds it. *)
Lemma write_frame s p payload :
  0 < zlen p <= (if compression then MaxDataPayload - 1 else MaxDataPayload) ->
  (if compression then encodeCompressedPayload p else inr p) = inr payload ->
  data_frame (mkFrame FrameData s payload) /\ frameBytes (mkFrame FrameData s payload) = p /\
  1 <= zlen payload <= MaxDataPayload.
Proof.
  intros Hp Hc. unfold data_frame, frameBytes. cbn [Payload Type_]. destruct compression.
  - apply encodeCompressedPayload_spec in Hc as (H1 & H2 & ->). split_and!; done || lia.
  - injection Hc as ->. split_and!; done || lia.
Qed.

Lemma flow_inv_write f p : flow_inv f -> flow_inv (flowRun f (FWrite p)).
Proof.
  intros Hi. pose proof Hi as [(O1 & O2 & C1 & C2) Hf (ds & n & Hfr & Hds & Hrc & Hw & Hsum) Hfin Hrw Hsw Hpu Hup].
  cbn [flowRun]. destruct (Z.eqb_spec (zlen p) 0) as [|Hp]; [done|]. pose proof (zlen_nonneg p).
  unfold Write. rewrite O1, C1. cbn [negb orb].
  destruct (localWriteClosed (writer f)) eqn:El; [by destruct f|].
  destruct (Z.ltb_spec 0 (sendWindow (writer f))) as [Hs|Hs]; [|by destruct f].
  set (maxp := if compression then MaxDataPayload - 1 else MaxDataPayload).
  set (k := Z.min (Z.min (zlen p) maxp) (sendWindow (writer f))).
  assert (0 < maxp <= MaxDataPayload) as Hm by (unfold maxp, MaxDataPayload; destruct compression; lia).
  assert (zlen (slice_to p k) = k) as Hk by (apply zlen_slice_to; lia).
  destruct (if compression then _ else inr (slice_to p k)) as [e|payload] eqn:Ep.
  { by destruct f. }
  apply (write_frame (id (writer f))) in Ep as (Hd & Hb & _); [|fold maxp; lia].
  pose proof (zsum_nonneg _ Hup). pose proof (zlen_nonneg (framesBytes ds)).
  pose proof (zlen_nonneg (inbound (reader f))).
  assert (0 <= sendWindow (writer f) <= InitialStreamWindow) by lia. unfold InitialStreamWindow in *.
  assert (remoteWriteClosed (reader f) = false) as Hrcf.
  { destruct (remoteWriteClosed (reader f)); [|done]. by specialize (Hfin eq_refl). }
  unfold enqueueLocked. cbn [scheduled outbound upd].
  assert (forall s', outbound s' = outbound (writer f) ++ [mkFrame FrameData (id (writer f)) payload] ->
    opened s' = true -> closed s' = false -> localWriteClosed s' = false ->
    sendWindow s' = sendWindow (writer f) - k ->
    flow_inv (mkFlow s' (reader f) (forward f) (updates f) (written f ++ slice_to p k) (received f) (failed f)))
    as Hgoal.
  { intros s' Ho Hop Hcl Hlw Hsw'. split; cbn; try done; [|congruence|lia].
    exists (ds ++ [mkFrame FrameData (id (writer f)) payload]), n.
    rewrite Hlw. cbn [andb] in *. rewrite app_nil_r in Hfr.
    split_and!.
    - rewrite Ho, app_assoc, Hfr. by rewrite app_nil_r.
    - apply Forall_app. by split; [|constructor].
    - rewrite Hrcf. done.
    - rewrite framesBytes_app, Hw. unfold framesBytes at 3. cbn. rewrite Hb, app_nil_r.
      by rewrite <- !app_assoc.
    - rewrite framesBytes_app, zlen_app. unfold framesBytes at 2. cbn. rewrite Hb, app_nil_r, Hk.
      unfold InitialStreamWindow. lia. }
  destruct (scheduled (writer f)); apply Hgoal; cbn; try done; rewrite u32_id; lia.
Qed.

Lemma flow_inv_close_write f : flow_inv f -> flow_inv (flowRun f FCloseWrite).
Proof.
  intros Hi. pose proof Hi as [(O1 & O2 & C1 & C2) Hf (ds & n & Hfr & Hds & Hrc & Hw & Hsum) Hfin Hrw Hsw Hpu Hup].
  cbn [flowRun]. unfold CloseWrite. rewrite C1, orb_false_r.
  destruct (localWriteClosed (writer f)) eqn:El; [by destruct f|].
  assert (remoteWriteClosed (reader f) = false) as Hrcf.
  { destruct (remoteWriteClosed (reader f)); [|done]. by specialize (Hfin eq_refl). }
  cbn [andb] in Hfr. rewrite app_nil_r in Hfr. unfold enqueueLocked.
  destruct (scheduled _); split; cbn; rewrite ?Hrcf; try done;
    exists ds, (id (writer f)); (split_and!; [|done..]); cbn; by rewrite <- Hfr, app_assoc.
Qed.

Lemma flow_inv_send f : flow_inv f -> flow_inv (flowRun f FSend).
Proof.
  intros Hi. pose proof Hi as [(O1 & O2 & C1 & C2) Hf (ds & n & Hfr & Hds & Hrc & Hw & Hsum) Hfin Hrw Hsw Hpu Hup].
  cbn [flowRun]. unfold nextOutbound. destruct (outbound (writer f)) as [|x rest] eqn:Eo.
  - split; cbn; try done. exists ds, n. rewrite Eo. by split_and!.
  - destruct (0 <? zlen rest); split; cbn; try done; exists ds, n;
      (split_and!; [|done..]); by rewrite <- app_assoc.
Qed.

Lemma receiveData_ok s f :
  data_frame f -> opened s = true -> closed s = false -> remoteWriteClosed s = false ->
  zlen (frameBytes f) <= receiveWindow s <= InitialStreamWindow ->
  receiveData compression s (Payload f) =
    (signalLocked (s <| receiveWindow := receiveWindow s - zlen (frameBytes f) |>
                     <| inbound := inbound s ++ frameBytes f |>),
     inr (zlen (frameBytes f), zlen (Payload f))).
Proof.
  intros (_ & Hp & Hd) Ho Hc Hr Hw. unfold InitialStreamWindow in *.
  unfold receiveData. rewrite Hd, Hc, Hr, Ho. cbn [orb negb].
  rewrite u32_id by lia. rewrite (proj2 (Z.ltb_ge _ _)) by lia. by rewrite u32_id by lia.
Qed.

Lemma flow_inv_deliver f : flow_inv f -> flow_inv (flowRun f FDeliver).
Proof.
  intros Hi. pose proof Hi as [(O1 & O2 & C1 & C2) Hf (ds & n & Hfr & Hds & Hrc & Hw & Hsum) Hfin Hrw Hsw Hpu Hup].
  cbn [flowRun]. destruct (forward f) as [|x rest] eqn:Ef; [done|].
  pose proof (zsum_nonneg _ Hup). cbn [app] in Hfr. destruct ds as [|d ds].
  - (* the FIN *)
    destruct (localWriteClosed (writer f)) eqn:El, (remoteWriteClosed (reader f)) eqn:Er;
      try done. cbn in Hfr. injection Hfr as -> Hrest. apply app_nil in Hrest as [-> Ho].
    rewrite bool_decide_eq_true_2 by done. unfold receiveFIN. rewrite C2.
    split; cbn; try done. exists [], n. rewrite El, Ho. cbn. by split_and!.
  - cbn [app] in Hfr. injection Hfr as -> Hfr. apply Forall_cons in Hds as [Hd Hds].
    assert (remoteWriteClosed (reader f) = false) as Hrcf.
    { destruct (remoteWriteClosed (reader f)); [|done]. by specialize (Hrc eq_refl). }
    assert (Type_ d <> FrameFIN) as Ht by (destruct Hd as (-> & _); done).
    rewrite bool_decide_eq_false_2 by done.
    assert (framesBytes (d :: ds) = frameBytes d ++ framesBytes ds) as Hfb by done.
    rewrite Hfb, zlen_app in Hsum. pose proof (zlen_nonneg (framesBytes ds)).
    pose proof (zlen_nonneg (inbound (reader f))).
    rewrite receiveData_ok; try done; [|unfold InitialStreamWindow in *; lia].
    split; cbn; try done.
    + exists ds, n. rewrite Hrcf in *. split_and!; try done.
      * rewrite Hw, Hfb. by rewrite <- !app_assoc.
      * rewrite zlen_app. lia.
    + rewrite zlen_app. lia.
Qed.

Lemma flow_inv_read f k : 0 <= k -> flow_inv f -> flow_inv (flowRun f (FRead k)).
Proof.
  intros Hk Hi. pose proof Hi as [(O1 & O2 & C1 & C2) Hf (ds & n & Hfr & Hds & Hrc & Hw & Hsum) Hfin Hrw Hsw Hpu Hup].
  cbn [flowRun]. unfold Read. destruct (Z.eqb_spec k 0).
  { split; cbn; try done. exists ds, n. rewrite app_nil_r. by split_and!. }
  destruct (Z.ltb_spec 0 (zlen (inbound (reader f)))) as [Hpos|].
  2:{ rewrite C2. destruct (remoteWriteClosed (reader f)); by destruct f. }
  pose proof (zsum_nonneg _ Hup). pose proof (zlen_nonneg (framesBytes ds)).
  set (m := Z.min k (zlen (inbound (reader f)))).
  assert (zlen (slice_to (inbound (reader f)) m) = m) as Hm1 by (apply zlen_slice_to; lia).
  assert (zlen (slice_from (inbound (reader f)) m) = zlen (inbound (reader f)) - m) as Hm2
    by (apply zlen_slice_from; lia).
  unfold windowUpdateThreshold, InitialStreamWindow in *.
  change (Z.quot (64 * 1024) 8) with 8192 in *.
  cbn [pendingWindowUpdate upd]. rewrite !u32_id by lia.
  assert (written f = (received f ++ slice_to (inbound (reader f)) m)
    ++ slice_from (inbound (reader f)) m ++ framesBytes ds) as Hw'.
  { rewrite Hw, <- app_assoc. f_equal. by rewrite app_assoc, slice_to_from. }
  destruct (Z.leb_spec 8192 (pendingWindowUpdate (reader f) + m)) as [Hge|Hlt]; cbn.
  - rewrite (proj2 (Z.ltb_lt _ _)) by lia. split; cbn; rewrite ?Hm2; try done; try lia.
    + exists ds, n. rewrite zsum_app. cbn. unfold InitialStreamWindow. split_and!; try done. lia.
    + unfold InitialStreamWindow. lia.
    + apply Forall_app. split; [done|]. constructor; [lia|done].
  - split; cbn; rewrite ?Hm2; try done; try lia.
    + exists ds, n. unfold InitialStreamWindow. split_and!; try done. lia.
    + unfold InitialStreamWindow. lia.
    + unfold windowUpdateThreshold, InitialStreamWindow. change (Z.quot (64 * 1024) 8) with 8192. lia.
Qed.

Lemma flow_inv_update f : flow_inv f -> flow_inv (flowRun f FUpdate).
Proof.
  intros Hi. pose proof Hi as [(O1 & O2 & C1 & C2) Hf (ds & n & Hfr & Hds & Hrc & Hw & Hsum) Hfin Hrw Hsw Hpu Hup].
  cbn [flowRun]. destruct (updates f) as [|w rest] eqn:Eu; [done|].
  apply Forall_cons in Hup as [Hw0 Hup]. cbn [zsum] in Hsum. pose proof (zsum_nonneg _ Hup).
  pose proof (zlen_nonneg (framesBytes ds)). pose proof (zlen_nonneg (inbound (reader f))).
  unfold updateSendWindow, InitialStreamWindow in *. rewrite u32_id by lia.
  rewrite (proj2 (Z.eqb_neq _ _)), (proj2 (Z.ltb_ge _ _)) by lia. cbn [orb].
  rewrite u32_id by lia. split; cbn; try done; [|lia].
  exists ds, n. split_and!; try done. unfold InitialStreamWindow. lia.
Qed.

Lemma flow_inv_run f o : (forall k, o = FRead k -> 0 <= k) -> flow_inv f -> flow_inv (flowRun f o).
Proof.
  intros Hk HI. destruct o as [p| | | |k|].
  - by apply flow_inv_write.
  - by apply flow_inv_close_write.
  - by apply flow_inv_send.
  - by apply flow_inv_deliver.
  - apply flow_inv_read; [by apply Hk|done].
  - by apply flow_inv_update.
Qed.

Lemma flow_reachable_inv n f : flow_reachable n f -> flow_inv f.
Proof. induction 1; [apply newFlow_inv|by apply flow_inv_run]. Qed.

(** ** Draining

    Runs of one step that empty one queue and keep what the earlier runs
    established. *)

Definition passive (o : flowOp) : Prop :=
  match o with FSend | FDeliver | FUpdate => True | FRead n => 0 <= n | _ => False end.

Lemma flow_inv_step f o : passive o -> flow_inv f -> flow_inv (flowRun f o).
Proof. intros Ho. apply flow_inv_run. by intros k ->. Qed.

Lemma drain o (m : flow -> nat) (Q : flow -> Prop) f :
  passive o -> (forall f, m (flowRun f o) = pred (m f)) ->
  (forall f, flow_inv f -> Q f -> Q (flowRun f o)) -> flow_inv f -> Q f ->
  let f' := foldl flowRun f (replicate (m f) o) in flow_inv f' /\ Q f' /\ m f' = 0%nat.
Proof.
  intros Ho Hm HQ. remember (m f) as k eqn:Ek. revert f Ek.
  induction k as [|k IH]; intros f Ek Hi Hq; cbn; [done|].
  apply IH; [rewrite Hm; lia|by apply flow_inv_step|by apply HQ].
Qed.

Lemma send_queue f : length (outbound (writer (flowRun f FSend))) = pred (length (outbound (writer f))).
Proof.
  cbn [flowRun]. unfold nextOutbound. destruct (outbound (writer f)) as [|x r] eqn:E; cbn.
  - by rewrite E.
  - by destruct (0 <? zlen r).
Qed.

Lemma deliver_queue f : length (forward (flowRun f FDeliver)) = pred (length (forward f)).
Proof.
  cbn [flowRun]. destruct (forward f) as [|x r] eqn:E; [by rewrite E|].
  case_bool_decide; [done|]. by destruct (receiveData _ _ _) as [? [|]].
Qed.

Lemma update_queue f : length (updates (flowRun f FUpdate)) = pred (length (updates f)).
Proof.
  cbn [flowRun]. destruct (updates f) as [|x r] eqn:E; [by rewrite E|].
  by destruct (updateSendWindow _ _).
Qed.

Lemma passive_written f o : passive o -> written (flowRun f o) = written f.
Proof.
  destruct o; cbn [passive flowRun]; intros; try done.
  - by destruct (nextOutbound _) as [? [[? ?]|]].
  - destruct (forward f); [done|]. case_bool_decide; [done|]. by destruct (receiveData _ _ _) as [? [|]].
  - by destruct (Read _ _) as [? [| |]].
  - destruct (updates f); [done|]. by destruct (updateSendWindow _ _).
Qed.

Lemma deliver_writer f : writer (flowRun f FDeliver) = writer f.
Proof.
  cbn [flowRun]. destruct (forward f); [done|].
  case_bool_decide; [done|]. by destruct (receiveData _ _ _) as [? [|]].
Qed.

Lemma read_all f :
  flow_inv f ->
  let f' := flowRun f (FRead (zlen (inbound (reader f)))) in
  inbound (reader f') = [] /\ writer f' = writer f /\ forward f' = forward f.
Proof.
  intros Hi. cbn [flowRun]. unfold Read.
  destruct (Z.eqb_spec (zlen (inbound (reader f))) 0) as [H0|H0].
  { by apply zlen_zero_nil in H0. }
  pose proof (zlen_nonneg (inbound (reader f))).
  rewrite (proj2 (Z.ltb_lt 0 _)) by lia. rewrite Z.min_id.
  assert (slice_from (inbound (reader f)) (zlen (inbound (reader f))) = []) as E.
  { apply zlen_zero_nil. rewrite zlen_slice_from; lia. }
  cbv zeta. destruct (windowUpdateThreshold <=? _); cbn; rewrite ?E; by split_and!.
Qed.

Lemma update_ends f :
  reader (flowRun f FUpdate) = reader f /\ forward (flowRun f FUpdate) = forward f /\
  outbound (writer (flowRun f FUpdate)) = outbound (writer f).
Proof.
  cbn [flowRun]. destruct (updates f) as [|w r]; [done|]. unfold updateSendWindow.
  destruct ((w =? 0) || _); by split_and!.
Qed.

(** Nothing on its way and nothing unread: everything written was read, and
    only the withheld updates are missing from the window. *)
Lemma flow_quiet f :
  flow_inv f -> outbound (writer f) = [] -> forward f = [] -> inbound (reader f) = [] ->
  updates f = [] ->
  received f = written f /\ InitialStreamWindow - windowUpdateThreshold < sendWindow (writer f).
Proof.
  intros [_ _ (ds & n & Hfr & _ & _ & Hw & Hsum) _ _ _ Hp _] Ho Hf Hi Hu.
  rewrite Ho, Hf in Hfr. symmetry in Hfr. apply app_nil in Hfr as [-> _].
  rewrite Hi, Hu in *. cbn [app framesBytes fmap list_fmap concat] in *.
  rewrite app_nil_r in Hw. rewrite !zlen_nil in Hsum. cbn in Hsum. split; [done|lia].
Qed.

Definition drainSchedule (f : flow) : list flowOp :=
  let s1 := replicate (length (outbound (writer f))) FSend in
  let f1 := foldl flowRun f s1 in
  let s2 := replicate (length (forward f1)) FDeliver in
  let f2 := foldl flowRun f1 s2 in
  let s3 := [FRead (zlen (inbound (reader f2)))] in
  let f3 := foldl flowRun f2 s3 in
  s1 ++ s2 ++ s3 ++ replicate (length (updates f3)) FUpdate.

Lemma drainSchedule_passive f : Forall passive (drainSchedule f).
Proof.
  unfold drainSchedule. rewrite !Forall_app.
  split_and!; try (by apply Forall_replicate).
  constructor; [apply zlen_nonneg|done].
Qed.

Lemma drainSchedule_quiet f :
  flow_inv f -> let f' := foldl flowRun f (drainSchedule f) in
  flow_inv f' /\ outbound (writer f') = [] /\ forward f' = [] /\ inbound (reader f') = [] /\ updates f' = [].
Proof.
  intros Hi. unfold drainSchedule. cbv zeta. rewrite !foldl_app.
  destruct (drain FSend (fun f => length (outbound (writer f))) (fun _ => True) f)
    as (I1 & _ & Q1%length_zero_iff_nil); try done; [apply send_queue|].
  set (f1 := foldl flowRun f _) in *.
  destruct (drain FDeliver (fun f => length (forward f)) (fun f => outbound (writer f) = []) f1)
    as (I2 & O2 & Q2%length_zero_iff_nil); try done;
    [apply deliver_queue|intros g _ Hg; by rewrite deliver_writer|].
  set (f2 := foldl flowRun f1 _) in *.
  pose proof (read_all f2 I2) as (R3 & W3 & F3).
  cbn [foldl]. set (f3 := flowRun f2 _) in *.
  assert (flow_inv f3) as I3 by (apply flow_inv_step; [apply zlen_nonneg|done]).
  destruct (drain FUpdate (fun f => length (updates f))
    (fun f => outbound (writer f) = [] /\ forward f = [] /\ inbound (reader f) = []) f3)
    as (I4 & (O4 & F4 & B4) & Q4%length_zero_iff_nil); try done.
  - apply update_queue.
  - intros g _ (G1 & G2 & G3). destruct (update_ends g) as (-> & -> & ->). done.
  - rewrite W3, F3. done.
Qed.

Lemma passive_run_written f l : Forall passive l -> written (foldl flowRun f l) = written f.
Proof.
  intros Hl. revert f. induction Hl as [|o l Ho _ IH]; intros f; cbn; [done|].
  rewrite IH. by apply passive_written.
Qed.

(** ** Properties *)

(** C7. A stream under any interleaving of [Write], [CloseWrite] and [Read] with
    the sending and the delivery of its frames and window updates (neither end
    calls [CloseRead], [Close] or [Reset]): no frame of the peer resets it
    (neither side exceeds the window the other granted), what the reader got is
    a prefix of what the writer wrote, the send window stays within the initial
    64 KiB, the receive window and the unread bytes add up to exactly 64 KiB,
    and when [Read] reports EOF everything written has been read.  [CloseRead]
    is where this ends: after it the next DATA frame is refused, as a protocol
    error that resets the stream. *)
Theorem flow_integrity n f :
  flow_reachable n f ->
  failed f = None /\
  received f `prefix_of` written f /\
  0 <= sendWindow (writer f) <= InitialStreamWindow /\
  0 <= receiveWindow (reader f) <= InitialStreamWindow /\
  receiveWindow (reader f) + zlen (inbound (reader f)) = InitialStreamWindow /\
  (forall k s, Read (reader f) k = (s, ReadError (Some (Sent EOF))) -> received f = written f) /\
  (forall frame, data_frame frame ->
    receiveData compression (CloseRead (reader f)) (Payload frame) = (CloseRead (reader f), inl (Sent ErrProtocol))).
Proof.
  intros Hr. destruct (flow_reachable_inv _ _ Hr)
    as [(O1 & O2 & C1 & C2) Hf (ds & m & Hfr & Hds & Hrc & Hw & Hsum) Hfin Hrw Hsw Hpu Hup].
  pose proof (zsum_nonneg _ Hup). pose proof (zlen_nonneg (framesBytes ds)).
  pose proof (zlen_nonneg (inbound (reader f))).
  split_and!; try done; try lia.
  - rewrite Hw. by eexists.
  - intros k s. unfold Read. destruct (k =? 0); [done|].
    destruct (Z.ltb_spec 0 (zlen (inbound (reader f)))); [destruct (_ <=? _); done|].
    rewrite C2. destruct (remoteWriteClosed (reader f)); [|done]. intros _.
    rewrite Hw, Hrc by done. replace (inbound (reader f)) with (@nil Byte.byte).
    + by rewrite app_nil_r.
    + symmetry. apply zlen_zero_nil. lia.
  - intros frame (_ & _ & Hd). unfold receiveData. rewrite Hd.
    change (remoteWriteClosed (CloseRead (reader f))) with true. by rewrite orb_true_r.
Qed.

(** C10. Flow control never deadlocks: from every reachable state, with nothing
    more written, sending, delivering, reading and updating the window leads
    to a state where the reader has everything that was written and the writer
    may send again, with at least seven eighths of the window open (the rest
    can be withheld below the update threshold). *)
Theorem flow_progress n f :
  flow_reachable n f ->
  exists l, Forall passive l /\
    let f' := foldl flowRun f l in
    written f' = written f /\ received f' = written f /\ failed f' = None /\
    InitialStreamWindow - windowUpdateThreshold < sendWindow (writer f').
Proof.
  intros Hi%flow_reachable_inv. exists (drainSchedule f).
  pose proof (drainSchedule_passive f) as Hp. split; [done|].
  destruct (drainSchedule_quiet f Hi) as (I & O & F & B & U). cbv zeta in *.
  pose proof (passive_run_written f _ Hp) as Hw.
  destruct (flow_quiet _ I O F B U) as [Hrw Hs].
  split_and!; [done|congruence|apply fi_failed, I|done].
Qed.
End Flow.

(** ** A concrete run *)

Definition demoOps : list flowOp :=
  [FWrite (replicate 9000 Byte.x61); FWrite (replicate 100 Byte.x62); FSend; FDeliver; FRead 9000;
   FCloseWrite; FUpdate; FSend].

Definition demoFlow : flow := foldl (flowRun (H := rawFlate) true) (newFlow 1) demoOps.

Lemma demoFlow_reachable : flow_reachable (H := rawFlate) true 1 demoFlow.
Proof.
  unfold demoFlow, demoOps. cbn [foldl].
  repeat (apply FlStep; [|by intros ? [= <-] || done]). apply FlInit.
Defined.

Lemma flow_integrity_witness : flow_reachable (H := rawFlate) true 1 demoFlow /\ failed demoFlow = None.
Proof.
  split; [exact demoFlow_reachable|]. exact (proj1 (flow_integrity true 1 demoFlow demoFlow_reachable)).
Defined.

Lemma flow_progress_witness :
  flow_reachable (H := rawFlate) true 1 demoFlow /\
  exists l, received (foldl (flowRun (H := rawFlate) true) demoFlow l) = written demoFlow.
Proof.
  split; [exact demoFlow_reachable|].
  destruct (flow_progress true 1 demoFlow demoFlow_reachable) as (l & _ & _ & Hr & _). by exists l.
Defined.
