(* ===== verification/MuxPipe.v ===== *)
(** * A stream direction is a bounded pipe

    The specification a stream promises its users: a FIFO of at most 64 KiB with
    an end of file ([pipe]).  The flow of MuxFlow — windows, frames, compression,
    window updates on their way back — refines it: what the callers of [Write],
    [CloseWrite] and [Read] observe in any run is a run of the pipe, and the
    frames and window updates in between are invisible. *)

From S2P Require Export MuxFlow.

(** ** The specification *)

Record pipe := mkPipe { p_data : bytes; p_eof : bool }.

(** What the callers see. *)
Inductive observation :=
  | OWrote (p : bytes)
  | OWriteBlocked
  | OWriteRefused            (* closed for writing *)
  | OEncodeFailed (e : error)  (* the compressor failed; nothing was written *)
  | OClosedWrite
  | ORead (p : bytes)
  | OReadBlocked
  | OReadEOF
  | OReadFailed (e : err)
  | OSilent.

Inductive pipe_step : pipe -> observation -> pipe -> Prop :=
  | PpWrote d p : p <> [] -> zlen (d ++ p) <= InitialStreamWindow -> pipe_step (mkPipe d false) (OWrote p) (mkPipe (d ++ p) false)
  | PpBlocked d : pipe_step (mkPipe d false) OWriteBlocked (mkPipe d false)
  | PpRefused d : pipe_step (mkPipe d true) OWriteRefused (mkPipe d true)
  | PpEncode d e : pipe_step (mkPipe d false) (OEncodeFailed e) (mkPipe d false)
  | PpClose d e : pipe_step (mkPipe d e) OClosedWrite (mkPipe d true)
  | PpRead d p e : pipe_step (mkPipe (p ++ d) e) (ORead p) (mkPipe d e)
  | PpReadBlocked d e : pipe_step (mkPipe d e) OReadBlocked (mkPipe d e)
  | PpEOF : pipe_step (mkPipe [] true) OReadEOF (mkPipe [] true)
  | PpSilent P : pipe_step P OSilent P.

(** The pipe never fails a read: [OReadFailed] has no step. *)
Inductive pipe_run : pipe -> list observation -> pipe -> Prop :=
  | PpDone P : pipe_run P [] P
  | PpMore P o P' os P'' : pipe_step P o P' -> pipe_run P' os P'' -> pipe_run P (o :: os) P''.

Section Refinement.
Context `{Flate} (compression : bool).

(** ** What a run of the flow shows *)

Definition observe (f : flow) (o : flowOp) : observation :=
  match o with
  | FWrite p =>
      if zlen p =? 0 then OSilent else
      match (Write compression (writer f) p).2 with
      | WriteQueued n _ _ => OWrote (slice_to p n)
      | WriteError e => if localWriteClosed (writer f) then OWriteRefused else OEncodeFailed e
      | WriteWait _ _ => OWriteBlocked
      end
  | FCloseWrite => OClosedWrite
  | FRead n =>
      match (Read (reader f) n).2 with
      | ReadData p _ => ORead p
      | ReadError (Some (Sent EOF)) => OReadEOF
      | ReadError e => OReadFailed e
      | ReadWait _ _ => OReadBlocked
      end
  | FSend | FDeliver | FUpdate => OSilent
  end.

Fixpoint observations (f : flow) (os : list flowOp) : list observation :=
  match os with
  | [] => []
  | o :: os => observe f o :: observations (flowRun compression f o) os
  end.

(** ** The simulation *)

(** The pipe holds what was written and not yet read. *)
Definition represents (f : flow) (P : pipe) : Prop :=
  written f = received f ++ p_data P /\ p_eof P = localWriteClosed (writer f).

Lemma unread_bound f d :
  flow_inv compression f -> written f = received f ++ d -> zlen d <= InitialStreamWindow.
Proof.
  intros [_ _ (ds & n & Hfr & Hds & Hrc & Hw & Hsum) _ _ Hsw Hpu Hup] Hd.
  rewrite Hw in Hd. apply app_inv_head in Hd as <-. pose proof (zsum_nonneg _ Hup). rewrite zlen_app. lia.
Qed.

Lemma passive_received f o : passive o -> (forall n, o <> FRead n) -> received (flowRun compression f o) = received f.
Proof.
  destruct o; try done; cbn; intros _ Hn; [| |by destruct (Hn n)|].
  - by destruct (nextOutbound (writer f)) as [s [[? ?]|]].
  - destruct (forward f) as [|x r]; [done|]. case_bool_decide; [done|]. by destruct (receiveData _ _ _) as [s [|]].
  - destruct (updates f) as [|w r]; [done|]. by destruct (updateSendWindow (writer f) w) as [s e].
Qed.

Lemma nextOutbound_closed s s' r : nextOutbound s = (s', r) -> localWriteClosed s' = localWriteClosed s.
Proof. unfold nextOutbound. repeat case_match; intros; by simplify_eq. Qed.

Lemma updateSendWindow_closed s w s' e : updateSendWindow s w = (s', e) -> localWriteClosed s' = localWriteClosed s.
Proof. unfold updateSendWindow. repeat case_match; intros; by simplify_eq. Qed.

Lemma stream_Write_closed s p s' t : Write compression s p = (s', t) -> localWriteClosed s' = localWriteClosed s.
Proof. unfold Write, enqueueLocked. cbn zeta. repeat case_match; intros; by simplify_eq. Qed.

Lemma Write_queued s p s' n sz sch :
  0 < zlen p -> Write compression s p = (s', WriteQueued n sz sch) -> 0 < n <= zlen p /\ localWriteClosed s = false.
Proof.
  intros Hp. unfold Write. destruct (negb (opened s)); [done|]. destruct (MuxStream.closed s || localWriteClosed s) eqn:E; [done|].
  apply orb_false_iff in E as [_ E]. destruct (Z.ltb_spec 0 (sendWindow s)); [|done]. cbn zeta.
  case_match; [done|]. destruct (enqueueLocked _ _). intros [= <- <- <- <-]. split; [|done].
  assert (0 < if compression then MaxDataPayload - 1 else MaxDataPayload) by (by destruct compression). lia.
Qed.
Lemma Write_waits s p s' n d : Write compression s p = (s', WriteWait n d) -> localWriteClosed s = false.
Proof.
  unfold Write. destruct (negb (opened s)); [done|]. destruct (MuxStream.closed s || localWriteClosed s) eqn:E; [done|].
  by apply orb_false_iff in E as [_ E].
Qed.

Lemma write_sim f p P :
  flow_inv compression f -> represents f P ->
  exists P', pipe_step P (observe f (FWrite p)) P' /\ represents (flowRun compression f (FWrite p)) P'.
Proof.
  intros HI [Hw He]. pose proof (flow_inv_write compression f p HI) as HI'. destruct P as [d eof]. cbn in Hw, He. subst eof.
  unfold observe. cbn [flowRun] in *. destruct (Z.eqb_spec (zlen p) 0) as [|Hp]; [exists (mkPipe d (localWriteClosed (writer f))); by split; [constructor|]|].
  pose proof (zlen_nonneg p). destruct (Write compression (writer f) p) as [s t] eqn:Ew. pose proof (stream_Write_closed _ _ _ _ Ew) as Hc.
  cbn [snd]. destruct t as [n sz sch|e|n dl].
  - assert (0 < zlen p) as Hp0 by lia. destruct (Write_queued _ _ _ _ _ _ Hp0 Ew) as [Hn Hopen]. rewrite Hopen in *.
    exists (mkPipe (d ++ slice_to p n) false). split; [|split; cbn; [by rewrite Hw, app_assoc|done]].
    assert (zlen (slice_to p n) = n) as Hl by (apply zlen_slice_to; lia). constructor.
    + intros Hnil. rewrite Hnil in Hl. change (zlen []) with 0 in Hl. lia.
    + eapply (unread_bound _ _ HI'). cbn. by rewrite Hw, app_assoc.
  - exists (mkPipe d (localWriteClosed (writer f))). split; [destruct (localWriteClosed (writer f)); constructor|].
    by split.
  - rewrite (Write_waits _ _ _ _ _ Ew) in *. exists (mkPipe d false). split; [constructor|by split].
Qed.

Lemma read_sim f k P :
  0 <= k -> flow_inv compression f -> represents f P ->
  exists P', pipe_step P (observe f (FRead k)) P' /\ represents (flowRun compression f (FRead k)) P'.
Proof.
  intros Hk HI [Hw He]. destruct HI as [(O1 & O2 & C1 & C2) Hf (ds & n & Hfr & Hds & Hrc & Hwr & Hsum) Hfin Hrw Hsw Hpu Hup].
  destruct P as [d eof]. cbn in Hw, He. subst eof. rewrite Hw in Hwr. apply app_inv_head in Hwr. subst d.
  unfold observe. cbn [flowRun]. unfold Read.
  destruct (Z.eqb_spec k 0) as [|Hk0].
  { eexists. split; [apply (PpRead _ [])|]. split; cbn; [by rewrite app_nil_r|done]. }
  destruct (Z.ltb_spec 0 (zlen (inbound (reader f)))) as [Hi|Hi].
  - set (j := Z.min k (zlen (inbound (reader f)))).
    assert (slice_to (inbound (reader f)) j ++ slice_from (inbound (reader f)) j = inbound (reader f)) as Hsl by apply slice_to_from.
    rewrite <- Hsl, <- app_assoc in Hw |- *. cbn zeta.
    assert (forall st w, represents (mkFlow (writer f) st (forward f) (if 0 <? w then updates f ++ [w] else updates f)
      (written f) (received f ++ slice_to (inbound (reader f)) j) (failed f))
      (mkPipe (slice_from (inbound (reader f)) j ++ framesBytes compression ds) (localWriteClosed (writer f)))) as Hrep.
    { intros st w. split; cbn; [by rewrite Hw, <- app_assoc|done]. }
    rewrite Hsl. destruct (windowUpdateThreshold <=? _); cbn [snd]; eexists; (split; [apply PpRead|apply Hrep]).
  - destruct (remoteWriteClosed (reader f)) eqn:Er; cbn [snd].
    + assert (inbound (reader f) = []) as Hnil by (apply zlen_zero_nil; pose proof (zlen_nonneg (inbound (reader f))); lia).
      rewrite (Hrc eq_refl), Hnil in *. cbn [app framesBytes fmap list_fmap concat] in *. rewrite (Hfin eq_refl).
      eexists. split; [apply PpEOF|]. split; cbn; [done|symmetry; exact (Hfin eq_refl)].
    + rewrite C2. cbn [snd]. eexists. split; [apply PpReadBlocked|]. by split.
Qed.

Lemma step_sim f o P :
  (forall k, o = FRead k -> 0 <= k) -> flow_inv compression f -> represents f P ->
  exists P', pipe_step P (observe f o) P' /\ represents (flowRun compression f o) P'.
Proof.
  intros Hk HI HR. destruct o as [p| | | |k|].
  - by apply write_sim.
  - destruct P as [d eof]. exists (mkPipe d true). split; [apply PpClose|]. destruct HR as [Hw He]. split; [done|].
    destruct HI as [(_ & _ & C1 & _) _ _ _ _ _ _ _]. cbn. unfold CloseWrite. rewrite C1, orb_false_r.
    destruct (localWriteClosed (writer f)) eqn:E; [idtac; cbn; done|]. unfold enqueueLocked; cbn. by destruct (scheduled (writer f)).
  - exists P. split; [constructor|]. destruct HR as [Hw He]. cbn.
    destruct (nextOutbound (writer f)) as [s [[x y]|]] eqn:E; apply nextOutbound_closed in E; split; cbn; congruence.
  - exists P. split; [constructor|]. destruct HR as [Hw He]. split.
    + rewrite passive_written by done. by rewrite passive_received.
    + by rewrite deliver_writer.
  - by apply read_sim; [apply Hk| |].
  - exists P. split; [constructor|]. destruct HR as [Hw He]. cbn.
    destruct (updates f) as [|w r]; [by split|].
    destruct (updateSendWindow (writer f) w) as [s e] eqn:E; apply updateSendWindow_closed in E; split; cbn; congruence.
Qed.

Lemma run_sim os f P :
  (forall k, FRead k ∈ os -> 0 <= k) -> flow_inv compression f -> represents f P ->
  exists P', pipe_run P (observations f os) P' /\ represents (foldl (flowRun compression) f os) P'.
Proof.
  revert f P. induction os as [|o os IH]; intros f P Hk HI HR; [exists P; by split; [constructor|]|].
  destruct (step_sim f o P) as (P1 & Hs & HR1); [intros k ->; apply Hk; by left|done|done|].
  destruct (IH (flowRun compression f o) P1) as (P2 & Hr & HR2); [intros k Hin; apply Hk; by right| |done|].
  - apply flow_inv_run; [intros k ->; apply Hk; by left|done].
  - exists P2. split; [by eapply PpMore|done].
Qed.

(** * Properties *)

(** C3. A stream direction refines a bounded FIFO pipe with end of file: in
    every run of its operations — writes, half-close, reads, and the sending,
    delivery and window updates behind them in any order, with or without
    compression — what the callers observe is a run of the pipe that starts
    empty, and the pipe's content is what was written and not yet read.  So
    reads return the bytes in order without gaps, EOF comes exactly after the
    last byte of a half-closed writer, at most 64 KiB are ever unread, and no
    read fails. *)
Theorem flow_refines_pipe n os :
  (forall k, FRead k ∈ os -> 0 <= k) ->
  exists P, pipe_run (mkPipe [] false) (observations (newFlow n) os) P /\
    represents (foldl (flowRun compression) (newFlow n) os) P.
Proof. intros Hk. apply run_sim; [done|apply newFlow_inv|done]. Qed.
End Refinement.

Lemma flow_refines_pipe_witness :
  exists P, pipe_run (mkPipe [] false) (observations (H := rawFlate) true (newFlow 1) demoOps) P.
Proof.
  destruct (flow_refines_pipe (H := rawFlate) true 1 demoOps) as (P & Hr & _); [|by exists P].
  intros k Hk. unfold demoOps in Hk. rewrite !elem_of_cons, elem_of_nil in Hk.
  repeat (destruct Hk as [Hk|Hk]; [first [discriminate Hk|injection Hk as ->; lia]|]). done.
Defined.
