(* ===== verification/MuxSession.v ===== *)
(** * The multiplexing session (internal/mux/session.go)

    A session is the state its goroutines share: the fields guarded by
    [Session.mu], the channels, the [sync.Once] and the streams, which live in
    a [heap] so that the map, the accept queue and the callers share them.  A
    goroutine is a program ([prog]) whose atomic steps are [action]s: a critical
    section of [Session.mu] or of one [Stream.mu], one channel operation or
    [select], or one frame given to the connection.  [exec] runs one action;
    [None] is a goroutine that cannot proceed now.  What the source leaves to
    the runtime or to the connection (which ready case of a [select] is taken,
    map iteration order, I/O errors) is the [oracle]. *)

From S2P Require Export MuxStream MuxServices Traffic.

Definition acceptBacklogFactor : Z := 2.

(** The fields that never change. *)
Record Fixed := mkFixed { client : bool; maxStreams : Z; compression : bool }.

Inductive onceState := NotStarted | Running | Finished.

Record Session := mkSession {
  heap : list Stream;
  streams : gmap Z nat;         (* by stream id, positions in the heap *)
  nextID : Z;                   (* uint32 *)
  lastID : Z;                   (* uint32 *)
  sclosed : bool;
  serr : err;
  control : list Frame;         (* channels: oldest first *)
  ready : list Z;
  accept : list nat;
  sdone : bool;                 (* the channel is closed *)
  once : onceState;
  servicesReady : bool;         (* the channel is closed *)
  servicesErr : err;
  services : list Service;
  traffic : option Traffic.Counter;
  mu : bool;                    (* held across several steps, by removeStream *)
  connClosed : bool;
  wire : list Frame             (* frames written to the connection *)
}.

#[export] Instance eta_MuxSession : Eta Session := fun s =>
  mkSession (heap s) (streams s) (nextID s) (lastID s) (sclosed s) (serr s) (control s) (ready s)
    (accept s) (sdone s) (once s) (servicesReady s) (servicesErr s) (services s) (traffic s) (mu s)
    (connClosed s) (wire s).

(** [newSession]; the goroutines it starts are [readLoop] and [writeLoop]. *)
Definition newSession (isClient : bool) (limit : Z) (compress : bool) (counter : option Traffic.Counter)
    : Fixed * Session :=
  (mkFixed isClient (if limit <=? 0 then 1 else limit) compress,
   mkSession [] ∅ (if isClient then 1 else 2) 0 false None [] [] [] false NotStarted false None []
     (if compress then Traffic.EnableCompression <$> counter else counter) false false []).

(** [NewServerWithServicesAndCompressionAndTraffic]: the list is the first
    control frame. *)
Definition newServerWithServices (limit : Z) (compress : bool) (counter : option Traffic.Counter)
    (l : list Service) : Fixed * Session :=
  let '(c, s) := newSession false limit compress counter in
  (c, s <| services := l |> <| control := [mkFrame FrameServiceList 0 (encodeServices l)] |>).

Definition sessionErrorLocked (s : Session) : error := default (Sent ErrSessionClosed) (serr s).

(** What the environment decides. *)
Record oracle := mkOracle { pick : nat; ioErr : option error; order : list nat }.

(** A [select]: one of the cases that are ready. *)
Definition select {A} (o : oracle) (cases : list A) : option A :=
  cases !! (pick o `mod` length cases)%nat.

Definition when {A} (b : bool) (x : A) : list A := if b then [x] else [].

(** ** Actions *)

(** The critical sections of [Stream.mu]. *)
Inductive streamOp : Type -> Type :=
  | SApprove : streamOp approval
  | SReject : streamOp bool
  | SWaitOpened : streamOp (option err * Z)
  | SMarkOpened (e : err) : streamOp unit
  | SRead (n : Z) : streamOp readTurn
  | SWrite (p : bytes) : streamOp writeTurn
  | SReceiveData (data : bytes) : streamOp (result (Z * Z))
  | SUpdateSendWindow (amount : Z) : streamOp err
  | SReceiveFIN : streamOp unit
  | SReceiveReset (e : err) : streamOp unit
  | SCloseWrite : streamOp bool
  | SCloseRead : streamOp unit
  | SClose : streamOp closeResult
  | SReset (e : err) : streamOp bool
  | SNextOutbound : streamOp (option (Frame * outboundNext))
  | SOpening : streamOp bool
  | SSetDeadline (read write : bool) (d : Z) : streamOp unit.

Inductive scheduleOutcome := SchedNotLive | SchedDone | SchedQueued | SchedFull.
Inductive controlOutcome := CtlSent | CtlDone | CtlFull.
Inductive acceptOutcome := AcceptDone | AcceptQueued | AcceptFull.
Inductive openOutcome := OpenClosed | OpenDuplicate | OpenLimit | OpenInserted (p : nat).
Inductive waitCase := WaitContext (e : error) | WaitDone | WaitNotified.
Inductive takeCase := TakeDone | TakeFrame (f : Frame) | TakeReady (id : Z).
Inductive acceptCase := AcceptContext (e : error) | AcceptClosed | AcceptStream (p : nat).

Inductive action : Type -> Type :=
  (* critical sections of Session.mu *)
  | AOpen : action (result nat)
  | AErr : action error
  | ASchedule (p : nat) : action scheduleOutcome
  | AShutdown (e : err) : action (list nat * err)
  | ALookup (id : Z) : action (option nat * bool)
  | AHandleOpen (frame : Frame) : action openOutcome
  | ASetServices (l : list Service) : action unit
  | AGetServices : action (list Service * err)
  | ASnapshot : action (list nat * Z)
  (* removeStream: lock and delete; one receive or send of the rotation; unlock *)
  | ARemove (id : Z) : action nat
  | ARotateTake : action (option Z)
  | ARotatePut (id : Z) : action unit
  | AUnlock : action unit
  (* channels, the connection, the once *)
  | AControl (f : Frame) : action controlOutcome
  | AAccept (p : nat) : action acceptOutcome
  | ATakeAccept : action acceptCase
  | ATakeControl : action (option takeCase)
  | ATake : action takeCase
  | AWaitServices : action waitCase
  | AReadFrame : action unit            (* ReadFrame returns; what it read is readLoop's input *)
  | AWriteFrame (f : Frame) : action err
  | AConnClose : action unit
  | AOnce : action bool
  | AOnceDone : action unit
  (* streams *)
  | AStream {T} (p : nat) (op : streamOp T) : action T
  | AStreamID (p : nat) : action Z
  | AWaitOpened (p : nat) (n : Z) : action waitCase
  | AWaitStream (p : nat) (n deadline : Z) : action err
  | ATraffic (tx : bool) (uncompressed compressed : Z) : action unit.

Section Exec.
Context `{Flate} (c : Fixed).

Definition runStream {T} (op : streamOp T) (s : Stream) : Stream * T :=
  match op in streamOp T return Stream * T with
  | SApprove => Approve s
  | SReject => Reject s
  | SWaitOpened => (s, (waitOpened s, notify s))
  | SMarkOpened e => (markOpened s e, tt)
  | SRead n => Read s n
  | SWrite p => Write (compression c) s p
  | SReceiveData data => receiveData (compression c) s data
  | SUpdateSendWindow amount => updateSendWindow s amount
  | SReceiveFIN => (receiveFIN s, tt)
  | SReceiveReset e => (receiveReset s e, tt)
  | SCloseWrite => CloseWrite s
  | SCloseRead => (CloseRead s, tt)
  | SClose => Close s
  | SReset e => Reset s e
  | SNextOutbound => nextOutbound s
  | SOpening => (s, negb (opened s) && bool_decide (openErr s = None) && negb (closed s))
  | SSetDeadline r w d =>
      (if r && w then SetDeadline s d
       else if r then SetReadDeadline s d else SetWriteDeadline s d, tt)
  end.

(** [OpenService] between [s.mu.Lock] and [s.mu.Unlock]. *)
Definition openLocked (s : Session) : Session * result nat :=
  if sclosed s then (s, inl (sessionErrorLocked s))
  else if maxStreams c <=? Z.of_nat (size (streams s)) then (s, inl (Sent ErrTooManyStreams))
  else
    let id := nextID s in
    if id =? 0 then (s, inl (ErrNew "stream id space exhausted"))
    else
      let s := s <| nextID := if id =? max_u32 then 0 else u32 (id + 2) |> <| lastID := id |> in
      let p := length (heap s) in
      (s <| heap := heap s ++ [newStream id] |> <| streams := <[id := p]> (streams s) |>, inr p).

Definition handleOpenLocked (s : Session) (frame : Frame) : Session * openOutcome :=
  if sclosed s then (s, OpenClosed)
  else if bool_decide (is_Some (streams s !! StreamID frame)) then (s, OpenDuplicate)
  else
    let s := s <| lastID := Z.max (lastID s) (StreamID frame) |> in
    if maxStreams c <=? Z.of_nat (size (streams s)) then (s, OpenLimit)
    else
      let p := length (heap s) in
      let stream := (newStream (StreamID frame)) <| service := bytes_str (Payload frame) |> in
      (s <| heap := heap s ++ [stream] |> <| streams := <[StreamID frame := p]> (streams s) |>,
       OpenInserted p).

Definition scheduleLocked (o : oracle) (s : Session) (p : nat) : option (Session * scheduleOutcome) :=
  stream ← heap s !! p;
  if negb (bool_decide (streams s !! id stream = Some p)) then Some (s, SchedNotLive)
  else
    match select o (when (sdone s) SchedDone
                    ++ when (zlen (ready s) <? maxStreams c) SchedQueued) with
    | Some SchedQueued => Some (s <| ready := ready s ++ [id stream] |>, SchedQueued)
    | Some r => Some (s, r)
    | None => Some (s, SchedFull)
    end.

(** [shutdown] between [s.mu.Lock] and [s.mu.Unlock]: the streams it will
    reset, in the map's iteration order, and the error they get. *)
Definition shutdownLocked (o : oracle) (s : Session) (e : err) : option (Session * (list nat * err)) :=
  if bool_decide (NoDup (order o) /\
       list_to_set (order o) =@{gset nat} list_to_set (map_to_list (streams s)).*2)
  then
    let e := match e with
             | None => Sent ErrSessionClosed
             | Some e => if errors_Is e EOF then Sent ErrSessionClosed else e
             end in
    Some (s <| sclosed := true |> <| serr := Some e |> <| streams := ∅ |> <| sdone := true |>,
          (order o, Some e))
  else None.

Definition takeCases (s : Session) : list (Session * takeCase) :=
  when (sdone s) (s, TakeDone)
  ++ match control s with f :: rest => [(s <| control := rest |>, TakeFrame f)] | [] => [] end.

Definition readyCases (s : Session) : list (Session * takeCase) :=
  match ready s with i :: rest => [(s <| ready := rest |>, TakeReady i)] | [] => [] end.

(** The cases of a wait on a context, on [s.done] and on a notification;
    the context may end at any time. *)
Definition waitCases (o : oracle) (s : Session) (notified : bool) : list waitCase :=
  match ioErr o with Some e => [WaitContext e] | None => [] end
  ++ when (sdone s) WaitDone ++ when notified WaitNotified.

(** A section of [s.mu] waits until the lock is free. *)
Definition locked {A} (s : Session) (r : option A) : option A := if mu s then None else r.

Definition exec (o : oracle) {T} (a : action T) (s : Session) : option (Session * T) :=
  match a in action T return option (Session * T) with
  | AOpen => locked s (Some (openLocked s))
  | AErr => locked s (Some (s, sessionErrorLocked s))
  | ASchedule p => locked s (scheduleLocked o s p)
  | AShutdown e => locked s (shutdownLocked o s e)
  | ALookup i => locked s (Some (s, (streams s !! i, (i mod 2 =? 1) && (i <=? lastID s))))
  | AHandleOpen frame => locked s (Some (handleOpenLocked s frame))
  | ASetServices l =>
      locked s (Some (s <| services := l |> <| servicesErr := None |> <| servicesReady := true |>, tt))
  | AGetServices => locked s (Some (s, (services s, servicesErr s)))
  | ASnapshot => locked s (Some (s, ((map_to_list (streams s)).*2, zlen (accept s))))
  | ARemove i =>
      locked s (Some (s <| mu := true |> <| streams := delete i (streams s) |>, length (ready s)))
  | ARotateTake =>
      match ready s with
      | i :: rest => Some (s <| ready := rest |>, Some i)
      | [] => Some (s, None)
      end
  | ARotatePut i =>
      if zlen (ready s) <? maxStreams c then Some (s <| ready := ready s ++ [i] |>, tt) else None
  | AUnlock => Some (s <| mu := false |>, tt)
  | AControl f =>
      match select o (when (sdone s) CtlDone
                      ++ when (zlen (control s) <? maxStreams c * 8) CtlSent) with
      | Some CtlSent => Some (s <| control := control s ++ [f] |>, CtlSent)
      | Some r => Some (s, r)
      | None => Some (s, CtlFull)
      end
  | AAccept p =>
      match select o (when (sdone s) AcceptDone
                      ++ when (zlen (accept s) <? maxStreams c * acceptBacklogFactor) AcceptQueued) with
      | Some AcceptQueued => Some (s <| accept := accept s ++ [p] |>, AcceptQueued)
      | Some r => Some (s, r)
      | None => Some (s, AcceptFull)
      end
  | ATakeAccept =>
      select o (match ioErr o with Some e => [(s, AcceptContext e)] | None => [] end
                ++ when (sdone s) (s, AcceptClosed)
                ++ match accept s with
                   | p :: rest => [(s <| accept := rest |>, AcceptStream p)]
                   | [] => []
                   end)
  | ATakeControl =>
      match select o (takeCases s) with
      | Some (s, t) => Some (s, Some t)
      | None => Some (s, None)
      end
  | ATake => select o (takeCases s ++ readyCases s)
  | AWaitServices => (fun w => (s, w)) <$> select o (waitCases o s (servicesReady s))
  | AReadFrame => Some (s, tt)
  | AWriteFrame f =>
      match Validate f, ioErr o with
      | Some e, _ => Some (s, Some e)
      | None, Some e => Some (s, Some e)
      | None, None => Some (s <| wire := wire s ++ [f] |>, None)
      end
  | AConnClose => Some (s <| connClosed := true |>, tt)
  | AOnce =>
      match once s with
      | NotStarted => Some (s <| once := Running |>, true)
      | Running => None
      | Finished => Some (s, false)
      end
  | AOnceDone => Some (s <| once := Finished |>, tt)
  | AStream p op =>
      stream ← heap s !! p;
      let '(stream, r) := runStream op stream in
      Some (s <| heap := <[p := stream]> (heap s) |>, r)
  | AStreamID p => (fun stream => (s, id stream)) <$> heap s !! p
  | AWaitOpened p n =>
      stream ← heap s !! p;
      (fun w => (s, w)) <$> select o (waitCases o s (negb (notify stream =? n)))
  | AWaitStream p n deadline =>
      stream ← heap s !! p;
      (fun ev => (s, waitStream deadline (deadline - 1) ev)) <$>
        select o (when (negb (notify stream =? n)) Notified ++ when (sdone s) SessionDone
                  ++ when (negb (deadline =? 0)) TimerFired)
  | ATraffic tx u z =>
      Some (s <| traffic := (fun k => if tx then Traffic.AddCompressionTX k u z else Traffic.AddCompressionRX k u z)
                              <$> traffic s |>, tt)
  end.
End Exec.

(** ** Goroutines *)

Inductive prog (R : Type) : Type :=
  | Ret (r : R)
  | Act {T : Type} (a : action T) (k : T -> prog R).
Arguments Ret {R} r.
Arguments Act {R T} a k.

Fixpoint pbind {A B} (m : prog A) (f : A -> prog B) : prog B :=
  match m with
  | Ret r => f r
  | Act a k => Act a (fun t => pbind (k t) f)
  end.

Notation "'let!' x := m 'in' k" := (pbind m (fun x => k))
  (at level 10, x pattern, k at level 200) : go_scope.

Definition do {T} (a : action T) : prog T := Act a Ret.

Definition frameOf (t : FrameType) (id : Z) (payload : bytes) : Frame := mkFrame t id payload.

(** ** Closing the session, control frames, the scheduler *)

Fixpoint resetAll (ps : list nat) (e : err) : prog unit :=
  match ps with
  | [] => Ret tt
  | p :: ps => let! _ := do (AStream p (SReceiveReset e)) in resetAll ps e
  end.

Definition shutdown (e : err) : prog unit :=
  let! first := do AOnce in
  if first : bool then
    let! (ps, e) := do (AShutdown e) in
    let! _ := do AConnClose in
    let! _ := resetAll ps e in
    do AOnceDone
  else Ret tt.

Definition sendControl (f : Frame) : prog err :=
  let! r := do (AControl f) in
  match r with
  | CtlDone => let! e := do AErr in Ret (Some e)
  | CtlSent => Ret None
  | CtlFull =>
      let e := Some (ErrNew "multiplexing control queue full") in
      let! _ := shutdown e in Ret e
  end.

Definition schedule (p : nat) : prog err :=
  let! r := do (ASchedule p) in
  match r with
  | SchedNotLive => Ret None
  | SchedDone => let! e := do AErr in Ret (Some e)
  | SchedQueued => Ret None
  | SchedFull =>
      let e := Some (ErrNew "multiplexing scheduler queue full") in
      let! _ := shutdown e in Ret e
  end.

(** The loop of [removeStream]; the caller holds [s.mu]. *)
Fixpoint rotate (n : nat) (i : Z) : prog unit :=
  match n with
  | O => Ret tt
  | S n =>
      let! r := do ARotateTake in
      match r with
      | Some queued =>
          if queued =? i then rotate n i
          else let! _ := do (ARotatePut queued) in rotate n i
      | None => rotate n i
      end
  end.

Definition removeStream (i : Z) : prog unit :=
  let! n := do (ARemove i) in
  let! _ := rotate n i in
  do AUnlock.

(** ** Methods of [Stream] that call the session *)

Definition streamReset (p : nat) (e : err) : prog err :=
  let message := errorMessage e in
  let! reset := do (AStream p (SReset e)) in
  if negb reset then Ret None
  else
    let! i := do (AStreamID p) in
    let! _ := removeStream i in
    sendControl (frameOf FrameReset i (str_bytes message)).

Definition streamReject (p : nat) (e : err) : prog err :=
  let message := errorMessage e in
  let! rejected := do (AStream p SReject) in
  if negb rejected then Ret None
  else
    let! i := do (AStreamID p) in
    let! _ := removeStream i in
    sendControl (frameOf FrameOpenError i (str_bytes message)).

Definition streamApprove (p : nat) : prog err :=
  let! r := do (AStream p SApprove) in
  match r with
  | ApproveError e => Ret e
  | AlreadyApproved => Ret None
  | Approved =>
      let! i := do (AStreamID p) in
      sendControl (frameOf FrameOpenOK i [])
  end.

Definition streamCloseWrite (p : nat) : prog err :=
  let! needsSchedule := do (AStream p SCloseWrite) in
  if needsSchedule : bool then schedule p else Ret None.

Definition streamClose (p : nat) : prog err :=
  let! r := do (AStream p SClose) in
  match r with
  | CloseNothing => Ret None
  | CloseRemove =>
      let! i := do (AStreamID p) in
      let! _ := removeStream i in Ret None
  | CloseReset =>
      let! i := do (AStreamID p) in
      let! _ := removeStream i in
      sendControl (frameOf FrameReset i (str_bytes "stream closed"))
  end.

(** The loops of [waitOpened], [Read] and [Write] take a bound on their turns,
    after which the goroutine stays parked ([None]). *)
Fixpoint streamWaitOpened (turns : nat) (p : nat) : prog (option err) :=
  match turns with
  | O => Ret None
  | S turns =>
      let! (r, n) := do (AStream p SWaitOpened) in
      match r with
      | Some e => Ret (Some e)
      | None =>
          let! w := do (AWaitOpened p n) in
          match w with
          | WaitContext e => Ret (Some (Some e))
          | WaitDone => let! e := do AErr in Ret (Some (Some e))
          | WaitNotified => streamWaitOpened turns p
          end
      end
  end.

Fixpoint streamRead (turns : nat) (p : nat) (n : Z) : prog (option (bytes * err)) :=
  match turns with
  | O => Ret None
  | S turns =>
      let! r := do (AStream p (SRead n)) in
      match r with
      | ReadData data windowUpdate =>
          if 0 <? windowUpdate then
            let! i := do (AStreamID p) in
            let! _ := sendControl (WindowUpdate i windowUpdate) in
            Ret (Some (data, None))
          else Ret (Some (data, None))
      | ReadError e => Ret (Some ([], e))
      | ReadWait m deadline =>
          let! e := do (AWaitStream p m deadline) in
          match e with
          | Some e => Ret (Some ([], Some e))
          | None => streamRead turns p n
          end
      end
  end.

Section Programs.
Context (c : Fixed).

Fixpoint streamWrite (turns : nat) (p : nat) (data : bytes) (written : Z) : prog (option (Z * err)) :=
  if zlen data <=? 0 then Ret (Some (written, None)) else
  match turns with
  | O => Ret None
  | S turns =>
      let! r := do (AStream p (SWrite data)) in
      match r with
      | WriteError e => Ret (Some (written, Some e))
      | WriteQueued n encodedSize needsSchedule =>
          let! e := if needsSchedule then schedule p else Ret None in
          match e with
          | Some e => Ret (Some (written, Some e))
          | None =>
              let! _ := if compression c then do (ATraffic true n encodedSize) else Ret tt in
              streamWrite turns p (slice_from data n) (written + n)
          end
      | WriteWait m deadline =>
          let! e := do (AWaitStream p m deadline) in
          match e with
          | Some e => Ret (Some (written, Some e))
          | None => streamWrite turns p data written
          end
      end
  end.

Definition nextOutbound (p : nat) : prog (option Frame) :=
  let! r := do (AStream p SNextOutbound) in
  match r with
  | None => Ret None
  | Some (frame, ORequeue) => let! _ := schedule p in Ret (Some frame)
  | Some (frame, ORemove) =>
      let! i := do (AStreamID p) in
      let! _ := removeStream i in Ret (Some frame)
  | Some (frame, ODone) => Ret (Some frame)
  end.

(** ** Methods of [Session] *)

Definition OpenService (turns : nat) (service : string) : prog (option (result nat)) :=
  if negb (client c) then Ret (Some (inl (ErrNew "server sessions cannot open target streams")))
  else if maxServiceName <? slen service then Ret (Some (inl (ErrNew "service selector is too long")))
  else
    let! r := do AOpen in
    match r with
    | inl e => Ret (Some (inl e))
    | inr p =>
        let! i := do (AStreamID p) in
        let! e := sendControl (frameOf FrameOpen i (str_bytes service)) in
        match e with
        | Some e => let! _ := removeStream i in Ret (Some (inl e))
        | None =>
            let! e := streamWaitOpened turns p in
            match e with
            | None => Ret None
            | Some None => Ret (Some (inr p))
            | Some (Some e) => let! _ := streamReset p (Some e) in Ret (Some (inl e))
            end
        end
    end.

Definition Open (turns : nat) : prog (option (result nat)) := OpenService turns "".

Definition Services : prog (result (list Service * err)) :=
  let! w := do AWaitServices in
  match w with
  | WaitNotified => let! r := do AGetServices in Ret (inr r)
  | WaitContext e => Ret (inl e)
  | WaitDone => let! e := do AErr in Ret (inl e)
  end.

Definition Accept : prog (result nat) :=
  if client c then Ret (inl (ErrNew "client sessions cannot accept target streams"))
  else
    let! w := do ATakeAccept in
    match w with
    | AcceptContext e => Ret (inl e)
    | AcceptClosed => let! e := do AErr in Ret (inl e)
    | AcceptStream p => Ret (inr p)
    end.

Fixpoint countOpening (ps : list nat) : prog Z :=
  match ps with
  | [] => Ret 0
  | p :: ps =>
      let! b := do (AStream p SOpening) in
      let! n := countOpening ps in
      Ret (if b : bool then n + 1 else n)
  end.

(** [Snapshot]: streams, pending accepts, opening streams. *)
Definition Snapshot : prog (Z * Z * Z) :=
  let! (ps, pending) := do ASnapshot in
  let! opening := countOpening ps in
  Ret (zlen ps, pending, opening).

Definition Close : prog unit := shutdown (Some (Sent EOF)).

Definition handleOpen (frame : Frame) : prog err :=
  if client c || (StreamID frame mod 2 =? 0) then
    Ret (Some (protocolError ("invalid OPEN stream id " +:+ itoa (StreamID frame))))
  else
    let! r := do (AHandleOpen frame) in
    match r with
    | OpenClosed => Ret (Some (Sent ErrSessionClosed))
    | OpenDuplicate => Ret (Some (protocolError ("duplicate stream id " +:+ itoa (StreamID frame))))
    | OpenLimit =>
        sendControl (frameOf FrameOpenError (StreamID frame) (str_bytes "server stream limit reached"))
    | OpenInserted p =>
        let! a := do (AAccept p) in
        match a with
        | AcceptDone => Ret (Some (Sent ErrSessionClosed))
        | AcceptQueued => Ret None
        | AcceptFull =>
            let! _ := removeStream (StreamID frame) in
            sendControl (frameOf FrameOpenError (StreamID frame) (str_bytes "server accept backlog full"))
        end
    end.

(** The frame types, as [handleFrame] distinguishes them. *)
Definition dispatch (frame : Frame) (p : nat) : prog err :=
  let t := Type_ frame in
  if bool_decide (t = FrameOpenOK) then
    if negb (client c) then Ret (Some (protocolError "server received OPEN_OK"))
    else let! _ := do (AStream p (SMarkOpened None)) in Ret None
  else if bool_decide (t = FrameOpenError) then
    let e := ErrWrap "" (Sent ErrStreamRejected) (": " +:+ bytes_str (Payload frame)) in
    let! _ := do (AStream p (SMarkOpened (Some e))) in
    let! _ := removeStream (StreamID frame) in Ret None
  else if bool_decide (t = FrameData) then
    let! r := do (AStream p (SReceiveData (Payload frame))) in
    match r with
    | inl e => streamReset p (Some e)
    | inr (n, encodedSize) =>
        let! _ := if compression c then do (ATraffic false n encodedSize) else Ret tt in Ret None
    end
  else if bool_decide (t = FrameWindowUpdate) then
    let! e := do (AStream p (SUpdateSendWindow (WindowAmount frame))) in
    match e with
    | Some e => streamReset p (Some e)
    | None => Ret None
    end
  else if bool_decide (t = FrameFIN) then
    let! _ := do (AStream p SReceiveFIN) in Ret None
  else if bool_decide (t = FrameReset) then
    let! _ := do (AStream p (SReceiveReset (Some (ErrNew (bytes_str (Payload frame)))))) in
    let! _ := removeStream (StreamID frame) in Ret None
  else Ret (Some (protocolError ("unexpected frame type " +:+ itoa (byte_z t)))).

Definition handleFrame (frame : Frame) : prog err :=
  if bool_decide (Type_ frame = FrameServiceList) then
    if negb (client c) || negb (StreamID frame =? 0)
    then Ret (Some (protocolError "unexpected service list"))
    else
      match decodeServices (Payload frame) with
      | inl e => Ret (Some e)
      | inr l => let! _ := do (ASetServices l) in Ret None
      end
  else if bool_decide (Type_ frame = FrameOpen) then handleOpen frame
  else
    let! (stream, retired) := do (ALookup (StreamID frame)) in
    match stream with
    | None =>
        if retired || bool_decide (Type_ frame = FrameReset) || bool_decide (Type_ frame = FrameOpenError)
        then Ret None
        else
          let! _ := sendControl (frameOf FrameReset (StreamID frame) (str_bytes "unknown stream")) in
          Ret None
    | Some p => dispatch frame p
    end.

(** [readLoop], over the frames the connection will deliver and the error it
    ends with. *)
Fixpoint readLoop (input : list Frame) (e : error) : prog unit :=
  let! _ := do AReadFrame in
  match input with
  | [] => shutdown (Some e)
  | frame :: input =>
      let! r := handleFrame frame in
      match r with
      | Some e => shutdown (Some e)
      | None => readLoop input e
      end
  end.

(** [writeLoop], for a bounded number of turns. *)
Fixpoint writeLoop (turns : nat) : prog unit :=
  match turns with
  | O => Ret tt
  | S turns =>
      let write frame :=
        let! e := do (AWriteFrame frame) in
        match e with
        | Some e => shutdown (Some e)
        | None => writeLoop turns
        end in
      let! first := do ATakeControl in
      let! t := match first with Some t => Ret t | None => do ATake end in
      match t with
      | TakeDone => Ret tt
      | TakeFrame frame => write frame
      | TakeReady i =>
          let! (stream, _) := do (ALookup i) in
          match stream with
          | None => writeLoop turns
          | Some p =>
              let! frame := nextOutbound p in
              match frame with
              | Some frame => write frame
              | None => writeLoop turns
              end
          end
      end
  end.
End Programs.
