(* ===== verification/MuxThreads.v ===== *)
(** * Goroutines of a multiplexing session, interleaved

    A [pool] is a session and the programs of its goroutines; a [step] runs one
    action of one of them, or starts a method call.  The invariant [inv] relates
    the shared state to the obligations the goroutines hold ([tok]): the right
    and duty to put a stream into the scheduler queue, the lock taken by
    [removeStream], the ids of OPEN frames still to come.  [wp] is the condition
    that a program, run from any state that satisfies the invariant whatever the
    others do between its actions, keeps it. *)

From S2P Require Export MuxSession.

Set Warnings "-clear-no-such-hyp".

(** ** Obligations *)

Inductive tok :=
  | TSched (i : Z)                       (* will schedule or fetch stream i *)
  | TOpen (i : Z)                        (* an OPEN for id i is still to come *)
  | TPtr (p : nat) (i : Z)               (* heap position p holds stream i *)
  | TLock (i : Z) (n : nat) (h : option Z).  (* rotating i out: turns left, id in hand *)

Definition scheds (ts : list tok) : list Z :=
  omap (fun t => match t with TSched i => Some i | _ => None end) ts.
Definition opens (ts : list tok) : list Z :=
  omap (fun t => match t with TOpen i => Some i | _ => None end) ts.
Definition locks (ts : list tok) : list (Z * nat * option Z) :=
  omap (fun t => match t with TLock i n h => Some (i, n, h) | _ => None end) ts.

Lemma scheds_app a b : scheds (a ++ b) = scheds a ++ scheds b.
Proof. apply omap_app. Qed.
Lemma opens_app a b : opens (a ++ b) = opens a ++ opens b.
Proof. apply omap_app. Qed.
Lemma locks_app a b : locks (a ++ b) = locks a ++ locks b.
Proof. apply omap_app. Qed.

Definition valid (f : Frame) : Prop := Validate f = None.
Definition id_ok (i : Z) : Prop := 0 < i < 2 ^ 32.

Definition lock_ok (maxStreams : Z) (s : Session) (l : Z * nat * option Z) : Prop :=
  let '(i, n, h) := l in
  streams s !! i = None /\ (i ∉ drop n (ready s)) /\
  match h with
  | Some j => zlen (ready s) + 1 <= maxStreams /\ (is_Some (streams s !! j) \/ sclosed s = true)
  | None => zlen (ready s) <= maxStreams
  end.

Record inv (c : Fixed) (s : Session) (ts : list tok) : Prop := {
  iv_ids : NoDup (id <$> heap s);
  iv_id : Forall (fun st => id_ok (id st)) (heap s);
  iv_frames : Forall (fun st => Forall valid (outbound st)) (heap s);
  iv_control : Forall valid (control s);
  iv_map : forall i p, streams s !! i = Some p -> exists st, heap s !! p = Some st /\ id st = i;
  iv_size : Z.of_nat (size (streams s)) <= maxStreams c;
  iv_closed : sclosed s = true -> streams s = ∅;
  iv_done : sdone s = true -> sclosed s = true;
  iv_nodup : NoDup (ready s ++ scheds ts);
  iv_cap : zlen (ready s) <= maxStreams c;
  iv_ready : forall i, i ∈ ready s ->
    is_Some (streams s !! i) \/ sclosed s = true \/ (exists n h, (i, n, h) ∈ locks ts);
  iv_lock : if mu s then exists l, locks ts = [l] /\ lock_ok (maxStreams c) s l else locks ts = [];
  iv_sched : forall p st, heap s !! p = Some st -> id st ∈ ready s ++ scheds ts ->
    scheduled st = true \/ closed st = true;
  iv_known : forall i, i ∈ ready s ++ scheds ts -> i ∈ id <$> heap s;
  iv_live : forall i p st, streams s !! i = Some p -> heap s !! p = Some st ->
    (scheduled st = true -> i ∈ ready s ++ scheds ts) /\ (outbound st <> [] -> scheduled st = true);
  iv_next : client c = true -> nextID s <> 0 ->
    nextID s mod 2 = 1 /\ id_ok (nextID s) /\
    Forall (fun st => id st < nextID s /\ id st mod 2 = 1) (heap s);
  iv_opens : NoDup (opens ts) /\ Forall id_ok (opens ts) /\
    (forall i, i ∈ opens ts -> i ∉ id <$> heap s);
  iv_client : client c = true -> opens ts = [];
  iv_ptr : forall p i, TPtr p i ∈ ts -> exists st, heap s !! p = Some st /\ id st = i
}.

#[export] Instance inv_Permutation c s : Proper ((≡ₚ) ==> iff) (inv c s).
Proof.
  assert (forall a b, a ≡ₚ b -> inv c s a -> inv c s b) as Hone.
  { intros a b Hab [].
    assert (scheds a ≡ₚ scheds b) as Hs by (unfold scheds; by rewrite Hab).
    assert (opens a ≡ₚ opens b) as Ho by (unfold opens; by rewrite Hab).
    assert (locks a ≡ₚ locks b) as Hl by (unfold locks; by rewrite Hab).
    split; try done.
    - by rewrite <- Hs.
    - intros i Hi. destruct (iv_ready0 i Hi) as [|[|(n & h & Hn)]]; [by left|by right; left|].
      right; right. exists n, h. by rewrite <- Hl.
    - destruct (mu s).
      + destruct iv_lock0 as (l & Hla & Hok). exists l. rewrite Hla in Hl.
        by apply Permutation_singleton_l in Hl.
      + rewrite iv_lock0 in Hl. by apply Permutation_nil_l in Hl.
    - intros p st Hp Hin. rewrite <- Hs in Hin. by eapply iv_sched0.
    - intros i Hin. rewrite <- Hs in Hin. by apply iv_known0.
    - intros i p st Hm Hp. destruct (iv_live0 i p st Hm Hp) as [Hq ?]. split; [|done].
      intros. rewrite <- Hs. by apply Hq.
    - destruct iv_opens0 as (? & ? & Hf). rewrite <- Ho. split_and!; [done..|].
      intros i Hi. rewrite <- Ho in Hi. by apply Hf.
    - intros Hc. specialize (iv_client0 Hc). rewrite iv_client0 in Ho. by apply Permutation_nil_l in Ho.
    - intros p i Hi. apply iv_ptr0. by rewrite Hab. }
  intros a b Hab. split; by apply Hone.
Qed.

(** The invariant reads eight fields of the session. *)
Lemma inv_same c s s' ts :
  heap s' = heap s -> streams s' = streams s -> nextID s' = nextID s -> sclosed s' = sclosed s ->
  sdone s' = sdone s -> ready s' = ready s -> mu s' = mu s -> Forall valid (control s') ->
  inv c s ts -> inv c s' ts.
Proof.
  intros Hh Hst Hn Hc Hd Hr Hm Hct []. unfold lock_ok in *.
  split; rewrite ?Hh, ?Hst, ?Hn, ?Hc, ?Hd, ?Hr, ?Hm; try done.
  destruct (mu s); [|done]. destruct iv_lock0 as ([[i n] h] & ? & ?). exists (i, n, h).
  unfold lock_ok. by rewrite ?Hst, ?Hr, ?Hc.
Qed.

(** Knowledge about heap positions can be recorded and forgotten. *)
Lemma inv_learn c s ts p st :
  inv c s ts -> heap s !! p = Some st -> inv c s (TPtr p (id st) :: ts).
Proof.
  intros [] Hp. split; try done.
  intros p' i [[= -> ->]|?]%elem_of_cons; [by exists st|by apply iv_ptr0].
Qed.

Lemma inv_forget c s ts p i : inv c s (TPtr p i :: ts) -> inv c s ts.
Proof. intros []. split; try done. intros. apply iv_ptr0. by right. Qed.

Lemma heap_ids (h : list Stream) p st st' :
  h !! p = Some st -> id st' = id st -> id <$> <[p := st']> h = id <$> h.
Proof.
  intros Hp Hi. rewrite list_fmap_insert. apply list_insert_id. by rewrite list_lookup_fmap, Hp, Hi.
Qed.

Lemma heap_unique (h : list Stream) p q a b :
  NoDup (id <$> h) -> h !! p = Some a -> h !! q = Some b -> id a = id b -> p = q.
Proof.
  intros Hnd Hp Hq Hab. apply (NoDup_lookup (id <$> h) p q (id a) Hnd).
  - by rewrite list_lookup_fmap, Hp.
  - rewrite list_lookup_fmap, Hq. cbn. by rewrite Hab.
Qed.

(** One stream changes, and with it the obligations to schedule it. *)
Lemma inv_stream c s ts ts' p st st' :
  inv c s ts -> heap s !! p = Some st -> id st' = id st -> Forall valid (outbound st') ->
  opens ts' = opens ts -> locks ts' = locks ts ->
  (forall p i, TPtr p i ∈ ts' -> TPtr p i ∈ ts) ->
  NoDup (ready s ++ scheds ts') ->
  (forall i, i <> id st -> i ∈ ready s ++ scheds ts' <-> i ∈ ready s ++ scheds ts) ->
  (id st ∈ ready s ++ scheds ts' -> scheduled st' = true \/ closed st' = true) ->
  (streams s !! id st = Some p ->
     (scheduled st' = true -> id st ∈ ready s ++ scheds ts') /\ (outbound st' <> [] -> scheduled st' = true)) ->
  inv c (s <| heap := <[p := st']> (heap s) |>) ts'.
Proof.
  intros [] Hp Hid Hv Ho Hl Hptr Hnd Hiff Hsc Hlive.
  assert (p < length (heap s))%nat as Hlt by (by eapply lookup_lt_Some).
  assert (forall q st1, <[p := st']> (heap s) !! q = Some st1 ->
    exists st0, heap s !! q = Some st0 /\ id st1 = id st0 /\ (q = p /\ st1 = st' \/ q <> p /\ st1 = st0)) as Hback.
  { intros q st1 Hq. apply list_lookup_insert_Some in Hq as [(<- & -> & _)|(? & Hq)].
    - exists st. eauto.
    - exists st1. eauto. }
  assert (forall q i, (exists st0, heap s !! q = Some st0 /\ id st0 = i) ->
    exists st0, <[p := st']> (heap s) !! q = Some st0 /\ id st0 = i) as Hfwd.
  { intros q i (st0 & Hq & Hi). destruct (decide (q = p)) as [->|Hne].
    - exists st'. rewrite list_lookup_insert_eq by done. split; congruence.
    - exists st0. by rewrite list_lookup_insert_ne. }
  split; cbn; rewrite ?(heap_ids _ _ _ _ Hp Hid), ?Ho, ?Hl; try done.
  - apply Forall_insert; [done|]. rewrite Hid. by eapply Forall_lookup_1 in iv_id0.
  - by apply Forall_insert.
  - intros i q Hq. apply Hfwd. by apply iv_map0.
  - intros q st1 Hq Hin. apply Hback in Hq as (st0 & Hq & Hi & [(-> & ->)|(Hne & ->)]).
    + apply Hsc. by rewrite <- Hid.
    + apply (iv_sched0 q st0); [done|]. apply Hiff; [|done]. intros Heq. apply Hne.
      by eapply heap_unique.
  - intros i Hin. destruct (decide (i = id st)) as [->|Hne]; [|by apply iv_known0, Hiff].
    apply list_elem_of_fmap. exists st. split; [done|]. by eapply list_elem_of_lookup_2.
  - intros i q st1 Hm Hq. apply Hback in Hq as (st0 & Hq & Hi & [(-> & ->)|(Hne & ->)]).
    + destruct (iv_map0 i p Hm) as (? & ? & <-). simplify_eq. by apply Hlive.
    + destruct (iv_live0 i q st0 Hm Hq) as [Ha Hb]. split; [|done]. intros Hs. apply Hiff; [|by apply Ha].
      intros ->. destruct (iv_map0 _ _ Hm) as (st2 & Hq2 & Heq). simplify_eq. apply Hne.
      by eapply heap_unique.
  - intros Hc Hn. destruct (iv_next0 Hc Hn) as (? & ? & Hf). split_and!; try done.
    apply Forall_insert; [done|]. rewrite Hid. by eapply Forall_lookup_1 in Hf.
  - intros q i Hq. apply Hfwd, iv_ptr0, Hptr, Hq.
Qed.

(** ** Weakest preconditions *)

(** What must never happen: a full scheduler queue, a frame the connection
    refuses, a send that blocks while [removeStream] holds the lock. *)
Definition action_ok (c : Fixed) {T} (a : action T) (s : Session) : Prop :=
  match a with
  | ASchedule p => mu s = false -> forall o r, scheduleLocked c o s p = Some r -> r.2 <> SchedFull
  | AWriteFrame f => valid f
  | ARotatePut i => zlen (ready s) < maxStreams c
  | _ => True
  end.

(** Actions that wait until another goroutine or the peer does something. *)
Definition waits {T} (a : action T) : Prop :=
  match a with
  | AReadFrame | AWriteFrame _ | ATake | ATakeAccept | AWaitServices | AWaitOpened _ _ | AWaitStream _ _ _ => True
  | _ => False
  end.

(** A goroutine that ends, or waits, owes nothing and holds no lock. *)
Definition settled (ts : list tok) : Prop := scheds ts = [] /\ locks ts = [].

Section WP.
Context `{Flate} (c : Fixed).

Fixpoint wp {R} (ts : list tok) (m : prog R) (Q : list tok -> R -> Prop) : Prop :=
  match m with
  | Ret r => Q ts r
  | Act a k =>
      ((waits a -> settled ts) /\ forall s other, inv c s (ts ++ other) -> action_ok c a s) /\
      (forall s other o s' r, inv c s (ts ++ other) -> exec c o a s = Some (s', r) ->
         exists ts', inv c s' (ts' ++ other) /\ wp ts' (k r) Q)
  end.

Lemma wp_mono {R} (m : prog R) ts (Q Q' : list tok -> R -> Prop) :
  wp ts m Q -> (forall ts r, Q ts r -> Q' ts r) -> wp ts m Q'.
Proof.
  intros Hm HQ. revert ts Hm. induction m as [r|T a k IH]; intros ts; [apply HQ|].
  intros [Hok Hm]. split; [done|]. intros s other o s' r Hi He.
  destruct (Hm s other o s' r Hi He) as (ts' & ? & ?). exists ts'. eauto.
Qed.

Lemma wp_bind {A B} (m : prog A) (f : A -> prog B) ts Q :
  wp ts m (fun ts r => wp ts (f r) Q) -> wp ts (pbind m f) Q.
Proof.
  revert ts. induction m as [r|T a k IH]; intros ts; [done|].
  intros [Hok Hm]. split; [done|]. intros s other o s' r Hi He.
  destruct (Hm s other o s' r Hi He) as (ts' & ? & ?). exists ts'. eauto.
Qed.

(** The usual rule: show what [m] leaves, then go on from there. *)
Lemma wp_seq {A B} (m : prog A) (f : A -> prog B) ts (P : list tok -> A -> Prop) Q :
  wp ts m P -> (forall ts r, P ts r -> wp ts (f r) Q) -> wp ts (pbind m f) Q.
Proof. intros Hm Hf. apply wp_bind. by eapply wp_mono. Qed.

(** Actions that keep every obligation. *)
Definition quiet {T} (ts : list tok) (a : action T) (P : T -> Prop) : Prop :=
  (forall s other, inv c s (ts ++ other) -> action_ok c a s) /\
  (forall s other o s' r, inv c s (ts ++ other) -> exec c o a s = Some (s', r) ->
     inv c s' (ts ++ other) /\ P r).

Lemma wp_quiet {T} (a : action T) ts (P : T -> Prop) :
  (waits a -> settled ts) -> quiet ts a P -> wp ts (do a) (fun ts' r => ts' = ts /\ P r).
Proof.
  intros Hw [Hok Ha]. split; [by split|]. intros s other o s' r Hi He.
  destruct (Ha s other o s' r Hi He). by exists ts.
Qed.

(** ** Quiet actions *)

Ltac quiet_cases :=
  repeat match goal with
  | H : locked ?s _ = Some _ |- _ => unfold locked in H; destruct (mu s) eqn:?; [done|]
  | H : (_ <$> ?x) = Some _ |- _ => destruct x eqn:?; cbn in H; [|done]
  | H : (_ ≫= _) = Some _ |- _ => apply bind_Some in H as (? & ? & H)
  | H : match ?x with _ => _ end = Some _ |- _ => destruct x eqn:?; try done
  end; simplify_eq.

Ltac quiet_same :=
  split; [done|]; intros s other o s' r Hi He; cbn in He; quiet_cases;
  (split; [first [done | by eapply inv_same; try exact Hi; first [apply Hi | done]]|try done]).

Lemma quiet_AErr ts : quiet ts AErr (fun _ => True).
Proof. quiet_same. Qed.

Lemma quiet_ASetServices ts l : quiet ts (ASetServices l) (fun _ => True).
Proof. quiet_same. Qed.

Lemma quiet_AGetServices ts : quiet ts AGetServices (fun _ => True).
Proof. quiet_same. Qed.

Lemma quiet_ASnapshot ts : quiet ts ASnapshot (fun _ => True).
Proof. quiet_same. Qed.

Lemma quiet_AAccept ts p : quiet ts (AAccept p) (fun _ => True).
Proof. quiet_same. Qed.

Lemma quiet_AWaitServices ts : quiet ts AWaitServices (fun _ => True).
Proof. quiet_same. Qed.

Lemma quiet_AConnClose ts : quiet ts AConnClose (fun _ => True).
Proof. quiet_same. Qed.

Lemma quiet_AOnce ts : quiet ts AOnce (fun _ => True).
Proof. quiet_same. Qed.

Lemma quiet_AOnceDone ts : quiet ts AOnceDone (fun _ => True).
Proof. quiet_same. Qed.

Lemma quiet_AWaitOpened ts p n : quiet ts (AWaitOpened p n) (fun _ => True).
Proof. quiet_same. Qed.

Lemma quiet_AWaitStream ts p n d : quiet ts (AWaitStream p n d) (fun _ => True).
Proof. quiet_same. Qed.

Lemma quiet_ATraffic ts b n m : quiet ts (ATraffic b n m) (fun _ => True).
Proof. quiet_same. Qed.

Lemma quiet_AReadFrame ts : quiet ts AReadFrame (fun _ => True).
Proof. quiet_same. Qed.

Lemma quiet_AWriteFrame ts f : valid f -> quiet ts (AWriteFrame f) (fun _ => True).
Proof. intros Hv. quiet_same. Qed.

Lemma quiet_ATakeAccept ts : quiet ts ATakeAccept (fun _ => True).
Proof.
  split; [done|]. intros s other o s' r Hi He. cbn in He. split; [|done].
  apply list_elem_of_lookup_2 in He. apply elem_of_app in He as [He|He].
  { destruct (ioErr o); [|by apply not_elem_of_nil in He]. apply list_elem_of_singleton in He. by simplify_eq. }
  apply elem_of_app in He as [He|He].
  { destruct (sdone s); [|by apply not_elem_of_nil in He]. apply list_elem_of_singleton in He. by simplify_eq. }
  destruct (accept s); [by apply not_elem_of_nil in He|]. apply list_elem_of_singleton in He. simplify_eq.
  eapply inv_same; try exact Hi; done || apply Hi.
Qed.

Lemma quiet_AControl ts f : valid f -> quiet ts (AControl f) (fun _ => True).
Proof.
  intros Hv. split; [done|]. intros s other o s' r Hi He. cbn in He. split; [|done].
  quiet_cases; try done. eapply inv_same; try exact Hi; try done. cbn.
  apply Forall_app. split; [apply Hi|by constructor].
Qed.

Lemma quiet_AShutdown ts e : quiet ts (AShutdown e) (fun _ => True).
Proof.
  split; [done|]. intros s other o s' r Hi He. cbn in He. unfold shutdownLocked in He. split; [|done].
  quiet_cases. destruct Hi. split; cbn; try done.
  - rewrite map_size_empty. lia.
  - intros i Hin. by right; left.
  - by destruct (mu s).
Qed.

(** ** Streams *)

(** Operations that leave the outgoing side alone. *)
Definition inbound_op {T} (op : streamOp T) : Prop :=
  match op with
  | SWrite _ | SCloseWrite | SReset _ | SNextOutbound => False
  | _ => True
  end.

Lemma runStream_inbound {T} (op : streamOp T) st :
  inbound_op op ->
  let st' := (runStream c op st).1 in
  id st' = id st /\ outbound st' = outbound st /\ scheduled st' = scheduled st /\
  (closed st = true -> closed st' = true).
Proof.
  destruct op; cbn [inbound_op runStream]; intros Hop; try done.
  - unfold Approve. by repeat case_match.
  - unfold Reject. by repeat case_match.
  - unfold markOpened. destruct (closed st) eqn:?; [by split_and!|]. by destruct e.
  - unfold Read. by repeat case_match.
  - unfold receiveData. by repeat case_match.
  - unfold updateSendWindow. by repeat case_match.
  - unfold receiveFIN. by repeat case_match.
  - unfold receiveReset. by repeat case_match.
  - unfold MuxStream.Close. by repeat case_match.
  - by destruct read, write.
Qed.

Lemma quiet_inbound {T} (op : streamOp T) ts p :
  inbound_op op -> quiet ts (AStream p op) (fun _ => True).
Proof.
  intros Hop. split; [done|]. intros s other o s' r Hi He. cbn in He. split; [|done].
  apply bind_Some in He as (st & Hp & He).
  pose proof (runStream_inbound op st Hop) as (Hid & Hob & Hsc & Hcl). cbv zeta in *.
  destruct (runStream c op st) as [st' r'] eqn:Er. simplify_eq. cbn in *.
  eapply (inv_stream c s _ _ p st); try exact Hi; try done.
  - rewrite Hob. pose proof (iv_frames _ _ _ Hi) as Hf. by eapply Forall_lookup_1 in Hf.
  - apply Hi.
  - intros Hin. destruct (iv_sched _ _ _ Hi p st Hp Hin); [left; congruence|right; by apply Hcl].
  - intros Hm. rewrite Hsc, Hob. by eapply iv_live.
Qed.

(** The frames [Write] and [CloseWrite] queue are valid. *)
Lemma Write_frame st p st' t :
  id_ok (id st) -> zlen p <> 0 -> Write (compression c) st p = (st', t) ->
  st' = st /\ (forall n m b, t <> WriteQueued n m b) \/
  exists f n m, valid f /\ id st' = id st /\ outbound st' = outbound st ++ [f] /\ scheduled st' = true /\
    closed st = false /\ t = WriteQueued n m (negb (scheduled st)).
Proof.
  intros Hid Hp. unfold Write. destruct (negb (opened st)); [intros [= <- <-]; by left|].
  destruct (closed st || localWriteClosed st) eqn:Ecl; [intros [= <- <-]; by left|].
  apply orb_false_iff in Ecl as [Hcl _].
  destruct (Z.ltb_spec 0 (sendWindow st)); [|intros [= <- <-]; by left].
  set (maxp := if compression c then MaxDataPayload - 1 else MaxDataPayload). set (k := Z.min _ _). pose proof (zlen_nonneg p).
  assert (0 < maxp <= MaxDataPayload) as Hm by (unfold maxp, MaxDataPayload; destruct (compression c); lia).
  assert (zlen (slice_to p k) = k) as Hk by (apply zlen_slice_to; lia).
  destruct (if compression c then _ else inr (slice_to p k)) as [e|payload] eqn:Ep; [intros [= <- <-]; by left|].
  assert (1 <= zlen payload <= MaxDataPayload) as Hpl.
  { destruct (compression c); [|injection Ep as <-; lia].
    apply encodeCompressedPayload_spec in Ep as (? & ? & _). lia. }
  assert (valid (mkFrame FrameData (id st) payload)) as Hv.
  { unfold valid, Validate. cbn. unfold id_ok in Hid.
    rewrite (proj2 (Z.eqb_neq (id st) 0)), (proj2 (Z.eqb_neq (zlen payload) 0)),
      (proj2 (Z.ltb_ge MaxDataPayload _)) by lia. done. }
  unfold enqueueLocked. cbn [scheduled upd]. destruct (scheduled st) eqn:Es; intros [= <- <-]; right;
    eexists _, _, _; by split_and!.
Qed.

Lemma FIN_valid i : id_ok i -> valid (mkFrame FrameFIN i []).
Proof.
  intros Hi. unfold valid, Validate, id_ok in *. cbn. by rewrite (proj2 (Z.eqb_neq i 0)) by lia.
Qed.

Lemma CloseWrite_frame st st' b :
  id_ok (id st) -> CloseWrite st = (st', b) ->
  st' = st /\ b = false \/
  exists f, valid f /\ id st' = id st /\ outbound st' = outbound st ++ [f] /\ scheduled st' = true /\
    closed st = false /\ b = negb (scheduled st).
Proof.
  intros Hid. unfold CloseWrite.
  destruct (localWriteClosed st || closed st) eqn:Ecl; [intros [= <- <-]; by left|].
  apply orb_false_iff in Ecl as [_ Hcl]. apply FIN_valid in Hid.
  unfold enqueueLocked. cbn [scheduled upd]. destruct (scheduled st) eqn:Es; intros [= <- <-]; right;
    eexists; by split_and!.
Qed.

Lemma stream_facts s ts p st :
  inv c s ts -> heap s !! p = Some st -> id_ok (id st) /\ Forall valid (outbound st).
Proof.
  intros [] Hp. split; [by eapply Forall_lookup_1 in iv_id0|by eapply Forall_lookup_1 in iv_frames0].
Qed.

(** A stream queued a frame: if it was not scheduled, its goroutine now owes
    the scheduler. *)
Lemma inv_enqueue s ts p st st' f :
  inv c s ts -> heap s !! p = Some st -> valid f -> id st' = id st ->
  outbound st' = outbound st ++ [f] -> scheduled st' = true -> closed st = false ->
  inv c (s <| heap := <[p := st']> (heap s) |>)
    (if scheduled st then ts else TSched (id st) :: TPtr p (id st) :: ts).
Proof.
  intros Hi Hp Hv Hid Hob Hsc Hcl. pose proof (stream_facts _ _ _ _ Hi Hp) as [_ Hf].
  destruct (scheduled st) eqn:Es.
  - eapply (inv_stream c s ts); try done.
    + rewrite Hob. apply Forall_app. by split; [|constructor].
    + apply Hi.
    + by left.
    + intros Hm. destruct (iv_live _ _ _ Hi _ _ _ Hm Hp) as [Hl _]. split; [|done]. intros _. by apply Hl.
  - pose proof (inv_learn _ _ _ _ _ Hi Hp) as Hi2.
    assert (id st ∉ ready s ++ scheds ts) as Hn.
    { intros Hin. destruct (iv_sched _ _ _ Hi _ _ Hp Hin); congruence. }
    eapply (inv_stream c s (TPtr p (id st) :: ts)); try done.
    + rewrite Hob. apply Forall_app. by split; [|constructor].
    + intros q i Hq. by apply elem_of_cons in Hq as [|].
    + cbn. rewrite <- Permutation_middle. constructor; [done|apply Hi].
    + intros i Hne. cbn. set_solver.
    + by left.
    + intros _. split; [|done]. intros _. cbn. set_solver.
Qed.

Lemma wp_SWrite ts p data :
  zlen data <> 0 ->
  wp ts (do (AStream p (SWrite data))) (fun ts' r =>
    match r with
    | WriteQueued _ _ true => exists i, ts' = TSched i :: TPtr p i :: ts
    | _ => ts' = ts
    end).
Proof.
  intros Hne. split; [done|]. intros s other o s' r Hi He. cbn in He.
  apply bind_Some in He as (st & Hp & He).
  destruct (Write (compression c) st data) as [st' t] eqn:Ew. simplify_eq.
  apply Write_frame in Ew as [(-> & Hq)|(f & n & m & Hv & Hid & Hob & Hsc & Hcl & ->)];
    [|pose proof (inv_enqueue _ _ _ _ _ _ Hi Hp Hv Hid Hob Hsc Hcl) as Hi'
     |by eapply stream_facts|done].
  - exists ts. rewrite list_insert_id by done. split; [by destruct s|].
    destruct r as [n m b| |]; try done. by specialize (Hq n m b).
  - destruct (scheduled st); cbn; [by exists ts|]. exists (TSched (id st) :: TPtr p (id st) :: ts).
    split; [done|]. by exists (id st).
Qed.

Lemma wp_SCloseWrite ts p :
  wp ts (do (AStream p SCloseWrite)) (fun ts' r =>
    if r : bool then exists i, ts' = TSched i :: TPtr p i :: ts else ts' = ts).
Proof.
  split; [done|]. intros s other o s' r Hi He. cbn in He.
  apply bind_Some in He as (st & Hp & He).
  destruct (CloseWrite st) as [st' t] eqn:Ew. simplify_eq.
  apply CloseWrite_frame in Ew as [(-> & ->)|(f & Hv & Hid & Hob & Hsc & Hcl & ->)];
    [|pose proof (inv_enqueue _ _ _ _ _ _ Hi Hp Hv Hid Hob Hsc Hcl) as Hi'|by eapply stream_facts].
  - exists ts. rewrite list_insert_id by done. split; [by destruct s|done].
  - destruct (scheduled st); cbn; [by exists ts|]. exists (TSched (id st) :: TPtr p (id st) :: ts).
    split; [done|]. by exists (id st).
Qed.

Lemma quiet_SReset ts p e : quiet ts (AStream p (SReset e)) (fun _ => True).
Proof.
  split; [done|]. intros s other o s' r Hi He. cbn in He. split; [|done].
  apply bind_Some in He as (st & Hp & He). unfold Reset in He.
  destruct (closed st) eqn:Ecl; simplify_eq; [rewrite list_insert_id by done; by destruct s|].
  eapply (inv_stream c s _ _ p st); try exact Hi; try done.
  - apply Hi.
  - by right.
Qed.

Lemma wp_SNextOutbound ts p i :
  TPtr p i ∈ ts ->
  wp (TSched i :: ts) (do (AStream p SNextOutbound)) (fun ts' r =>
    match r with
    | None => ts' = ts
    | Some (f, ORequeue) => valid f /\ ts' = TSched i :: ts
    | Some (f, _) => valid f /\ ts' = ts
    end).
Proof.
  intros Hptr. split; [done|]. intros s other o s' r Hi He. cbn in He.
  apply bind_Some in He as (st & Hp & He).
  pose proof (stream_facts _ _ _ _ Hi Hp) as [Hok Hf].
  destruct (iv_ptr _ _ _ Hi p i) as (st0 & Hp0 & Hid); [by apply elem_of_cons; right; apply elem_of_app; left|].
  rewrite Hp in Hp0. injection Hp0 as <-.
  pose proof (iv_nodup _ _ _ Hi) as Hnd. cbn in Hnd. rewrite <- Permutation_middle in Hnd.
  apply NoDup_cons in Hnd as [Hni Hnd].
  assert (forall st', id st' = id st -> outbound st' = [] -> scheduled st' = false ->
    inv c (s <| heap := <[p := st']> (heap s) |>) (ts ++ other)) as Hdrop.
  { intros st' Hid' Hob Hsc. eapply (inv_stream c s _ _ p st); try exact Hi; try done.
    - by rewrite Hob.
    - intros q j Hq. by right.
    - intros j Hne. cbn. rewrite Hid in Hne. set_solver.
    - by rewrite Hid.
    - rewrite Hsc, Hob. by split. }
  unfold MuxStream.nextOutbound in He. destruct (outbound st) as [|x rest] eqn:Eo.
  { simplify_eq. exists ts. split; [|done]. by apply Hdrop. }
  apply Forall_cons in Hf as [Hx Hrest].
  destruct (Z.ltb_spec 0 (zlen rest)) as [Hpos|Hnil]; cbn in He.
  - simplify_eq. exists (TSched (id st) :: ts). split; [|done].
    eapply (inv_stream c s _ _ p st); try exact Hi; try done; try apply Hi.
    + intros Hin. cbn. by eapply iv_sched.
    + intros Hm. destruct (iv_live _ _ _ Hi _ _ _ Hm Hp) as [Ha Hb]. rewrite Eo in Hb.
      split; [done|]. intros _. by apply Hb.
  - assert (rest = []) as -> by (destruct rest; [done|zl]).
    destruct (closeAfterDrain st); simplify_eq; (exists ts; split; [by apply Hdrop|done]).
Qed.

(** ** The scheduler queue *)

Lemma inv_move s ts ts' r' :
  inv c s ts -> opens ts' = opens ts -> (forall p i, TPtr p i ∈ ts' -> TPtr p i ∈ ts) ->
  r' ++ scheds ts' ≡ₚ ready s ++ scheds ts -> zlen r' <= maxStreams c ->
  (forall i, i ∈ r' -> is_Some (streams s !! i) \/ sclosed s = true \/ exists n h, (i, n, h) ∈ locks ts') ->
  (if mu s then exists l, locks ts' = [l] /\ lock_ok (maxStreams c) (s <| ready := r' |>) l else locks ts' = []) ->
  inv c (s <| ready := r' |>) ts'.
Proof.
  intros [] Ho Hptr Hperm Hcap Hr Hl. split; cbn; rewrite ?Ho; try done.
  - by rewrite Hperm.
  - intros p st Hp Hin. rewrite Hperm in Hin. by eapply iv_sched0.
  - intros i Hin. rewrite Hperm in Hin. by apply iv_known0.
  - intros i p st Hm Hp. destruct (iv_live0 i p st Hm Hp) as [Ha Hb]. split; [|done].
    intros Hs. rewrite Hperm. by apply Ha.
  - intros p i Hi. by apply iv_ptr0, Hptr.
Qed.

(** A stream that is not in the map needs no scheduling. *)
Lemma inv_drop_sched s ts i : inv c s (TSched i :: ts) -> streams s !! i = None -> inv c s ts.
Proof.
  intros [] Hn. cbn in *. rewrite <- Permutation_middle in iv_nodup0. apply NoDup_cons in iv_nodup0 as [Hi Hnd].
  split; try done.
  - intros p st Hp Hin. eapply iv_sched0; [done|]. set_solver.
  - intros j Hin. apply iv_known0. set_solver.
  - intros j p st Hm Hp. destruct (iv_live0 j p st Hm Hp) as [Ha Hb]. split; [|done]. intros Hs.
    specialize (Ha Hs). assert (j <> i) by congruence. set_solver.
  - intros p j Hj. apply iv_ptr0. by right.
Qed.

(** Distinct live ids fit into the map. *)
Lemma nodup_size (l : list Z) (m : gmap Z nat) :
  NoDup l -> (forall i, i ∈ l -> is_Some (m !! i)) -> zlen l <= Z.of_nat (size m).
Proof.
  intros Hnd Hl. unfold zlen. rewrite <- (size_list_to_set (C := gset Z) l) by done.
  rewrite <- (size_dom (D := gset Z) m). apply inj_le, subseteq_size. intros i Hi%elem_of_list_to_set.
  by apply elem_of_dom, Hl.
Qed.

Lemma schedule_room s ts i p :
  inv c s (TSched i :: ts) -> mu s = false -> streams s !! i = Some p -> zlen (ready s) < maxStreams c.
Proof.
  intros [] Hmu Hi. rewrite Hmu in iv_lock0. cbn in *.
  rewrite <- Permutation_middle in iv_nodup0. apply NoDup_cons in iv_nodup0 as [Hni Hnd].
  assert (zlen (i :: ready s) <= Z.of_nat (size (streams s))) as Hsz.
  { apply nodup_size.
    - constructor; [set_solver|]. by apply NoDup_app in Hnd as [? _].
    - intros j [->|Hj]%elem_of_cons; [by eexists|].
      destruct (iv_ready0 j Hj) as [|[Hc|(n & h & Hn)]]; [done| |].
      + rewrite iv_closed0 in Hi by done. by rewrite lookup_empty in Hi.
      + rewrite iv_lock0 in Hn. by apply not_elem_of_nil in Hn. }
  rewrite zlen_cons in Hsz. lia.
Qed.

(** [schedule] finds room in the queue, whatever the others do. *)
Lemma wp_ASchedule ts p i :
  TPtr p i ∈ ts ->
  wp (TSched i :: ts) (do (ASchedule p)) (fun ts' r => ts' = ts /\ r <> SchedFull).
Proof.
  intros Hptr.
  assert (forall s other st, inv c s (TSched i :: ts ++ other) -> heap s !! p = Some st -> id st = i) as Hid.
  { intros s other st Hi Hp. destruct (iv_ptr _ _ _ Hi p i) as (st0 & Hp0 & ?); [|by simplify_eq].
    apply elem_of_cons; right. apply elem_of_app. by left. }
  split; [split; [done|]|].
  - intros s other Hi Hmu o r. unfold scheduleLocked. intros (st & Hp & He)%bind_Some.
    rewrite (Hid s other st) in He by done. case_bool_decide as Hl; cbn in He; [|by simplify_eq].
    apply schedule_room with (i := i) (p := p) in Hi; [|done|done].
    rewrite (proj2 (Z.ltb_lt _ _)) in He by done.
    destruct (select o (when (sdone s) SchedDone ++ when true SchedQueued)) as [q|] eqn:Esel.
    + unfold select in Esel. apply list_elem_of_lookup_2 in Esel.
      destruct q; simplify_eq; try done. by destruct (sdone s); set_solver.
    + exfalso. unfold select in Esel. apply lookup_ge_None in Esel.
      assert (pick o `mod` length (when (sdone s) SchedDone ++ [SchedQueued]) <
        length (when (sdone s) SchedDone ++ [SchedQueued]))%nat; [|cbn in *; lia].
      apply Nat.mod_upper_bound. rewrite length_app. cbn. lia.
  - intros s other o s' r Hi He. cbn in He. unfold locked in He. destruct (mu s) eqn:Hmu; [done|].
    unfold scheduleLocked in He. apply bind_Some in He as (st & Hp & He).
    pose proof (Hid s other st Hi Hp) as Hst. rewrite Hst in He.
    assert (forall j, streams s !! i = Some j -> j = p) as Huniq.
    { intros j Hj. destruct (iv_map _ _ _ Hi _ _ Hj) as (st' & Hp' & Hid').
      eapply heap_unique; [apply Hi|done|done|congruence]. }
    exists ts. case_bool_decide as Hl; cbn in He.
    2:{ injection He as <- <-. split; [|done]. eapply inv_drop_sched; [exact Hi|].
        destruct (streams s !! i) as [j|] eqn:Ej; [|done]. by rewrite (Huniq j eq_refl) in Hl. }
    pose proof (schedule_room _ _ _ _ Hi Hmu Hl) as Hroom. rewrite (proj2 (Z.ltb_lt _ _)) in He by done.
    assert (sdone s = false) as Hd.
    { destruct (sdone s) eqn:Ed; [|done]. apply (iv_done _ _ _ Hi) in Ed.
      rewrite (iv_closed _ _ _ Hi Ed) in Hl. by rewrite lookup_empty in Hl. }
    assert (select o (when (sdone s) SchedDone ++ when true SchedQueued) = Some SchedQueued) as Hsel.
    { rewrite Hd. unfold select. cbn [when app length]. by rewrite Nat.mod_1_r. }
    rewrite Hsel in He. injection He as <- <-.
    split; [|done]. pose proof (iv_lock _ _ _ Hi) as Hlk. rewrite Hmu in Hlk. cbn in Hlk.
    eapply inv_move; try exact Hi; try done.
    + intros q j Hq. by right.
    + cbn. by rewrite <- app_assoc.
    + rewrite zlen_app. cbn. zl.
    + intros j [Hj| ->%list_elem_of_singleton]%elem_of_app; [|by left].
      destruct (iv_ready _ _ _ Hi j Hj) as [|[|(n & h & Hn)]]; [by left|by right; left|].
      cbn in Hn. rewrite Hlk in Hn. by apply not_elem_of_nil in Hn.
    + by rewrite Hmu.
Qed.

(** The rotation of [removeStream]. *)
Lemma wp_ARemove ts i :
  wp ts (do (ARemove i)) (fun ts' n => ts' = TLock i n None :: ts).
Proof.
  split; [done|]. intros s other o s' r Hi He. cbn in He. unfold locked in He.
  destruct (mu s) eqn:Hmu; [done|]. simplify_eq. exists (TLock i (length (ready s)) None :: ts). split; [|done].
  assert (Z.of_nat (size (delete i (streams s))) <= maxStreams c) as Hsz.
  { pose proof (iv_size _ _ _ Hi). rewrite map_size_delete. destruct (streams s !! i); [lia|done]. }
  destruct Hi. rewrite Hmu in iv_lock0. split; cbn in *; try done.
  - intros j q Hq. apply lookup_delete_Some in Hq as [_ Hq]. by apply iv_map0.
  - intros Hc. by rewrite iv_closed0, delete_empty.
  - intros j Hj. destruct (decide (j = i)) as [->|Hne].
    + right; right. exists (length (ready s)), None. by left.
    + rewrite lookup_delete_ne by done. destruct (iv_ready0 j Hj) as [|[|(n & h & Hn)]]; [by left|by right; left|].
      rewrite iv_lock0 in Hn. by apply not_elem_of_nil in Hn.
  - unfold locks in iv_lock0. rewrite iv_lock0. eexists. split; [done|]. cbn. rewrite lookup_delete_eq, drop_all.
    split_and!; [done|by apply not_elem_of_nil|lia].
  - intros j q st Hm. apply lookup_delete_Some in Hm as [_ Hm]. by apply iv_live0.
  - intros q j [|Hq]%elem_of_cons; [done|]. by apply iv_ptr0.
Qed.

Lemma lock_facts s ts i n h :
  inv c s (TLock i n h :: ts) ->
  mu s = true /\ locks ts = [] /\ lock_ok (maxStreams c) s (i, n, h) /\
  (forall j, j ∈ ready s -> is_Some (streams s !! j) \/ sclosed s = true \/ j = i).
Proof.
  intros []. cbn in iv_lock0. destruct (mu s); [|done].
  destruct iv_lock0 as (l & Hl & Hok). injection Hl as <- Hl. split_and!; try done.
  intros j Hj. destruct (iv_ready0 j Hj) as [|[|(m & h' & Hm)]]; [by left|by right; left|].
  change (locks (TLock i n h :: ts)) with ((i, n, h) :: locks ts) in Hm. unfold locks in Hm. rewrite Hl in Hm.
  apply list_elem_of_singleton in Hm. right; right. congruence.
Qed.

(** A goroutine moves on in its rotation. *)
Lemma inv_rotate s ts ts' i n h n' h' r' :
  inv c s (TLock i n h :: ts) ->
  opens ts' = opens ts -> locks ts' = locks ts -> (forall p j, TPtr p j ∈ ts' -> TPtr p j ∈ ts) ->
  r' ++ scheds ts' ≡ₚ ready s ++ scheds ts ->
  (forall j, j ∈ r' -> is_Some (streams s !! j) \/ sclosed s = true \/ j = i) ->
  lock_ok (maxStreams c) (s <| ready := r' |>) (i, n', h') ->
  inv c (s <| ready := r' |>) (TLock i n' h' :: ts').
Proof.
  intros Hi Ho Hl Hptr Hperm Hr Hok. pose proof (lock_facts _ _ _ _ _ Hi) as (Hmu & Hnil & _).
  assert (locks (TLock i n' h' :: ts') = [(i, n', h')]) as Hlk.
  { change (locks (TLock i n' h' :: ts')) with ((i, n', h') :: locks ts'). by rewrite Hl, Hnil. }
  eapply inv_move; try exact Hi; try done.
  - intros p j [|Hq]%elem_of_cons; [done|]. right. by apply Hptr.
  - destruct Hok as (_ & _ & Hc). cbn in Hc. destruct h'; lia.
  - intros j Hj. rewrite Hlk. destruct (Hr j Hj) as [|[| ->]]; [by left|by right; left|].
    right; right. exists n', h'. by apply list_elem_of_singleton.
  - rewrite Hmu. by exists (i, n', h').
Qed.

Lemma same_ready s r : ready s = r -> s <| ready := r |> = s.
Proof. intros <-. by destruct s. Qed.

Lemma wp_ARotateTake ts i n :
  wp (TLock i (S n) None :: ts) (do ARotateTake) (fun ts' r =>
    match r with
    | Some j => if j =? i then ts' = TLock i n None :: ts else ts' = TLock i n (Some j) :: TSched j :: ts
    | None => ts' = TLock i n None :: ts
    end).
Proof.
  split; [done|]. intros s other o s' r Hi He. cbn in He.
  pose proof (lock_facts _ _ _ _ _ Hi) as (Hmu & Hnil & (Hn & Hd & Hc) & Hlive).
  destruct (ready s) as [|j rest] eqn:Er; simplify_eq.
  - exists (TLock i n None :: ts). split; [|done]. rewrite <- (same_ready s' []) by done.
    eapply inv_rotate; try exact Hi; try done.
    + by rewrite Er.
    + split_and!; [done|cbn; rewrite drop_nil; apply not_elem_of_nil|done].
  - cbn in Hd. rewrite zlen_cons in Hc.
    assert (forall h, (h = None \/ j <> i /\ h = Some j) ->
      inv c (s <| ready := rest |>) (TLock i n h :: TSched j :: ts ++ other)) as Hi'.
    { intros h Hh. eapply (inv_rotate s (ts ++ other)); try exact Hi; try done.
      - by intros p q [|Hq]%elem_of_cons.
      - rewrite Er. cbn. by rewrite <- Permutation_middle.
      - intros q Hq. apply Hlive. by right.
      - split_and!; [done..|]. destruct Hh as [->|[Hne ->]]; cbn; [lia|]. split; [lia|].
        destruct (Hlive j) as [|[|]]; [by left|by left|by right|done]. }
    destruct (Z.eqb_spec j i) as [->|Hne].
    + exists (TLock i n None :: ts). split; [|by cbn; rewrite Z.eqb_refl].
      specialize (Hi' None (or_introl eq_refl)). rewrite Permutation_swap in Hi'.
      by apply inv_drop_sched in Hi'.
    + exists (TLock i n (Some j) :: TSched j :: ts). split; [by apply Hi'; right|].
      cbn. by rewrite (proj2 (Z.eqb_neq _ _)).
Qed.

Lemma wp_ARotatePut ts i j n :
  j <> i ->
  wp (TLock i n (Some j) :: TSched j :: ts) (do (ARotatePut j)) (fun ts' _ => ts' = TLock i n None :: ts).
Proof.
  intros Hne. split; [split; [done|]|].
  - intros s other Hi. apply lock_facts in Hi as (_ & _ & (_ & _ & Hc & _) & _). cbn. lia.
  - intros s other o s' r Hi He. cbn in He.
    pose proof (lock_facts _ _ _ _ _ Hi) as (Hmu & Hnil & (Hn & Hd & Hc & Hj) & Hlive).
    rewrite (proj2 (Z.ltb_lt _ _)) in He by lia. simplify_eq.
    exists (TLock i n None :: ts). split; [|done].
    eapply (inv_rotate s (TSched j :: ts ++ other)); try exact Hi; try done.
    + intros p q Hq. by right.
    + cbn. by rewrite <- app_assoc.
    + intros q [Hq| ->%list_elem_of_singleton]%elem_of_app; [by apply Hlive|]. destruct Hj; auto.
    + split_and!; [done| |cbn; rewrite zlen_app; zl]. cbn. rewrite drop_app.
      intros [Hq|Hq]%elem_of_app; [done|].
      destruct (n - length (ready s))%nat; cbn in Hq.
      * apply list_elem_of_singleton in Hq. congruence.
      * rewrite drop_nil in Hq. by apply not_elem_of_nil in Hq.
Qed.

Lemma wp_AUnlock ts i : wp (TLock i 0 None :: ts) (do AUnlock) (fun ts' _ => ts' = ts).
Proof.
  split; [done|]. intros s other o s' r Hi He. cbn in He. simplify_eq. exists ts. split; [|done].
  pose proof (lock_facts _ _ _ _ _ Hi) as (Hmu & Hnil & (Hn & Hd & _) & Hlive).
  destruct Hi. split; cbn; try done.
  - intros j Hj. destruct (Hlive j Hj) as [|[| ->]]; [by left|by right; left|done].
  - intros q j Hq. apply iv_ptr0. by right.
Qed.

(** ** Looking streams up, opening them *)

Lemma wp_AStreamID ts p :
  wp ts (do (AStreamID p)) (fun ts' i => ts' = TPtr p i :: ts /\ id_ok i).
Proof.
  split; [done|]. intros s other o s' r Hi He. cbn in He.
  destruct (heap s !! p) as [st|] eqn:Hp; [|done]. cbn in He. injection He as <- <-.
  exists (TPtr p (id st) :: ts). split; [by apply inv_learn|]. split; [done|]. by eapply stream_facts.
Qed.

Lemma wp_ALookup ts i :
  wp ts (do (ALookup i)) (fun ts' r =>
    match r.1 with Some p => ts' = TPtr p i :: ts | None => ts' = ts end).
Proof.
  split; [done|]. intros s other o s' r Hi He. cbn in He. unfold locked in He.
  destruct (mu s); [done|]. injection He as <- <-. destruct (streams s !! i) as [p|] eqn:Hm; [|by exists ts].
  destruct (iv_map _ _ _ Hi _ _ Hm) as (st & Hp & <-). exists (TPtr p (id st) :: ts).
  split; [by apply inv_learn|done].
Qed.

(** The write loop's lookup: no stream, no obligation. *)
Lemma wp_ALookup_sched ts i :
  wp (TSched i :: ts) (do (ALookup i)) (fun ts' r =>
    match r.1 with Some p => ts' = TSched i :: TPtr p i :: ts | None => ts' = ts end).
Proof.
  split; [done|]. intros s other o s' r Hi He. cbn in He. unfold locked in He.
  destruct (mu s); [done|]. injection He as <- <-. destruct (streams s !! i) as [p|] eqn:Hm.
  - destruct (iv_map _ _ _ Hi _ _ Hm) as (st & Hp & <-). exists (TSched (id st) :: TPtr p (id st) :: ts).
    split; [|done]. pose proof (inv_learn _ _ _ _ _ Hi Hp) as Hi'. cbn [app] in Hi'. by rewrite Permutation_swap in Hi'.
  - exists ts. split; [|done]. by eapply inv_drop_sched.
Qed.

Lemma inv_new_stream s ts i svc l n :
  inv c s ts -> mu s = false -> id_ok i -> (i ∉ id <$> heap s) -> (i ∉ opens ts) ->
  Z.of_nat (size (streams s)) < maxStreams c -> sclosed s = false ->
  (client c = true -> nextID s = i /\ i mod 2 = 1 /\ (n = 0 \/ n = i + 2 /\ id_ok n)) ->
  inv c (s <| nextID := n |> <| lastID := l |>
           <| heap := heap s ++ [(newStream i) <| service := svc |>] |>
           <| streams := <[i := length (heap s)]> (streams s) |>)
    (TPtr (length (heap s)) i :: ts).
Proof.
  intros [] Hmu Hi Hfresh Hop Hsz Hcl Hnext. rewrite Hmu in iv_lock0.
  assert (forall q st, (heap s ++ [(newStream i) <| service := svc |>]) !! q = Some st ->
    heap s !! q = Some st \/ q = length (heap s) /\ st = (newStream i) <| service := svc |>) as Hback.
  { intros q st [Hq|[Hge Hq]]%lookup_app_Some; [by left|]. right.
    apply list_lookup_singleton_Some in Hq as [Hq <-]. split; [lia|done]. }
  assert (forall q j, (exists st, heap s !! q = Some st /\ id st = j) ->
    exists st, (heap s ++ [(newStream i) <| service := svc |>]) !! q = Some st /\ id st = j) as Hfwd.
  { intros q j (st & Hq & Hj). exists st. split; [|done]. by apply lookup_app_l_Some. }
  assert (forall q st, heap s !! q = Some st -> id st <> i) as Hne.
  { intros q st Hq <-. apply Hfresh, list_elem_of_fmap. exists st. split; [done|]. by eapply list_elem_of_lookup_2. }
  split; cbn; rewrite ?fmap_app; cbn; try done.
  - apply NoDup_app. split_and!; [done|by intros j Hj ->%list_elem_of_singleton|apply NoDup_singleton].
  - apply Forall_app. by split; [|constructor].
  - apply Forall_app. by split; [|constructor].
  - intros j q [[<- <-]|[? Hq]]%lookup_insert_Some; [|by apply Hfwd, iv_map0].
    eexists. by rewrite list_lookup_middle.
  - rewrite map_size_insert_None; [lia|]. destruct (streams s !! i) as [q|] eqn:Hq; [|done].
    destruct (iv_map0 _ _ Hq) as (st & Hp & Heq). by apply Hne in Hp.
  - by rewrite Hcl.
  - intros j Hj. destruct (iv_ready0 j Hj) as [|[|]]; [left|by right; left|by right; right].
    destruct (decide (i = j)) as [->|]; [by rewrite lookup_insert_eq|by rewrite lookup_insert_ne].
  - by rewrite Hmu.
  - intros q st [Hq|[-> ->]]%Hback Hin; [by eapply iv_sched0|]. by apply iv_known0 in Hin.
  - intros j Hj. apply elem_of_app. left. by apply iv_known0.
  - intros j q st [[<- Heq]|[? Hm]]%lookup_insert_Some [Hq|[Heq' ->]]%Hback; try subst q; try done.
    + apply lookup_lt_Some in Hq. lia.
    + by eapply iv_live0.
  - intros Hc Hn. destruct (Hnext Hc) as (Hid & Hodd & Hn'). destruct iv_next0 as (H1 & H2 & H3); [done|unfold id_ok in *; lia|].
    destruct Hn' as [|[-> Hok]]; [done|]. split; [|split; [done|]].
    + by rewrite <- Hodd, <- (Z.mod_add i 1 2) by lia.
    + apply Forall_app. split; [|constructor; [cbn; lia|done]].
      eapply Forall_impl; [exact H3|]. cbn. intros st [? ?]. lia.
  - destruct iv_opens0 as (? & ? & Hf). split_and!; try done. intros j Hj.
    rewrite not_elem_of_app, list_elem_of_singleton. split; [by apply Hf|by intros ->].
  - intros q j [[= -> ->]|Hq]%elem_of_cons; [|by apply Hfwd, iv_ptr0].
    eexists. by rewrite list_lookup_middle.
Qed.

Lemma wp_AOpen ts :
  client c = true ->
  wp ts (do AOpen) (fun ts' r =>
    match r with inr p => exists i, ts' = TPtr p i :: ts | inl _ => ts' = ts end).
Proof.
  intros Hc. split; [done|]. intros s other o s' r Hi He. cbn in He. unfold locked in He.
  destruct (mu s) eqn:Hmu; [done|]. injection He as He. unfold openLocked in He.
  destruct (sclosed s) eqn:Hcl; [injection He as <- <-; by exists ts|].
  destruct (Z.leb_spec (maxStreams c) (Z.of_nat (size (streams s)))) as [|Hsz]; [injection He as <- <-; by exists ts|].
  destruct (Z.eqb_spec (nextID s) 0) as [|Hne]; [injection He as <- <-; by exists ts|].
  injection He as <- <-. destruct (iv_next _ _ _ Hi Hc Hne) as (Hodd & Hok & Hlt).
  exists (TPtr (length (heap s)) (nextID s) :: ts). split; [|by exists (nextID s)].
  apply (inv_new_stream s (ts ++ other) (nextID s) ""); try done.
  - intros (st & Heq & Hst)%list_elem_of_fmap. rewrite Forall_forall in Hlt.
    destruct (Hlt st Hst) as [? _]. lia.
  - rewrite (iv_client _ _ _ Hi Hc). apply not_elem_of_nil.
  - intros _. split; [done|]. split; [done|]. unfold id_ok, max_u32 in *.
    destruct (Z.eqb_spec (nextID s) (2 ^ 32 - 1)); [by left|right].
    assert (nextID s <> 2 ^ 32 - 2) by (intros Heq; rewrite Heq in Hodd; done).
    rewrite u32_id by lia. lia.
Qed.

Lemma wp_AHandleOpen ts f :
  client c = false ->
  wp (TOpen (StreamID f) :: ts) (do (AHandleOpen f)) (fun ts' r =>
    match r with OpenInserted p => ts' = TPtr p (StreamID f) :: ts | _ => ts' = ts end).
Proof.
  intros Hc. split; [done|]. intros s other o s' r Hi He. cbn in He. unfold locked in He.
  destruct (mu s) eqn:Hmu; [done|]. injection He as He. unfold handleOpenLocked in He.
  pose proof (iv_opens _ _ _ Hi) as (Hnd & Hok & Hfresh). cbn in Hnd, Hok, Hfresh.
  apply NoDup_cons in Hnd as [Hni Hnd]. apply Forall_cons in Hok as [Hok Hoks].
  assert (inv c s (ts ++ other)) as Hi'.
  { clear He. destruct Hi. split; try done.
    - split_and!; [done..|]. intros i Hin. apply Hfresh. by right.
    - by rewrite Hc.
    - intros p i Hin. apply iv_ptr0. by right. }
  destruct (sclosed s) eqn:Hcl; [injection He as <- <-; by exists ts|].
  case_bool_decide; [injection He as <- <-; by exists ts|].
  cbv zeta in He. change (streams (s <| lastID := _ |>)) with (streams s) in He.
  destruct (Z.leb_spec (maxStreams c) (Z.of_nat (size (streams s)))) as [|Hsz].
  { injection He as <- <-. exists ts. split; [|done]. eapply inv_same; try exact Hi'; done || apply Hi'. }
  injection He as <- <-. exists (TPtr (length (heap s)) (StreamID f) :: ts). split; [|done].
  apply (inv_new_stream s (ts ++ other) (StreamID f) (bytes_str (Payload f)) _ (nextID s)); try done.
  - apply Hfresh. by left.
  - by rewrite Hc.
Qed.

Lemma take_case s ts t s' :
  inv c s ts -> (s', t) ∈ takeCases s ->
  inv c s' ts /\ match t with TakeFrame f => valid f | TakeReady _ => False | TakeDone => True end.
Proof.
  intros Hi [Ht|Ht]%elem_of_app.
  - destruct (sdone s); [|by apply not_elem_of_nil in Ht]. apply list_elem_of_singleton in Ht. by simplify_eq.
  - pose proof (iv_control _ _ _ Hi) as Hv. destruct (control s) as [|f rest]; [by apply not_elem_of_nil in Ht|].
    apply list_elem_of_singleton in Ht. simplify_eq. apply Forall_cons in Hv as [Hf Hrest].
    split; [|done]. eapply inv_same; try exact Hi; done.
Qed.

Lemma quiet_ATakeControl ts :
  quiet ts ATakeControl (fun r =>
    match r with Some (TakeFrame f) => valid f | Some (TakeReady _) => False | _ => True end).
Proof.
  split; [done|]. intros s other o s' r Hi He. cbn in He.
  destruct (select o (takeCases s)) as [[s1 t]|] eqn:Hs; injection He as <- <-; [|done].
  apply list_elem_of_lookup_2 in Hs. destruct (take_case _ _ _ _ Hi Hs). split; [done|]. by destruct t.
Qed.

Lemma wp_ATake ts :
  settled ts -> wp ts (do ATake) (fun ts' r =>
    match r with
    | TakeDone => ts' = ts
    | TakeFrame f => ts' = ts /\ valid f
    | TakeReady i => ts' = TSched i :: ts
    end).
Proof.
  intros Hts. split; [done|]. intros s other o s' r Hi He. cbn in He.
  apply list_elem_of_lookup_2 in He. apply elem_of_app in He as [He|He].
  { destruct (take_case _ _ _ _ Hi He). exists ts. split; [done|]. by destruct r. }
  unfold readyCases in He. destruct (ready s) as [|i rest] eqn:Er; [by apply not_elem_of_nil in He|].
  apply list_elem_of_singleton in He. injection He as -> ->. exists (TSched i :: ts). split; [|done].
  pose proof (iv_cap _ _ _ Hi) as Hcap. rewrite Er, zlen_cons in Hcap.
  eapply inv_move; try exact Hi; try done.
  - by intros p j [|Hq]%elem_of_cons.
  - rewrite Er. cbn. by rewrite <- Permutation_middle.
  - lia.
  - intros j Hj. apply (iv_ready _ _ _ Hi). rewrite Er. by right.
  - pose proof (iv_lock _ _ _ Hi) as Hl. destruct (mu s); [|done].
    destruct Hl as ([[j n] h] & Hl & Hn & Hd & Hc). exists (j, n, h). split; [done|].
    split_and!; [done| |].
    + cbn. intros Hin. apply Hd. rewrite Er. destruct n; cbn in *; [by right|].
      rewrite <- (take_drop 1 (drop n rest)). apply elem_of_app. right. rewrite drop_drop.
      by replace (n + 1)%nat with (S n) by lia.
    + cbn. rewrite Er, zlen_cons in Hc. destruct h; [split; [lia|apply Hc]|lia].
Qed.

(** ** Programs *)

#[local] Arguments wp : simpl never.
#[local] Arguments pbind : simpl never.

(** What a program that meets its obligations leaves: what it got, and
    knowledge about heap positions. *)
Definition is_ptr (t : tok) : Prop := match t with TPtr _ _ => True | _ => False end.
Definition more (ts ts' : list tok) : Prop := exists l, Forall is_ptr l /\ ts' = l ++ ts.

Lemma more_refl ts : more ts ts.
Proof. by exists []. Qed.

Lemma more_ptr p i ts : more ts (TPtr p i :: ts).
Proof. exists [TPtr p i]. split; [by constructor|done]. Qed.

Lemma more_trans ts1 ts2 ts3 : more ts1 ts2 -> more ts2 ts3 -> more ts1 ts3.
Proof.
  intros (l & Hl & ->) (k & Hk & ->). exists (k ++ l). split; [by apply Forall_app|by rewrite app_assoc].
Qed.

Lemma more_in ts ts' t : more ts ts' -> t ∈ ts -> t ∈ ts'.
Proof. intros (l & _ & ->) Ht. apply elem_of_app. by right. Qed.

Lemma more_scheds ts ts' : more ts ts' -> scheds ts' = scheds ts /\ locks ts' = locks ts.
Proof.
  intros (l & Hl & ->). rewrite scheds_app, locks_app.
  assert (scheds l = [] /\ locks l = []) as [-> ->]; [|done].
  induction Hl as [|[] l ? _ IH]; done.
Qed.

Lemma settled_more ts ts' : more ts ts' -> settled ts -> settled ts'.
Proof. intros Hm [? ?]. apply more_scheds in Hm as [? ?]. split; congruence. Qed.

Definition keeps {R} (m : prog R) (P : R -> Prop) : Prop :=
  forall ts, settled ts -> wp ts m (fun ts' r => more ts ts' /\ P r).

Lemma keeps_ret {R} (r : R) (P : R -> Prop) : P r -> keeps (Ret r) P.
Proof. intros Hp ts _. split; [apply more_refl|done]. Qed.

Lemma keeps_seq {A B} (m : prog A) (f : A -> prog B) P Q :
  keeps m P -> (forall r, P r -> keeps (f r) Q) -> keeps (pbind m f) Q.
Proof.
  intros Hm Hf ts Hs. eapply wp_seq; [by apply Hm|]. intros ts1 r [Hts Hp]. cbn.
  eapply wp_mono; [apply Hf; [done|by eapply settled_more]|]. intros ts2 r2 [? ?]. split; [by eapply more_trans|done].
Qed.

Lemma keeps_quiet {T} (a : action T) P : (forall ts, quiet ts a P) -> keeps (do a) P.
Proof.
  intros Ha ts Hs. eapply wp_mono; [by apply wp_quiet|]. intros ts' r [-> ?]. split; [apply more_refl|done].
Qed.

Lemma keeps_weaken {R} (m : prog R) (P Q : R -> Prop) : keeps m P -> (forall r, P r -> Q r) -> keeps m Q.
Proof. intros Hm HPQ ts Hs. eapply wp_mono; [by apply Hm|]. intros ? ? [? ?]. eauto. Qed.

Lemma keeps_AStreamID p : keeps (do (AStreamID p)) id_ok.
Proof.
  intros ts _. eapply wp_mono; [apply wp_AStreamID|]. intros ts' i [-> ?]. split; [apply more_ptr|done].
Qed.

Lemma keeps_ALookup i : keeps (do (ALookup i)) (fun _ => True).
Proof.
  intros ts _. eapply wp_mono; [apply wp_ALookup|]. cbn.
  intros ts' [[p|] b]; cbn; intros ->; (split; [|done]); [apply more_ptr|apply more_refl].
Qed.

Create HintDb keeps.
#[local] Hint Resolve quiet_AErr quiet_ASetServices quiet_AGetServices quiet_ASnapshot quiet_AAccept
  quiet_AWaitServices quiet_AConnClose quiet_AOnce quiet_AOnceDone quiet_AWaitOpened quiet_AWaitStream
  quiet_ATraffic quiet_AWriteFrame quiet_ATakeAccept quiet_AControl quiet_AShutdown quiet_SReset : keeps.
#[local] Hint Extern 1 (quiet _ (AStream _ _) _) => (apply quiet_inbound; exact I) : keeps.
#[local] Hint Resolve keeps_AStreamID keeps_ALookup : keeps.
#[local] Hint Extern 2 (keeps (do _) _) => (apply keeps_quiet; intros; solve [auto with keeps]) : keeps.

(** One bind, whose first part has a rule in the database. *)
Ltac kstep := eapply keeps_seq; [solve [eauto with keeps]|intros ? ?].
(** A final program or value. *)
Ltac kdone := first [apply keeps_ret; done | solve [eauto with keeps]].

Lemma keeps_resetAll ps e : keeps (resetAll ps e) (fun _ => True).
Proof. induction ps as [|p ps IH]; cbn [resetAll]; [kdone|]. by kstep. Qed.

Lemma keeps_shutdown e : keeps (shutdown e) (fun _ => True).
Proof.
  unfold shutdown. kstep. destruct r; [|kdone]. kstep. destruct r as [ps e']. kstep.
  eapply keeps_seq; [apply keeps_resetAll|intros _ _]. kdone.
Qed.
#[local] Hint Resolve keeps_shutdown : keeps.

Lemma keeps_sendControl f : valid f -> keeps (sendControl f) (fun _ => True).
Proof.
  intros Hf. unfold sendControl. kstep. destruct r; [kdone|kstep; kdone|]. cbv zeta. kstep. kdone.
Qed.
#[local] Hint Resolve keeps_sendControl : keeps.

Lemma wp_rotate n i ts :
  wp (TLock i n None :: ts) (rotate n i) (fun ts' _ => ts' = TLock i 0 None :: ts).
Proof.
  induction n as [|n IH]; cbn [rotate]; [done|].
  eapply wp_seq; [apply wp_ARotateTake|]. cbn. intros ts' [j|]; [|by intros ->].
  destruct (Z.eqb_spec j i) as [->|Hne]; intros ->; [done|].
  eapply wp_seq; [by apply wp_ARotatePut|]. cbn. by intros ? _ ->.
Qed.

Lemma keeps_removeStream i : keeps (removeStream i) (fun _ => True).
Proof.
  intros ts _. unfold removeStream. eapply wp_seq; [apply wp_ARemove|]. cbn. intros ? n ->.
  eapply wp_seq; [apply wp_rotate|]. cbn. intros ? _ ->.
  eapply wp_mono; [apply wp_AUnlock|]. cbn. intros ? _ ->. split; [apply more_refl|done].
Qed.
#[local] Hint Resolve keeps_removeStream : keeps.

Lemma wp_schedule ts p i :
  TPtr p i ∈ ts -> settled ts -> wp (TSched i :: ts) (schedule p) (fun ts' _ => more ts ts').
Proof.
  intros Hp Hts. unfold schedule. eapply wp_seq; [by apply wp_ASchedule|]. cbn. intros ? r [-> Hr].
  destruct r; [apply more_refl| |apply more_refl|done].
  eapply wp_mono; [eapply (keeps_seq (do AErr) _ (fun _ => True) (fun _ => True)); [eauto with keeps| |exact Hts]|].
  - intros e _. kdone.
  - by intros ? ? [? _].
Qed.

(** The control frames the session sends. *)
Lemma control_valid t i payload :
  id_ok i ->
  t = FrameOpenOK /\ payload = [] \/ t = FrameOpen /\ zlen payload <= 128 \/
  (t = FrameReset \/ t = FrameOpenError) /\ zlen payload <= MaxErrorPayload ->
  valid (frameOf t i payload).
Proof.
  unfold id_ok, valid, Validate, frameOf. intros Hi Hc. cbn [Type_ StreamID Payload].
  rewrite (proj2 (Z.eqb_neq i 0)) by lia.
  destruct Hc as [[-> ->]|[[-> Hp]|[[-> | ->] Hp]]]; [done|..].
  - destruct (Z.ltb_spec 128 (zlen payload)); [lia|done].
  - destruct (Z.ltb_spec MaxErrorPayload (zlen payload)); [lia|done].
  - destruct (Z.ltb_spec MaxErrorPayload (zlen payload)); [lia|done].
Qed.

Lemma WindowUpdate_valid i n : id_ok i -> 0 < n < 2 ^ 32 -> valid (WindowUpdate i n).
Proof.
  unfold id_ok, valid, Validate, WindowUpdate. intros Hi Hn. cbn [Type_ StreamID Payload].
  rewrite (proj2 (Z.eqb_neq i 0)) by lia. rewrite zlen_be_put, be_get_put_id by (cbn; lia). cbn.
  by rewrite (proj2 (Z.eqb_neq n 0)) by lia.
Qed.

Lemma errorMessage_short e : zlen (str_bytes (errorMessage e)) <= MaxErrorPayload.
Proof.
  rewrite zlen_str_bytes. unfold errorMessage, MaxErrorPayload. destruct e as [e|]; [|done]. cbv zeta.
  destruct (Z.ltb_spec 256 (slen (error_text e))); [|lia]. by rewrite slen_str_slice_to by lia.
Qed.

Lemma keeps_streamReset p e : keeps (streamReset p e) (fun _ => True).
Proof.
  unfold streamReset. cbv zeta. kstep. destruct r; cbn [negb]; [|kdone]. kstep. kstep.
  apply keeps_sendControl, control_valid; [done|]. right; right. split; [by left|apply errorMessage_short].
Qed.

Lemma keeps_streamReject p e : keeps (streamReject p e) (fun _ => True).
Proof.
  unfold streamReject. cbv zeta. kstep. destruct r; cbn [negb]; [|kdone]. kstep. kstep.
  apply keeps_sendControl, control_valid; [done|]. right; right. split; [by right|apply errorMessage_short].
Qed.

Lemma keeps_streamApprove p : keeps (streamApprove p) (fun _ => True).
Proof.
  unfold streamApprove. kstep. destruct r; [|kdone|kdone]. kstep.
  apply keeps_sendControl, control_valid; [done|by left].
Qed.

Lemma keeps_streamClose p : keeps (streamClose p) (fun _ => True).
Proof.
  unfold streamClose. kstep. destruct r; [kdone|kstep; kstep; kdone|]. kstep. kstep.
  apply keeps_sendControl, control_valid; [done|]. right; right. by split; [left|].
Qed.

Lemma wp_enqueued ts0 ts p i :
  ts0 = TSched i :: TPtr p i :: ts -> settled ts -> wp ts0 (schedule p) (fun ts' _ => more ts ts').
Proof.
  intros -> Hts. eapply wp_mono; [apply wp_schedule; [by left|done]|]. cbn. intros ts' _ Hm.
  eapply more_trans; [apply more_ptr|exact Hm].
Qed.

Lemma keeps_streamCloseWrite p : keeps (streamCloseWrite p) (fun _ => True).
Proof.
  intros ts Hts0. unfold streamCloseWrite. eapply wp_seq; [apply wp_SCloseWrite|]. cbn. intros ts' [|].
  - intros (i & Hts). eapply wp_mono; [by eapply wp_enqueued|]. by cbn.
  - intros ->. split; [apply more_refl|done].
Qed.

Lemma keeps_streamWaitOpened turns p : keeps (streamWaitOpened turns p) (fun _ => True).
Proof.
  induction turns as [|turns IH]; cbn [streamWaitOpened]; [kdone|]. kstep. destruct r as [[e|] n]; [kdone|].
  kstep. destruct r; [kdone|kstep; kdone|done].
Qed.

Lemma Read_update_range st n st' data w :
  Read st n = (st', ReadData data w) -> 0 <= w < 2 ^ 32.
Proof.
  unfold Read. destruct (n =? 0); [intros [= _ _ <-]; lia|]. destruct (0 <? _); [|by repeat case_match].
  cbv zeta. destruct (windowUpdateThreshold <=? _); intros [= _ _ <-]; [|lia]. cbn. apply u32_range.
Qed.

Lemma keeps_SRead p n :
  keeps (do (AStream p (SRead n))) (fun r => match r with ReadData _ w => 0 <= w < 2 ^ 32 | _ => True end).
Proof.
  apply keeps_quiet. intros ts. split; [done|]. intros s other o s' r Hi He.
  split; [by eapply (quiet_inbound (SRead n))|]. cbn in He. apply bind_Some in He as (st & Hp & He).
  destruct (Read st n) as [st' r'] eqn:Er. injection He as <- <-. destruct r'; [|done..].
  by eapply Read_update_range.
Qed.

Lemma keeps_streamRead turns p n : keeps (streamRead turns p n) (fun _ => True).
Proof.
  induction turns as [|turns IH]; cbn [streamRead]; [kdone|].
  eapply keeps_seq; [apply keeps_SRead|]. intros [data w|e|m d] Hr.
  - destruct (Z.ltb_spec 0 w); [|kdone]. kstep. eapply keeps_seq; [apply keeps_sendControl|].
    + apply WindowUpdate_valid; [done|lia].
    + intros _ _. kdone.
  - kdone.
  - kstep. destruct r; [kdone|done].
Qed.

Lemma wp_nextOutbound ts p i :
  TPtr p i ∈ ts -> settled ts ->
  wp (TSched i :: ts) (nextOutbound p) (fun ts' r =>
    more ts ts' /\ match r with Some f => valid f | None => True end).
Proof.
  intros Hp Hts. unfold nextOutbound. eapply wp_seq; [by apply wp_SNextOutbound|]. cbn.
  intros ? [[f []]|]; [intros [Hf ->]..|intros ->].
  - eapply wp_seq; [by apply wp_schedule|]. cbn. intros ts' _ Hm. by split.
  - assert (keeps (let! i := do (AStreamID p) in let! _ := removeStream i in Ret (Some f))
      (fun r => match r with Some f => valid f | None => True end)) as Hk; [|by apply Hk].
    kstep. kstep. by apply keeps_ret.
  - split; [apply more_refl|done].
  - split; [apply more_refl|done].
Qed.

Lemma keeps_streamWrite turns p data written : keeps (streamWrite c turns p data written) (fun _ => True).
Proof.
  revert data written. induction turns as [|turns IH]; intros data written; cbn [streamWrite];
    destruct (Z.leb_spec (zlen data) 0); try kdone.
  intros ts Hts0. eapply wp_seq; [apply wp_SWrite; lia|]. cbn.
  assert (forall n m e, keeps (match e : err with
      | Some e => Ret (Some (written, Some e))
      | None => let! _ := if compression c then do (ATraffic true n m) else Ret tt in
                streamWrite c turns p (slice_from data n) (written + n)
      end) (fun _ => True)) as Hk.
  { intros n m [e|]; [kdone|]. eapply (keeps_seq _ _ (fun _ => True)); [destruct (compression c); kdone|].
    intros _ _. apply IH. }
  intros ts' [n m [|]|e|n d].
  - intros (i & Hts). eapply wp_seq; [by eapply wp_enqueued|]. cbn. intros ts2 e Hm.
    eapply wp_mono; [apply Hk; by eapply settled_more|]. cbn. intros ts3 r [Hm' _]. split; [by eapply more_trans|done].
  - intros ->. by apply (Hk n m None).
  - intros ->. split; [apply more_refl|done].
  - intros ->. revert ts Hts0. fold (keeps (let! e := do (AWaitStream p n d) in
      match e with Some e => Ret (Some (written, Some e)) | None => streamWrite c turns p data written end)
      (fun _ => True)). kstep. destruct r; [kdone|apply IH].
Qed.

#[local] Hint Resolve keeps_streamReset keeps_streamWaitOpened : keeps.

Lemma wp_OpenService ts turns svc :
  settled ts -> wp ts (OpenService c turns svc) (fun ts' _ => more ts ts').
Proof.
  intros Hts. unfold OpenService. destruct (client c) eqn:Hc; cbn [negb]; [|apply more_refl].
  destruct (Z.ltb_spec maxServiceName (slen svc)) as [|Hlen]; [apply more_refl|].
  eapply wp_seq; [by apply wp_AOpen|]. cbn. intros ts' [e|p]; [intros ->; apply more_refl|]. intros (i & ->).
  enough (keeps (let! i := do (AStreamID p) in
    let! e := sendControl (frameOf FrameOpen i (str_bytes svc)) in
    match e with
    | Some e => let! _ := removeStream i in Ret (Some (inl e))
    | None =>
        let! e := streamWaitOpened turns p in
        match e with
        | None => Ret None
        | Some None => Ret (Some (inr p))
        | Some (Some e) => let! _ := streamReset p (Some e) in Ret (Some (inl e))
        end
    end) (fun _ => True)) as Hk.
  { eapply wp_mono; [by apply Hk|]. intros ts' r [Hm _]. eapply more_trans; [apply (more_ptr p i)|exact Hm]. }
  kstep. rename r into j.
  eapply keeps_seq; [apply keeps_sendControl, control_valid; [eassumption|]|].
  { right; left. split; [done|]. rewrite zlen_str_bytes. unfold maxServiceName in Hlen. lia. }
  intros [e|] _; [kstep; kdone|]. kstep. destruct r as [[e|]|]; [kstep; kdone|kdone|kdone].
Qed.

Lemma keeps_Services : keeps Services (fun _ => True).
Proof. unfold Services. kstep. destruct r; [kdone|kstep; kdone|kstep; kdone]. Qed.

Lemma keeps_Accept : keeps (Accept c) (fun _ => True).
Proof.
  unfold Accept. destruct (client c); [kdone|]. kstep. destruct r; [kdone|kstep; kdone|kdone].
Qed.

Lemma keeps_countOpening ps : keeps (countOpening ps) (fun _ => True).
Proof.
  induction ps as [|p ps IH]; cbn [countOpening]; [kdone|]. kstep.
  eapply keeps_seq; [exact IH|]. intros n _. kdone.
Qed.

Lemma keeps_Snapshot : keeps Snapshot (fun _ => True).
Proof.
  unfold Snapshot. kstep. destruct r as [ps n]. eapply keeps_seq; [apply keeps_countOpening|].
  intros m _. kdone.
Qed.

(** ** The read loop *)

(** What [ReadFrame] delivers. *)
Definition incoming (f : Frame) : Prop := valid f /\ 0 <= StreamID f < 2 ^ 32.

Lemma incoming_id f : incoming f -> Type_ f <> FrameServiceList -> id_ok (StreamID f).
Proof.
  unfold incoming, valid, Validate, id_ok. intros [Hv Hr] Ht. rewrite (bool_decide_eq_false_2 _ Ht) in Hv.
  destruct (Z.eqb_spec (StreamID f) 0); [done|lia].
Qed.

(** The ids of the OPEN frames in what a server will read. *)
Definition openIDs (input : list Frame) : list Z :=
  if client c then [] else StreamID <$> filter (fun f => Type_ f = FrameOpen) input.

Definition openToks (input : list Frame) : list tok := TOpen <$> openIDs input.

Lemma wp_handleOpen ts f :
  incoming f -> Type_ f = FrameOpen -> settled ts ->
  wp (openToks [f] ++ ts) (handleOpen c f) (fun ts' r =>
    more ts ts' \/ r <> None /\ more (openToks [f] ++ ts) ts').
Proof.
  intros Hf Ht Hts. apply incoming_id in Hf; [|by rewrite Ht]. unfold handleOpen, openToks, openIDs.
  destruct (client c) eqn:Hc; cbn [orb]; [left; apply more_refl|].
  destruct (StreamID f mod 2 =? 0); [right; split; [done|apply more_refl]|].
  rewrite filter_cons_True by done. cbn [fmap list_fmap app].
  eapply wp_seq; [by apply wp_AHandleOpen|]. cbn. intros ts' [| | |p].
  - intros ->. left. apply more_refl.
  - intros ->. left. apply more_refl.
  - intros ->. eapply wp_mono; [apply keeps_sendControl; [apply control_valid; [done|]|done]|].
    + right; right. by split; [right|].
    + cbn. intros ? ? [? _]. by left.
  - intros ->. assert (keeps (let! a := do (AAccept p) in
      match a with
      | AcceptDone => Ret (Some (Sent ErrSessionClosed))
      | AcceptQueued => Ret None
      | AcceptFull =>
          let! _ := removeStream (StreamID f) in
          sendControl (frameOf FrameOpenError (StreamID f) (str_bytes "server accept backlog full"))
      end) (fun _ => True)) as Hk.
    { kstep. destruct r; [kdone|kdone|]. kstep. apply keeps_sendControl, control_valid; [done|].
      right; right. by split; [right|]. }
    eapply wp_mono; [by apply Hk|]. cbn. intros ? ? [Hm _]. left. eapply more_trans; [apply more_ptr|exact Hm].
Qed.

Lemma keeps_dispatch f p : keeps (dispatch c f p) (fun _ => True).
Proof.
  unfold dispatch. cbv zeta. repeat case_bool_decide.
  - destruct (negb (client c)); [kdone|]. kstep. kdone.
  - kstep. kstep. kdone.
  - kstep. destruct r as [e|[n m]]; [kdone|].
    eapply (keeps_seq _ _ (fun _ => True)); [destruct (compression c); kdone|]. intros _ _. kdone.
  - kstep. destruct r; kdone.
  - kstep. kdone.
  - kstep. kstep. kdone.
  - kdone.
Qed.

Lemma wp_handleFrame ts f :
  incoming f -> settled ts ->
  wp (openToks [f] ++ ts) (handleFrame c f) (fun ts' r =>
    more ts ts' \/ r <> None /\ more (openToks [f] ++ ts) ts').
Proof.
  intros Hf Hts. unfold handleFrame. case_bool_decide as Hsl.
  { unfold openToks, openIDs. rewrite filter_cons_False by (by rewrite Hsl).
    assert ((TOpen <$> (if client c then [] else StreamID <$> filter (fun g => Type_ g = FrameOpen) [])) = []) as ->
      by (by destruct (client c)).
    cbn [app]. destruct (negb (client c) || negb (StreamID f =? 0)); [left; apply more_refl|].
    destruct (decodeServices (Payload f)) as [e|l]; [left; apply more_refl|].
    assert (keeps (let! _ := do (ASetServices l) in Ret (@None error)) (fun _ => True)) as Hk by (kstep; kdone).
    eapply wp_mono; [by apply Hk|]. intros ? ? [? _]. by left. }
  case_bool_decide as Ho; [by apply wp_handleOpen|].
  assert (openToks [f] = []) as ->.
  { unfold openToks, openIDs. rewrite filter_cons_False by done. by destruct (client c). }
  cbn [app]. enough (keeps (let! (stream, retired) := do (ALookup (StreamID f)) in
    match stream with
    | None =>
        if retired || bool_decide (Type_ f = FrameReset) || bool_decide (Type_ f = FrameOpenError)
        then Ret None
        else
          let! _ := sendControl (frameOf FrameReset (StreamID f) (str_bytes "unknown stream")) in
          Ret None
    | Some p => dispatch c f p
    end) (fun _ => True)) as Hk.
  { eapply wp_mono; [by apply Hk|]. intros ? ? [? _]. by left. }
  kstep. destruct r as [[p|] retired]; [apply keeps_dispatch|].
  destruct (_ || _); [kdone|]. eapply keeps_seq; [apply keeps_sendControl, control_valid|].
  - by apply incoming_id.
  - right; right. by split; [left|].
  - intros _ _. kdone.
Qed.

Lemma keeps_settled {R} (m : prog R) P ts : keeps m P -> settled ts -> wp ts m (fun ts' _ => settled ts').
Proof.
  intros Hm [Hs Hl]. eapply wp_mono; [by apply Hm|]. cbn. intros ts' r [Hmore _].
  apply more_scheds in Hmore as [Hs' Hl']. split; congruence.
Qed.

Lemma settled_opens l : settled (TOpen <$> l).
Proof. induction l as [|i l [IH1 IH2]]; [done|]. by split. Qed.

Lemma settled_app a b : settled a -> settled b -> settled (a ++ b).
Proof. intros [? ?] [? ?]. split; rewrite ?scheds_app, ?locks_app; by rewrite ?H0, ?H1, ?H2, ?H3. Qed.

Lemma openToks_cons f input : openToks (f :: input) = openToks [f] ++ openToks input.
Proof.
  unfold openToks, openIDs. destruct (client c); [done|].
  change (f :: input) with ([f] ++ input). by rewrite filter_app, !fmap_app.
Qed.

Lemma settled_perm a b : a ≡ₚ b -> settled a -> settled b.
Proof.
  intros Hab [Hs Hl].
  assert (scheds a ≡ₚ scheds b) as Hs' by (unfold scheds; by rewrite Hab).
  assert (locks a ≡ₚ locks b) as Hl' by (unfold locks; by rewrite Hab).
  rewrite Hs in Hs'. rewrite Hl in Hl'. split; symmetry; by apply Permutation_nil_l.
Qed.

Lemma wp_perm {R} ts ts' (m : prog R) (Q : list tok -> R -> Prop) :
  (forall a b r, a ≡ₚ b -> Q a r -> Q b r) -> ts ≡ₚ ts' -> wp ts m Q -> wp ts' m Q.
Proof.
  intros HQ Hts. destruct m as [r|T a k]; [by apply HQ|]. intros [[Hw Hok] Hm]. split; [split|].
  - intros Ha. by eapply settled_perm, Hw.
  - intros s other Hi. apply (Hok s other). by rewrite Hts.
  - intros s other o s' r Hi. apply Hm. by rewrite Hts.
Qed.

Lemma wp_readLoop input e ts :
  Forall incoming input -> settled ts ->
  wp (openToks input ++ ts) (readLoop c input e) (fun ts' _ => settled ts').
Proof.
  intros Hin. revert ts. induction Hin as [|f input Hf _ IH]; intros ts Hts.
  { assert (settled (openToks [] ++ ts)) as Hrest by (apply settled_app; [apply settled_opens|done]).
    cbn [readLoop]. eapply wp_seq; [apply wp_quiet; [done|apply quiet_AReadFrame]|]. cbn. intros ? _ [-> _].
    eapply keeps_settled; [apply keeps_shutdown|done]. }
  assert (settled (openToks input ++ ts)) as Hrest by (apply settled_app; [apply settled_opens|done]).
  cbn [readLoop]. rewrite openToks_cons, <- app_assoc.
  eapply wp_seq; [apply wp_quiet; [intros _; apply settled_app; [apply settled_opens|done]|apply quiet_AReadFrame]|].
  cbn. intros ? _ [-> _]. eapply wp_seq; [by apply wp_handleFrame|].
  cbn. intros ts' [e'|] Hpost.
  - eapply keeps_settled; [apply keeps_shutdown|]. destruct Hpost as [Hm|[_ Hm]]; eapply settled_more; try exact Hm; [done|].
    apply settled_app; [apply settled_opens|done].
  - destruct Hpost as [(l & Hl & ->)|[? _]]; [|done].
    eapply (wp_perm (openToks input ++ l ++ ts)).
    + intros a b _. apply settled_perm.
    + rewrite !app_assoc. by rewrite (Permutation_app_comm (openToks input) l).
    + apply IH. eapply settled_more; [|exact Hts]. by exists l.
Qed.

(** ** The write loop *)

Lemma wp_writeLoop turns ts : settled ts -> wp ts (writeLoop turns) (fun ts' _ => settled ts').
Proof.
  revert ts. induction turns as [|turns IH]; intros ts Hts; [done|]. cbn [writeLoop]. cbv zeta.
  assert (forall ts f, settled ts -> valid f -> wp ts (let! e := do (AWriteFrame f) in
    match e with Some e => shutdown (Some e) | None => writeLoop turns end) (fun ts' _ => settled ts')) as Hwrite.
  { intros ts1 f Hts1 Hf. eapply wp_seq; [apply wp_quiet; [done|by apply quiet_AWriteFrame]|]. cbn. intros ? [e|] [-> _].
    - eapply keeps_settled; [apply keeps_shutdown|done].
    - by apply IH. }
  eapply wp_seq; [apply wp_quiet; [done|apply quiet_ATakeControl]|]. cbn. intros ? first [-> Hfirst].
  eapply (wp_seq _ _ _ (fun ts' t => match t with
    | TakeDone => ts' = ts | TakeFrame f => ts' = ts /\ valid f | TakeReady i => ts' = TSched i :: ts end)).
  { destruct first as [t|]; [|by apply wp_ATake]. destruct t; [done|by split|done]. }
  intros ts' t Ht. destruct t as [|f|i].
  - cbn. by subst.
  - destruct Ht as [-> Hf]. by apply Hwrite.
  - subst ts'. eapply wp_seq; [apply wp_ALookup_sched|]. cbn. intros ts' [[p|] retired]; cbn; intros ->; [|by apply IH].
    eapply wp_seq; [apply (wp_nextOutbound (TPtr p i :: ts)); [by left|done]|]. cbn. intros ts' [f|] [Hm Hf].
    + apply Hwrite; [|done]. eapply settled_more; [|exact Hts]. eapply more_trans; [apply more_ptr|exact Hm].
    + apply IH. eapply settled_more; [|exact Hts]. eapply more_trans; [apply more_ptr|exact Hm].
Qed.
End WP.
