(* ===== verification/MuxPool.v ===== *)
(** * A running multiplexing session

    [pool_reachable]: a session from one of its constructors, its read loop over
    whatever a peer sends (no id opened twice, which the code does not enforce:
    see MuxIds), its write loop, and any number of method calls,
    interleaved action by action.  The theorems say what can never happen in any
    interleaving, and that no queued frame is forgotten.  [runSeq] runs one
    program alone and [runPool] a chosen interleaving. *)

From S2P Require Export MuxThreads.

(** ** Method calls *)

Inductive call :=
  | COpen (turns : nat) (service : string)
  | CAccept | CServices | CErr | CSnapshot | CSessionClose
  | CApprove (p : nat)
  | CReject (p : nat) (e : err)
  | CRead (turns : nat) (p : nat) (n : Z)
  | CWrite (turns : nat) (p : nat) (data : bytes)
  | CCloseWrite (p : nat)
  | CCloseRead (p : nat)
  | CClose (p : nat)
  | CReset (p : nat) (e : err)
  | CSetDeadline (p : nat) (read write : bool) (d : Z).

Definition discard {A} (m : prog A) : prog unit := let! _ := m in Ret tt.

Definition runCall (c : Fixed) (l : call) : prog unit :=
  match l with
  | COpen turns svc => discard (OpenService c turns svc)
  | CAccept => discard (Accept c)
  | CServices => discard Services
  | CErr => discard (do AErr)
  | CSnapshot => discard Snapshot
  | CSessionClose => Close
  | CApprove p => discard (streamApprove p)
  | CReject p e => discard (streamReject p e)
  | CRead turns p n => discard (streamRead turns p n)
  | CWrite turns p data => discard (streamWrite c turns p data 0)
  | CCloseWrite p => discard (streamCloseWrite p)
  | CCloseRead p => do (AStream p SCloseRead)
  | CClose p => discard (streamClose p)
  | CReset p e => discard (streamReset p e)
  | CSetDeadline p r w d => do (AStream p (SSetDeadline r w d))
  end.

Inductive initial : Fixed -> Session -> Prop :=
  | InitNew isClient limit compress counter c s :
      newSession isClient limit compress counter = (c, s) -> initial c s
  | InitServices limit compress counter l c s :
      newServerWithServices limit compress counter l = (c, s) -> initial c s.

Section Pool.
Context `{Flate} (c : Fixed).

(** The read loop's input is what [ReadFrame] can deliver; a peer never opens
    the same stream id twice. *)
Inductive pool_reachable : Session -> list (prog unit) -> Prop :=
  | PoolInit s input e turns :
      initial c s -> Forall incoming input -> NoDup (openIDs c input) ->
      pool_reachable s [readLoop c input e; writeLoop turns]
  | PoolCall s ms l :
      pool_reachable s ms -> pool_reachable s (ms ++ [runCall c l])
  | PoolStep s ms i T (a : action T) k o s' r :
      pool_reachable s ms -> ms !! i = Some (Act a k) -> exec c o a s = Some (s', r) ->
      pool_reachable s' (<[i := k r]> ms).

(** ** The invariant of the pool *)

Definition goroutine (ts : list tok) (m : prog unit) : Prop := wp c ts m (fun ts' _ => settled ts').

Definition pool_inv (s : Session) (ms : list (prog unit)) : Prop :=
  exists tss, Forall2 goroutine tss ms /\ inv c s (concat tss).

Lemma goroutine_keeps {R} (m : prog R) P : keeps c m P -> goroutine [] (discard m).
Proof.
  intros Hm. unfold goroutine, discard. eapply wp_seq; [by apply Hm|]. cbn. intros ts r [Hmore _].
  by eapply settled_more.
Qed.

Lemma goroutine_more {R} (m : prog R) : wp c [] m (fun ts' _ => more [] ts') -> goroutine [] (discard m).
Proof.
  intros Hm. unfold goroutine, discard. eapply wp_seq; [exact Hm|]. cbn. intros ts r Hmore.
  by eapply settled_more.
Qed.

Lemma goroutine_op {T} p (op : streamOp T) (f : T -> unit) :
  inbound_op op -> goroutine [] (let! r := do (AStream p op) in Ret (f r)).
Proof.
  intros Hop. unfold goroutine. eapply wp_seq; [apply wp_quiet; [done|by apply quiet_inbound]|].
  cbn. by intros ? ? [-> _].
Qed.

Lemma runCall_goroutine l : goroutine [] (runCall c l).
Proof.
  destruct l; cbn [runCall].
  - by apply goroutine_more, wp_OpenService.
  - eapply goroutine_keeps, keeps_Accept.
  - eapply goroutine_keeps, keeps_Services.
  - eapply (goroutine_keeps _ (fun _ => True)), keeps_quiet, quiet_AErr.
  - eapply goroutine_keeps, keeps_Snapshot.
  - eapply keeps_settled; [apply keeps_shutdown|done].
  - eapply goroutine_keeps, keeps_streamApprove.
  - eapply goroutine_keeps, keeps_streamReject.
  - eapply goroutine_keeps, keeps_streamRead.
  - eapply goroutine_keeps, keeps_streamWrite.
  - eapply goroutine_keeps, keeps_streamCloseWrite.
  - by apply (goroutine_op p SCloseRead (fun _ => tt)).
  - eapply goroutine_keeps, keeps_streamClose.
  - eapply goroutine_keeps, keeps_streamReset.
  - by apply (goroutine_op p (SSetDeadline read write d) (fun _ => tt)).
Qed.

Lemma initial_inv s l :
  initial c s -> NoDup l -> Forall id_ok l -> (client c = true -> l = []) -> inv c s (TOpen <$> l).
Proof.
  intros Hs Hnd Hok Hcl.
  assert (opens (TOpen <$> l) = l /\ scheds (TOpen <$> l) = [] /\ locks (TOpen <$> l) = []) as (Ho & Hsc & Hlk).
  { clear. induction l as [|i l (? & ? & ?)]; [done|]. cbn. split_and!; [by f_equal|done|done]. }
  assert (heap s = [] /\ streams s = ∅ /\ ready s = [] /\ sclosed s = false /\ sdone s = false /\ mu s = false /\
    Forall valid (control s) /\ 0 < maxStreams c /\ (client c = true -> nextID s = 1))
    as (Hh & Hst & Hr & Hc & Hd & Hmu & Hct & Hmax & Hn).
  { destruct Hs as [isClient limit compress counter c0 s0 [= <- <-]|limit compress counter sl c0 s0 Heq].
    - cbn. split_and!; try done; [destruct (Z.leb_spec limit 0); lia|by intros ->].
    - unfold newServerWithServices, newSession in Heq. injection Heq as <- <-. cbn.
      split_and!; try done; [|destruct (Z.leb_spec limit 0); lia].
      constructor; [|done]. unfold valid, Validate. cbn [Type_ StreamID Payload].
      destruct (Z.eqb_spec (zlen (encodeServices sl)) 0) as [Hz|]; [|done].
      unfold encodeServices in Hz. rewrite zlen_app, zlen_be_put in Hz. pose proof (zlen_nonneg (concat (encodeService <$> sl))). lia. }
  split; rewrite ?Hh, ?Hst, ?Hr, ?Hc, ?Hd, ?Hmu, ?Ho, ?Hsc, ?Hlk; cbn; try done.
  - constructor.
  - rewrite map_size_empty. lia.
  - constructor.
  - rewrite zlen_nil. lia.
  - intros i Hi. by apply not_elem_of_nil in Hi.
  - intros Hcl' _. rewrite (Hn Hcl'). done.
  - split_and!; [done..|]. intros i _. apply not_elem_of_nil.
  - intros p i Hp. by apply list_elem_of_fmap in Hp as (? & ? & _).
Qed.

Lemma openIDs_ok input : Forall incoming input -> Forall id_ok (openIDs c input).
Proof.
  intros Hin. unfold openIDs. destruct (client c); [constructor|].
  apply Forall_fmap, Forall_forall. intros f [Ht Hf]%list_elem_of_filter.
  rewrite Forall_forall in Hin. apply incoming_id; [by apply Hin|by rewrite Ht].
Qed.

Lemma pool_inv_step s ms i T (a : action T) k o s' r :
  pool_inv s ms -> ms !! i = Some (Act a k) -> exec c o a s = Some (s', r) ->
  pool_inv s' (<[i := k r]> ms).
Proof.
  intros (tss & Hall & Hi) Hm He.
  destruct (Forall2_lookup_r _ _ _ _ _ Hall Hm) as (ts & Hts & Hwp).
  assert (i < length tss)%nat as Hlt by (by eapply lookup_lt_Some).
  assert (concat tss ≡ₚ ts ++ concat (delete i tss)) as Hsplit.
  { rewrite <- (take_drop_middle tss i ts Hts) at 1. rewrite delete_take_drop, !concat_app. cbn.
    rewrite !app_assoc. by rewrite (Permutation_app_comm (concat (take i tss)) ts). }
  rewrite Hsplit in Hi. destruct (proj2 Hwp s _ o s' r Hi He) as (ts' & Hi' & Hwp').
  exists (<[i := ts']> tss). split; [by apply Forall2_insert|].
  assert (concat (<[i := ts']> tss) ≡ₚ ts' ++ concat (delete i tss)) as ->; [|done].
  rewrite insert_take_drop by done. rewrite delete_take_drop, !concat_app. cbn.
  rewrite !app_assoc. by rewrite (Permutation_app_comm (concat (take i tss)) ts').
Qed.

Lemma pool_reachable_inv s ms : pool_reachable s ms -> pool_inv s ms.
Proof.
  induction 1 as [s input e turns Hs Hin Hnd|s ms l _ (tss & Hall & Hi)|].
  - exists [openToks c input; []]. split.
    + constructor; [|constructor; [by apply wp_writeLoop|done]].
      pose proof (wp_readLoop c input e [] Hin) as Hr. rewrite app_nil_r in Hr. by apply Hr.
    + cbn. rewrite app_nil_r. apply initial_inv; try done; [by apply openIDs_ok|].
      unfold openIDs. by intros ->.
  - exists (tss ++ [[]]). split.
    + apply Forall2_app; [done|]. constructor; [apply runCall_goroutine|done].
    + rewrite concat_app. cbn. by rewrite app_nil_r.
  - by eapply pool_inv_step.
Qed.

(** What one goroutine is about to do is allowed. *)
Lemma next_ok s ms i T (a : action T) k :
  pool_inv s ms -> ms !! i = Some (Act a k) -> action_ok c a s.
Proof.
  intros (tss & Hall & Hi) Hm. destruct (Forall2_lookup_r _ _ _ _ _ Hall Hm) as (ts & Hts & [[_ Hok] _]).
  apply (Hok s (concat (delete i tss))).
  rewrite <- (take_drop_middle tss i ts Hts) in Hi. rewrite concat_app in Hi. cbn in Hi.
  rewrite delete_take_drop, concat_app, app_assoc. by rewrite (Permutation_app_comm ts), <- app_assoc.
Qed.

(** A goroutine that has ended or waits for something. *)
Definition resting (m : prog unit) : Prop :=
  match m with Ret _ => True | Act a _ => waits a end.

Lemma resting_settled s ms :
  pool_inv s ms -> Forall resting ms -> exists ts, settled ts /\ inv c s ts.
Proof.
  intros (tss & Hall & Hi) Hrest. exists (concat tss). split; [|done]. clear Hi.
  induction Hall as [|ts m tss ms Hm _ IH]; [done|]. apply Forall_cons in Hrest as [Hr Hrest]. cbn.
  apply settled_app; [|by apply IH]. destruct m as [r|T a k]; [done|]. by apply (proj1 (proj1 Hm)).
Qed.

(** ** One goroutine alone *)

Fixpoint runs {R} (m : prog R) (s s' : Session) (r : R) : Prop :=
  match m with
  | Ret r' => s' = s /\ r = r'
  | Act a k => exists o s1 t, exec c o a s = Some (s1, t) /\ runs (k t) s1 s' r
  end.

Lemma runs_bind {A B} (m : prog A) (f : A -> prog B) s s' r :
  runs (pbind m f) s s' r <-> exists s1 t, runs m s s1 t /\ runs (f t) s1 s' r.
Proof.
  revert s. induction m as [t|T a k IH]; intros s; cbn.
  - split; [intros Hr; by exists s, t|]. by intros (? & ? & [-> ->] & ?).
  - split.
    + intros (o & s1 & t & He & Hr). apply IH in Hr as (s2 & u & Hk & Hf).
      exists s2, u. split; [by exists o, s1, t|done].
    + intros (s2 & u & (o & s1 & t & He & Hk) & Hf). exists o, s1, t. split; [done|].
      apply IH. by exists s2, u.
Qed.

Lemma runs_do {T} (a : action T) s s' r : runs (do a) s s' r <-> exists o, exec c o a s = Some (s', r).
Proof.
  cbn. split; [by intros (o & ? & ? & He & -> & ->); exists o|]. intros (o & He). by exists o, s', r.
Qed.

(** The same, with the environment's decisions given. *)
Fixpoint runSeq {R} (os : list oracle) (m : prog R) (s : Session) : option (Session * R) :=
  match m with
  | Ret r => Some (s, r)
  | Act a k =>
      match os with
      | [] => None
      | o :: os => match exec c o a s with Some (s', t) => runSeq os (k t) s' | None => None end
      end
  end.

Lemma runSeq_runs {R} os (m : prog R) s s' r : runSeq os m s = Some (s', r) -> runs m s s' r.
Proof.
  revert os s. induction m as [t|T a k IH]; intros os s; cbn.
  { destruct os; by intros [= -> ->]. }
  destruct os as [|o os]; [done|]. cbn. destruct (exec c o a s) as [[s1 t]|] eqn:He; [|done].
  intros Hr. exists o, s1, t. split; [done|]. by eapply IH.
Qed.

(** [resetAll] delivers the error to every stream of the list. *)
Lemma runs_resetAll ps e s s' :
  NoDup ps -> runs (resetAll ps e) s s' tt ->
  exists h, s' = s <| heap := h |> /\ length h = length (heap s) /\
    forall p st, heap s !! p = Some st ->
      h !! p = Some (if decide (p ∈ ps) then receiveReset st e else st).
Proof.
  revert s. induction ps as [|p ps IH]; cbn [resetAll]; intros s Hnd.
  { intros [-> _]. exists (heap s). split_and!; [by destruct s|done|]. intros p st Hp.
    by rewrite decide_False by apply not_elem_of_nil. }
  apply NoDup_cons in Hnd as [Hni Hnd]. intros (s1 & [] & Hd & Hr)%runs_bind.
  apply runs_do in Hd as (o & He). cbn in He. apply bind_Some in He as (st0 & Hp0 & He).
  injection He as <-. destruct (IH _ Hnd Hr) as (h & -> & Hlen & Hh). exists h. cbn in *.
  rewrite length_insert in Hlen. split_and!; [done|done|]. intros q st Hq.
  assert (p < length (heap s))%nat by (by eapply lookup_lt_Some).
  destruct (decide (q = p)) as [->|Hne].
  - rewrite Hp0 in Hq. injection Hq as ->. rewrite (decide_True (P := p ∈ p :: ps)) by (by left).
    rewrite (Hh p (receiveReset st e)) by (by rewrite list_lookup_insert_eq). by rewrite decide_False.
  - rewrite (Hh q st) by (by rewrite list_lookup_insert_ne). f_equal.
    destruct (decide (q ∈ ps)) as [Hin|Hin].
    + by rewrite decide_True by (by right).
    + rewrite decide_False; [done|]. by intros [|]%elem_of_cons.
Qed.

(** ** Properties *)

(** C11. The scheduler queue never overflows: while the peer opens no id twice, in
    every interleaving of the read loop, the write loop and any method calls,
    [schedule] always finds room in
    the [ready] channel, so it never tears the session down, and [removeStream]
    never blocks on putting an id back while it holds the session's lock. *)
Theorem scheduler_never_overflows s ms i :
  pool_reachable s ms ->
  (forall p k o s' r, ms !! i = Some (Act (ASchedule p) k) ->
     exec c o (ASchedule p) s = Some (s', r) -> r <> SchedFull) /\
  (forall j k o, ms !! i = Some (Act (ARotatePut j) k) -> exec c o (ARotatePut j) s <> None).
Proof.
  intros Hi%pool_reachable_inv. split.
  - intros p k o s' r Hm He. pose proof (next_ok _ _ _ _ _ _ Hi Hm) as Hok. cbn in Hok, He.
    unfold locked in He. destruct (mu s); [done|]. by apply (Hok eq_refl o (s', r)).
  - intros j k o Hm. pose proof (next_ok _ _ _ _ _ _ Hi Hm) as Hok. cbn in *.
    by rewrite (proj2 (Z.ltb_lt _ _)) by done.
Qed.

(** Every frame the write loop takes from a queue validates, so [WriteFrame]
    never refuses one and tears the session down for it. *)
Theorem written_frames_valid s ms i f k :
  pool_reachable s ms -> ms !! i = Some (Act (AWriteFrame f) k) -> Validate f = None.
Proof. intros Hi%pool_reachable_inv Hm. exact (next_ok _ _ _ _ _ _ Hi Hm). Qed.

(** C12. No queued frame is forgotten: while the peer opens no id twice, whenever
    every goroutine has ended or
    waits, nobody holds the session's lock, and a stream of the session with
    frames to send is in the scheduler queue, so that the write loop, if it
    waits, can proceed. *)
Theorem no_frame_forgotten s ms i p stream :
  pool_reachable s ms -> Forall resting ms ->
  streams s !! i = Some p -> heap s !! p = Some stream -> outbound stream <> [] ->
  mu s = false /\ i ∈ ready s /\ forall o, exec c o ATake s <> None.
Proof.
  intros Hi%pool_reachable_inv Hrest Hm Hp Ho.
  destruct (resting_settled _ _ Hi Hrest) as (ts & [Hs Hl] & Hinv).
  destruct (iv_live _ _ _ Hinv _ _ _ Hm Hp) as [Hin Hsc]. specialize (Hin (Hsc Ho)).
  rewrite Hs, app_nil_r in Hin. split_and!; [|done|].
  - pose proof (iv_lock _ _ _ Hinv) as Hlk. destruct (mu s); [|done].
    rewrite Hl in Hlk. by destruct Hlk as (? & ? & _).
  - intros o. cbn. unfold select, readyCases. destruct (ready s) as [|j rest]; [by apply not_elem_of_nil in Hin|].
    intros Hnone%lookup_ge_None. apply Nat.le_ngt in Hnone. apply Hnone, Nat.mod_upper_bound.
    rewrite length_app. cbn. lia.
Qed.

(** A frame for a stream the session no longer has is ignored when its id
    was used before, or when it is a RESET or OPEN_ERROR: the session does not
    change and the read loop goes on. *)
Theorem late_frame_ignored frame s s' r :
  Type_ frame <> FrameServiceList -> Type_ frame <> FrameOpen ->
  streams s !! StreamID frame = None ->
  StreamID frame mod 2 = 1 /\ StreamID frame <= lastID s \/
    Type_ frame = FrameReset \/ Type_ frame = FrameOpenError ->
  runs (handleFrame c frame) s s' r -> s' = s /\ r = None.
Proof.
  intros Hsl Ho Hm Hlate. unfold handleFrame.
  rewrite (bool_decide_eq_false_2 (Type_ frame = FrameServiceList)), (bool_decide_eq_false_2 (Type_ frame = FrameOpen))
    by done.
  intros (s1 & [stream retired] & Hd & Hr)%runs_bind. apply runs_do in Hd as (o & He). cbn in He.
  unfold locked in He. destruct (mu s); [done|]. injection He as <- <- <-. rewrite Hm in Hr.
  assert ((StreamID frame mod 2 =? 1) && (StreamID frame <=? lastID s)
    || bool_decide (Type_ frame = FrameReset) || bool_decide (Type_ frame = FrameOpenError) = true) as Hc.
  { destruct Hlate as [[H1 H2]|[Ht|Ht]].
    - by rewrite (proj2 (Z.eqb_eq _ _) H1), (proj2 (Z.leb_le _ _) H2).
    - rewrite (bool_decide_eq_true_2 _ Ht), orb_true_r. done.
    - by rewrite (bool_decide_eq_true_2 _ Ht), orb_true_r. }
  rewrite Hc in Hr. by destruct Hr as [-> ->].
Qed.

(** The first [shutdown] closes the session and its connection, makes its
    error permanent (EOF and nil become ErrSessionClosed), wakes everything
    that waits on [done], forgets the streams, and resets each of them with
    that error; streams that had already left the map are untouched. *)
Theorem shutdown_resets_streams e s s' :
  once s = NotStarted -> runs (shutdown e) s s' tt ->
  let final := match e with
               | None => Sent ErrSessionClosed
               | Some e => if errors_Is e EOF then Sent ErrSessionClosed else e
               end in
  sclosed s' = true /\ sdone s' = true /\ connClosed s' = true /\ once s' = Finished /\
  streams s' = ∅ /\ serr s' = Some final /\
  forall p stream, heap s !! p = Some stream ->
    ((exists i, streams s !! i = Some p) ->
       exists stream', heap s' !! p = Some stream' /\ closed stream' = true /\
         (closed stream = false -> err_ stream' = Some final)) /\
    ((forall i, streams s !! i <> Some p) -> heap s' !! p = Some stream).
Proof.
  intros Hn. unfold shutdown. intros (s1 & first & H1 & Hr)%runs_bind. apply runs_do in H1 as (o1 & H1).
  cbn in H1. rewrite Hn in H1. injection H1 as <- <-.
  apply runs_bind in Hr as (s2 & [ps e2] & H2 & Hr). apply runs_do in H2 as (o2 & H2). cbn in H2.
  unfold locked in H2. destruct (mu s); [done|]. unfold shutdownLocked in H2. cbn in H2.
  case_bool_decide as Hord; [|done]. destruct Hord as [Hnd Hset]. injection H2 as <- <- <-.
  apply runs_bind in Hr as (s3 & [] & H3 & Hr). apply runs_do in H3 as (o3 & H3). cbn in H3. injection H3 as <-.
  apply runs_bind in Hr as (s4 & [] & H4 & Hr). apply runs_resetAll in H4 as (h & -> & Hlen & Hh); [|done].
  apply runs_do in Hr as (o5 & H5). cbn in H5. injection H5 as <-. cbn in *. split_and!; try done.
  intros p stream Hp. specialize (Hh p stream Hp).
  assert (p ∈ order o2 <-> exists i, streams s !! i = Some p) as Hin.
  { rewrite <- (elem_of_list_to_set (C := gset nat)), Hset, elem_of_list_to_set, list_elem_of_fmap. split.
    - intros ([i q] & -> & Hq%elem_of_map_to_list). by exists i.
    - intros (i & Hi). exists (i, p). split; [done|]. by apply elem_of_map_to_list. }
  split.
  - intros Hi%Hin. rewrite decide_True in Hh by done. eexists. split; [exact Hh|].
    unfold receiveReset. destruct (closed stream) eqn:Hc; [by split|]. by split.
  - intros Hi. rewrite decide_False in Hh; [done|]. intros (i & Hm)%Hin. by apply (Hi i).
Qed.
End Pool.

(** ** A chosen interleaving *)

Inductive event := EvCall (l : call) | EvStep (i : nat) (o : oracle).

Section Run.
Context `{Flate} (c : Fixed).

Definition poolStep (x : Session * list (prog unit)) (ev : event) : option (Session * list (prog unit)) :=
  match ev with
  | EvCall l => Some (x.1, x.2 ++ [runCall c l])
  | EvStep i o =>
      match x.2 !! i with
      | Some (Act a k) =>
          match exec c o a x.1 with
          | Some (s', r) => Some (s', <[i := k r]> x.2)
          | None => None
          end
      | _ => None
      end
  end.

(** The events one after the other, up to the first that cannot happen. *)
Fixpoint runPool (x : Session * list (prog unit)) (evs : list event) : Session * list (prog unit) :=
  match evs with
  | [] => x
  | ev :: evs => match poolStep x ev with Some x => runPool x evs | None => x end
  end.

Lemma runPool_reachable x evs :
  pool_reachable c x.1 x.2 -> pool_reachable c (runPool x evs).1 (runPool x evs).2.
Proof.
  revert x. induction evs as [|ev evs IH]; intros [s ms] Hx; cbn [runPool]; [done|].
  destruct (poolStep (s, ms) ev) as [[s' ms']|] eqn:He; [|done]. apply IH. cbn in *.
  destruct ev as [l|i o]; cbn in He.
  - injection He as <- <-. by apply PoolCall.
  - destruct (ms !! i) as [[r|T a k]|] eqn:Hm; [done| |done].
    destruct (exec c o a s) as [[s1 t]|] eqn:Hex; [|done]. injection He as <- <-.
    by eapply PoolStep.
Qed.
End Run.

(** A server accepts a stream, approves it and writes to it. *)
Definition demoOracle : oracle := mkOracle 0 None [].
Definition demoFixed : Fixed := (newSession false 2 false None).1.
Definition demoOpen : Frame := mkFrame FrameOpen 1 (str_bytes "web").
Definition demoData : bytes := str_bytes "hello".

Definition demoStart : Session * list (prog unit) :=
  ((newSession false 2 false None).2, [readLoop demoFixed [demoOpen] (Sent EOF); writeLoop 3]).

Definition demoEvents : list event :=
  replicate 3 (EvStep 0 demoOracle) ++ EvCall (CApprove 0) :: replicate 3 (EvStep 2 demoOracle)
  ++ [EvCall (CWrite 3 0 demoData); EvStep 3 demoOracle].

(** Before the write's [schedule], and with the frame scheduled and the write
    loop about to send OPEN_OK. *)
Definition demoOwing : Session * list (prog unit) := runPool (H := rawFlate) demoFixed demoStart demoEvents.
Definition demoScheduled : Session * list (prog unit) :=
  runPool (H := rawFlate) demoFixed demoOwing [EvStep 3 demoOracle; EvStep 1 demoOracle].

Lemma demoStart_reachable : pool_reachable (H := rawFlate) demoFixed demoStart.1 demoStart.2.
Proof.
  apply PoolInit.
  - by eapply (InitNew false 2 false None).
  - constructor; [|done]. split; [by vm_compute|by vm_compute].
  - vm_compute. constructor; [apply not_elem_of_nil|constructor].
Defined.

Lemma demoOwing_reachable : pool_reachable (H := rawFlate) demoFixed demoOwing.1 demoOwing.2.
Proof. apply (runPool_reachable (H := rawFlate)), demoStart_reachable. Defined.

Lemma demoScheduled_reachable : pool_reachable (H := rawFlate) demoFixed demoScheduled.1 demoScheduled.2.
Proof. apply (runPool_reachable (H := rawFlate)), demoOwing_reachable. Defined.

(** The rest of a program about to schedule, or to write a frame. *)
Definition afterSchedule (m : option (prog unit)) : scheduleOutcome -> prog unit :=
  match m with
  | Some (Act a k) =>
      match a in action T return (T -> prog unit) -> scheduleOutcome -> prog unit with
      | ASchedule _ => fun k => k
      | _ => fun _ _ => Ret tt
      end k
  | _ => fun _ => Ret tt
  end.

Definition afterWrite (m : option (prog unit)) : err -> prog unit :=
  match m with
  | Some (Act a k) =>
      match a in action T return (T -> prog unit) -> err -> prog unit with
      | AWriteFrame _ => fun k => k
      | _ => fun _ _ => Ret tt
      end k
  | _ => fun _ => Ret tt
  end.

Definition demoQueued : Session := demoOwing.1 <| ready := [1] |>.

Lemma scheduler_never_overflows_witness :
  exec (H := rawFlate) demoFixed demoOracle (ASchedule 0) demoOwing.1 = Some (demoQueued, SchedQueued) /\
  SchedQueued <> SchedFull.
Proof.
  assert (demoOwing.2 !! 3%nat = Some (Act (ASchedule 0) (afterSchedule (demoOwing.2 !! 3%nat)))) as Hm
    by (vm_compute; reflexivity).
  assert (exec (H := rawFlate) demoFixed demoOracle (ASchedule 0) demoOwing.1 = Some (demoQueued, SchedQueued)) as He
    by (vm_compute; reflexivity).
  split; [exact He|].
  exact (proj1 (scheduler_never_overflows (H := rawFlate) demoFixed _ _ 3 demoOwing_reachable) _ _ _ _ _ Hm He).
Defined.

Lemma written_frames_valid_witness : Validate (frameOf FrameOpenOK 1 []) = None.
Proof.
  assert (demoScheduled.2 !! 1%nat =
    Some (Act (AWriteFrame (frameOf FrameOpenOK 1 [])) (afterWrite (demoScheduled.2 !! 1%nat)))) as Hm
    by (vm_compute; reflexivity).
  exact (written_frames_valid (H := rawFlate) demoFixed _ _ _ _ _ demoScheduled_reachable Hm).
Defined.

Definition demoStream : Stream := default (newStream 0) (heap demoScheduled.1 !! 0%nat).

Lemma no_frame_forgotten_witness :
  Forall resting demoScheduled.2 /\ mu demoScheduled.1 = false /\ 1 ∈ ready demoScheduled.1.
Proof.
  assert (Forall resting demoScheduled.2) as Hr by (vm_compute; repeat constructor).
  assert (streams demoScheduled.1 !! 1 = Some 0%nat) as Hm by (vm_compute; reflexivity).
  assert (heap demoScheduled.1 !! 0%nat = Some demoStream) as Hp by (vm_compute; reflexivity).
  assert (outbound demoStream <> []) as Ho by (vm_compute; discriminate).
  destruct (no_frame_forgotten (H := rawFlate) demoFixed _ _ 1 0 demoStream demoScheduled_reachable Hr Hm Hp Ho)
    as (H1 & H2 & _).
  split; [exact Hr|]. split; [exact H1|exact H2].
Defined.

(** The stream of the demo leaves the map; its late DATA is dropped. *)
Definition demoLate : Session := demoScheduled.1 <| streams := ∅ |>.

Lemma late_frame_ignored_witness :
  runs (H := rawFlate) demoFixed (handleFrame demoFixed (mkFrame FrameData 1 demoData)) demoLate demoLate None /\
  demoLate = demoLate /\ @None error = None.
Proof.
  assert (runs (H := rawFlate) demoFixed (handleFrame demoFixed (mkFrame FrameData 1 demoData)) demoLate demoLate None) as Hr.
  { exists demoOracle, demoLate, (None, true). by split; [vm_compute|]. }
  split; [exact Hr|].
  apply (late_frame_ignored (H := rawFlate) demoFixed (mkFrame FrameData 1 demoData) _ _ _); try done.
  left. split; [reflexivity|]. vm_compute. discriminate.
Defined.

Definition demoOracles : list oracle := replicate 5 (mkOracle 0 None [0%nat]).

Definition demoClosed : Session :=
  match runSeq (H := rawFlate) demoFixed demoOracles
    (shutdown (Some (Sent ErrResumeTimeout))) demoScheduled.1 with
  | Some (s, _) => s
  | None => demoScheduled.1
  end.

Lemma shutdown_resets_streams_witness :
  once demoScheduled.1 = NotStarted /\
  runs (H := rawFlate) demoFixed (shutdown (Some (Sent ErrResumeTimeout))) demoScheduled.1 demoClosed tt /\
  sclosed demoClosed = true.
Proof.
  assert (once demoScheduled.1 = NotStarted) as Ho by (vm_compute; reflexivity).
  assert (runs (H := rawFlate) demoFixed (shutdown (Some (Sent ErrResumeTimeout))) demoScheduled.1 demoClosed tt) as Hr.
  { apply (runSeq_runs (H := rawFlate) demoFixed demoOracles). vm_compute. reflexivity. }
  split; [exact Ho|]. split; [exact Hr|].
  exact (proj1 (shutdown_resets_streams (H := rawFlate) demoFixed _ _ _ Ho Hr)).
Defined.
