(* ===== verification/GoStrings.v ===== *)
(** * Go's string functions

    The functions of packages strings, strconv, net and encoding/hex that the
    source calls, on the bytes of a string: [TrimSpace], [Cut], [ReplaceAll]
    of one byte, [ToLower] on ASCII, [Atoi], [SplitHostPort], [JoinHostPort],
    and the hexadecimal codec. *)

From S2P Require Export GoErrors.

Definition colon : byte := Byte.x3a.

Fixpoint index_byte (b : byte) (p : bytes) : option nat :=
  match p with
  | [] => None
  | x :: p => if bool_decide (x = b) then Some O else S <$> index_byte b p
  end.

Definition contains_byte (b : byte) (p : bytes) : bool := bool_decide (is_Some (index_byte b p)).

Fixpoint last_index_byte (b : byte) (p : bytes) : option nat :=
  match p with
  | [] => None
  | x :: p =>
      match last_index_byte b p with
      | Some i => Some (S i)
      | None => if bool_decide (x = b) then Some O else None
      end
  end.

(** [strings.Cut] at one byte. *)
Definition cut (p : bytes) (b : byte) : bytes * bytes * bool :=
  match index_byte b p with
  | Some i => (take i p, drop (S i) p, true)
  | None => (p, [], false)
  end.

(** The UTF-8 encodings of the runes for which [unicode.IsSpace] holds. *)
Definition spaces : list bytes :=
  [[Byte.x09]; [Byte.x0a]; [Byte.x0b]; [Byte.x0c]; [Byte.x0d]; [Byte.x20];
   [Byte.xc2; Byte.x85]; [Byte.xc2; Byte.xa0]; [Byte.xe1; Byte.x9a; Byte.x80]]
  ++ ((fun b => [Byte.xe2; Byte.x80; b]) <$>
       [Byte.x80; Byte.x81; Byte.x82; Byte.x83; Byte.x84; Byte.x85; Byte.x86; Byte.x87; Byte.x88; Byte.x89;
        Byte.x8a; Byte.xa8; Byte.xa9; Byte.xaf])
  ++ [[Byte.xe2; Byte.x81; Byte.x9f]; [Byte.xe3; Byte.x80; Byte.x80]].

(** The longest prefix made of elements of [l], taken off. *)
Fixpoint trim_prefixes (l : list bytes) (fuel : nat) (p : bytes) : bytes :=
  match fuel with
  | O => p
  | S fuel =>
      match list_find (fun x => x `prefix_of` p) l with
      | Some (_, x) => trim_prefixes l fuel (drop (length x) p)
      | None => p
      end
  end.

Definition trim_left (p : bytes) : bytes := trim_prefixes spaces (length p) p.
Definition trim_right (p : bytes) : bytes :=
  reverse (trim_prefixes (reverse <$> spaces) (length p) (reverse p)).
Definition TrimSpace (s : string) : string := bytes_str (trim_right (trim_left (str_bytes s))).

(** ** strconv.Atoi *)

Definition digit (b : byte) : option Z :=
  let z := byte_z b - 48 in if (0 <=? z) && (z <=? 9) then Some z else None.

Fixpoint digits (acc : Z) (p : bytes) : option Z :=
  match p with
  | [] => Some acc
  | b :: p => match digit b with Some d => digits (acc * 10 + d) p | None => None end
  end.

Definition Atoi (s : string) : option Z :=
  let p := str_bytes s in
  let '(neg, q) := match p with
                   | Byte.x2d :: q => (true, q)
                   | Byte.x2b :: q => (false, q)
                   | _ => (false, p)
                   end in
  match q with
  | [] => None
  | _ =>
      n ← digits 0 q;
      let n := if neg : bool then - n else n in
      if (- 2 ^ 63 <=? n) && (n <? 2 ^ 63) then Some n else None
  end.

(** ** net.SplitHostPort and net.JoinHostPort *)

Definition lbracket : byte := Byte.x5b.
Definition rbracket : byte := Byte.x5d.

Definition splitHostPort (p : bytes) : option (bytes * bytes) :=
  i ← last_index_byte colon p;
  let port := drop (S i) p in
  if bool_decide (head p = Some lbracket) then
    e ← index_byte rbracket p;
    if negb (bool_decide (S e = i)) then None
    else if contains_byte lbracket (drop 1 p) || contains_byte rbracket (drop (S e) p) then None
    else Some (take (e - 1) (drop 1 p), port)
  else
    let host := take i p in
    if contains_byte colon host || contains_byte lbracket p || contains_byte rbracket p then None
    else Some (host, port).

Definition SplitHostPort (s : string) : option (string * string) :=
  '(h, p) ← splitHostPort (str_bytes s); Some (bytes_str h, bytes_str p).

Definition JoinHostPort (host port : string) : string :=
  if contains_byte colon (str_bytes host) then "[" +:+ host +:+ "]:" +:+ port
  else host +:+ ":" +:+ port.

(** ** Hexadecimal *)

Definition to_lower_byte (b : byte) : byte :=
  if (65 <=? byte_z b) && (byte_z b <=? 90) then z_byte (byte_z b + 32) else b.

Definition nibble (b : byte) : option Z :=
  let z := byte_z b in
  if (48 <=? z) && (z <=? 57) then Some (z - 48)
  else if (97 <=? z) && (z <=? 102) then Some (z - 87)
  else if (65 <=? z) && (z <=? 70) then Some (z - 55)
  else None.

Definition hexdigit (z : Z) : byte := z_byte (if z <? 10 then z + 48 else z + 87).

Fixpoint hex_decode (p : bytes) : option bytes :=
  match p with
  | [] => Some []
  | [_] => None
  | a :: b :: p =>
      match nibble a, nibble b with
      | Some x, Some y => (cons (z_byte (x * 16 + y))) <$> hex_decode p
      | _, _ => None
      end
  end.

Fixpoint hex_encode (p : bytes) : bytes :=
  match p with
  | [] => []
  | b :: p => hexdigit (byte_z b / 16) :: hexdigit (byte_z b mod 16) :: hex_encode p
  end.

(** ** Quoting *)

(** [%q]: exact on ASCII text; the bytes of other characters are kept, as
    [strconv.Quote] does with those that are printable. *)
Definition quoted_byte (b : byte) : bytes :=
  let z := byte_z b in
  if (z =? 34) || (z =? 92) then [Byte.x5c; b]
  else if z =? 7 then str_bytes "\a"
  else if z =? 8 then str_bytes "\b"
  else if z =? 9 then str_bytes "\t"
  else if z =? 10 then str_bytes "\n"
  else if z =? 11 then str_bytes "\v"
  else if z =? 12 then str_bytes "\f"
  else if z =? 13 then str_bytes "\r"
  else if (z <? 32) || (z =? 127) then str_bytes "\x" ++ hex_encode [b]
  else [b].

Definition quoted (s : string) : string :=
  bytes_str (Byte.x22 :: concat (quoted_byte <$> str_bytes s) ++ [Byte.x22]).

(** ** Facts *)

Lemma str_bytes_inj s t : str_bytes s = str_bytes t -> s = t.
Proof. intros E. by rewrite <- (bytes_str_bytes s), E, bytes_str_bytes. Qed.

Lemma index_byte_None b p : index_byte b p = None <-> b ∉ p.
Proof.
  induction p as [|x p IH]; cbn; [split; [intros _; apply not_elem_of_nil|done]|].
  rewrite not_elem_of_cons. case_bool_decide as E; [split; [done|by intros [? _]]|].
  destruct (index_byte b p); cbn; split; try done.
  - intros [_ Hn]. by apply IH in Hn.
  - intros _. split; [done|]. by apply IH.
Qed.

Lemma index_byte_take b p i : index_byte b p = Some i -> b ∉ take i p.
Proof.
  revert i. induction p as [|x p IH]; intros i; cbn; [done|]. case_bool_decide as E.
  - intros [= <-]. apply not_elem_of_nil.
  - destruct (index_byte b p) as [j|]; [|done]. intros [= <-]. cbn. rewrite not_elem_of_cons.
    split; [done|]. by apply IH.
Qed.

Lemma contains_byte_false b p : contains_byte b p = false <-> b ∉ p.
Proof.
  unfold contains_byte. by rewrite bool_decide_eq_false, <- index_byte_None, eq_None_not_Some.
Qed.

(** What [trim_prefixes] leaves does not start with an element of the list. *)
Lemma trim_prefixes_suffix l fuel p : exists k, trim_prefixes l fuel p = drop k p.
Proof.
  revert p. induction fuel as [|fuel IH]; intros p; cbn; [by exists 0%nat|].
  destruct (list_find _ l) as [[i x]|]; [|by exists 0%nat].
  destruct (IH (drop (length x) p)) as (k & ->). exists (length x + k)%nat. by rewrite drop_drop.
Qed.

Lemma trim_prefixes_none l fuel p x :
  Forall (fun x => x <> []) l -> (length p <= fuel)%nat -> x ∈ l -> ~ x `prefix_of` trim_prefixes l fuel p.
Proof.
  intros Hne. revert p. induction fuel as [|fuel IH]; intros p Hlen Hx.
  { destruct p; [|cbn in Hlen; lia]. cbn. intros Hp%prefix_nil_inv. rewrite Forall_forall in Hne. by apply (Hne x). }
  cbn. destruct (list_find _ l) as [[i y]|] eqn:Hf.
  - apply list_find_Some in Hf as (Hi & Hy & _). apply IH; [|done].
    assert (y <> []) as Hyn by (rewrite Forall_forall in Hne; eapply Hne, list_elem_of_lookup_2, Hi).
    destruct y; [done|]. apply prefix_length in Hy. rewrite length_drop. cbn in *. lia.
  - rewrite list_find_None, Forall_forall in Hf. by apply Hf.
Qed.

Lemma trim_prefixes_id l fuel p : (forall x, x ∈ l -> ~ x `prefix_of` p) -> trim_prefixes l fuel p = p.
Proof.
  intros Hp. destruct fuel as [|fuel]; cbn; [done|].
  destruct (list_find _ l) as [[i y]|] eqn:Hf; [|done].
  apply list_find_Some in Hf as (Hi & Hy & _). exfalso. eapply Hp; [by eapply list_elem_of_lookup_2|done].
Qed.

Lemma spaces_nonempty : Forall (fun x => x <> []) spaces /\ Forall (fun x => x <> []) (reverse <$> spaces).
Proof. split; by repeat constructor. Qed.

Lemma TrimSpace_idem s : TrimSpace (TrimSpace s) = TrimSpace s.
Proof.
  unfold TrimSpace. rewrite str_bytes_str. f_equal. destruct spaces_nonempty as [H1 H2].
  set (p := trim_left (str_bytes s)).
  assert (forall x, x ∈ spaces -> ~ x `prefix_of` p) as Hp by (intros x Hx; by apply trim_prefixes_none).
  destruct (trim_prefixes_suffix (reverse <$> spaces) (length p) (reverse p)) as (k & Hk).
  assert (trim_right p `prefix_of` p) as Hpre.
  { unfold trim_right. rewrite Hk. exists (reverse (take k (reverse p))).
    rewrite <- reverse_app, take_drop. by rewrite reverse_involutive. }
  assert (trim_left (trim_right p) = trim_right p) as ->.
  { apply trim_prefixes_id. intros x Hx Hxp. eapply Hp; [exact Hx|]. by etrans. }
  unfold trim_right at 1. f_equal. rewrite trim_prefixes_id.
  - unfold trim_right. by rewrite reverse_involutive.
  - intros x Hx. unfold trim_right. rewrite reverse_involutive. apply trim_prefixes_none; [done|by rewrite length_reverse|done].
Qed.

(** ** Decimal numbers *)

Lemma digit_pretty (d : N) :
  (d < 10)%N -> digit (Ascii.byte_of_ascii (pretty_N_char d)) = Some (Z.of_N d).
Proof.
  intros Hd.
  assert (d = 0 \/ d = 1 \/ d = 2 \/ d = 3 \/ d = 4 \/ d = 5 \/ d = 6 \/ d = 7 \/ d = 8 \/ d = 9)%N as Hc by lia.
  repeat destruct Hc as [->|Hc]; try reflexivity. by subst.
Qed.

Lemma digits_app p q acc n : digits acc p = Some n -> digits acc (p ++ q) = digits n q.
Proof.
  revert acc. induction p as [|b p IH]; intros acc; cbn; [by intros [= ->]|].
  destruct (digit b); [apply IH|done].
Qed.

(** The decimal digits [pretty_N_go] puts in front. *)
Lemma pretty_digits (x : N) s :
  exists p, str_bytes (pretty_N_go x s) = p ++ str_bytes s /\ digits 0 p = Some (Z.of_N x) /\
    Forall (fun b => is_Some (digit b)) p /\ ((0 < x)%N -> p <> []) /\
    forall k : nat, (x < 10 ^ N.of_nat k)%N -> (length p <= k)%nat.
Proof.
  revert s. induction (N.lt_wf_0 x) as [x _ IH]; intros s.
  destruct (decide (x = 0)%N) as [->|Hx].
  { exists []. split_and!; [done|done|done|lia|intros; cbn; lia]. }
  assert (0 < x)%N as Hpos by lia. pose proof (N.mod_lt x 10 ltac:(done)) as Hm.
  destruct (IH (x `div` 10)%N (N.div_lt x 10 Hpos eq_refl) (String.String (pretty_N_char (x `mod` 10)) s))
    as (p & Hp & Hd & Hall & _ & Hlen).
  set (b := Ascii.byte_of_ascii (pretty_N_char (x `mod` 10))).
  assert (digit b = Some (Z.of_N (x `mod` 10))) as Hb by by apply digit_pretty.
  exists (p ++ [b]). rewrite pretty_N_go_step, Hp, str_bytes_cons by done. split_and!.
  - by rewrite <- app_assoc.
  - rewrite (digits_app _ _ _ _ Hd). cbn. rewrite Hb. f_equal.
    rewrite (N.div_mod x 10) at 3 by done. lia.
  - apply Forall_app. split; [done|]. constructor; [by rewrite Hb|done].
  - intros _. by destruct p.
  - intros [|k] Hk; [cbn in Hk; lia|]. rewrite length_app. cbn.
    assert (length p <= k)%nat; [|lia]. apply Hlen.
    apply N.Div0.div_lt_upper_bound. rewrite Nat2N.inj_succ, N.pow_succ_r' in Hk. lia.
Qed.

Lemma digit_byte b : is_Some (digit b) -> 48 <= byte_z b <= 57.
Proof.
  intros [z Hz]. unfold digit in Hz. destruct ((0 <=? byte_z b - 48) && (byte_z b - 48 <=? 9)) eqn:E; [|done].
  bool2prop. lia.
Qed.

(** No space starts or ends with a digit. *)
Lemma trim_digits p : Forall (fun b => is_Some (digit b)) p -> TrimSpace (bytes_str p) = bytes_str p.
Proof.
  intros Hp. unfold TrimSpace. rewrite str_bytes_str. f_equal.
  assert (forall l q, Forall (fun x => match x with b :: _ => digit b = None | [] => False end) l ->
    Forall (fun b => is_Some (digit b)) q -> forall x, x ∈ l -> ~ x `prefix_of` q) as Hnone.
  { intros l q Hl Hq x Hx Hpre. rewrite Forall_forall in Hl. specialize (Hl x Hx).
    destruct x as [|b x]; [done|]. destruct Hpre as [y ->]. cbn in Hq. apply Forall_cons in Hq as [[z Hz] _].
    congruence. }
  assert (trim_left p = p) as ->.
  { apply trim_prefixes_id, Hnone; [|done]. by repeat constructor. }
  unfold trim_right. rewrite trim_prefixes_id; [by rewrite reverse_involutive|].
  apply Hnone; [by repeat constructor|by apply Forall_reverse].
Qed.

(** [strconv.Itoa] of a positive number. *)
Lemma itoa_text n :
  0 < n ->
  (n < 2 ^ 63 -> Atoi (itoa n) = Some n) /\ TrimSpace (itoa n) = itoa n /\ itoa n <> "" /\
  contains_byte colon (str_bytes (itoa n)) = false /\
  forall k : nat, n < 10 ^ Z.of_nat k -> slen (itoa n) <= Z.of_nat k.
Proof.
  intros Hn. destruct n as [|x|]; [lia| |lia].
  assert (itoa (Z.pos x) = pretty_N_go (N.pos x) "") as Hi by done.
  destruct (pretty_digits (N.pos x) "") as (p & Hp & Hd & Hall & Hne & Hlen).
  rewrite app_nil_r in Hp. specialize (Hne ltac:(lia)).
  assert (bytes_str p = itoa (Z.pos x)) as Hb by (rewrite Hi, <- Hp; apply bytes_str_bytes).
  rewrite Hi, Hp. split_and!.
  - intros Hlt. unfold Atoi. rewrite Hp. destruct p as [|b p]; [done|].
    pose proof Hall as Hall'. apply Forall_cons in Hall' as [Hdig%digit_byte _].
    assert (match b :: p with
            | Byte.x2d :: q => (true, q) | Byte.x2b :: q => (false, q) | _ => (false, b :: p) end = (false, b :: p)) as ->.
    { destruct b; try reflexivity; cbn in Hdig; lia. }
    cbn [digits] in Hd |- *. rewrite Hd. cbn [option_bind mbind]. cbn -[Z.ltb Z.leb Z.pow].
    rewrite (proj2 (Z.leb_le _ _)), (proj2 (Z.ltb_lt _ _)) by lia. done.
  - rewrite <- Hi, <- Hb. by apply trim_digits.
  - intros E. rewrite E in Hp. by destruct p.
  - apply contains_byte_false. intros Hin. rewrite Forall_forall in Hall. specialize (Hall _ Hin).
    apply digit_byte in Hall. cbn in Hall. lia.
  - intros k Hk. rewrite <- zlen_str_bytes, Hp. unfold zlen. apply inj_le, Hlen.
    apply N2Z.inj_lt. rewrite N2Z.inj_pow, nat_N_Z. exact Hk.
Qed.

(** ** What trimming leaves alone *)

Definition space_byte (b : byte) : bool :=
  existsb (fun sp => bool_decide (head sp = Some b) || bool_decide (last sp = Some b)) spaces.

Lemma space_byte_false b sp q :
  space_byte b = false -> sp ∈ spaces -> ~ sp `prefix_of` b :: q /\ ~ reverse sp `prefix_of` b :: q.
Proof.
  intros Hb Hsp. destruct spaces_nonempty as [Hne _]. rewrite Forall_forall in Hne. specialize (Hne sp Hsp).
  assert (head sp <> Some b /\ last sp <> Some b) as [Hh Hl].
  { split; intros E; (assert (space_byte b = true); [|congruence]); apply existsb_exists; exists sp;
      (split; [by apply list_elem_of_In|]); rewrite (bool_decide_eq_true_2 _ E); [done|apply orb_true_r]. }
  split; intros [r Hr].
  - destruct sp as [|x sp]; [done|]. injection Hr as <- _. done.
  - destruct sp as [|x sp] using rev_ind; [done|]. rewrite reverse_app in Hr. injection Hr as <- _.
    by rewrite last_snoc in Hl.
Qed.

Lemma trim_right_keep p b : last p = Some b -> space_byte b = false -> trim_right p = p.
Proof.
  intros Hl Hb. unfold trim_right. rewrite trim_prefixes_id; [by rewrite reverse_involutive|].
  intros x (sp & -> & Hsp)%list_elem_of_fmap. destruct p as [|y p _] using rev_ind; [done|].
  rewrite last_snoc in Hl. injection Hl as ->. rewrite reverse_app. by apply space_byte_false.
Qed.

Lemma trim_left_keep p b : head p = Some b -> space_byte b = false -> trim_left p = p.
Proof.
  intros Hh Hb. apply trim_prefixes_id. intros sp Hsp. destruct p as [|x p]; [done|].
  injection Hh as ->. by apply space_byte_false.
Qed.

(** A line: text without spaces at its ends, and the newline. *)
Lemma TrimSpace_line p b e :
  head p = Some b -> space_byte b = false -> last p = Some e -> space_byte e = false ->
  TrimSpace (bytes_str (p ++ [Byte.x0a])) = bytes_str p.
Proof.
  intros Hh Hb Hl He. unfold TrimSpace. rewrite str_bytes_str. f_equal.
  rewrite (trim_left_keep _ b) by (done || by destruct p).
  unfold trim_right. rewrite length_app, reverse_app, Nat.add_comm. cbn [reverse rev_append app length Nat.add].
  change ([Byte.x0a] ++ reverse p) with (Byte.x0a :: reverse p). cbn [trim_prefixes].
  assert (list_find (fun x => x `prefix_of` Byte.x0a :: reverse p) (reverse <$> spaces) = Some (1%nat, [Byte.x0a])) as ->.
  { apply list_find_Some. split_and!; [reflexivity|by exists (reverse p)|].
    intros [|j] y Hy Hj; [|lia]. injection Hy as <-. intros [r Hr]. done. }
  cbn [length drop]. exact (trim_right_keep p e Hl He).
Qed.
