(* ===== verification/AppServices.v ===== *)
(** * Service lists and their selectors
    (internal/app/services.go, the target resolution of internal/bridge/server.go)

    A server parses [--service NAME:PORT] or [NAME:HOST:PORT] values, advertises
    the services, and resolves the selector of each incoming stream against them;
    a client maps local ports to selectors, either given on the command line or
    derived from what the server advertised. *)

From S2P Require Export GoStrings MuxServices.

Record ClientService := mkClientService { LocalPort : Z; Remote : string }.

(** Why a value is refused; the value is what the message quotes. *)
Inductive serviceError :=
  | ErrServiceSyntax (value : string)
  | ErrServiceNameTooLong (value : string)
  | ErrServicePort (value : string)
  | ErrServiceNumeric (value : string)
  | ErrServiceDuplicate (name : string)
  | ErrClientLocalPort (port : Z)
  | ErrClientTarget (remote : string)
  | ErrClientTargetTooLong (remote : string)
  | ErrClientTargetPort (port : Z)
  | ErrClientDuplicatePort (port : Z)
  | ErrAdvertisedPort (name : string) (port : Z)
  | ErrAdvertisedDuplicatePort (port : Z).

Definition port_ok (port : Z) : bool := negb ((port <? 1) || (65535 <? port)).

(** ** ParseServerServices *)

(** One turn of its loop, but for the duplicate check. *)
Definition parseServerService (value : string) : serviceError + Service :=
  let '(name, target, ok) := cut (str_bytes value) colon in
  let name := TrimSpace (bytes_str name) in
  let target := TrimSpace (bytes_str target) in
  if negb ok || bool_decide (name = "") || bool_decide (target = "") then inl (ErrServiceSyntax value)
  else if 64 <? slen name then inl (ErrServiceNameTooLong value)
  else
    let split :=
      if contains_byte colon (str_bytes target) then
        match SplitHostPort target with
        | Some (host, portText) =>
            if bool_decide (TrimSpace host = "") then None else Some (TrimSpace host, portText)
        | None => None
        end
      else Some ("", target) in
    match split with
    | None => inl (ErrServiceSyntax value)
    | Some (host, portText) =>
        match Atoi (TrimSpace portText) with
        | None => inl (ErrServicePort value)
        | Some port =>
            if negb (port_ok port) then inl (ErrServicePort value)
            else if bool_decide (is_Some (Atoi name)) then inl (ErrServiceNumeric value)
            else inr (mkService name host port)
        end
    end.

Fixpoint parseServices (seen : gset string) (values : list string) : serviceError + list Service :=
  match values with
  | [] => inr []
  | value :: values =>
      match parseServerService value with
      | inl e => inl e
      | inr service =>
          if bool_decide (Name service ∈ seen) then inl (ErrServiceDuplicate (Name service))
          else
            match parseServices ({[ Name service ]} ∪ seen) values with
            | inl e => inl e
            | inr services => inr (service :: services)
            end
      end
  end.

Definition ParseServerServices (values : list string) : serviceError + list Service :=
  parseServices ∅ values.

(** ** ValidateClientServices *)

Definition validateClientService (seen : gset Z) (s : ClientService) : option serviceError :=
  if negb (port_ok (LocalPort s)) then Some (ErrClientLocalPort (LocalPort s))
  else if bool_decide (TrimSpace (Remote s) = "") || contains_byte colon (str_bytes (Remote s))
  then Some (ErrClientTarget (Remote s))
  else if 64 <? slen (Remote s) then Some (ErrClientTargetTooLong (Remote s))
  else
    match Atoi (Remote s) with
    | Some port =>
        if negb (port_ok port) then Some (ErrClientTargetPort port)
        else if bool_decide (LocalPort s ∈ seen) then Some (ErrClientDuplicatePort (LocalPort s))
        else None
    | None => if bool_decide (LocalPort s ∈ seen) then Some (ErrClientDuplicatePort (LocalPort s)) else None
    end.

Fixpoint validateClientServices (seen : gset Z) (values : list ClientService) : option serviceError :=
  match values with
  | [] => None
  | s :: values =>
      match validateClientService seen s with
      | Some e => Some e
      | None => validateClientServices ({[ LocalPort s ]} ∪ seen) values
      end
  end.

Definition ValidateClientServices (values : list ClientService) : option serviceError :=
  validateClientServices ∅ values.

(** ** ClientServicesForAdvertised *)

Definition clientSelector (service : Service) : string :=
  if bool_decide (Name service = "") then itoa (Port service) else Name service.

Fixpoint clientServices (seen : gset Z) (values : list Service) : serviceError + list ClientService :=
  match values with
  | [] => inr []
  | service :: values =>
      if negb (port_ok (Port service)) then inl (ErrAdvertisedPort (Name service) (Port service))
      else if bool_decide (Port service ∈ seen) then inl (ErrAdvertisedDuplicatePort (Port service))
      else
        match clientServices ({[ Port service ]} ∪ seen) values with
        | inl e => inl e
        | inr l => inr (mkClientService (Port service) (clientSelector service) :: l)
        end
  end.

Definition ClientServicesForAdvertised (values : list Service) : serviceError + list ClientService :=
  clientServices ∅ values.

(** ** The server's resolution of a selector *)

Definition serviceMatches (selector : string) (service : Service) : bool :=
  bool_decide (selector = Name service)
  || (bool_decide (selector = "") && bool_decide (Name service = ""))
  || bool_decide (selector = itoa (Port service)).

Definition serviceTarget (host : string) (service : Service) : string :=
  JoinHostPort (if bool_decide (Host service = "") then host else Host service) (itoa (Port service)).

Fixpoint resolveService (host : string) (services : list Service) (selector : string) : option string :=
  match services with
  | [] => None
  | service :: services =>
      if serviceMatches selector service then Some (serviceTarget host service)
      else resolveService host services selector
  end.

(** ** Facts *)

Lemma port_text n :
  port_ok n = true ->
  Atoi (itoa n) = Some n /\ TrimSpace (itoa n) <> "" /\ contains_byte colon (str_bytes (itoa n)) = false /\
  slen (itoa n) <= 64.
Proof.
  intros Hn. unfold port_ok in Hn. bool2prop. destruct (itoa_text n) as (H1 & H2 & H3 & H4 & H5); [lia|].
  split; [apply H1; lia|]. split; [by rewrite H2|]. split; [done|]. etrans; [apply (H5 5%nat); lia|done].
Qed.

Lemma trim_elem l fuel p b : b ∈ trim_prefixes l fuel p -> b ∈ p.
Proof.
  destruct (trim_prefixes_suffix l fuel p) as (k & ->). intros Hb.
  rewrite <- (take_drop k p). apply elem_of_app. by right.
Qed.

Lemma TrimSpace_elem s b : b ∈ str_bytes (TrimSpace s) -> b ∈ str_bytes s.
Proof.
  unfold TrimSpace. rewrite str_bytes_str. unfold trim_right. intros Hb%elem_of_reverse%trim_elem.
  by apply elem_of_reverse, trim_elem in Hb.
Qed.

(** What the parser guarantees of a service. *)
Record parsed_ok (s : Service) : Prop := {
  po_name : TrimSpace (Name s) = Name s /\ Name s <> "";
  po_colon : contains_byte colon (str_bytes (Name s)) = false;
  po_len : slen (Name s) <= 64;
  po_numeric : Atoi (Name s) = None;
  po_port : port_ok (Port s) = true
}.

Lemma parseServerService_ok value s : parseServerService value = inr s -> parsed_ok s.
Proof.
  unfold parseServerService. destruct (cut (str_bytes value) colon) as [[name target] ok] eqn:Ec.
  destruct (negb ok || _ || _) eqn:E1; [done|]. bool2prop. destruct (Z.ltb_spec 64 (slen (TrimSpace (bytes_str name)))); [done|].
  destruct (if contains_byte _ _ then _ else _) as [[host portText]|]; [|done].
  destruct (Atoi (TrimSpace portText)) as [port|]; [|done].
  destruct (negb (port_ok port)) eqn:Hp; [done|]. case_bool_decide as Hn; [done|]. intros [= <-]. bool2prop.
  split; cbn [Name Port]; try done.
  - by rewrite TrimSpace_idem.
  - apply contains_byte_false. intros Hb%TrimSpace_elem. rewrite str_bytes_str in Hb.
    unfold cut in Ec. destruct (index_byte colon (str_bytes value)) as [i|] eqn:Hi.
    + injection Ec as <- _ _. by apply index_byte_take in Hi.
    + injection Ec as _ _ <-. done.
  - by apply eq_None_not_Some.
Qed.

Lemma parseServices_ok seen values l :
  parseServices seen values = inr l ->
  Forall parsed_ok l /\ NoDup (Name <$> l) /\ forall s, s ∈ l -> Name s ∉ seen.
Proof.
  revert seen l. induction values as [|v values IH]; intros seen l; cbn [parseServices].
  { intros [= <-]. split_and!; [constructor|constructor|]. intros s Hs. by apply not_elem_of_nil in Hs. }
  destruct (parseServerService v) as [e|s] eqn:Es; [done|]. case_bool_decide as Hseen; [done|].
  destruct (parseServices _ values) as [e|l'] eqn:El; [done|]. intros [= <-].
  apply IH in El as (Hok & Hnd & Hnot). apply parseServerService_ok in Es. split_and!.
  - by constructor.
  - cbn. constructor; [|done]. intros (t & Heq & Ht)%list_elem_of_fmap. specialize (Hnot t Ht). set_solver.
  - intros t [->|Ht]%elem_of_cons; [done|]. specialize (Hnot t Ht). set_solver.
Qed.

Lemma clientServices_spec seen values :
  Forall parsed_ok values -> NoDup (Port <$> values) -> (forall s, s ∈ values -> Port s ∉ seen) ->
  clientServices seen values = inr ((fun s => mkClientService (Port s) (Name s)) <$> values).
Proof.
  revert seen. induction values as [|s values IH]; intros seen Hok Hnd Hnot; cbn [clientServices]; [done|].
  apply Forall_cons in Hok as [[Hname Hcolon Hlen Hnum Hport] Hok]. cbn in Hnd. apply NoDup_cons in Hnd as [Hni Hnd].
  rewrite Hport. cbn [negb]. rewrite bool_decide_eq_false_2 by (apply Hnot; by left).
  rewrite IH; [|done|done|].
  - unfold clientSelector. by rewrite bool_decide_eq_false_2 by apply Hname.
  - intros t Ht. specialize (Hnot t (list_elem_of_further _ _ _ Ht)).
    assert (Port t <> Port s); [|set_solver]. intros Heq. apply Hni, list_elem_of_fmap. by exists t.
Qed.

Lemma validate_mapped seen values :
  Forall parsed_ok values -> NoDup (Port <$> values) -> (forall s, s ∈ values -> Port s ∉ seen) ->
  validateClientServices seen ((fun s => mkClientService (Port s) (Name s)) <$> values) = None.
Proof.
  revert seen. induction values as [|s values IH]; intros seen Hok Hnd Hnot; cbn [fmap list_fmap validateClientServices]; [done|].
  apply Forall_cons in Hok as [[Hname Hcolon Hlen Hnum Hport] Hok]. cbn in Hnd. apply NoDup_cons in Hnd as [Hni Hnd].
  assert (validateClientService seen (mkClientService (Port s) (Name s)) = None) as ->.
  { unfold validateClientService. cbn [LocalPort Remote]. rewrite Hport, Hcolon, Hnum. cbn [negb].
    rewrite (proj1 Hname), (bool_decide_eq_false_2 (Name s = "")) by apply Hname. cbn [orb].
    rewrite (proj2 (Z.ltb_ge _ _)) by done. by rewrite bool_decide_eq_false_2 by (apply Hnot; by left). }
  apply IH; [done|done|]. intros t Ht. specialize (Hnot t (list_elem_of_further _ _ _ Ht)). cbn [LocalPort].
  assert (Port t <> Port s); [|set_solver]. intros Heq. apply Hni, list_elem_of_fmap. by exists t.
Qed.

(** The whole list is refused for a port seen before. *)
Lemma clientServices_cases seen values :
  Forall parsed_ok values ->
  match clientServices seen values with
  | inr _ => NoDup (Port <$> values) /\ forall s, s ∈ values -> Port s ∉ seen
  | inl e =>
      exists j t, values !! j = Some t /\ e = ErrAdvertisedDuplicatePort (Port t) /\
        (Port t ∈ seen \/ exists i s, (i < j)%nat /\ values !! i = Some s /\ Port s = Port t)
  end.
Proof.
  revert seen. induction values as [|s values IH]; intros seen Hok; cbn [clientServices].
  { split; [constructor|]. intros s Hs. by apply not_elem_of_nil in Hs. }
  apply Forall_cons in Hok as [Hs Hok]. rewrite (po_port _ Hs). cbn [negb].
  case_bool_decide as Hseen; [exists 0%nat, s; split_and!; try done; by left|].
  specialize (IH ({[ Port s ]} ∪ seen) Hok). destruct (clientServices _ values) as [e|cs].
  - destruct IH as (j & t & Ht & He & Hcase). exists (S j), t. split_and!; try done.
    destruct Hcase as [[Hin%elem_of_singleton|Hin]%elem_of_union|(i & u & Hij & Hu)]; [|by left|].
    + right. exists 0%nat, s. split_and!; [lia|done|done].
    + right. exists (S i), u. split; [lia|done].
  - destruct IH as [Hnd Hnot]. split.
    + cbn. constructor; [|done]. intros (t & Heq & Ht)%list_elem_of_fmap. specialize (Hnot t Ht). set_solver.
    + intros t [->|Ht]%elem_of_cons; [done|]. specialize (Hnot t Ht). set_solver.
Qed.

(** A name that is not a number selects its own service. *)
Lemma resolve_name host values i s :
  Forall parsed_ok values -> NoDup (Name <$> values) -> values !! i = Some s ->
  resolveService host values (Name s) = Some (serviceTarget host s).
Proof.
  revert i. induction values as [|t values IH]; intros i Hok Hnd Hi; [done|]. cbn [resolveService].
  apply Forall_cons in Hok as [Ht Hok]. cbn in Hnd. apply NoDup_cons in Hnd as [Hni Hnd].
  destruct i as [|i]; cbn in Hi.
  - injection Hi as ->. unfold serviceMatches. by rewrite bool_decide_eq_true_2.
  - assert (s ∈ values) as Hs by by eapply list_elem_of_lookup_2.
    assert (parsed_ok s) as [[_ Hne] _ _ Hnum _] by (rewrite Forall_forall in Hok; by apply Hok).
    unfold serviceMatches. rewrite (bool_decide_eq_false_2 (Name s = Name t)).
    + rewrite (bool_decide_eq_false_2 (Name s = "")) by done. cbn [andb orb].
      rewrite bool_decide_eq_false_2; [by eapply IH|]. intros Heq. rewrite Heq in Hnum.
      destruct (port_text (Port t) (po_port _ Ht)) as [Hat _]. congruence.
    + intros Heq. apply Hni, list_elem_of_fmap. by exists s.
Qed.

(** * Properties *)

(** C23. The service list works end to end.  Whatever a server accepted on its
    command line, if its hosts and their number fit the wire format, the client
    decodes the advertised payload to the same services, and the name of each
    selects that service's target on the server.  Then the client either maps
    every service to a local port equal to the server's — the mapping passes its
    own validation and the selector of each local port makes the server dial
    exactly that service — or it refuses the whole list, which happens only when
    two services have the port its error names. *)
Theorem advertised_services_reachable values services host :
  ParseServerServices values = inr services ->
  Forall (fun s => slen (Host s) < 2 ^ 16) services -> zlen services < 2 ^ 16 ->
  decodeServices (encodeServices services) = inr services /\
  (forall s, s ∈ services -> resolveService host services (Name s) = Some (serviceTarget host s)) /\
  match ClientServicesForAdvertised services with
  | inr cs =>
      NoDup (Port <$> services) /\ ValidateClientServices cs = None /\ length cs = length services /\
      forall i s, services !! i = Some s ->
        exists client, cs !! i = Some client /\ LocalPort client = Port s /\
          resolveService host services (Remote client) = Some (serviceTarget host s)
  | inl e =>
      exists i j s t, (i < j)%nat /\ services !! i = Some s /\ services !! j = Some t /\ Port s = Port t /\
        e = ErrAdvertisedDuplicatePort (Port t)
  end.
Proof.
  intros Hp Hhosts Hlen. apply parseServices_ok in Hp as (Hok & Hnames & _). split_and!.
  - apply services_roundtrip_aux; [apply Forall_forall; intros s Hs|done].
    rewrite Forall_forall in Hok, Hhosts. destruct (Hok s Hs) as [_ _ Hl _ Hpt]. specialize (Hhosts s Hs).
    unfold service_ok, maxServiceName. unfold port_ok in Hpt. bool2prop. lia.
  - intros s (i & Hi)%list_elem_of_lookup. by eapply resolve_name.
  - unfold ClientServicesForAdvertised. pose proof (clientServices_cases ∅ services Hok) as Hcase.
    destruct (clientServices ∅ services) as [e|cs] eqn:Ec.
    + destruct Hcase as (j & t & Ht & -> & [Hin|(i & s & Hij & Hi & Heq)]); [by apply elem_of_empty in Hin|]. by exists i, j, s, t.
    + destruct Hcase as [Hports _]. rewrite clientServices_spec in Ec by set_solver. injection Ec as <-.
      split_and!; [done|by apply validate_mapped; set_solver|by rewrite length_fmap|].
      intros i s Hi. exists (mkClientService (Port s) (Name s)). rewrite list_lookup_fmap, Hi.
      split_and!; [done|done|]. cbn [Remote]. by eapply resolve_name.
Qed.

Definition demoServices : list Service := [mkService "web" "" 8080; mkService "db" "::1" 5432].

(** Two services of different hosts on one port: the client refuses the list. *)
Definition demoClash : list Service := [mkService "a" "" 80; mkService "b" "h" 80].

Lemma advertised_services_reachable_witness :
  ParseServerServices ["web: 8080"; " db :[::1]:5432"] = inr demoServices /\
  decodeServices (encodeServices demoServices) = inr demoServices /\
  ParseServerServices ["a:80"; "b:h:80"] = inr demoClash /\
  ClientServicesForAdvertised demoClash = inl (ErrAdvertisedDuplicatePort 80) /\
  resolveService "localhost" demoClash "b" = Some "h:80".
Proof.
  assert (ParseServerServices ["web: 8080"; " db :[::1]:5432"] = inr demoServices) as Hp by (vm_compute; reflexivity).
  assert (ParseServerServices ["a:80"; "b:h:80"] = inr demoClash) as Hq by (vm_compute; reflexivity).
  split; [exact Hp|]. split.
  - apply (advertised_services_reachable _ _ "localhost" Hp); [repeat constructor|reflexivity].
  - split; [exact Hq|]. split; [vm_compute; reflexivity|].
    destruct (advertised_services_reachable _ _ "localhost" Hq) as (_ & Hr & _); [repeat constructor|reflexivity|].
    apply (Hr (mkService "b" "h" 80)). right. left.
Defined.
