(* ===== verification/Identity.v ===== *)
(** * Stable server identities
    (internal/ble/identity.go, internal/app/server_id.go)

    A server identity is 16 bytes, printed as [lbnb:] and a UUID, and kept in a
    file the first start creates.  The file system is the content of that one
    file and, per attempt, the outcome of each call ([idEnv]). *)

From S2P Require Export GoStrings.

Definition serverIDPrefix : string := "lbnb:".

(** [type ServerID [16]byte]. *)
Definition ServerID_ok (id : bytes) : Prop := length id = 16%nat.

(** [NewServerID], from the 16 bytes [rand.Read] filled in. *)
Definition NewServerID (random : result bytes) : result bytes :=
  let? id := random in
  let id := <[6%nat := z_byte (Z.lor (Z.land (byte_z (nth 6 id Byte.x00)) 0x0f) 0x40)]> id in
  inr (<[8%nat := z_byte (Z.lor (Z.land (byte_z (nth 8 id Byte.x00)) 0x3f) 0x80)]> id).

Definition hyphen : byte := Byte.x2d.

Definition ParseServerID (value : string) : result bytes :=
  let p := str_bytes value in
  if negb (bool_decide (str_bytes serverIDPrefix `prefix_of` to_lower_byte <$> p))
  then inl (ErrNew "server ID must start with lbnb:")
  else
    let compact := filter (fun b => b <> hyphen) (slice_from p (slen serverIDPrefix)) in
    if negb (zlen compact =? 32) then inl (ErrNew "server ID must contain a 128-bit UUID")
    else
      match hex_decode compact with
      | None => inl (ErrNew "decode server ID")
      | Some decoded => inr decoded
      end.

Definition ServerID_String (id : bytes) : string :=
  let encoded := hex_encode id in
  bytes_str (str_bytes serverIDPrefix ++ slice encoded 0 8 ++ hyphen :: slice encoded 8 12
    ++ hyphen :: slice encoded 12 16 ++ hyphen :: slice encoded 16 20 ++ hyphen :: slice encoded 20 32).

(** ** The identity file *)

Record idEnv := mkIdEnv {
  e_configDir : result string;      (* os.UserConfigDir *)
  e_read : err;                     (* os.ReadFile fails although the file exists, or may exist *)
  e_mkdir : err;
  e_random : result bytes;
  e_other : option bytes;           (* another process creates the file meanwhile *)
  e_open : err;                     (* a failure other than ErrExist *)
  e_write : err;
  e_close : err
}.

Definition pathError (what : string) (e : error) : error := ErrWrap what e "".

(** [loadOrCreateServerID]: the identity or the error, and the file's content
    afterwards.  Each recursive call takes the next attempt's outcomes; [None]
    is running out of them. *)
Fixpoint loadOrCreateServerID (configuredPath : string) (envs : list idEnv) (file : option bytes)
    : option (result bytes * option bytes) :=
  match envs with
  | [] => None
  | env :: envs =>
      match (if bool_decide (configuredPath = "") then e_configDir env else inr configuredPath) with
      | inl e => Some (inl (pathError "locate user configuration directory: " e), file)
      | inr path =>
          match e_read env, file with
          | Some e, _ => Some (inl (pathError "read server ID file: " e), file)
          | None, Some data =>
              match ParseServerID (TrimSpace (bytes_str data)) with
              | inr id => Some (inr id, file)
              | inl e => Some (inl (pathError "parse server ID file: " e), file)
              end
          | None, None =>
              match e_mkdir env with
              | Some e => Some (inl (pathError "create server ID directory: " e), file)
              | None =>
                  match NewServerID (e_random env) with
                  | inl e => Some (inl (pathError "generate server ID: " e), file)
                  | inr id =>
                      match e_other env with
                      | Some data => loadOrCreateServerID configuredPath envs (Some data)
                      | None =>
                          match e_open env with
                          | Some e => Some (inl (pathError "create server ID file: " e), file)
                          | None =>
                              match e_write env with
                              | Some e => Some (inl (pathError "write server ID file: " e), None)
                              | None =>
                                  let file := Some (str_bytes (ServerID_String id) ++ [Byte.x0a]) in
                                  match e_close env with
                                  | Some e => Some (inl (pathError "close server ID file: " e), file)
                                  | None => Some (inr id, file)
                                  end
                              end
                          end
                      end
                  end
              end
          end
      end
  end.

(** ** Facts *)

Lemma hexdigit_spec z : 0 <= z < 16 ->
  nibble (hexdigit z) = Some z /\ hexdigit z <> hyphen /\ space_byte (hexdigit z) = false.
Proof.
  intros Hz. unfold hexdigit, hyphen.
  assert (z = 0 \/ z = 1 \/ z = 2 \/ z = 3 \/ z = 4 \/ z = 5 \/ z = 6 \/ z = 7 \/ z = 8 \/ z = 9 \/ z = 10
    \/ z = 11 \/ z = 12 \/ z = 13 \/ z = 14 \/ z = 15) as Hc by lia.
  repeat (destruct Hc as [->|Hc]); try subst z; split_and!; try reflexivity; discriminate.
Qed.

Lemma length_hex_encode p : length (hex_encode p) = (2 * length p)%nat.
Proof. induction p; cbn; lia. Qed.

Lemma byte_nibbles b : 0 <= byte_z b / 16 < 16 /\ 0 <= byte_z b mod 16 < 16.
Proof.
  pose proof (byte_z_range b). split; [|by apply Z.mod_pos_bound].
  split; [apply Z.div_pos; lia|apply Z.div_lt_upper_bound; lia].
Qed.

Lemma hex_decode_encode p : hex_decode (hex_encode p) = Some p.
Proof.
  induction p as [|b p IH]; cbn [hex_encode hex_decode]; [done|]. destruct (byte_nibbles b) as [H1 H2].
  rewrite (proj1 (hexdigit_spec _ H1)), (proj1 (hexdigit_spec _ H2)), IH. cbn. do 2 f_equal.
  rewrite <- (z_byte_byte_z b) at 3. f_equal. pose proof (Z.div_mod (byte_z b) 16). lia.
Qed.

Lemma hex_decode_length p q : hex_decode p = Some q -> length p = (2 * length q)%nat.
Proof.
  revert q. enough (forall n p q, (length p <= n)%nat -> hex_decode p = Some q -> length p = (2 * length q)%nat) by eauto.
  clear p. induction n as [|n IH]; intros p q Hn.
  { destruct p; [|cbn in Hn; lia]. by intros [= <-]. }
  destruct p as [|a [|b p]]; cbn [hex_decode]; [by intros [= <-]|done|].
  destruct (nibble a), (nibble b); try done. destruct (hex_decode p) as [q'|] eqn:E; [|done].
  intros [= <-]. apply IH in E; cbn in *; lia.
Qed.

Lemma hex_encode_digits p : Forall (fun b => exists z, 0 <= z < 16 /\ b = hexdigit z) (hex_encode p).
Proof.
  induction p as [|b p IH]; cbn [hex_encode]; [constructor|]. destruct (byte_nibbles b).
  constructor; [by exists (byte_z b / 16)|]. constructor; [by exists (byte_z b mod 16)|done].
Qed.

Lemma Forall_slice {A} (P : A -> Prop) l a b : Forall P l -> Forall P (slice l a b).
Proof. intros Hl. apply Forall_take. by apply Forall_drop. Qed.

Lemma filter_hex p : Forall (fun b => exists z, 0 <= z < 16 /\ b = hexdigit z) p ->
  filter (fun b => b <> hyphen) p = p.
Proof.
  induction 1 as [|b p (z & Hz & ->) _ IH]; [done|].
  rewrite filter_cons_True by apply (hexdigit_spec _ Hz). by rewrite IH.
Qed.

Lemma slices_join {A} (l : list A) :
  length l = 32%nat ->
  slice l 0 8 ++ slice l 8 12 ++ slice l 12 16 ++ slice l 16 20 ++ slice l 20 32 = l.
Proof. intros Hl. do 33 (destruct l as [|? l]; try done). Qed.

Lemma ParseServerID_String_aux id : ServerID_ok id -> ParseServerID (ServerID_String id) = inr id.
Proof.
  intros Hid. unfold ServerID_ok in Hid. unfold ParseServerID, ServerID_String. rewrite str_bytes_str. cbv zeta.
  rewrite fmap_app, bool_decide_eq_true_2 by by eexists. cbn [negb].
  rewrite slice_from_app_l by (by rewrite zlen_str_bytes).
  pose proof (hex_encode_digits id) as Hd.
  rewrite filter_app, filter_cons_False, filter_app, filter_cons_False, filter_app, filter_cons_False, filter_app,
    filter_cons_False by by intros [].
  rewrite !filter_hex by by apply Forall_slice.
  rewrite slices_join by (rewrite length_hex_encode; lia).
  assert (zlen (hex_encode id) = 32) as -> by (unfold zlen; rewrite length_hex_encode; lia).
  by rewrite hex_decode_encode.
Qed.

Lemma ServerID_String_ends id :
  ServerID_ok id -> exists b e, head (str_bytes (ServerID_String id)) = Some b /\ space_byte b = false /\
    last (str_bytes (ServerID_String id)) = Some e /\ space_byte e = false.
Proof.
  intros Hid. unfold ServerID_String. rewrite str_bytes_str. cbv zeta.
  pose proof (hex_encode_digits id) as Hd. set (h := hex_encode id) in *.
  assert (zlen (slice h 20 32) = 12) as Hl.
  { apply zlen_slice; [lia|]. unfold zlen, h. rewrite length_hex_encode. unfold ServerID_ok in Hid. lia. }
  destruct (slice h 20 32) as [|x q _] eqn:Eq using rev_ind; [done|].
  assert (Forall (fun b => exists z, 0 <= z < 16 /\ b = hexdigit z) (q ++ [x])) as Hq
    by (rewrite <- Eq; by apply Forall_slice).
  apply Forall_app in Hq as [_ Hx]. apply Forall_cons in Hx as [(z & Hz & ->) _].
  exists Byte.x6c, (hexdigit z). split_and!; [done|done| |by apply hexdigit_spec].
  rewrite !app_assoc, ?app_comm_cons, ?app_assoc. by rewrite last_snoc.
Qed.

Lemma ServerID_line id :
  ServerID_ok id -> TrimSpace (bytes_str (str_bytes (ServerID_String id) ++ [Byte.x0a])) = ServerID_String id.
Proof.
  intros Hid. destruct (ServerID_String_ends id Hid) as (b & e & H1 & H2 & H3 & H4).
  rewrite (TrimSpace_line _ b e) by done. apply bytes_str_bytes.
Qed.

Lemma NewServerID_length random id :
  (forall p, random = inr p -> ServerID_ok p) -> NewServerID random = inr id -> ServerID_ok id.
Proof.
  unfold NewServerID, ServerID_ok. destruct random as [e|p]; [done|]. intros Hp. cbn [rbind]. intros [= <-].
  rewrite !length_insert. by apply Hp.
Qed.

(** * Properties *)

(** Every identity survives printing and parsing, and parsing yields only
    16-byte identities: two servers are the same exactly when their printed
    identities are. *)
Theorem ParseServerID_String :
  (forall id, ServerID_ok id -> ParseServerID (ServerID_String id) = inr id) /\
  (forall value id, ParseServerID value = inr id -> ServerID_ok id) /\
  (forall a b, ServerID_ok a -> ServerID_ok b -> ServerID_String a = ServerID_String b -> a = b).
Proof.
  split_and!.
  - apply ParseServerID_String_aux.
  - intros value id. unfold ParseServerID. destruct (negb (bool_decide _)); [done|]. cbv zeta.
    destruct (Z.eqb_spec (zlen (filter (fun b => b <> hyphen) (slice_from (str_bytes value) (slen serverIDPrefix)))) 32)
      as [H32|]; [|done]. cbn [negb].
    destruct (hex_decode _) as [d|] eqn:E; [|done]. intros [= <-]. apply hex_decode_length in E.
    unfold ServerID_ok. unfold zlen in H32. lia.
  - intros a b Ha Hb Heq. pose proof (ParseServerID_String_aux a Ha) as Pa.
    rewrite Heq, ParseServerID_String_aux in Pa by done. congruence.
Qed.

(** The identity is stable: whatever the first start returned, created by
    this process or found because another one created it first, is what every
    later start that can read the file returns. *)
Theorem server_id_stable path envs file id file' env :
  (forall e p, e ∈ envs -> e_random e = inr p -> ServerID_ok p) ->
  loadOrCreateServerID path envs file = Some (inr id, file') ->
  e_read env = None -> (path = "" -> exists dir, e_configDir env = inr dir) ->
  loadOrCreateServerID path [env] file' = Some (inr id, file').
Proof.
  intros Hrandom Hload Hread Hdir.
  assert (exists data, file' = Some data /\ ParseServerID (TrimSpace (bytes_str data)) = inr id) as (data & -> & Hid).
  { revert file Hload. induction envs as [|env1 envs IH]; intros file; cbn [loadOrCreateServerID]; [done|].
    assert (forall e p, e ∈ envs -> e_random e = inr p -> ServerID_ok p) as Hrest
      by (intros e p He; apply Hrandom; by right). specialize (IH Hrest).
    destruct (if bool_decide (path = "") then _ else _) as [e|dir]; [done|].
    destruct (e_read env1); [done|]. destruct file as [data|].
    { destruct (ParseServerID (TrimSpace (bytes_str data))) as [e|id'] eqn:E; [done|].
      intros [= <- <-]. by exists data. }
    destruct (e_mkdir env1); [done|].
    destruct (NewServerID (e_random env1)) as [e|new] eqn:En; [done|].
    destruct (e_other env1) as [other|]; [by apply IH|].
    destruct (e_open env1), (e_write env1), (e_close env1); try done.
    intros [[= <-] <-]%Some_inj%pair_equal_spec. eexists. split; [done|].
    assert (ServerID_ok new) as Hok by (eapply NewServerID_length; [|exact En]; intros p; apply Hrandom; by left).
    rewrite ServerID_line by done. by apply ParseServerID_String_aux. }
  cbn [loadOrCreateServerID]. case_bool_decide as Hp.
  - destruct (Hdir Hp) as (dir & ->). by rewrite Hread, Hid.
  - by rewrite Hread, Hid.
Qed.

Definition demoRandom : bytes := replicate 16 Byte.xab.
Definition demoEnv : idEnv := mkIdEnv (inr "/home/u/.config") None None (inr demoRandom) None None None None.
Definition demoID : bytes := <[6%nat := Byte.x4b]> demoRandom.

Lemma server_id_stable_witness :
  loadOrCreateServerID "" [demoEnv] None = Some (inr demoID, Some (str_bytes (ServerID_String demoID) ++ [Byte.x0a])) /\
  loadOrCreateServerID "" [demoEnv] (Some (str_bytes (ServerID_String demoID) ++ [Byte.x0a]))
    = Some (inr demoID, Some (str_bytes (ServerID_String demoID) ++ [Byte.x0a])).
Proof.
  assert (loadOrCreateServerID "" [demoEnv] None
    = Some (inr demoID, Some (str_bytes (ServerID_String demoID) ++ [Byte.x0a]))) as Hl by (vm_compute; reflexivity).
  split; [exact Hl|]. refine (server_id_stable _ _ _ _ _ demoEnv _ Hl eq_refl _).
  - intros e p ->%list_elem_of_singleton [= <-]. reflexivity.
  - intros _. by exists "/home/u/.config".
Defined.
