(* ===== verification/AppPeer.v ===== *)
(** * A session of the application: its link and its mux
    (internal/app/server.go and internal/app/client.go)

    What [RunServer] and [RunClient] share: a reliable session with the mux
    session on top of it, how both are closed, and how a link evolves between
    two bindings under everything that runs outside the two loops ([evolves]). *)

From S2P Require Export LinkBinding.
From S2P Require Import AppServices.

Record muxHandle := mkMux {
  mux_max : Z;
  mux_compression : bool;
  mux_services : list Service;
  mux_done : bool
}.

(** A session the loop created: its link and its mux. *)
Record peer := mkPeer { p_link : Session; p_mux : muxHandle }.

#[export] Instance eta_peer : Eta peer := fun p => mkPeer (p_link p) (p_mux p).
#[export] Instance eta_mux : Eta muxHandle := fun m =>
  mkMux (mux_max m) (mux_compression m) (mux_services m) (mux_done m).

(** What closing and binding sessions do to the connections: a packet sent, a
    connection closed by the loop, an effect of link [i]. *)
Inductive peerEffect :=
  | PSend (c : nat) (packet : bytes)
  | PCloseConn (c : nat)
  | PLink (i : nat) (eff : effect).

(** ** Operations on a session *)

Definition closeLink (i : nat) (p : peer) : peer * list peerEffect :=
  let '(packet, l, eff) := Close (p_link p) in
  (p <| p_link := l |>,
   match packet, current (p_link p) with Some packet, Some b => [PSend (conn b) packet] | _, _ => [] end
   ++ (PLink i <$> eff)).

(** [mux.Session.Close]: its [shutdown] runs once and closes the link. *)
Definition closeMux (i : nat) (p : peer) : peer * list peerEffect :=
  if mux_done (p_mux p) then (p, [])
  else closeLink i (p <| p_mux := (p_mux p) <| mux_done := true |> |>).

(** [currentMux.Close(); currentLink.Close()]. *)
Definition closePeer (i : nat) (p : peer) : peer * list peerEffect :=
  let '(p, eff) := closeMux i p in
  let '(p, eff') := closeLink i p in (p, eff ++ eff').

(** Operations that run outside the loops: the goroutines of the link and
    the calls of its mux. *)
Definition background (o : op) : bool :=
  match o with
  | OAttach _ _ _ _ | OServerAck _ _ | OClientHello _ | OClientFinish _ _ _ => false
  | _ => true
  end.

(** * How a session evolves between two bindings

    Outside of [BindServer], a session keeps its identity and its connection,
    never turns compression on, and never opens again. *)

Definition evolves (s s' : Session) : Prop :=
  id s' = id s /\
  (Compression (config s') = true -> Compression (config s) = true) /\
  (closed s = true -> closed s' = true) /\
  (closed s' = true -> closed s = true \/ current s' = None) /\
  (forall b', current s' = Some b' -> exists b, current s = Some b /\ conn b = conn b').

#[export] Instance evolves_preorder : PreOrder evolves.
Proof.
  split; [intros s; split_and!; eauto|].
  intros s1 s2 s3 (A1 & A2 & A3 & A4 & A5) (B1 & B2 & B3 & B4 & B5). split_and!; [congruence|auto|auto|..].
  - intros [H|]%B4; [|by right]. apply A4 in H as [|H]; [by left|]. right.
    destruct (current s3) as [b|]; [|done]. destruct (B5 b eq_refl) as (? & ? & _). congruence.
  - intros b (b2 & Hb2 & ?)%B5. apply A5 in Hb2 as (b1 & ? & ?). exists b1. split; congruence.
Qed.

Lemma evolves_same s s' :
  id s' = id s -> config s' = config s -> closed s' = closed s -> current s' = current s -> evolves s s'.
Proof. intros H1 H2 H3 H4. unfold evolves. rewrite H1, H2, H3, H4. split_and!; eauto. Qed.

Lemma evolves_unbound s s' :
  id s' = id s -> config s' = config s -> (closed s = true -> closed s' = true) -> current s' = None -> evolves s s'.
Proof. intros H1 H2 H3 H4. unfold evolves. rewrite H1, H2, H4. split_and!; auto. by intros. Qed.

Lemma evolves_set_current s b b' : current s = Some b -> conn b' = conn b -> evolves s (set_current s b').
Proof. intros Hc Hb. split_and!; try done; [by left|]. intros ? [= <-]. by exists b. Qed.

Ltac evolve := apply evolves_same; done.

Lemma reconcile_evolves s e : evolves s (reconcilePeerLocked s e).1.
Proof. unfold reconcilePeerLocked. repeat case_match; cbn; evolve. Qed.

Lemma reconcile_current s e : current (reconcilePeerLocked s e).1 = current s.
Proof. unfold reconcilePeerLocked. by repeat case_match. Qed.

Lemma reduceFlightWindow_conn b : conn (reduceFlightWindow b) = conn b.
Proof. unfold reduceFlightWindow. by repeat case_match. Qed.

Lemma handleAck_evolves s b e now s' b' r :
  handleAckLocked s b e now = (s', b', r) -> evolves s s' /\ current s' = current s /\ conn b' = conn b.
Proof.
  unfold handleAckLocked. case_match; [by intros [= <- <- <-]|].
  pose proof (reconcile_evolves s e) as Hr. pose proof (reconcile_current s e) as Hc.
  destruct (reconcilePeerLocked s e) as [s1 [x|]]; cbn in Hr, Hc; [by intros [= <- <- <-]|].
  cbn zeta. repeat (case_match; try done); intros [= <- <- <-]; split_and!; try done;
    try (by rewrite ?reduceFlightWindow_conn); (etrans; [exact Hr|evolve]).
Qed.

Lemma accept_evolves s q p s' r : acceptDataLocked s q p = (s', r) -> evolves s s'.
Proof. unfold acceptDataLocked. intros Ha. repeat (case_match; simplify_eq; try done); evolve. Qed.

Lemma nextPacket_evolves s b now r s' b' :
  nextPacketLocked s b now = (r, s', b') -> evolves s s' /\ current s' = current s /\ conn b' = conn b.
Proof.
  unfold nextPacketLocked, nextDataLocked, sendWindow, repairSendNext. cbn zeta. intros Hn.
  repeat (case_match; simplify_eq; try done); split_and!; try done; try evolve; by rewrite ?reduceFlightWindow_conn.
Qed.

Lemma failBinding_evolves s g now e : evolves s (failBinding s g now e).1.
Proof. unfold failBinding. case_match; [|done]. by apply evolves_unbound. Qed.

Lemma closeWithError_evolves s e : evolves s (closeWithError s e).1.
Proof. unfold closeWithError. case_match; [done|]. by apply evolves_unbound. Qed.

Lemma negotiate_evolves s peer : evolves s (negotiateLocked s peer).
Proof.
  split_and!; [done| |done|by left|by eauto]. unfold negotiateLocked. cbn. intros [H _]%andb_true_iff.
  by repeat case_match.
Qed.

Lemma handleHello_evolves s b p : current s = Some b -> evolves s (handleHello s b p).1.
Proof.
  intros Hc. unfold handleHello. destruct (_ || negb (bool_decide _)); [done|].
  destruct (_ || negb (Bool.eqb _ _)); [done|].
  pose proof (reconcile_evolves s (be_get (slice p 1 9))) as Hr.
  pose proof (reconcile_current s (be_get (slice p 1 9))) as Hrc.
  destruct (reconcilePeerLocked s _) as [s1 [e|]]; [done|]. cbn [fst] in *.
  etrans; [exact Hr|]. rewrite Hc in Hrc. destruct (negotiate_evolves s1 (mkConfig (be_get (slice p 9 13) * Millisecond) 0
    (be_get (slice p 13 15)) ((zlen p =? 18) && wantsCompression (at_ p 17)))) as (E1 & E2 & E3 & E4 & E5).
  split_and!; [done| |done|by left|]; cbn; [|intros ? [= <-]; by exists b].
  intros [H _]%andb_true_iff. by repeat case_match.
Qed.

Lemma handleData_evolves s p now : evolves s (handleData s p now).1.
Proof.
  unfold handleData. case_match; [done|].
  destruct (acceptDataLocked _ _ _) as [s1 [[[adv buf] rej] e]] eqn:Ea. apply accept_evolves in Ea.
  assert (evolves s s1) as Hs1 by (etrans; [|exact Ea]; evolve).
  destruct e as [e|]; [done|]. cbn [fst]. etrans; [exact Hs1|].
  destruct rej, (0 <? adv), buf; cbn [orb]; repeat case_match; evolve.
Qed.

Lemma handlePacket_evolves s g p now : evolves s (handlePacket s g p now).1.1.
Proof.
  unfold handlePacket. destruct p as [|kind q]; [done|].
  destruct (bound_to s g) as [b|] eqn:Eb; [|done]. apply bound_to_Some in Eb as (Hc & _ & _).
  set (b1 := b <| lastRX := now |> <| heartbeatPending := false |> <| heartbeatFailures := 0 |>).
  pose proof (evolves_set_current s b b1 Hc eq_refl) as H1. cbn zeta.
  etrans; [exact H1|]. assert (current (set_current s b1) = Some b1) as Hc1 by done.
  revert Hc1. generalize (set_current s b1). clearbody b1. clear s b Hc H1. intros s Hc.
  case_bool_decide.
  { pose proof (handleData_evolves s (kind :: q) now). by destruct (handleData s _ now) as [s1 e]. }
  case_bool_decide.
  { destruct (negb _); [done|].
    destruct (handleAckLocked s b1 _ now) as [[s1 b2] e] eqn:Eh.
    apply handleAck_evolves in Eh as (Hs & Hcur & Hconn).
    assert (evolves s (set_current s1 b2)) as Hs2.
    { etrans; [exact Hs|]. apply (evolves_set_current _ b1); congruence. }
    destruct e; cbn; [done|]. etrans; [exact Hs2|]. evolve. }
  case_bool_decide; [destruct (negb _); [done|]; cbn; evolve|].
  case_bool_decide.
  { destruct (negb _); [done|]. cbn [fst].
    transitivity (s <| stats := (stats s) <| heartbeatRX := u64 (heartbeatRX (stats s) + 1) |> |>); [evolve|].
    by apply (evolves_set_current _ b1). }
  case_bool_decide; [done|].
  case_bool_decide; [destruct (_ && _); [|done]; evolve|].
  case_bool_decide; [|by case_bool_decide].
  pose proof (handleHello_evolves s b1 (kind :: q) Hc). by destruct (handleHello s b1 _) as [s1 e].
Qed.

Lemma Write_evolves fuel s p n : evolves s (Write fuel s p n).1.1.
Proof.
  revert s p n. induction fuel as [|fuel IH]; intros s p n; cbn; case_match; try done.
  destruct (Write_turn s p) as [s1 t] eqn:Et.
  assert (evolves s s1) as Hs.
  { revert Et. unfold Write_turn. repeat case_match; intros; simplify_eq; try done. evolve. }
  destruct t; [|done..]. etrans; [exact Hs|]. apply IH.
Qed.

Lemma heartbeatCheck_conn s b now s' b' r : heartbeatCheckLocked s b now = (s', b', r) -> conn b' = conn b.
Proof. unfold heartbeatCheckLocked. repeat case_match; intros; by simplify_eq. Qed.

Lemma ep_run_evolves s o : background o = true -> evolves s (oc_session (ep_run s o)).
Proof.
  intros Hbg.
  destruct o as [p|n|g now|g packet d now e|g now|g st fi e|g packet now|g now reason|d|e| |d|d|d
    |connMTU|connMTU cfg packet|connMTU packets|c connMTU m now]; cbn [ep_run]; try done.
  - pose proof (Write_evolves (length p) s p 0). by destruct (Write (length p) s p 0) as [[s' n] t].
  - unfold Read. repeat case_match; simplify_eq; try done. evolve.
  - unfold sendLoop_take. destruct (bound_to s g) as [b|] eqn:Eb; [|done].
    apply bound_to_Some in Eb as (Hc & _ & _).
    destruct (nextPacketLocked s b now) as [[r s1] b1] eqn:En.
    apply nextPacket_evolves in En as (Hs & Hcur & Hconn).
    destruct r; cbn; (etrans; [exact Hs|]); apply (evolves_set_current _ b); congruence.
  - unfold sendLoop_sent. cbn [fst quiet oc_session].
    set (t := match e with Some _ => _ | None => _ end). clearbody t.
    transitivity (s <| stats := t |>); [evolve|]. generalize (s <| stats := t |>). intros s'.
    destruct (current s') as [b|] eqn:Ec; [|done]. destruct e; [done|].
    destruct (gen b =? g); [|done]. by apply (evolves_set_current _ b).
  - unfold heartbeatLoop_tick. destruct (bound_to s g) as [b|] eqn:Eb; [|done].
    apply bound_to_Some in Eb as (Hc & _ & _).
    destruct (heartbeatCheckLocked s b now) as [[s1 b1] [pr det]] eqn:Eh.
    assert (evolves s s1 /\ current s1 = current s) as [Hs Hcur].
    { revert Eh. unfold heartbeatCheckLocked.
      repeat case_match; intros; simplify_eq; (split; [|done]); done || evolve. }
    apply heartbeatCheck_conn in Eh.
    destruct pr; cbn; (etrans; [exact Hs|]); apply (evolves_set_current _ b); congruence.
  - unfold heartbeatLoop_sent, heartbeatSendResultLocked.
    set (t := match e with Some _ => _ | None => _ end). clearbody t. cbn [quiet oc_session].
    transitivity (s <| stats := t |>); [evolve|]. generalize (s <| stats := t |>). intros s'.
    destruct (bound_to s' g) as [b|] eqn:Eb; [|done]. apply bound_to_Some in Eb as (Hc & _ & _).
    destruct e as [e|]; [destruct (_ && _); [|done]|]; apply (evolves_set_current _ b); try done.
    by case_match.
  - unfold receiveLoop_turn. destruct packet as [p|].
    + pose proof (handlePacket_evolves s g p now) as Hp.
      destruct (handlePacket s g p now) as [[s1 eff] [x|]]; [|done].
      pose proof (failBinding_evolves s1 g now (ErrWrap "receive packet: " x "")) as Hf.
      destruct (failBinding s1 g now _) as [s2 eff2]. cbn in *. by etrans.
    + pose proof (failBinding_evolves s g now (ErrNew "BLE receive channel closed")) as Hf.
      by destruct (failBinding s g now _) as [s2 eff2].
  - apply failBinding_evolves.
  - unfold expireAfter. case_match; [apply closeWithError_evolves|done].
  - apply closeWithError_evolves.
  - unfold Close. pose proof (closeWithError_evolves s (Sent EOF)).
    destruct (closeWithError s (Sent EOF)). by destruct (current s).
  - evolve.
  - evolve.
  - evolve.
Qed.

Definition is_open (p : peer) : Prop := closed (p_link p) = false.

Lemma closeLink_evolves i p : evolves (p_link p) (p_link (closeLink i p).1).
Proof.
  unfold closeLink, Close. pose proof (closeWithError_evolves (p_link p) (Sent EOF)) as H.
  by destruct (closeWithError _ _).
Qed.

Lemma closeLink_closed i p : closed (p_link (closeLink i p).1) = true.
Proof. unfold closeLink, Close, closeWithError. by destruct (closed (p_link p)) eqn:E. Qed.

Lemma closePeer_closes i p :
  closed (p_link (closePeer i p).1) = true /\ evolves (p_link p) (p_link (closePeer i p).1).
Proof.
  unfold closePeer. assert (evolves (p_link p) (p_link (closeMux i p).1)) as H1.
  { unfold closeMux. destruct p as [l m]. cbn. case_match; [done|]. apply (closeLink_evolves i (mkPeer l _)). }
  destruct (closeMux i p) as [p1 e1]. pose proof (closeLink_closed i p1). pose proof (closeLink_evolves i p1) as H2.
  destruct (closeLink i p1) as [p2 e2]. split; [done|]. cbn in *. by etrans.
Qed.

Lemma BindServer_ack_evolves s connMTU h : evolves s (BindServer_ack s connMTU h).1.
Proof.
  unfold BindServer_ack. repeat (case_match; [done|]). pose proof (reconcile_evolves s (ExpectedRemote h)) as Hr.
  destruct (reconcilePeerLocked s _) as [s1 [e|]]; [done|]. cbn in *. etrans; [exact Hr|apply negotiate_evolves].
Qed.

(** ** Resuming *)

(** What a resumed link keeps: everything received, and everything written from
    the offset the peer asks for. *)
Definition resumed (l l' : Session) (expected : Z) : Prop :=
  id l' = id l /\ closed l' = false /\ rxNext l' = rxNext l /\ rxBuf l' = rxBuf l /\ txNext l' = txNext l /\
  txBase l' = (if 0 <? u64 (expected - txBase l) then expected else txBase l) /\
  txBuf l' = slice_from (txBuf l) (u64 (expected - txBase l)).

Lemma reconcile_resumes l expected :
  closed l = false -> txBase l <= expected <= txNext l ->
  exists l1, reconcilePeerLocked l expected = (l1, None) /\ resumed l l1 expected /\ config l1 = config l.
Proof.
  intros Hc He. unfold reconcilePeerLocked, validatePeerExpected.
  rewrite (proj2 (Z.ltb_ge _ _)), (proj2 (Z.ltb_ge _ _)) by lia. cbn [orb].
  set (d := u64 (expected - txBase l)).
  assert (0 <= d) as Hd by apply (Z.mod_pos_bound _ (2 ^ 64) ltac:(lia)).
  unfold resumed. fold d. destruct (Z.ltb_spec 0 d); eexists; (split; [reflexivity|]); cbn; split_and!; try done.
  assert (d = 0) as -> by lia. done.
Qed.

Lemma resumed_negotiate l l1 e cfg : resumed l l1 e -> resumed l (negotiateLocked l1 cfg) e.
Proof. done. Qed.

Lemma attach_resumes l l1 e c connMTU m now :
  resumed l l1 e ->
  exists l2 eff b, attach l1 c connMTU m now = (l2, eff, None) /\ current l2 = Some b /\ conn b = c /\ resumed l l2 e.
Proof.
  intros (R1 & R2 & R3 & R4 & R5 & R6 & R7). unfold attach. rewrite R2. do 3 eexists. split; [reflexivity|].
  destruct (ackDirty _); cbn; by split_and!.
Qed.

Lemma negotiate_config s peer : config_ok (config s) -> config_ok (config (negotiateLocked s peer)).
Proof.
  unfold config_ok, negotiateLocked. intros (H1 & H2 & H3). cbn.
  repeat (case_match; bool2prop; cbn in * ); split_and!; lia.
Qed.

Lemma negotiate_compression s peer :
  Compression (config (negotiateLocked s peer)) = Compression (config s) && Compression peer.
Proof. unfold negotiateLocked. cbn. by repeat case_match. Qed.

(** The server's half: [BindServer]. *)
Lemma BindServer_resumes l connMTU hello c now :
  closed l = false -> h_ID hello = id l -> h_Compression hello = Compression (config l) ->
  txBase l <= ExpectedRemote hello <= txNext l ->
  exists l1 m l2 eff b,
    BindServer_ack l connMTU hello = (l1, inr (encodeHelloAck (rxNext l) (config l1) m, m)) /\
    Compression (config l1) = Compression (config l) /\ (config_ok (config l) -> config_ok (config l1)) /\
    attach l1 c connMTU m now = (l2, eff, None) /\ current l2 = Some b /\ conn b = c /\
    resumed l l2 (ExpectedRemote hello).
Proof.
  intros Hc Hid Hcomp He. unfold BindServer_ack, Matches. rewrite bool_decide_eq_true_2 by done.
  rewrite Hcomp, eqb_reflx, Hc. cbn [negb].
  destruct (reconcile_resumes l (ExpectedRemote hello) Hc He) as (l1 & -> & Hres & Hcfg). cbn zeta.
  set (peer := mkConfig _ _ _ _). set (m := Z.min _ _).
  destruct (attach_resumes l (negotiateLocked l1 peer) (ExpectedRemote hello) c connMTU m now Hres)
    as (l2 & eff & b & Hat & Hb & Hconn & Hres').
  exists (negotiateLocked l1 peer), m, l2, eff, b. split_and!; try done.
  - assert (rxNext l1 = rxNext l) as Hrx by apply Hres.
    change (rxNext (negotiateLocked l1 peer)) with (rxNext l1). by rewrite Hrx.
  - rewrite negotiate_compression, Hcfg. unfold peer. cbn. by destruct (Compression (config l)).
  - rewrite <- Hcfg. apply negotiate_config.
Qed.

(** The client's half: [BindClient] once its HELLO was answered. *)
Lemma BindClient_resumes l connMTU expected peerCfg m c now :
  closed l = false -> Compression peerCfg = Compression (config l) -> txBase l <= expected <= txNext l ->
  exists l1 m' l2 eff b,
    BindClient_finish l connMTU (config l) expected peerCfg m = (l1, inr m') /\
    attach l1 c connMTU m' now = (l2, eff, None) /\ current l2 = Some b /\ conn b = c /\ resumed l l2 expected.
Proof.
  intros Hc Hcomp He. unfold BindClient_finish. rewrite Hcomp.
  destruct (reconcile_resumes l expected Hc He) as (l1 & -> & Hres & Hcfg).
  destruct (attach_resumes l (negotiateLocked l1 peerCfg) expected c connMTU (Z.min (normalizeMTU connMTU) m) now Hres)
    as (l2 & eff & b & Hat & Hb & Hconn & Hres').
  exists (negotiateLocked l1 peerCfg), (Z.min (normalizeMTU connMTU) m), l2, eff, b.
  split_and!; try done. by destruct (Compression (config l)).
Qed.
