(* ===== verification/ServerLoop.v ===== *)
(** * The server's accept loop
    (internal/app/server.go)

    [RunServer] keeps one resumable session.  [loop_turn] is its accept loop cut
    at the points where another goroutine can run: [listener.Accept] with
    [ReadHello], the checks and the creation of a session; the critical section
    of [BindServer]; and [conn.Send] of the answer with [attach].  The sessions
    are those of LinkSession; a mux session is what the loop passes to its
    constructor and whether it has ended.  [startBLEServer] is the start with
    its recoveries. *)

From S2P Require Export AppPeer.
From S2P Require Import AppServices.

(** ** Configuration *)

Record ServerConfig := mkServerConfig {
  sc_TargetHost : string;
  sc_TargetPort : Z;
  sc_Services : list Service;
  sc_ResumeTimeout : Z;
  sc_MaxConnections : Z;
  sc_Benchmark : bool;
  sc_Compression : bool
}.

(** [target] of [RunServer]. *)
Definition serverTarget (cfg : ServerConfig) : string :=
  if sc_Benchmark cfg then ""
  else if bool_decide (sc_Services cfg = []) then JoinHostPort (sc_TargetHost cfg) (itoa (sc_TargetPort cfg))
  else
    fold_left (fun target service =>
        if bool_decide (target = "") then JoinHostPort (sc_TargetHost cfg) (itoa (Port service)) else target)
      (sc_Services cfg) "".

(** ** State *)

Inductive loopPc :=
  | PcAccept
  | PcBind (c : nat) (connMTU : Z) (hello : Hello) (createdSession : bool)
  | PcAck (c : nat) (connMTU m : Z) (createdSession : bool)
  | PcReturned (e : err).

(** [currentLink] and [currentMux] are set together: one index for both. *)
Record server := mkServer {
  sessions : list peer;
  currentLink : option nat;
  pc : loopPc
}.

#[export] Instance eta_server : Eta server := fun st => mkServer (sessions st) (currentLink st) (pc st).

Definition newServer : server := mkServer [] None PcAccept.

(** What serves the streams of a session. *)
Inductive bridgeMode :=
  | ServeBenchmark
  | ServeTarget (target : string)
  | ServeServices (host : string) (services : list Service).

Inductive serverEffect :=
  | SPeer (e : peerEffect)
  | SServe (i : nat) (mode : bridgeMode).

Abbreviation SSend c packet := (SPeer (PSend c packet)).
Abbreviation SCloseConn c := (SPeer (PCloseConn c)).
Abbreviation SLink i eff := (SPeer (PLink i eff)).

Definition sessionConfig (cfg : ServerConfig) (hello : Hello) : Config :=
  mkConfig (sc_ResumeTimeout cfg) DefaultReplayWindow (sc_MaxConnections cfg) (h_Compression hello).

Definition sessionServices (cfg : ServerConfig) : list Service :=
  if bool_decide (sc_Services cfg = []) && negb (sc_Benchmark cfg)
  then [mkService "" "" (sc_TargetPort cfg)] else sc_Services cfg.

Definition newPeer (cfg : ServerConfig) (hello : Hello) : peer :=
  mkPeer (NewSessionWithID (h_ID hello) (sessionConfig cfg hello))
    (mkMux (sc_MaxConnections cfg) (h_Compression hello) (sessionServices cfg) false).

Definition serveMode (cfg : ServerConfig) : bridgeMode :=
  if sc_Benchmark cfg then ServeBenchmark
  else if bool_decide (sessionServices cfg = []) then ServeTarget (serverTarget cfg)
  else ServeServices (sc_TargetHost cfg) (sessionServices cfg).

(** ** The loop *)

Inductive loopEvent :=
  | EvAccept (c : nat) (connMTU : Z) (packets : list bytes) (e : error)  (* and what ReadHello receives *)
  | EvAcceptError (e : error) (cancelled : bool)
  | EvBind
  | EvAcked (e : err) (now : Z).

Definition dropDone (st : server) : server :=
  match currentLink st with
  | Some i =>
      match sessions st !! i with
      | Some p => if closed (p_link p) then st <| currentLink := None |> else st
      | None => st
      end
  | None => st
  end.

Definition matchesCurrent (st : server) (hello : Hello) : bool :=
  match currentLink st with
  | Some i => match sessions st !! i with Some p => Matches (p_link p) (h_ID hello) | None => false end
  | None => true
  end.

(** From [Accept] to the call of [BindServer]. *)
Definition accepted (cfg : ServerConfig) (st : server) (c : nat) (connMTU : Z) (r : result Hello)
    : server * list serverEffect :=
  match r with
  | inl _ => (st, [SCloseConn c])
  | inr hello =>
      let st := dropDone st in
      if negb (matchesCurrent st hello) then (st, [SSend c (SendReject "server busy"); SCloseConn c])
      else if h_Compression hello && negb (sc_Compression cfg)
      then (st, [SSend c (SendReject "compression off"); SCloseConn c])
      else
        match currentLink st with
        | Some _ => (st <| pc := PcBind c connMTU hello false |>, [])
        | None =>
            let i := length (sessions st) in
            (mkServer (sessions st ++ [newPeer cfg hello]) (Some i) (PcBind c connMTU hello true),
             [SServe i (serveMode cfg)])
        end
  end.

(** [BindServer] failed. *)
Definition bindFailed (st : server) (c i : nat) (p : peer) (createdSession : bool) : server * list serverEffect :=
  let '(p, eff) := if createdSession then closePeer i p else (p, []) in
  (mkServer (<[i := p]> (sessions st)) (if createdSession then None else Some i) PcAccept,
   [SSend c (SendReject "resume failed"); SCloseConn c] ++ (SPeer <$> eff)).

(** [None]: the event does not fit the point the loop is at. *)
Definition loop_turn (cfg : ServerConfig) (st : server) (ev : loopEvent) : option (server * list serverEffect) :=
  match pc st, ev with
  | PcAccept, EvAccept c connMTU packets e => Some (accepted cfg st c connMTU (ReadHello packets e).1)
  | PcAccept, EvAcceptError e cancelled =>
      let ret := PcReturned (if cancelled then None else Some e) in
      match currentLink st with
      | Some i =>
          p ← sessions st !! i;
          let '(p, eff) := closePeer i p in
          Some (mkServer (<[i := p]> (sessions st)) (Some i) ret, SPeer <$> eff)
      | None => Some (st <| pc := ret |>, [])
      end
  | PcBind c connMTU hello created, EvBind =>
      i ← currentLink st; p ← sessions st !! i;
      match BindServer_ack (p_link p) connMTU hello with
      | (l, inl _) => Some (bindFailed st c i (p <| p_link := l |>) created)
      | (l, inr (ack, m)) =>
          Some (mkServer (<[i := p <| p_link := l |>]> (sessions st)) (Some i) (PcAck c connMTU m created),
                [SSend c ack])
      end
  | PcAck c connMTU m created, EvAcked (Some e) now =>
      i ← currentLink st; p ← sessions st !! i; Some (bindFailed st c i p created)
  | PcAck c connMTU m created, EvAcked None now =>
      i ← currentLink st; p ← sessions st !! i;
      match attach (p_link p) c connMTU m now with
      | (l, eff, None) =>
          Some (mkServer (<[i := p <| p_link := l |>]> (sessions st)) (Some i) PcAccept, (fun e => SLink i e) <$> eff)
      | (l, eff, Some e) => Some (bindFailed st c i (p <| p_link := l |>) created)
      end
  | _, _ => None
  end.

Inductive server_step (cfg : ServerConfig) : server -> list serverEffect -> server -> Prop :=
  | StLoop st ev st' eff : loop_turn cfg st ev = Some (st', eff) -> server_step cfg st eff st'
  | StLink st i p o :
      sessions st !! i = Some p -> background o = true ->
      server_step cfg st []
        (st <| sessions := <[i := p <| p_link := oc_session (ep_run (p_link p) o) |>]> (sessions st) |>)
  | StMuxDone st i p :
      sessions st !! i = Some p ->
      server_step cfg st []
        (st <| sessions := <[i := p <| p_mux := (p_mux p) <| mux_done := true |> |>]> (sessions st) |>).

Inductive server_reachable (cfg : ServerConfig) : server -> Prop :=
  | SrInit : server_reachable cfg newServer
  | SrStep st eff st' : server_reachable cfg st -> server_step cfg st eff st' -> server_reachable cfg st'.

(** ** Starting the Bluetooth server: [startBLEServer] *)

Inductive bleRecoveryAction := bleRecoveryNone | bleRecoveryRadio | bleRecoveryServices.

Definition selectBLERecovery (goos : string)
    (disabled contextActive advertisementAborted radioAttempted servicesAttempted : bool) : bleRecoveryAction :=
  if negb (bool_decide (goos = "windows")) || disabled || negb contextActive || negb advertisementAborted
  then bleRecoveryNone
  else if negb radioAttempted then bleRecoveryRadio
  else if negb servicesAttempted then bleRecoveryServices
  else bleRecoveryNone.

(** What the environment answers during one attempt. *)
Record attemptEnv := mkAttempt {
  a_start : result nat;          (* StartServerWithOptions: a listener *)
  a_aborted : bool;              (* IsAdvertisementAborted of its error *)
  a_ctxErr : err;                (* ctx.Err() after the start *)
  a_recover : err;               (* the outcome of the recovery *)
  a_ctxErr' : err;               (* ctx.Err() after the recovery *)
  a_cancelled : err              (* ctx.Done() came before the timer *)
}.

Inductive startAction := StartServer | ResetRadio | RestartServices | SleepFor (d : Z).

Definition attempts : Z := 4.

(** What one turn of the loop decides. *)
Inductive attemptResult := AttemptReturn (r : result nat) | AttemptBreak (e : error) | AttemptNext (e : error).

Definition startAttempt (goos : string) (disabled radio services : bool) (attempt : Z) (env : attemptEnv)
    : list startAction * attemptResult * bool * bool :=
  match a_start env with
  | inr listener => ([StartServer], AttemptReturn (inr listener), radio, services)
  | inl e =>
      let action := selectBLERecovery goos disabled (bool_decide (a_ctxErr env = None)) (a_aborted env) radio services in
      let '(acts, radio, services) :=
        match action with
        | bleRecoveryRadio => ([StartServer; ResetRadio], true, services)
        | bleRecoveryServices => ([StartServer; RestartServices], radio, true)
        | bleRecoveryNone => ([StartServer], radio, services)
        end in
      match action, a_recover env with
      | bleRecoveryRadio, None | bleRecoveryServices, None => (acts, AttemptNext e, radio, services)
      | _, _ =>
          if negb (bool_decide (goos = "windows")) || (attempt =? attempts) || bool_decide (is_Some (a_ctxErr' env))
          then (acts, AttemptBreak e, radio, services)
          else
            let acts := acts ++ [SleepFor (Z.shiftl 1 (attempt - 1) * Second)] in
            match a_cancelled env with
            | Some c => (acts, AttemptReturn (inl c), radio, services)
            | None => (acts, AttemptNext e, radio, services)
            end
      end
  end.

(** The loop, [n] turns before [attempt] passes [attempts]; [last] is [err]. *)
Fixpoint startLoop (goos : string) (disabled radio services : bool) (n : nat) (env : Z -> attemptEnv) (last : err)
    : list startAction * (err + nat) :=
  match n with
  | O => ([], inl last)
  | S n' =>
      let attempt := attempts - Z.of_nat n + 1 in
      let '(acts, r, radio, services) := startAttempt goos disabled radio services attempt (env attempt) in
      match r with
      | AttemptReturn (inr listener) => (acts, inr listener)
      | AttemptReturn (inl e) => (acts, inl (Some e))
      | AttemptBreak e => (acts, inl (Some e))
      | AttemptNext e =>
          let '(acts', r) := startLoop goos disabled radio services n' env (Some e) in (acts ++ acts', r)
      end
  end.

Definition startBLEServer (goos : string) (disabled : bool) (env : Z -> attemptEnv) : list startAction * (err + nat) :=
  startLoop goos disabled false false (Z.to_nat attempts) env None.

(** * The loop's invariant *)

Record server_inv (cfg : ServerConfig) (st : server) : Prop := {
  sv_current : forall i, currentLink st = Some i -> (i < length (sessions st))%nat;
  sv_open : forall i p, sessions st !! i = Some p -> is_open p -> currentLink st = Some i;
  sv_bound : forall i p, sessions st !! i = Some p -> closed (p_link p) = true -> current (p_link p) = None;
  sv_compression : forall i p, sessions st !! i = Some p ->
    Compression (config (p_link p)) = true -> sc_Compression cfg = true;
  sv_pc : forall c m h b, pc st = PcBind c m h b ->
    is_Some (currentLink st) /\ (h_Compression h = true -> sc_Compression cfg = true);
  sv_pc' : forall c m n b, pc st = PcAck c m n b -> is_Some (currentLink st);
  sv_returned : forall e i p, pc st = PcReturned e -> sessions st !! i = Some p -> closed (p_link p) = true
}.

(** A step that only changes session [i]. *)
Lemma inv_insert cfg st i p l m :
  server_inv cfg st -> sessions st !! i = Some p ->
  (Compression (config l) = true -> Compression (config (p_link p)) = true) ->
  (closed (p_link p) = true -> closed l = true) -> (closed l = true -> current l = None) ->
  server_inv cfg (mkServer (<[i := mkPeer l m]> (sessions st)) (currentLink st) (pc st)).
Proof.
  intros [I1 I2 I3 I4 I5 I6 I7] Hi E1 E2 E3. split; cbn [sessions currentLink pc]; try done.
  - intros j Hj. rewrite length_insert. by apply I1.
  - intros j q [(-> & <- & _)|[_ Hj]]%list_lookup_insert_Some Hq; [|by apply (I2 j q)].
    apply (I2 _ p Hi). unfold is_open in *. cbn in Hq. destruct (closed (p_link p)); [|done].
    by rewrite E2 in Hq.
  - intros j q [(-> & <- & _)|[_ Hj]]%list_lookup_insert_Some; [done|by apply (I3 j)].
  - intros j q [(-> & <- & _)|[_ Hj]]%list_lookup_insert_Some; [|by apply (I4 j)]. cbn. intros Hq%E1. by eapply I4.
  - intros e j q Hpc [(-> & <- & _)|[_ Hj]]%list_lookup_insert_Some; [|by apply (I7 e j)]. apply E2. by eapply I7.
Qed.

Lemma inv_update cfg st i p l m :
  server_inv cfg st -> sessions st !! i = Some p -> evolves (p_link p) l ->
  server_inv cfg (mkServer (<[i := mkPeer l m]> (sessions st)) (currentLink st) (pc st)).
Proof.
  intros HI Hi (E1 & E2 & E3 & E4 & E5). apply (inv_insert cfg st i p); try done.
  intros Hc. destruct (E4 Hc) as [Hp|]; [|done]. pose proof (sv_bound _ _ HI _ _ Hi Hp).
  destruct (current l) as [b|]; [|done]. destruct (E5 b eq_refl) as (? & ? & _). congruence.
Qed.

Lemma dropDone_inv cfg st : pc st = PcAccept -> server_inv cfg st -> server_inv cfg (dropDone st).
Proof.
  destruct st as [ss cl r]. cbn. intros -> HI. unfold dropDone. cbn. destruct cl as [i|]; [|done].
  destruct (ss !! i) as [p|] eqn:Hi; [|done]. destruct (closed (p_link p)) eqn:Hc; [|done].
  destruct HI as [I1 I2 I3 I4 I5 I6 I7]. split; cbn in *; try done.
  intros j q Hj Hq. specialize (I2 j q Hj Hq). unfold is_open in Hq. congruence.
Qed.

Lemma dropDone_fields st : sessions (dropDone st) = sessions st /\ pc (dropDone st) = pc st.
Proof. unfold dropDone. by repeat case_match. Qed.

(** After [dropDone] only an open session is current. *)
Lemma dropDone_current cfg st :
  server_inv cfg st -> currentLink (dropDone st) = None -> forall i p, sessions st !! i = Some p -> closed (p_link p) = true.
Proof.
  intros HI Hd i p Hi. destruct (closed (p_link p)) eqn:Hc; [done|].
  pose proof (sv_open _ _ HI i p Hi Hc) as Hcur. unfold dropDone in Hd. rewrite Hcur, Hi, Hc in Hd. congruence.
Qed.

Lemma accepted_inv cfg st c connMTU r :
  pc st = PcAccept -> server_inv cfg st -> server_inv cfg (accepted cfg st c connMTU r).1.
Proof.
  intros Hpc HI. unfold accepted. destruct r as [e|hello]; [done|].
  pose proof (dropDone_inv _ _ Hpc HI) as HI'. destruct (dropDone_fields st) as [Hs Hp].
  pose proof (dropDone_current _ _ HI) as Hclosed. rewrite <- Hs in Hclosed.
  generalize dependent (dropDone st). intros st1 HI1 Hs1 Hp1 Hclosed.
  destruct (negb (matchesCurrent st1 hello)); [done|].
  destruct (h_Compression hello && negb (sc_Compression cfg)) eqn:Hcomp; [done|].
  assert (h_Compression hello = true -> sc_Compression cfg = true) as Hok.
  { intros Hh. rewrite Hh in Hcomp. by destruct (sc_Compression cfg). }
  destruct HI1 as [I1 I2 I3 I4 I5 I6 I7]. destruct st1 as [ss [i|] r1]; cbn in *.
  - split; cbn; try done. intros ???? [= <- <- <- <-]. by split.
  - specialize (Hclosed eq_refl). split; cbn; try done.
    + intros ? [= <-]. rewrite length_app. cbn. lia.
    + intros j q [Hj|[Hj Hq]]%lookup_app_Some Ho; [unfold is_open in Ho; by rewrite (Hclosed j q) in Ho|].
      apply list_lookup_singleton_Some in Hq as [Hq _]. f_equal. lia.
    + intros j q [Hj|[Hj Hq]]%lookup_app_Some; [by apply (I3 j)|].
      by apply list_lookup_singleton_Some in Hq as [_ <-].
    + intros j q [Hj|[Hj Hq]]%lookup_app_Some; [by apply (I4 j)|].
      apply list_lookup_singleton_Some in Hq as [_ <-]. cbn. intros Hq. apply Hok. revert Hq.
      unfold normalized. by repeat (case_match; cbn).
    + intros ???? [= <- <- <- <-]. split; [done|exact Hok].
Qed.

Lemma bindFailed_inv cfg st c i p l created :
  server_inv cfg st -> currentLink st = Some i -> sessions st !! i = Some p -> evolves (p_link p) l ->
  (forall e, pc st <> PcReturned e) ->
  server_inv cfg (bindFailed st c i (p <| p_link := l |>) created).1.
Proof.
  intros HI Hcur Hi Hl Hpc. unfold bindFailed. destruct created.
  - destruct (closePeer_closes i (p <| p_link := l |>)) as [Hc Hev].
    destruct (closePeer i (p <| p_link := l |>)) as [p2 eff]. cbn [fst] in *. cbn [p_link] in Hev.
    destruct (inv_update cfg st i p (p_link p2) (p_mux p2) HI Hi ltac:(by etrans)) as [I1 I2 I3 I4 I5 I6 I7].
    assert (mkPeer (p_link p2) (p_mux p2) = p2) as Hp2 by by destruct p2. rewrite Hp2 in *.
    split; cbn [sessions currentLink pc] in *; try done.
    intros j q Hj Hq. pose proof (I2 j q Hj Hq) as Hji. rewrite Hcur in Hji. injection Hji as <-.
    rewrite list_lookup_insert_eq in Hj by by eapply lookup_lt_Some. injection Hj as <-.
    unfold is_open in Hq. congruence.
  - cbn [fst]. destruct (inv_update cfg st i p l (p_mux p) HI Hi Hl) as [I1 I2 I3 I4 I5 I6 I7].
    split; cbn [sessions currentLink pc] in *; try done; rewrite Hcur in *; done.
Qed.

(** Back to [Accept]. *)
Lemma inv_accept cfg st i p :
  server_inv cfg (mkServer (<[i := p]> (sessions st)) (currentLink st) (pc st)) -> currentLink st = Some i ->
  (forall e, pc st <> PcReturned e) -> server_inv cfg (mkServer (<[i := p]> (sessions st)) (Some i) PcAccept).
Proof. intros [I1 I2 I3 I4 I5 I6 I7] Hc Hpc. rewrite Hc in *. by split. Qed.

Ltac turn_state Ht :=
  apply Some_inj, (f_equal fst) in Ht; cbn [fst] in Ht; rewrite <- Ht.

Lemma server_step_inv cfg st eff st' : server_inv cfg st -> server_step cfg st eff st' -> server_inv cfg st'.
Proof.
  intros HI Hstep. destruct Hstep as [st0 ev st1 eff1 Ht|st0 i p o Hi Hbg|st0 i p Hi].
  2:{ destruct st0. apply (inv_update cfg _ i p _ _ HI Hi). by apply ep_run_evolves. }
  2:{ destruct st0. by apply (inv_update cfg _ i p _ _ HI Hi). }
  unfold loop_turn in Ht. destruct (pc st0) as [|c m h created|c n m created|e] eqn:Hpc, ev as [c' m' packets e'|e' cancelled| |[e'|] now]; try done.
  - turn_state Ht. by apply accepted_inv.
  - destruct (currentLink st0) as [i|] eqn:Hcur; cbn in Ht.
    + destruct (sessions st0 !! i) as [p|] eqn:Hi; [|done]. cbn in Ht.
      destruct (closePeer_closes i p) as [Hc Hev]. destruct (closePeer i p) as [[l m] eff2]. cbn in *. injection Ht as <- _.
      destruct (inv_update cfg _ i p l m HI Hi Hev) as [I1 I2 I3 I4 I5 I6 I7]. rewrite Hcur in *.
      split; cbn in *; try done. intros e0 j q _ Hj. destruct (closed (p_link q)) eqn:Hq; [done|].
      pose proof (I2 j q Hj Hq) as [= <-]. rewrite list_lookup_insert_eq in Hj by by eapply lookup_lt_Some.
      injection Hj as <-. cbn in Hq. congruence.
    + injection Ht as <- _. destruct st0 as [ss cl r]; cbn in *. subst. destruct HI as [I1 I2 I3 I4 I5 I6 I7].
      split; cbn in *; try done. intros e0 j q _ Hj. destruct (closed (p_link q)) eqn:Hq; [done|].
      by specialize (I2 j q Hj Hq).
  - destruct (currentLink st0) as [i|] eqn:Hcur; [|done]. cbn in Ht.
    destruct (sessions st0 !! i) as [p|] eqn:Hi; [|done]. cbn in Ht.
    pose proof (BindServer_ack_evolves (p_link p) m h) as Hev.
    destruct (BindServer_ack (p_link p) m h) as [l [e|[ack n]]]; cbn in *.
    + turn_state Ht. apply bindFailed_inv; [done..|by rewrite Hpc].
    + injection Ht as <- _. pose proof (inv_update cfg _ i p l (p_mux p) HI Hi Hev) as HI'.
      apply inv_accept in HI'; [|done|by rewrite Hpc]. destruct HI' as [I1 I2 I3 I4 I5 I6 I7]. split; cbn in *; done.
  - destruct (currentLink st0) as [i|] eqn:Hcur; [|done]. cbn in Ht.
    destruct (sessions st0 !! i) as [p|] eqn:Hi; [|done]. cbn in Ht. turn_state Ht.
    destruct p as [l m']. apply (bindFailed_inv cfg st0 c i (mkPeer l m') l); [done..|by rewrite Hpc].
  - destruct (currentLink st0) as [i|] eqn:Hcur; [|done]. cbn in Ht.
    destruct (sessions st0 !! i) as [p|] eqn:Hi; [|done]. cbn in Ht.
    destruct (attach (p_link p) c n m now) as [[l eff2] [e|]] eqn:Hat.
    + turn_state Ht. unfold attach in Hat.
      destruct (closed (p_link p)); [|done]. injection Hat as <- _ _. apply bindFailed_inv; [done..|by rewrite Hpc].
    + injection Ht as <- _. apply inv_accept; [|done|by rewrite Hpc]. unfold attach in Hat.
      destruct (closed (p_link p)) eqn:Hc; [done|]. injection Hat as <- _.
      apply (inv_insert cfg st0 i p _ _ HI Hi); [|by rewrite Hc|];
        destruct (ackDirty _); cbn; (done || by rewrite Hc).
Qed.

Lemma server_reachable_inv cfg st : server_reachable cfg st -> server_inv cfg st.
Proof.
  induction 1 as [|st eff st' Hr IH Hs]; [by split|]. by eapply server_step_inv.
Qed.

(** ** Runs of the loop *)

Fixpoint run_loop (cfg : ServerConfig) (st : server) (evs : list loopEvent) : option (server * list serverEffect) :=
  match evs with
  | [] => Some (st, [])
  | ev :: evs =>
      '(st, eff) ← loop_turn cfg st ev;
      '(st, eff') ← run_loop cfg st evs;
      Some (st, eff ++ eff')
  end.

(** An arrival that is not the client of session [sid]. *)
Definition stranger (sid : SessionID) (ev : loopEvent) : Prop :=
  match ev with
  | EvAccept c connMTU packets e =>
      match (ReadHello packets e).1 with inl _ => True | inr hello => h_ID hello <> sid end
  | _ => False
  end.

Definition arrivals (evs : list loopEvent) : list nat :=
  omap (fun ev => match ev with EvAccept c _ _ _ => Some c | _ => None end) evs.

Lemma strangers_harmless cfg st i p evs :
  pc st = PcAccept -> currentLink st = Some i -> sessions st !! i = Some p -> is_open p ->
  Forall (stranger (id (p_link p))) evs ->
  exists eff, run_loop cfg st evs = Some (st, eff) /\ (forall c, c ∈ arrivals evs -> SCloseConn c ∈ eff) /\
    Forall (fun x => match x with SSend _ packet => packet = SendReject "server busy" | SCloseConn _ => True | _ => False end) eff.
Proof.
  intros Hpc Hcur Hi Hop. induction 1 as [|ev evs Hev Hevs (eff & IH & Hclose & Heff)]; [exists []; split_and!; [done|set_solver|constructor]|].
  destruct ev as [c m packets e| | |]; try done. cbn [run_loop stranger] in *. unfold loop_turn. rewrite Hpc.
  cbn [mbind option_bind]. unfold accepted.
  destruct (ReadHello packets e).1 as [x|hello].
  - rewrite IH. exists (SCloseConn c :: eff). cbn. split_and!; [done| |by constructor].
    intros c'. cbn. intros [->|Hc]%elem_of_cons; [by left|]. right. by apply Hclose.
  - assert (dropDone st = st) as ->.
    { unfold dropDone. rewrite Hcur, Hi. unfold is_open in Hop. by rewrite Hop. }
    assert (matchesCurrent st hello = false) as ->.
    { unfold matchesCurrent. rewrite Hcur, Hi. unfold Matches. by apply bool_decide_eq_false_2. }
    cbn [negb]. rewrite IH. eexists. cbn. split_and!; [done| |by repeat constructor].
    intros c'. cbn. intros [->|Hc]%elem_of_cons; [right; by left|]. do 2 right. by apply Hclose.
Qed.

Lemma run_loop_app cfg st st1 evs evs' eff :
  run_loop cfg st evs = Some (st1, eff) ->
  run_loop cfg st (evs ++ evs') = ('(st', eff') ← run_loop cfg st1 evs'; Some (st', eff ++ eff')).
Proof.
  revert st eff. induction evs as [|ev evs IH]; intros st eff; cbn.
  { intros [= <- <-]. by destruct (run_loop cfg st evs') as [[st' eff']|]. }
  destruct (loop_turn cfg st ev) as [[st2 eff2]|]; [|done]. cbn.
  destruct (run_loop cfg st2 evs) as [[st3 eff3]|] eqn:E; [|done]. cbn. intros [= <- <-].
  rewrite (IH _ _ E). destruct (run_loop cfg st3 evs') as [[st4 eff4]|]; [|done]. cbn. by rewrite app_assoc.
Qed.

(** The three turns that resume the current session. *)
Lemma resume_turns cfg st i p c connMTU packets e hello now :
  server_inv cfg st -> pc st = PcAccept -> currentLink st = Some i -> sessions st !! i = Some p -> is_open p ->
  (ReadHello packets e).1 = inr hello -> h_ID hello = id (p_link p) ->
  h_Compression hello = Compression (config (p_link p)) ->
  txBase (p_link p) <= ExpectedRemote hello <= txNext (p_link p) ->
  exists l1 m l2 eff b,
    run_loop cfg st [EvAccept c connMTU packets e; EvBind; EvAcked None now] =
      Some (mkServer (<[i := p <| p_link := l2 |>]> (sessions st)) (Some i) PcAccept,
            SSend c (encodeHelloAck (rxNext (p_link p)) (config l1) m) :: ((fun e => SLink i e) <$> eff)) /\
    Compression (config l1) = Compression (config (p_link p)) /\
    (config_ok (config (p_link p)) -> config_ok (config l1)) /\
    current l2 = Some b /\ conn b = c /\ resumed (p_link p) l2 (ExpectedRemote hello).
Proof.
  intros HI Hpc Hcur Hi Hop Hread Hid Hcomp Hexp.
  destruct (BindServer_resumes (p_link p) connMTU hello c now Hop Hid Hcomp Hexp)
    as (l1 & m & l2 & eff & b & Hack & Hc1 & Hok & Hatt & Hb & Hconn & Hres).
  exists l1, m, l2, eff, b. split; [|by split_and!].
  assert (i < length (sessions st))%nat as Hlt by by eapply lookup_lt_Some.
  assert (accepted cfg st c connMTU (inr hello) = (st <| pc := PcBind c connMTU hello false |>, [])) as H1.
  { unfold accepted.
    assert (dropDone st = st) as -> by (unfold dropDone; rewrite Hcur, Hi; unfold is_open in Hop; by rewrite Hop).
    assert (matchesCurrent st hello = true) as ->.
    { unfold matchesCurrent. rewrite Hcur, Hi. unfold Matches. by rewrite bool_decide_eq_true_2. }
    cbn [negb]. assert (h_Compression hello && negb (sc_Compression cfg) = false) as ->; [|by rewrite Hcur].
    pose proof (sv_compression _ _ HI i p Hi) as Ha. rewrite Hcomp. destruct (Compression _); [|done]. by rewrite Ha. }
  assert (loop_turn cfg st (EvAccept c connMTU packets e) = Some (st <| pc := PcBind c connMTU hello false |>, [])) as H2
    by (unfold loop_turn; by rewrite Hpc, Hread, H1).
  cbn [run_loop]. rewrite H2. cbn. rewrite Hcur. cbn. rewrite Hi. cbn. rewrite Hack.
  cbn. rewrite list_lookup_insert_eq by done. cbn. rewrite Hatt. cbn. by rewrite list_insert_insert_eq, app_nil_r.
Qed.

(** ** The start *)

Definition is_sleep (a : startAction) : Z := match a with SleepFor d => d | _ => 0 end.
Definition is_start (a : startAction) : bool := match a with StartServer => true | _ => false end.
Definition is_radio (a : startAction) : bool := match a with ResetRadio => true | _ => false end.
Definition is_services (a : startAction) : bool := match a with RestartServices => true | _ => false end.
Definition total_sleep (l : list startAction) : Z := foldr (fun a n => is_sleep a + n) 0 l.

Lemma total_sleep_app l l' : total_sleep (l ++ l') = total_sleep l + total_sleep l'.
Proof. unfold total_sleep. induction l as [|a l IH]; [done|]. cbn [app foldr]. rewrite IH. lia. Qed.

(** The recoveries a turn may still make. *)
Definition left_ (used : bool) : nat := if used then 0%nat else 1%nat.

Lemma selectBLERecovery_spec goos disabled active aborted radio services :
  match selectBLERecovery goos disabled active aborted radio services with
  | bleRecoveryNone => True
  | bleRecoveryRadio => goos = "windows" /\ disabled = false /\ radio = false
  | bleRecoveryServices => goos = "windows" /\ disabled = false /\ radio = true /\ services = false
  end.
Proof.
  unfold selectBLERecovery. case_bool_decide; [|done]. by destruct disabled, active, aborted, radio, services.
Qed.

Lemma startAttempt_spec goos disabled radio services attempt env acts r radio' services' :
  1 <= attempt <= attempts ->
  startAttempt goos disabled radio services attempt env = (acts, r, radio', services') ->
  countb is_start acts = 1%nat /\
  (countb is_radio acts + left_ radio' = left_ radio)%nat /\
  (countb is_services acts + left_ services' = left_ services)%nat /\
  (countb is_services acts <> O -> radio = true) /\
  0 <= total_sleep acts <= (if attempt =? attempts then 0 else 2 ^ (attempt - 1) * Second) /\
  ((goos <> "windows" \/ disabled = true) -> countb is_radio acts = O /\ countb is_services acts = O) /\
  (goos <> "windows" -> acts = [StartServer] /\ forall e, r <> AttemptNext e) /\
  (forall l, r = AttemptReturn (inr l) -> a_start env = inr l).
Proof.
  intros Ha Hs. assert (0 < 2 ^ (attempt - 1)) as Hpos by (apply Z.pow_pos_nonneg; lia).
  assert (0 <= (if attempt =? attempts then 0 else 2 ^ (attempt - 1) * Second)) as Hlim.
  { case_match; [lia|]. unfold Second, Millisecond. lia. }
  unfold startAttempt in Hs. destruct (a_start env) as [e|l].
  2:{ injection Hs as <- <- <- <-. cbn. split_and!; try done; auto; try lia; by intros ? [= ->]. }
  assert (Z.shiftl 1 (attempt - 1) * Second = 2 ^ (attempt - 1) * Second) as Hsh.
  { rewrite Z.shiftl_mul_pow2 by lia. lia. }
  pose proof (selectBLERecovery_spec goos disabled (bool_decide (a_ctxErr env = None)) (a_aborted env) radio services) as Hsel.
  destruct (negb (bool_decide (goos = "windows")) || (attempt =? attempts) || bool_decide (is_Some (a_ctxErr' env))) eqn:Hor.
  2:{ apply orb_false_iff in Hor as [[Hw%negb_false_iff%bool_decide_eq_true Hat]%orb_false_iff _]. rewrite Hat in *.
      destruct (selectBLERecovery _ _ _ _ _ _), (a_recover env), (a_cancelled env); cbn in Hsel, Hs;
        destruct_and?; injection Hs as <- <- <- <-; subst; cbn -[Z.pow Z.shiftl Second]; rewrite ?Hsh;
        split_and!; try done; try lia; by intros [|]. }
  destruct (selectBLERecovery _ _ _ _ _ _), (a_recover env); cbn in Hsel, Hs;
    destruct_and?; injection Hs as <- <- <- <-; subst; cbn -[Z.pow Z.shiftl Second];
    split_and!; try done; try lia; by intros [|].
Qed.

(** The sleeps of the attempts before the last: 1, 2 and 4 seconds. *)
Definition sleep_bound (n : nat) : Z := (2 ^ (attempts - 1) - 2 ^ (attempts - Z.of_nat n)) * Second.

Lemma startLoop_spec goos disabled radio services n env last acts r :
  Z.of_nat n <= attempts ->
  startLoop goos disabled radio services n env last = (acts, r) ->
  (countb is_start acts <= n)%nat /\ (countb is_radio acts <= left_ radio)%nat /\
  (countb is_services acts <= left_ services)%nat /\
  (countb is_services acts <> O -> radio = true \/ countb is_radio acts <> O) /\
  (n <> O -> 0 <= total_sleep acts <= sleep_bound n) /\
  ((goos <> "windows" \/ disabled = true) -> countb is_radio acts = O /\ countb is_services acts = O) /\
  (n <> O -> goos <> "windows" -> acts = [StartServer]) /\
  (n <> O -> r <> inl None) /\
  (forall l, r = inr l -> exists attempt, 1 <= attempt <= attempts /\ a_start (env attempt) = inr l).
Proof.
  revert radio services last acts r. induction n as [|n IH]; intros radio services last acts r Hn.
  { cbn. intros [= <- <-]. cbn. split_and!; try done; lia. }
  cbn [startLoop]. set (attempt := attempts - Z.of_nat (S n) + 1).
  assert (1 <= attempt <= attempts) as Ha by (unfold attempt; lia).
  destruct (startAttempt goos disabled radio services attempt (env attempt)) as [[[acts1 r1] radio1] services1] eqn:Es.
  apply startAttempt_spec in Es as (S1 & S2 & S3 & S4 & S5 & S6 & S7 & S8); [|done].
  assert (sleep_bound (S n) = (2 ^ (attempts - 1) - 2 ^ (attempt - 1)) * Second) as Hb1.
  { unfold sleep_bound, attempt. do 3 f_equal. lia. }
  assert (sleep_bound n = (2 ^ (attempts - 1) - 2 ^ attempt) * Second) as Hb2.
  { unfold sleep_bound, attempt. do 3 f_equal. lia. }
  assert (2 ^ attempt = 2 * 2 ^ (attempt - 1)) as Hpow.
  { rewrite <- Z.pow_succ_r by lia. f_equal. lia. }
  assert (attempt <> attempts -> 2 ^ attempt <= 2 ^ (attempts - 1)) as Hle.
  { intros. apply Z.pow_le_mono_r; lia. }
  assert (attempt = attempts -> 2 ^ (attempt - 1) = 2 ^ (attempts - 1)) as Hlast by (by intros ->).
  assert (0 < Second) as Hsec by done.
  assert (total_sleep acts1 <= sleep_bound (S n) /\ (n <> O -> total_sleep acts1 + sleep_bound n <= sleep_bound (S n))) as [Hsl Hsl'].
  { rewrite Hb1, Hb2. destruct (Z.eqb_spec attempt attempts) as [He|He].
    - rewrite (Hlast He). split; [lia|]. unfold attempt in He. lia.
    - specialize (Hle He). split; nia. }
  destruct r1 as [[e|l]|e|e].
  1-3: intros [= <- <-]; split_and!; try done; try lia; try (by intros; split_and!; lia);
    try (by intros; apply S7); auto; (intros ? [= <-]; exists attempt; split; [lia|by apply S8]).
  destruct (startLoop goos disabled radio1 services1 n env (Some e)) as [acts2 r2] eqn:El.
  pose proof El as El0. apply IH in El as (T1 & T2 & T3 & T4 & T5 & T6 & T7 & T8 & T9); [|lia].
  intros [= <- <-]. rewrite !countb_app, total_sleep_app. split_and!; try lia.
  - intros Hs. destruct radio; [by left|right]. destruct radio1; [cbn in *; lia|].
    destruct (decide (countb is_services acts1 = O)) as [Hz|Hz]; [|by specialize (S4 Hz)].
    destruct T4 as [|]; [lia|done|lia].
  - intros _. destruct (decide (n = O)) as [->|Hn0]; [|specialize (T5 Hn0); specialize (Hsl' Hn0); lia].
    cbn in El0. injection El0 as <- _. change (total_sleep []) with 0. lia.
  - intros Hg. destruct (S6 Hg) as [-> ->], (T6 Hg) as [-> ->]. done.
  - intros _ Hw. destruct (S7 Hw) as [_ Hne]. by destruct (Hne e).
  - intros _. destruct (decide (n = O)) as [->|Hn0]; [|by apply T8]. cbn in El0. by injection El0 as _ <-.
  - exact T9.
Qed.

(** * Properties *)

(** C15. In every reachable state of the server at most one session is open, and
    it is the loop's current one; only an open session has a connection bound
    to it; a session compresses only if the server allows it; and once
    [RunServer] has returned, every session is closed. *)
Theorem server_one_session cfg st :
  server_reachable cfg st ->
  (forall i p, sessions st !! i = Some p -> is_open p -> currentLink st = Some i) /\
  (forall i p b, sessions st !! i = Some p -> current (p_link p) = Some b -> is_open p) /\
  (forall i p, sessions st !! i = Some p -> Compression (config (p_link p)) = true -> sc_Compression cfg = true) /\
  (forall e i p, pc st = PcReturned e -> sessions st !! i = Some p -> closed (p_link p) = true).
Proof.
  intros [I1 I2 I3 I4 I5 I6 I7]%server_reachable_inv. split_and!; try done.
  intros i p b Hi Hb. unfold is_open. destruct (closed (p_link p)) eqn:Hc; [|done].
  specialize (I3 i p Hi Hc). congruence.
Qed.

(** C5. A session waits for its client: whatever other clients and broken
    handshakes arrive in between — each is turned away and its connection
    closed, with no effect on the session — when a HELLO with the session's id
    and an offset it retains arrives, it is acknowledged with the receive
    offset, the new connection is bound, nothing received is lost and every
    byte from the requested offset on is still there. *)
Theorem server_resumes_session cfg st i p strangers c connMTU packets e hello now :
  server_reachable cfg st ->
  pc st = PcAccept -> currentLink st = Some i -> sessions st !! i = Some p -> is_open p ->
  Forall (stranger (id (p_link p))) strangers ->
  (ReadHello packets e).1 = inr hello -> h_ID hello = id (p_link p) ->
  h_Compression hello = Compression (config (p_link p)) ->
  txBase (p_link p) <= ExpectedRemote hello <= txNext (p_link p) ->
  exists eff st' p' b, run_loop cfg st (strangers ++ [EvAccept c connMTU packets e; EvBind; EvAcked None now]) = Some (st', eff) /\
    (forall c', c' ∈ arrivals strangers -> SCloseConn c' ∈ eff) /\
    sessions st' = <[i := p']> (sessions st) /\ p_mux p' = p_mux p /\
    (exists cfg' m, SSend c (encodeHelloAck (rxNext (p_link p)) cfg' m) ∈ eff) /\
    current (p_link p') = Some b /\ conn b = c /\ resumed (p_link p) (p_link p') (ExpectedRemote hello).
Proof.
  intros Hr Hpc Hcur Hi Hop Hst Hread Hid Hcomp Hexp.
  destruct (strangers_harmless cfg st i p strangers Hpc Hcur Hi Hop Hst) as (eff & Hrun & Hclose & _).
  destruct (resume_turns cfg st i p c connMTU packets e hello now (server_reachable_inv _ _ Hr) Hpc Hcur Hi Hop Hread Hid Hcomp Hexp)
    as (l1 & m & l2 & eff2 & b & Hrun2 & _ & _ & Hb & Hconn & Hres).
  rewrite (run_loop_app _ _ _ _ _ _ Hrun), Hrun2. cbn [mbind option_bind].
  eexists _, _, (p <| p_link := l2 |>), b. split; [reflexivity|]. split_and!; try done.
  - intros c' Hc'. apply elem_of_app. left. by apply Hclose.
  - exists (config l1), m. apply elem_of_app. right. by left.
Qed.

(** C38. Starting the Bluetooth server ends after at most four attempts and
    seven seconds of waiting, with a listener some attempt returned or a
    non-nil error; the radio is reset and the services restarted at most once
    each, the services never before the radio, neither when recovery is
    disabled, and outside Windows there is one attempt and nothing else. *)
Theorem startBLEServer_bounds goos disabled env :
  let '(acts, r) := startBLEServer goos disabled env in
  (countb is_start acts <= 4)%nat /\ total_sleep acts <= 7 * Second /\
  (countb is_radio acts <= 1)%nat /\
  (countb is_services acts <= countb is_radio acts)%nat /\
  (disabled = true -> countb is_radio acts = O) /\
  (goos <> "windows" -> acts = [StartServer]) /\
  r <> inl None /\ (forall l, r = inr l -> exists attempt, 1 <= attempt <= 4 /\ a_start (env attempt) = inr l).
Proof.
  unfold startBLEServer. destruct (startLoop _ _ _ _ _ _ _) as [acts r] eqn:E.
  apply startLoop_spec in E as (T1 & T2 & T3 & T4 & T5 & T6 & T7 & T8 & T9); [|done].
  change (Z.to_nat attempts) with 4%nat in *. change (left_ false) with 1%nat in *. specialize (T5 ltac:(done)).
  change (sleep_bound 4) with (7 * Second) in T5. split_and!; auto; try lia.
  intros Hd. by apply T6; right.
Qed.

(** ** Witnesses *)

Definition demoCfg : ServerConfig := mkServerConfig "localhost" 8080 [] (60 * Second) 32 false false.
Definition demoSid : SessionID := replicate 16 Byte.x11.
Definition demoHello : list bytes :=
  [encodeHelloID demoSid; (encodeHello demoSid 0 (normalized (mkConfig 0 0 0 false)) 185).2].
Definition strangerHello : list bytes :=
  [encodeHelloID (replicate 16 Byte.x22); (encodeHello demoSid 0 (normalized (mkConfig 0 0 0 false)) 185).2].
Definition closedConn : error := closedDuringHandshake.

(** A client connected and its connection failed. *)
Definition demoConnect : list loopEvent := [EvAccept 0 244 demoHello closedConn; EvBind; EvAcked None Second].
Definition demoBound : server := match run_loop demoCfg newServer demoConnect with Some (st, _) => st | None => newServer end.
Definition demoPeer : peer :=
  match sessions demoBound with p :: _ => p | [] => newPeer demoCfg zeroHello end.
Definition demoDetachedPeer : peer :=
  demoPeer <| p_link := oc_session (ep_run (p_link demoPeer) (OFail 1 (2 * Second) (ErrNew "gone"))) |>.
Definition demoDetached : server :=
  demoBound <| sessions := <[0%nat := demoDetachedPeer]> (sessions demoBound) |>.
Definition demoHelloRead : Hello :=
  match (ReadHello demoHello closedConn).1 with inr hello => hello | inl _ => zeroHello end.

Lemma run_loop_reachable cfg st evs st' eff :
  server_reachable cfg st -> run_loop cfg st evs = Some (st', eff) -> server_reachable cfg st'.
Proof.
  revert st eff. induction evs as [|ev evs IH]; intros st eff Hr; cbn; [by intros [= <- _]|].
  destruct (loop_turn cfg st ev) as [[st2 eff2]|] eqn:E; [|done]. cbn.
  destruct (run_loop cfg st2 evs) as [[st3 eff3]|] eqn:E3; [|done]. cbn. intros [= <- _].
  eapply IH; [|exact E3]. eapply SrStep; [exact Hr|]. by eapply StLoop.
Qed.

Lemma demoDetached_reachable : server_reachable demoCfg demoDetached.
Proof.
  assert (server_reachable demoCfg demoBound) as Hr.
  { destruct (run_loop demoCfg newServer demoConnect) as [[st eff]|] eqn:E; [|by vm_compute in E].
    unfold demoBound. rewrite E. eapply run_loop_reachable; [apply SrInit|exact E]. }
  eapply SrStep; [exact Hr|]. apply StLink; [by vm_compute|done].
Qed.

Lemma demoDetached_peer : sessions demoDetached !! 0%nat = Some demoDetachedPeer /\ is_open demoDetachedPeer.
Proof. split; vm_compute; reflexivity. Qed.

Lemma server_one_session_witness : currentLink demoDetached = Some 0%nat.
Proof.
  apply (proj1 (server_one_session _ _ demoDetached_reachable) 0%nat _ (proj1 demoDetached_peer) (proj2 demoDetached_peer)).
Defined.

Lemma server_resumes_session_witness :
  exists eff st', run_loop demoCfg demoDetached
      [EvAccept 1 244 strangerHello closedConn; EvAccept 2 244 [] closedConn; EvAccept 3 244 demoHello closedConn;
       EvBind; EvAcked None (3 * Second)] = Some (st', eff) /\ SCloseConn 1 ∈ eff /\ SCloseConn 2 ∈ eff.
Proof.
  destruct (server_resumes_session demoCfg demoDetached 0 demoDetachedPeer
    [EvAccept 1 244 strangerHello closedConn; EvAccept 2 244 [] closedConn] 3 244 demoHello closedConn demoHelloRead (3 * Second))
    as (eff & st' & p' & b & Hrun & Hclose & _); try (vm_compute; reflexivity).
  - apply demoDetached_reachable.
  - repeat constructor. vm_compute. discriminate.
  - vm_compute. split; discriminate.
  - exists eff, st'. split; [exact Hrun|]. split; apply Hclose; cbn; [left|right; left].
Defined.

Definition abortedStart : attemptEnv := mkAttempt (inl (ErrNew "aborted")) true None None None None.
Definition failedStart : attemptEnv := mkAttempt (inl (ErrNew "busy")) false None None None None.

(** A first abort in the last attempt resets the radio although no attempt is
    left to profit from it. *)
Lemma last_attempt_resets_radio :
  startBLEServer "windows" false (fun attempt => if attempt =? 4 then abortedStart else failedStart) =
  ([StartServer; SleepFor Second; StartServer; SleepFor (2 * Second); StartServer; SleepFor (4 * Second);
    StartServer; ResetRadio], inl (Some (ErrNew "aborted"))).
Proof. vm_compute. reflexivity. Qed.
