(* ===== verification/Proxy.v ===== *)
(** * Proxying one TCP connection over one stream
    (internal/bridge/proxy.go, proxy_close_unix.go, and the stream handling of
    internal/bridge/server.go)

    [ProxyWithTraffic] runs two goroutines that copy with [io.Copy], and waits
    for both.  Each call on the TCP connection or on the stream is one step
    whose outcome the environment chooses; the two goroutines and the waiting
    caller interleave freely. *)

From S2P Require Export GoErrors.
From S2P Require Import AppServices Traffic.

(** ** Errors that end a connection normally *)

Definition cleanCopyError (e : err) : err :=
  match e with
  | None => None
  | Some e => if errors_Is e EOF || errors_Is e NetErrClosed then None else Some e
  end.

Definition isExpectedNetworkClose (e : error) : bool :=
  errors_Is e ECONNABORTED || errors_Is e ECONNRESET || errors_Is e EPIPE.

Definition cleanProxyError (e : err) : err :=
  match cleanCopyError e with
  | None => None
  | Some e => if isExpectedNetworkClose e then None else Some e
  end.

(** ** One direction

    [io.Copy] reads into its buffer and writes what it read; then [CloseWrite]
    of the destination and the result on [errorsCh]. *)

Inductive copyPc :=
  | CopyRead
  | CopyWrite (p : bytes) (er : err)    (* what Read returned *)
  | CopyCloseWrite (e : err)            (* the result of io.Copy *)
  | CopySend (e : err)                  (* errorsCh <- *)
  | CopyDone (e : err).                 (* what it sent *)

Record direction := mkDirection {
  c_pc : copyPc;
  c_read : bytes;        (* everything Read returned *)
  c_written : bytes;     (* everything the destination accepted *)
  c_counted : Z          (* what was added to the traffic counter *)
}.

#[export] Instance eta_direction : Eta direction := fun d =>
  mkDirection (c_pc d) (c_read d) (c_written d) (c_counted d).

Definition newDirection : direction := mkDirection CopyRead [] [] 0.

(** The outcome of a call of the current step. *)
Inductive copyEvent :=
  | EvRead (p : bytes) (er : err)
  | EvWrite (nw : Z) (ew : err)
  | EvCloseWrite (e : err).

Definition errInvalidWrite : error := ErrNew "invalid write result".

(** After [Read]'s error [er] was looked at. *)
Definition copyAfter (er : err) : copyPc :=
  match er with
  | None => CopyRead
  | Some e => CopyCloseWrite (if bool_decide (e = Sent EOF) then None else Some e)
  end.

(** [countingWriter.Write], then the checks of [io.Copy]; [counting] is whether
    a counter is there. *)
Definition copyWrote (counting : bool) (d : direction) (p : bytes) (er : err) (nw : Z) (ew : err) : direction :=
  let d := if counting && (0 <? nw) then d <| c_counted := u64 (c_counted d + u64 nw) |> else d in
  let '(nw, ew) := if (nw <? 0) || (zlen p <? nw)
                   then (0, match ew with None => Some errInvalidWrite | e => e end) else (nw, ew) in
  let d := d <| c_written := c_written d ++ slice_to p nw |> in
  match ew with
  | Some e => d <| c_pc := CopyCloseWrite (Some e) |>
  | None =>
      if negb (zlen p =? nw) then d <| c_pc := CopyCloseWrite (Some (Sent ErrShortWrite)) |>
      else d <| c_pc := copyAfter er |>
  end.

(** [closes]: the destination has [CloseWrite]; the stream always does. *)
Definition copy_step (counting closes : bool) (d : direction) (ev : copyEvent) : option direction :=
  match c_pc d, ev with
  | CopyRead, EvRead p er =>
      let d := d <| c_read := c_read d ++ p |> in
      Some (if 0 <? zlen p then d <| c_pc := CopyWrite p er |> else d <| c_pc := copyAfter er |>)
  | CopyWrite p er, EvWrite nw ew => Some (copyWrote counting d p er nw ew)
  | CopyCloseWrite e, EvCloseWrite ce =>
      Some (d <| c_pc := CopySend (cleanCopyError (match e with Some _ => e | None => if closes : bool then ce else None end)) |>)
  | _, _ => None
  end.

(** ** The proxy *)

(** Where the caller is: it receives twice, and acts on the first error. *)
Inductive mainPc :=
  | MainWait (n : nat)                 (* results still to come *)
  | MainReset (e : error) (n : nat)    (* stream.Reset(err) *)
  | MainAbort (n : nat)                (* tcp.Close() after it *)
  | MainCloseStream
  | MainCloseTCP
  | MainReturned (r : err).

(** What the caller does to its two ends, in order. *)
Inductive proxyAction := StreamReset (e : error) | StreamClose | TCPClose.

Record proxy := mkProxy {
  tx : direction;                      (* tcp to stream *)
  rx : direction;                      (* stream to tcp *)
  errorsCh : list err;
  firstErr : err;
  main : mainPc;
  actions : list proxyAction
}.

#[export] Instance eta_proxy : Eta proxy := fun p =>
  mkProxy (tx p) (rx p) (errorsCh p) (firstErr p) (main p) (actions p).

Definition newProxy : proxy := mkProxy newDirection newDirection [] None (MainWait 2) [].

Definition main_next (n : nat) : mainPc := match n with O => MainCloseStream | _ => MainWait n end.

Definition main_step (p : proxy) : option proxy :=
  match main p with
  | MainWait (S n) =>
      match errorsCh p with
      | [] => None
      | r :: rest =>
          let p := p <| errorsCh := rest |> in
          match r, firstErr p with
          | Some e, None => Some (p <| firstErr := Some e |> <| main := MainReset e n |>)
          | _, _ => Some (p <| main := main_next n |>)
          end
      end
  | MainWait O => None
  | MainReset e n => Some (p <| actions := actions p ++ [StreamReset e] |> <| main := MainAbort n |>)
  | MainAbort n => Some (p <| actions := actions p ++ [TCPClose] |> <| main := main_next n |>)
  | MainCloseStream => Some (p <| actions := actions p ++ [StreamClose] |> <| main := MainCloseTCP |>)
  | MainCloseTCP =>
      Some (p <| actions := actions p ++ [TCPClose] |> <| main := MainReturned (cleanProxyError (firstErr p)) |>)
  | MainReturned _ => None
  end.

(** The channel holds two results, so the send does not block. *)
Definition send_result (d : direction) : option (err * direction) :=
  match c_pc d with CopySend e => Some (e, d <| c_pc := CopyDone e |>) | _ => None end.

Inductive proxyTurn :=
  | TurnTX (ev : copyEvent) | TurnRX (ev : copyEvent) | SendTX | SendRX | TurnMain.

(** [counting]: there is a traffic counter; [closes]: the TCP connection has
    [CloseWrite]. *)
Definition proxy_step (counting closes : bool) (p : proxy) (t : proxyTurn) : option proxy :=
  match t with
  | TurnTX ev => d ← copy_step counting true (tx p) ev; Some (p <| tx := d |>)
  | TurnRX ev => d ← copy_step counting closes (rx p) ev; Some (p <| rx := d |>)
  | SendTX => '(e, d) ← send_result (tx p); Some (p <| tx := d |> <| errorsCh := errorsCh p ++ [e] |>)
  | SendRX => '(e, d) ← send_result (rx p); Some (p <| rx := d |> <| errorsCh := errorsCh p ++ [e] |>)
  | TurnMain => main_step p
  end.

(** ** Reachable states

    [io.Writer]: [Write] accepts between none and all of what it is given. *)

Definition write_contract (d : direction) (ev : copyEvent) : Prop :=
  match c_pc d, ev with CopyWrite p _, EvWrite nw _ => 0 <= nw <= zlen p | _, _ => True end.

Definition turn_contract (p : proxy) (t : proxyTurn) : Prop :=
  match t with TurnTX ev => write_contract (tx p) ev | TurnRX ev => write_contract (rx p) ev | _ => True end.

Inductive proxy_reachable (counting closes : bool) : proxy -> Prop :=
  | PxInit : proxy_reachable counting closes newProxy
  | PxStep p t p' :
      proxy_reachable counting closes p -> turn_contract p t -> proxy_step counting closes p t = Some p' ->
      proxy_reachable counting closes p'.

(** * Lemmas *)

Record dir_inv (counting : bool) (d : direction) : Prop := {
  di_bytes :
    match c_pc d with
    | CopyRead | CopyCloseWrite None => c_written d = c_read d
    | CopyWrite p _ => c_read d = c_written d ++ p /\ 0 < zlen p
    | _ => c_written d `prefix_of` c_read d
    end;
  di_counted : c_counted d = if counting then u64 (zlen (c_written d)) else 0
}.

Lemma copyAfter_inv (counting : bool) (d : direction) er :
  c_written d = c_read d -> c_counted d = (if counting then u64 (zlen (c_written d)) else 0) ->
  dir_inv counting (d <| c_pc := copyAfter er |>).
Proof.
  intros Hw Hc. split; cbn; [|done]. destruct er as [e|]; cbn; [|done]. case_bool_decide; [done|]. by rewrite Hw.
Qed.

Lemma copy_step_inv counting closes d ev d' :
  dir_inv counting d -> write_contract d ev -> copy_step counting closes d ev = Some d' -> dir_inv counting d'.
Proof.
  intros [Hb Hc] Hk. unfold copy_step, write_contract in *. destruct d as [r rd wr n]; cbn in *.
  destruct r as [|p er|e|e|e], ev as [q er'|nw ew|ce]; try done; intros [= <-].
  - subst wr. destruct (Z.ltb_spec 0 (zlen q)) as [Hq|Hq]; [by split|].
    assert (q = []) as -> by (destruct q; [done|rewrite zlen_cons in Hq; pose proof (zlen_nonneg q); lia]).
    apply (copyAfter_inv counting (mkDirection CopyRead (rd ++ []) rd n)); cbn; [by rewrite app_nil_r|done].
  - destruct Hb as [Hrd Hp]. unfold copyWrote.
    rewrite (proj2 (Z.ltb_ge nw 0)), (proj2 (Z.ltb_ge (zlen p) nw)) by lia. cbn [orb].
    assert (zlen (slice_to p nw) = nw) as Hlen by by apply zlen_slice_to.
    set (n' := if counting && (0 <? nw) then u64 (n + u64 nw) else n).
    assert (n' = if counting then u64 (zlen (wr ++ slice_to p nw)) else 0) as Hn'.
    { unfold n'. rewrite zlen_app, Hlen, Hc. destruct counting; [|done]. cbn [andb].
      destruct (Z.ltb_spec 0 nw); [unfold u64; by rewrite <- Zplus_mod|]. do 2 f_equal. lia. }
    assert (forall (d : direction), c_read d = rd -> c_written d = wr -> c_pc d = CopyWrite p er ->
      c_counted d = (if counting then u64 (zlen (wr ++ slice_to p nw)) else 0) ->
      dir_inv counting (match ew with
        | Some e => d <| c_written := c_written d ++ slice_to p nw |> <| c_pc := CopyCloseWrite (Some e) |>
        | None => if negb (zlen p =? nw) then d <| c_written := c_written d ++ slice_to p nw |> <| c_pc := CopyCloseWrite (Some (Sent ErrShortWrite)) |>
                  else d <| c_written := c_written d ++ slice_to p nw |> <| c_pc := copyAfter er |>
        end)) as Hgen.
    { intros [r0 rd0 wr0 n0]. cbn. intros -> -> _ Hn. destruct ew as [e|]; [|destruct (Z.eqb_spec (zlen p) nw); cbn [negb]].
      - split; cbn; [|done]. rewrite Hrd. apply prefix_app, prefix_slice_to.
      - apply (copyAfter_inv counting (mkDirection CopyRead rd (wr ++ slice_to p nw) n0)); cbn; [|done].
        rewrite Hrd, slice_to_all by lia. done.
      - split; cbn; [|done]. rewrite Hrd. apply prefix_app, prefix_slice_to. }
    unfold n' in Hn'. destruct (counting && (0 <? nw)); apply Hgen; done.
  - split; cbn; [|done]. destruct e as [e|]; [done|by rewrite Hb].
Qed.

(** What the caller has left to receive, and the results under way. *)
Definition pending (d : direction) : nat := match c_pc d with CopyDone _ => 0%nat | _ => 1%nat end.

Definition remaining (m : mainPc) : nat :=
  match m with MainWait n | MainReset _ n | MainAbort n => n | _ => 0%nat end.

Definition abortActions (e : err) : list proxyAction :=
  match e with Some e => [StreamReset e; TCPClose] | None => [] end.

Definition main_inv (m : mainPc) (first : err) (acts : list proxyAction) : Prop :=
  match m with
  | MainWait n => acts = abortActions first /\ n <> 0%nat
  | MainReset e n => first = Some e /\ acts = []
  | MainAbort n => exists e, first = Some e /\ acts = [StreamReset e]
  | MainCloseStream => acts = abortActions first
  | MainCloseTCP => acts = abortActions first ++ [StreamClose]
  | MainReturned r => acts = abortActions first ++ [StreamClose; TCPClose] /\ r = cleanProxyError first
  end.

(** The result a direction sent. *)
Definition sent (d : direction) (e : error) : Prop := c_pc d = CopyDone (Some e).

Record proxy_inv (counting : bool) (p : proxy) : Prop := {
  pi_tx : dir_inv counting (tx p);
  pi_rx : dir_inv counting (rx p);
  pi_pending : (pending (tx p) + pending (rx p) + length (errorsCh p) = remaining (main p))%nat;
  pi_main : main_inv (main p) (firstErr p) (actions p);
  pi_none : firstErr p = None -> forall e, sent (tx p) e \/ sent (rx p) e -> Some e ∈ errorsCh p;
  pi_first : forall e, firstErr p = Some e \/ Some e ∈ errorsCh p -> sent (tx p) e \/ sent (rx p) e
}.

Lemma copy_step_running counting closes d ev d' :
  copy_step counting closes d ev = Some d' ->
  pending d = 1%nat /\ pending d' = 1%nat /\ (forall e, ~ sent d e) /\ (forall e, ~ sent d' e).
Proof.
  unfold copy_step, pending, sent, copyWrote, copyAfter. destruct d as [r rd wr n]; cbn.
  destruct r, ev; try done; intros [= <-]; repeat (case_match; cbn in *; simplify_eq); try done;
    split_and!; try done; intros ? [=].
Qed.

Lemma send_result_done d e d' :
  send_result d = Some (e, d') -> c_pc d = CopySend e /\ d' = d <| c_pc := CopyDone e |>.
Proof. unfold send_result. destruct (c_pc d); try done. by intros [= <- <-]. Qed.

Lemma dir_inv_done counting d e : dir_inv counting d -> c_pc d = CopySend e -> dir_inv counting (d <| c_pc := CopyDone e |>).
Proof. intros [Hb Hc] Hp. rewrite Hp in Hb. by split. Qed.

Lemma proxy_step_inv counting closes p t p' :
  proxy_inv counting p -> turn_contract p t -> proxy_step counting closes p t = Some p' -> proxy_inv counting p'.
Proof.
  intros [I1 I2 I3 I4 I5 I6] Hk. destruct p as [dt dr ch first m acts]; cbn in *.
  destruct t as [ev|ev| | |]; cbn.
  - destruct (copy_step counting true dt ev) as [d|] eqn:E; [|done]. intros [= <-].
    pose proof (copy_step_running _ _ _ _ _ E) as (R1 & R2 & R3 & R4).
    split; cbn; try done; [exact (copy_step_inv _ _ _ _ _ I1 Hk E)|lia| |].
    + intros Hf e [He|He]; [by destruct (R4 e)|]. auto.
    + intros e He. destruct (I6 e He) as [Hs|Hs]; [by destruct (R3 e)|by right].
  - destruct (copy_step counting closes dr ev) as [d|] eqn:E; [|done]. intros [= <-].
    pose proof (copy_step_running _ _ _ _ _ E) as (R1 & R2 & R3 & R4).
    split; cbn; try done; [exact (copy_step_inv _ _ _ _ _ I2 Hk E)|lia| |].
    + intros Hf e [He|He]; [|by destruct (R4 e)]. auto.
    + intros e He. destruct (I6 e He) as [Hs|Hs]; [by left|by destruct (R3 e)].
  - destruct (send_result dt) as [[e d]|] eqn:E; [|done]. apply send_result_done in E as [Hpc ->]. intros [= <-].
    assert (forall x, ~ sent dt x) as Hno by (intros x Hx; unfold sent in Hx; congruence).
    split; cbn; [by apply dir_inv_done|done| |done| |].
    + unfold pending in *. rewrite length_app, Hpc in *. cbn in *. lia.
    + intros Hf x [Hx|Hx]; apply elem_of_app; [right|left; auto]. unfold sent in Hx. cbn in Hx. injection Hx as ->. by left.
    + intros x [Hx|[Hx|Hx]%elem_of_app].
      * destruct (I6 x (or_introl Hx)) as [Hs|Hs]; [by destruct (Hno x)|by right].
      * destruct (I6 x (or_intror Hx)) as [Hs|Hs]; [by destruct (Hno x)|by right].
      * apply list_elem_of_singleton in Hx. subst. by left.
  - destruct (send_result dr) as [[e d]|] eqn:E; [|done]. apply send_result_done in E as [Hpc ->]. intros [= <-].
    assert (forall x, ~ sent dr x) as Hno by (intros x Hx; unfold sent in Hx; congruence).
    split; cbn; [done|by apply dir_inv_done| |done| |].
    + unfold pending in *. rewrite length_app, Hpc in *. cbn in *. lia.
    + intros Hf x [Hx|Hx]; apply elem_of_app; [left; auto|right]. unfold sent in Hx. cbn in Hx. injection Hx as ->. by left.
    + intros x [Hx|[Hx|Hx]%elem_of_app].
      * destruct (I6 x (or_introl Hx)) as [Hs|Hs]; [by left|by destruct (Hno x)].
      * destruct (I6 x (or_intror Hx)) as [Hs|Hs]; [by left|by destruct (Hno x)].
      * apply list_elem_of_singleton in Hx. subst. by right.
  - unfold main_step. cbn. destruct m as [[|n]|e n|n| | |r]; cbn in *; try done.
    + destruct ch as [|r ch]; [done|]. destruct I4 as [-> _].
      assert (forall x, main_inv (main_next n) x (abortActions x)) as Hmi by (intros x; by destruct n).
      assert (remaining (main_next n) = n) as Hrem by by destruct n.
      destruct r as [e|], first as [e0|]; intros [= <-]; split; cbn; try done; cbn in *; try lia; try (by rewrite Hrem; lia).
      * intros x [Hx|Hx]; apply I6; [by left|right; by right].
      * intros x [[= <-]|Hx]; apply I6; right; [by left|by right].
      * intros x [Hx|Hx]; apply I6; [by left|right; by right].
      * intros _ x Hx. specialize (I5 eq_refl x Hx). apply elem_of_cons in I5 as [H|H]; done.
      * intros x [Hx|Hx]; [done|]. apply I6. right. by right.
    + destruct I4 as [-> ->]. intros [= <-]. split; cbn; try done. by exists e.
    + destruct I4 as (e & -> & ->). intros [= <-]. split; cbn; try done; by destruct n.
    + subst acts. intros [= <-]. by split.
    + subst acts. intros [= <-]. split; cbn; try done. split; [|done]. by rewrite <- app_assoc.
Qed.

Lemma proxy_reachable_inv counting closes p : proxy_reachable counting closes p -> proxy_inv counting p.
Proof.
  induction 1 as [|p t p' Hp IH Hk Hs]; [|by eapply proxy_step_inv].
  split; try done; cbn; [by split; destruct counting..| |].
  - by intros _ e [[=]|[=]].
  - intros e [[=]|Hx]. by apply not_elem_of_nil in Hx.
Qed.

Lemma dir_inv_prefix counting d : dir_inv counting d -> c_written d `prefix_of` c_read d.
Proof.
  intros [Hb _]. destruct (c_pc d) as [|p er|[e|]|e|e]; try (by rewrite Hb); try done.
  destruct Hb as [-> _]. by apply prefix_app_r.
Qed.

Inductive runs_to (counting closes : bool) : proxy -> proxy -> Prop :=
  | RunsHere p : runs_to counting closes p p
  | RunsTurn p t p' p'' :
      turn_contract p t -> proxy_step counting closes p t = Some p' -> runs_to counting closes p' p'' ->
      runs_to counting closes p p''.

Lemma runs_to_trans counting closes p q r :
  runs_to counting closes p q -> runs_to counting closes q r -> runs_to counting closes p r.
Proof. induction 1; [done|]. intros. eapply RunsTurn; eauto. Qed.

Lemma runs_to_reachable counting closes p q :
  proxy_reachable counting closes p -> runs_to counting closes p q -> proxy_reachable counting closes q.
Proof. intros Hp. induction 1; [done|]. apply IHruns_to. by eapply PxStep. Qed.

Lemma step_runs counting closes p t q :
  turn_contract p t -> proxy_step counting closes p t = Some q -> runs_to counting closes p q.
Proof. intros. eapply RunsTurn; [done..|]. constructor. Qed.

Definition is_done (d : direction) : Prop := exists e, c_pc d = CopyDone e.

(** A direction's own steps. *)
Inductive copies_to (counting closes : bool) : direction -> direction -> Prop :=
  | CopiesHere d : copies_to counting closes d d
  | CopiesStep d ev d' d'' :
      write_contract d ev -> copy_step counting closes d ev = Some d' -> copies_to counting closes d' d'' ->
      copies_to counting closes d d''.

(** When its reads and writes return, a direction ends. *)
Lemma copy_finishes counting closes d :
  exists d' e, copies_to counting closes d d' /\ (c_pc d' = CopySend e \/ c_pc d' = CopyDone e).
Proof.
  assert (forall e d, c_pc d = CopyCloseWrite e -> exists d' e', copies_to counting closes d d' /\ c_pc d' = CopySend e') as Hclose.
  { intros e [r rd wr n]. cbn. intros ->.
    set (x := cleanCopyError (match e with Some _ => e | None => if closes then None else None end)).
    exists (mkDirection (CopySend x) rd wr n), x. split; [|done].
    by eapply CopiesStep with (ev := EvCloseWrite None); [|cbn|constructor]. }
  destruct d as [r rd wr n]. destruct r as [|q er|e|e|e].
  - destruct (Hclose None (mkDirection (CopyCloseWrite None) (rd ++ []) wr n) eq_refl) as (d' & e & Hd & He).
    exists d', e. split; [|by left]. by eapply CopiesStep with (ev := EvRead [] (Some (Sent EOF))).
  - pose proof (zlen_nonneg q) as Hq.
    assert (exists d', copy_step counting closes (mkDirection (CopyWrite q er) rd wr n) (EvWrite (zlen q) (Some (Sent EOF))) = Some d' /\
      c_pc d' = CopyCloseWrite (Some (Sent EOF))) as (d1 & Hd1 & Hpc1).
    { cbn. unfold copyWrote. rewrite (proj2 (Z.ltb_ge (zlen q) 0)), (proj2 (Z.ltb_ge (zlen q) (zlen q))) by lia.
      cbn. by eexists. }
    destruct (Hclose _ d1 Hpc1) as (d' & e & Hd & He). exists d', e. split; [|by left].
    eapply CopiesStep; [|exact Hd1|exact Hd]. unfold write_contract. cbn. lia.
  - destruct (Hclose e (mkDirection (CopyCloseWrite e) rd wr n) eq_refl) as (d' & e' & Hd & He). exists d', e'. split; [done|by left].
  - exists (mkDirection (CopySend e) rd wr n), e. split; [constructor|by left].
  - exists (mkDirection (CopyDone e) rd wr n), e. split; [constructor|by right].
Qed.

Lemma copies_tx counting closes d d' :
  copies_to counting true d d' -> forall p, tx p = d -> runs_to counting closes p (p <| tx := d' |>).
Proof.
  induction 1 as [d|d ev d1 d2 Hk Hs Hc IH]; intros p Hp; [destruct p; cbn in *; subst; constructor|].
  eapply RunsTurn with (t := TurnTX ev); [by rewrite <- Hp in Hk|cbn; rewrite Hp, Hs; reflexivity|].
  exact (IH (p <| tx := d1 |>) eq_refl).
Qed.

Lemma copies_rx counting closes d d' :
  copies_to counting closes d d' -> forall p, rx p = d -> runs_to counting closes p (p <| rx := d' |>).
Proof.
  induction 1 as [d|d ev d1 d2 Hk Hs Hc IH]; intros p Hp; [destruct p; cbn in *; subst; constructor|].
  eapply RunsTurn with (t := TurnRX ev); [by rewrite <- Hp in Hk|cbn; rewrite Hp, Hs; reflexivity|].
  exact (IH (p <| rx := d1 |>) eq_refl).
Qed.

(** Both directions can end. *)
Lemma directions_end counting closes p :
  exists q, runs_to counting closes p q /\ pending (tx q) = 0%nat /\ pending (rx q) = 0%nat.
Proof.
  assert (exists q, runs_to counting closes p q /\ pending (tx q) = 0%nat) as (q & Hq & Hqt).
  { destruct (copy_finishes counting true (tx p)) as (d & e & Hd & [He|He]);
      pose proof (copies_tx counting closes _ _ Hd p eq_refl) as Hr.
    - eexists. split; [eapply runs_to_trans; [exact Hr|];
        eapply RunsTurn with (t := SendTX); [done|cbn; unfold send_result; rewrite He; reflexivity|constructor]|done].
    - exists (p <| tx := d |>). split; [done|]. cbn. unfold pending. by rewrite He. }
  destruct (copy_finishes counting closes (rx q)) as (d & e & Hd & [He|He]);
    pose proof (copies_rx counting closes _ _ Hd q eq_refl) as Hr.
  - eexists. split; [eapply runs_to_trans; [exact Hq|]; eapply runs_to_trans; [exact Hr|];
      eapply RunsTurn with (t := SendRX); [done|cbn; unfold send_result; rewrite He; reflexivity|constructor]|done].
  - exists (q <| rx := d |>). split; [by eapply runs_to_trans|]. split; [done|]. cbn. unfold pending. by rewrite He.
Qed.

(** Turns the caller still needs once both results are there. *)
Definition main_fuel (m : mainPc) : nat :=
  match m with
  | MainWait n => 3 + 3 * n
  | MainReset _ n => 5 + 3 * n
  | MainAbort n => 4 + 3 * n
  | MainCloseStream => 2
  | MainCloseTCP => 1
  | MainReturned _ => 0
  end.

Lemma main_ends counting closes p :
  proxy_inv counting p -> pending (tx p) = 0%nat -> pending (rx p) = 0%nat ->
  exists q r, runs_to counting closes p q /\ main q = MainReturned r.
Proof.
  remember (main_fuel (main p)) as k eqn:Hk. revert p Hk. induction k as [k IH] using lt_wf_ind.
  intros p -> HI Ht Hr.
  destruct (main p) as [n|e n|n| | |r] eqn:Hm; [..|by exists p, r; split; [constructor|]].
  all: assert (exists q, main_step p = Some q /\ tx q = tx p /\ rx q = rx p /\ (main_fuel (main q) < main_fuel (main p))%nat) as (q & Hq & Hqt & Hqr & Hfuel).
  2,4,6,8,10: rewrite Hm in Hfuel; destruct (IH _ Hfuel q eq_refl) as (q' & r & Hrun & Hret);
    [by apply (proxy_step_inv counting closes p TurnMain q)|by rewrite Hqt|by rewrite Hqr|];
    exists q', r; split; [by eapply RunsTurn with (t := TurnMain)|done].
  all: destruct HI as [_ _ I3 I4 _ _]; destruct p as [dt dr ch first m acts]; cbn in *; subst m; unfold main_step; cbn in *.
  - destruct I4 as [_ Hn]. destruct n as [|n]; [done|]. destruct ch as [|[e|] ch]; cbn in I3; [lia|..].
    + destruct first; eexists; (split; [reflexivity|]); cbn; split_and!; try done; [destruct n; cbn; lia|lia].
    + eexists. split; [reflexivity|]. cbn. split_and!; try done. destruct n; cbn; lia.
  - eexists. split; [reflexivity|]. cbn. split_and!; try done. lia.
  - eexists. split; [reflexivity|]. cbn. split_and!; try done. destruct n; cbn; lia.
  - eexists. split; [reflexivity|]. cbn. split_and!; try done. lia.
  - eexists. split; [reflexivity|]. cbn. split_and!; try done. lia.
Qed.

(** * Serving the streams of a session
    (internal/bridge/server.go) *)

Inductive serveAction :=
  | DialTCP (target : string)
  | RejectStream (e : error)
  | ApproveStream
  | CloseTCP
  | StartProxy.

(** The goroutine of one accepted stream, with the outcome of the dial of each
    target and of [Approve]. *)
Definition serveStream (resolve : string -> option string) (service : string)
    (dial : string -> err) (approve : err) : list serveAction :=
  match resolve service with
  | None => [RejectStream (ErrNew ("service unavailable: " +:+ service))]
  | Some target =>
      DialTCP target ::
      match dial target with
      | Some e => [RejectStream (ErrWrap "target unavailable: " e "")]
      | None =>
          ApproveStream ::
          match approve with
          | Some _ => [CloseTCP]
          | None => [StartProxy]
          end
      end
  end.

(** [session.Accept] in turn: a stream's service, or an error with whether the
    context had ended; [None] while the loop still accepts. *)
Fixpoint serveServer (accepts : list (string + (error * bool))) : list string * option err :=
  match accepts with
  | [] => ([], None)
  | inr (e, cancelled) :: _ => ([], Some (if cancelled : bool then None else Some e))
  | inl service :: accepts =>
      let '(started, r) := serveServer accepts in (service :: started, r)
  end.

(** [ServeServerWithTraffic]: every selector means the one target. *)
Definition resolveTarget (target : string) (selector : string) : option string := Some target.

Definition decisions (l : list serveAction) : nat :=
  length (List.filter (fun a => match a with RejectStream _ | ApproveStream => true | _ => false end) l).

Lemma resolveService_advertised host services selector target :
  resolveService host services selector = Some target ->
  exists service, service ∈ services /\ serviceMatches selector service = true /\ target = serviceTarget host service.
Proof.
  induction services as [|s services IH]; [done|]. cbn. destruct (serviceMatches selector s) eqn:Hm.
  - intros [= <-]. exists s. split_and!; [by left|done|done].
  - intros (t & Ht & ? & ?)%IH. exists t. split_and!; [by right|done|done].
Qed.

(** * Properties *)

(** C18. Whatever the interleaving of the two copy loops, the caller and the
    failures of either connection, at every moment each side was given a prefix
    of what was read from the other, all of it when [io.Copy] succeeded and the
    destination is about to be half-closed; the traffic counter counts exactly
    the bytes given.  When [ProxyWithTraffic] has returned both loops have
    ended, the stream and the TCP connection are closed, the stream was reset
    exactly if a loop reported an error, which is the one returned unless it
    is an ordinary end of a connection. *)
Theorem proxy_forwards counting closes p :
  proxy_reachable counting closes p ->
  (forall d, d = tx p \/ d = rx p ->
    c_written d `prefix_of` c_read d /\ (c_pc d = CopyCloseWrite None -> c_written d = c_read d) /\
    c_counted d = (if counting then u64 (zlen (c_written d)) else 0)) /\
  (forall r, main p = MainReturned r ->
    exists e1 e2, c_pc (tx p) = CopyDone e1 /\ c_pc (rx p) = CopyDone e2 /\
      ((e1 = None /\ e2 = None /\ r = None /\ actions p = [StreamClose; TCPClose]) \/
       exists e, (e1 = Some e \/ e2 = Some e) /\ r = cleanProxyError (Some e) /\
         actions p = [StreamReset e; TCPClose; StreamClose; TCPClose])).
Proof.
  intros [I1 I2 I3 I4 I5 I6]%proxy_reachable_inv. split.
  - assert (forall d, dir_inv counting d -> c_written d `prefix_of` c_read d /\
      (c_pc d = CopyCloseWrite None -> c_written d = c_read d) /\
      c_counted d = (if counting then u64 (zlen (c_written d)) else 0)) as Hd; [|by intros d [->| ->]; apply Hd].
    intros d HI. split; [by eapply dir_inv_prefix|]. destruct HI as [Hb Hc]. split; [|done].
    intros Hp. by rewrite Hp in Hb.
  - intros r Hm. rewrite Hm in I3, I4. cbn in I3, I4. destruct I4 as [Ha ->].
    destruct (c_pc (tx p)) as [| | | |e1] eqn:H1, (c_pc (rx p)) as [| | | |e2] eqn:H2;
      unfold pending in I3; rewrite H1, H2 in I3; cbn in I3; try lia.
    destruct (errorsCh p) as [|] eqn:Hch; [|cbn in I3; lia]. exists e1, e2. split_and!; [done|done|].
    unfold sent in *. rewrite H1, H2 in I5, I6. destruct (firstErr p) as [e|].
    + right. exists e. split_and!; [|done|done]. destruct (I6 e (or_introl eq_refl)) as [[= ->]|[= ->]]; auto.
    + left. split_and!; try done; [destruct e1 as [e|]|destruct e2 as [e|]]; try done;
        exfalso; eapply (not_elem_of_nil (Some e)), (I5 eq_refl e); auto.
Qed.

(** The proxy never gets stuck: from every reachable state, once the reads
    and writes under way return, both loops deliver their result, the caller
    receives both and [ProxyWithTraffic] returns. *)
Theorem proxy_can_return counting closes p :
  proxy_reachable counting closes p ->
  exists q r, runs_to counting closes p q /\ main q = MainReturned r.
Proof.
  intros Hp. destruct (directions_end counting closes p) as (q & Hq & Ht & Hr).
  destruct (main_ends counting closes q) as (q' & r & Hq' & Hret); try done.
  { eapply proxy_reachable_inv, runs_to_reachable; [exact Hp|exact Hq]. }
  exists q', r. split; [|done]. by eapply runs_to_trans.
Qed.

(** A server with a service list dials only targets it advertises, decides
    every stream once, and lets data flow only after the target accepted the
    connection and the approval was queued. *)
Lemma only_advertised_dialed host services service dial approve acts :
  acts = serveStream (resolveService host services) service dial approve ->
  (forall target, DialTCP target ∈ acts -> exists s, s ∈ services /\ serviceMatches service s = true /\ target = serviceTarget host s) /\
  decisions acts = 1%nat /\
  (StartProxy ∈ acts -> exists target, acts = [DialTCP target; ApproveStream; StartProxy] /\ dial target = None /\ approve = None).
Proof.
  intros ->. unfold serveStream. destruct (resolveService host services service) as [t|] eqn:Hr.
  - apply resolveService_advertised in Hr as (s & Hs & Hm & ->).
    destruct (dial (serviceTarget host s)) as [e|] eqn:Hd; [|destruct approve as [e|]]; split_and!; try done;
      intros; rewrite ?elem_of_cons, ?elem_of_nil in *; naive_solver.
  - split_and!; try done; intros; rewrite ?elem_of_cons, ?elem_of_nil in *; naive_solver.
Qed.

(** ** Witnesses *)

Definition demoTurns : list proxyTurn :=
  [TurnTX (EvRead [Byte.x68; Byte.x69] None); TurnTX (EvWrite 2 None); TurnTX (EvRead [] (Some (Sent EOF)));
   TurnTX (EvCloseWrite None); SendTX; TurnMain; TurnRX (EvRead [Byte.x6f] None); TurnRX (EvWrite 0 (Some (Sent EPIPE)));
   TurnRX (EvCloseWrite None); SendRX; TurnMain; TurnMain; TurnMain; TurnMain; TurnMain].

Definition write_contractb (d : direction) (ev : copyEvent) : bool :=
  match c_pc d, ev with CopyWrite p _, EvWrite nw _ => (0 <=? nw) && (nw <=? zlen p) | _, _ => true end.
Definition turn_contractb (p : proxy) (t : proxyTurn) : bool :=
  match t with TurnTX ev => write_contractb (tx p) ev | TurnRX ev => write_contractb (rx p) ev | _ => true end.

Lemma turn_contractb_sound p t : turn_contractb p t = true -> turn_contract p t.
Proof.
  assert (forall d ev, write_contractb d ev = true -> write_contract d ev) as H.
  { intros d ev. unfold write_contractb, write_contract. destruct (c_pc d), ev; try done. intros Hb. bool2prop. lia. }
  destruct t; cbn; auto.
Qed.

(** A run of calls that keep the contract. *)
Fixpoint contract_run (counting closes : bool) (p : proxy) (ts : list proxyTurn) : option proxy :=
  match ts with
  | [] => Some p
  | t :: ts =>
      if turn_contractb p t then p ← proxy_step counting closes p t; contract_run counting closes p ts else None
  end.

Lemma contract_run_reachable counting closes p ts q :
  proxy_reachable counting closes p -> contract_run counting closes p ts = Some q -> proxy_reachable counting closes q.
Proof.
  revert p. induction ts as [|t ts IH]; intros p Hp; cbn; [by intros [= <-]|].
  destruct (turn_contractb p t) eqn:Hk; [|done]. apply turn_contractb_sound in Hk.
  destruct (proxy_step counting closes p t) as [p1|] eqn:E; [|done]. cbn. apply IH. by eapply PxStep.
Qed.

Definition demoProxied : proxy := default newProxy (contract_run true true newProxy demoTurns).

Lemma demoProxied_reachable : proxy_reachable true true demoProxied.
Proof.
  unfold demoProxied. destruct (contract_run true true newProxy demoTurns) as [q|] eqn:E; [|apply PxInit].
  eapply contract_run_reachable; [apply PxInit|exact E].
Qed.

Lemma proxy_forwards_witness :
  main demoProxied = MainReturned None /\
  exists e1 e2, c_pc (tx demoProxied) = CopyDone e1 /\ c_pc (rx demoProxied) = CopyDone e2.
Proof.
  assert (main demoProxied = MainReturned None) as Hm by (vm_compute; reflexivity). split; [exact Hm|].
  destruct (proj2 (proxy_forwards _ _ _ demoProxied_reachable) None Hm) as (e1 & e2 & H1 & H2 & _).
  exists e1, e2. split; assumption.
Defined.

Lemma proxy_can_return_witness : exists q r, runs_to true false newProxy q /\ main q = MainReturned r.
Proof. apply (proxy_can_return true false newProxy). apply PxInit. Defined.
