(* ===== verification/Bridge.v ===== *)
(** * The client side of the bridge
    (internal/bridge/client.go)

    [Client] gives every accepted local connection a goroutine ([handle]) that
    waits for a usable endpoint, opens a stream and proxies.  A goroutine is a
    program counter, its critical sections and channel operations are its
    steps, and the goroutines, the watchers [SetEndpoint] starts and the
    listeners interleave freely.  What an endpoint answers — whether its link is
    bound, whether its mux has ended — is the environment's. *)

From S2P Require Import GoStrings.
From S2P Require Export GoErrors.

(** ** State *)

(** [Endpoint]: [IsBound] of its link and [Done] of its mux. *)
Record Endpoint := mkEndpoint { ep_bound : bool; ep_done : bool }.

#[export] Instance eta_Endpoint : Eta Endpoint := fun e => mkEndpoint (ep_bound e) (ep_done e).

(** [handle], and where it is. *)
Inductive handlePc :=
  | HStart                                    (* before waiting++ *)
  | HCheck                                    (* waitReady, the critical section *)
  | HCheckBound (endpoint : nat) (notify : nat)  (* endpoint.Link.IsBound() *)
  | HCheckDone (endpoint : nat) (notify : nat)  (* the link was bound: is the mux done? *)
  | HSelect (notify : nat)                    (* waitReady, the select *)
  | HWaited (r : result nat)                  (* before waiting-- *)
  | HOpenStart (endpoint : nat)               (* before opening++ *)
  | HOpening (endpoint : nat)                 (* OpenService *)
  | HOpened (r : result nat)                  (* before opening-- *)
  | HProxy (stream : nat)
  | HClose                                    (* defer conn.Close *)
  | HRelease                                  (* defer <-c.limit *)
  | HDone.

Record handler := mkHandler { h_service : string; h_pc : handlePc }.

(** The goroutine of [SetEndpoint]. *)
Inductive watchPc := WatchDone | WatchReset | WatchClear | WatchEnd.

Record Client := mkClient {
  cap : nat;                        (* cap(c.limit) *)
  limit : nat;                      (* len(c.limit) *)
  waiting : Z;
  opening : Z;
  endpoint : option nat;            (* c.endpoint, by identity *)
  notify : nat;                     (* the current channel; earlier ones are closed *)
  endpoints : list Endpoint;        (* every endpoint ever given to SetEndpoint *)
  watchers : list watchPc;          (* its watcher *)
  handlers : list handler           (* every goroutine ever started *)
}.

#[export] Instance eta_handler : Eta handler := fun h => mkHandler (h_service h) (h_pc h).
#[export] Instance eta_Client : Eta Client := fun c =>
  mkClient (cap c) (limit c) (waiting c) (opening c) (endpoint c) (notify c) (endpoints c) (watchers c) (handlers c).

Definition NewClient (maxConnections : Z) : Client :=
  mkClient (Z.to_nat (if maxConnections <=? 0 then 32 else maxConnections)) 0 0 0 None 0 [] [] [].

(** [resumeTimeout], which every queued connection waits at most. *)
Definition resumeTimeoutOf (resumeTimeout : Z) : Z :=
  if resumeTimeout <=? 0 then 60 * 1000000000 else resumeTimeout.

Definition signalLocked (c : Client) : Client := c <| notify := S (notify c) |>.

(** [Snapshot]: what it reads under [c.mu], and — the lock released, in the state
    the client has by then — the length of the channel. *)
Record Snapshot := mkSnapshot { ActiveConnections : Z; WaitingConnections : Z; OpeningConnections : Z }.
Definition snapshotLocked (c : Client) : Z * Z := (waiting c, opening c).
Definition snapshot (locked : Z * Z) (c : Client) : Snapshot := mkSnapshot (Z.of_nat (limit c)) locked.1 locked.2.

(** ** Operations *)

(** [SetEndpoint] of a new endpoint, or of nil. *)
Definition SetEndpoint (c : Client) (e : option Endpoint) : Client :=
  match e with
  | None => signalLocked (c <| endpoint := None |>)
  | Some e =>
      signalLocked (c <| endpoint := Some (length (endpoints c)) |> <| endpoints := endpoints c ++ [e] |>
                      <| watchers := watchers c ++ [WatchDone] |>)
  end.

(** The watcher of endpoint [i]; the boolean is a call of [Reset]. *)
Definition watch_step (c : Client) (i : nat) : option (Client * bool) :=
  match watchers c !! i, endpoints c !! i with
  | Some WatchDone, Some e => if ep_done e then Some (c <| watchers := <[i := WatchReset]> (watchers c) |>, false) else None
  | Some WatchReset, _ => Some (c <| watchers := <[i := WatchClear]> (watchers c) |>, true)
  | Some WatchClear, _ =>
      let c := c <| watchers := <[i := WatchEnd]> (watchers c) |> in
      Some (if bool_decide (endpoint c = Some i) then signalLocked (c <| endpoint := None |>) else c, false)
  | _, _ => None
  end.

(** One connection accepted by [serveListener]; [false]: rejected and closed. *)
Definition acceptConn (c : Client) (service : string) : Client * bool :=
  if (limit c <? cap c)%nat
  then (c <| limit := S (limit c) |> <| handlers := handlers c ++ [mkHandler service HStart] |>, true)
  else (c, false).

(** [listener.Accept] failed: what [serveListener] returns. *)
Definition acceptFailed (e : error) (cancelled : bool) : err :=
  if cancelled || errors_Is e NetErrClosed then None
  else Some (ErrWrap "accept local TCP connection: " e "").

(** One turn of the loop of [serveListener]: [Accept]'s outcome; the result when
    the loop returns. *)
Definition serveListener_turn (c : Client) (service : string) (accepted : err) (cancelled : bool) : Client * option err :=
  match accepted with
  | Some e => (c, Some (acceptFailed e cancelled))
  | None => ((acceptConn c service).1, None)
  end.

(** [ServeServices]: its error, the goroutines it starts — one [serveListener]
    per listener — and the listeners it closes when its context is done. *)
Definition ServeServices (listeners : list (string * list nat)) : err * list (string * nat) * list nat :=
  if bool_decide (listeners = []) then (Some (ErrNew "no local service listeners configured"), [], [])
  else (None, concat ((fun e : string * list nat => (fun l => (e.1, l)) <$> e.2) <$> listeners), concat (listeners.*2)).

Definition Serve (listener : nat) : err * list (string * nat) * list nat := ServeServices [("", [listener])].

(** What its goroutine logs when [serveListener] ends with an error. *)
Definition serveEnded (service : string) (e : err) : option string :=
  match e with Some e => Some ("local service " +:+ quoted service +:+ " ended: " +:+ error_text e) | None => None end.

(** What wakes or ends the blocking parts of [handle]. *)
Inductive handleEvent :=
  | EvRun                       (* a step that does not block *)
  | EvCancelled (e : error)     (* ctx.Done() *)
  | EvNotified                  (* <-notify *)
  | EvTimer                     (* the 100 ms timer *)
  | EvOpened (r : result nat)   (* OpenService returned *)
  | EvProxied.                  (* ProxyWithTraffic returned *)

Definition handle_step (c : Client) (pc : handlePc) (ev : handleEvent) : option (Client * handlePc) :=
  match pc, ev with
  | HStart, EvRun => Some (c <| waiting := waiting c + 1 |>, HCheck)
  | HCheck, EvRun =>
      Some (c, match endpoint c with Some i => HCheckBound i (notify c) | None => HSelect (notify c) end)
  | HCheckBound i n, EvRun =>
      e ← endpoints c !! i; Some (c, if ep_bound e then HCheckDone i n else HSelect n)
  | HCheckDone i n, EvRun =>
      e ← endpoints c !! i; Some (c, if ep_done e then HSelect n else HWaited (inr i))
  | HSelect n, EvCancelled e => Some (c, HWaited (inl e))
  | HSelect n, EvNotified => if (n <? notify c)%nat then Some (c, HCheck) else None
  | HSelect n, EvTimer => Some (c, HCheck)
  | HWaited r, EvRun =>
      Some (c <| waiting := waiting c - 1 |>, match r with inl _ => HClose | inr i => HOpenStart i end)
  | HOpenStart i, EvRun => Some (c <| opening := opening c + 1 |>, HOpening i)
  | HOpening i, EvOpened r => Some (c, HOpened r)
  | HOpened r, EvRun =>
      Some (c <| opening := opening c - 1 |>, match r with inl _ => HClose | inr s => HProxy s end)
  | HProxy s, EvProxied => Some (c, HClose)
  | HClose, EvRun => Some (c, HRelease)
  | HRelease, EvRun => Some (c <| limit := Nat.pred (limit c) |>, HDone)
  | _, _ => None
  end.

Definition handler_step (c : Client) (k : nat) (ev : handleEvent) : option Client :=
  h ← handlers c !! k;
  '(c, pc) ← handle_step c (h_pc h) ev;
  Some (c <| handlers := <[k := h <| h_pc := pc |>]> (handlers c) |>).

Inductive client_step : Client -> Client -> Prop :=
  | CsHandler c k ev c' : handler_step c k ev = Some c' -> client_step c c'
  | CsAccept c service : client_step c (acceptConn c service).1
  | CsSet c e : client_step c (SetEndpoint c e)
  | CsWatch c i c' r : watch_step c i = Some (c', r) -> client_step c c'
  | CsBound c i e b :                       (* the link binds or detaches *)
      endpoints c !! i = Some e ->
      client_step c (c <| endpoints := <[i := e <| ep_bound := b |>]> (endpoints c) |>)
  | CsDone c i e :                          (* the mux ends, for good *)
      endpoints c !! i = Some e ->
      client_step c (c <| endpoints := <[i := e <| ep_done := true |>]> (endpoints c) |>).

Inductive client_reachable (maxConnections : Z) : Client -> Prop :=
  | CrInit : client_reachable maxConnections (NewClient maxConnections)
  | CrStep c c' : client_reachable maxConnections c -> client_step c c' -> client_reachable maxConnections c'.

(** ** Invariant *)

Definition count (f : handlePc -> bool) (l : list handler) : nat := countb (fun h => f (h_pc h)) l.

Definition is_waiting (pc : handlePc) : bool :=
  match pc with HCheck | HCheckBound _ _ | HCheckDone _ _ | HSelect _ | HWaited _ => true | _ => false end.
Definition is_opening (pc : handlePc) : bool := match pc with HOpening _ | HOpened _ => true | _ => false end.
Definition is_active (pc : handlePc) : bool := match pc with HDone => false | _ => true end.
(** The connection is still open. *)
Definition holds_conn (pc : handlePc) : bool := match pc with HDone | HRelease => false | _ => true end.

(** The endpoint a goroutine works with, and the channel it captured. *)
Definition pc_endpoint (pc : handlePc) : option nat :=
  match pc with
  | HCheckBound i _ | HCheckDone i _ | HOpenStart i | HOpening i | HWaited (inr i) => Some i
  | _ => None
  end.
Definition pc_notify (pc : handlePc) : option nat :=
  match pc with HCheckBound _ n | HCheckDone _ n | HSelect n => Some n | _ => None end.

Record client_inv (c : Client) : Prop := {
  ci_limit : limit c = count is_active (handlers c);
  ci_cap : (limit c <= cap c)%nat;
  ci_waiting : waiting c = Z.of_nat (count is_waiting (handlers c));
  ci_opening : opening c = Z.of_nat (count is_opening (handlers c));
  ci_watchers : length (watchers c) = length (endpoints c);
  ci_endpoint : forall i, endpoint c = Some i -> S i = length (endpoints c) /\ watchers c !! i <> Some WatchEnd;
  ci_ended : forall i w e, watchers c !! i = Some w -> w <> WatchDone -> endpoints c !! i = Some e -> ep_done e = true;
  ci_handlers : forall k h i, handlers c !! k = Some h -> pc_endpoint (h_pc h) = Some i -> (i < length (endpoints c))%nat;
  ci_notify : forall k h n, handlers c !! k = Some h -> pc_notify (h_pc h) = Some n -> (n <= notify c)%nat
}.

Lemma count_insert f l k h h' :
  l !! k = Some h ->
  Z.of_nat (count f (<[k := h']> l)) = Z.of_nat (count f l) - Z.b2z (f (h_pc h)) + Z.b2z (f (h_pc h')).
Proof.
  intros Hk. pose proof (countb_insert (fun h => f (h_pc h)) l k h h' Hk) as H. unfold count. cbn in H.
  destruct (f (h_pc h)), (f (h_pc h')); cbn [Nat.b2n Z.b2z] in *; lia.
Qed.

Lemma count_pos f l k h : l !! k = Some h -> f (h_pc h) = true -> (0 < count f l)%nat.
Proof. intros. by eapply (countb_pos (fun h => f (h_pc h))). Qed.

(** What one step of a goroutine changes in the shared state. *)
Lemma handle_step_spec c pc ev c' pc' :
  handle_step c pc ev = Some (c', pc') ->
  cap c' = cap c /\ endpoint c' = endpoint c /\ notify c' = notify c /\ endpoints c' = endpoints c /\
  watchers c' = watchers c /\ handlers c' = handlers c /\
  waiting c' = waiting c - Z.b2z (is_waiting pc) + Z.b2z (is_waiting pc') /\
  opening c' = opening c - Z.b2z (is_opening pc) + Z.b2z (is_opening pc') /\
  is_active pc = true /\ limit c' = (if is_active pc' then limit c else Nat.pred (limit c)) /\
  (forall i, pc_endpoint pc' = Some i -> endpoint c = Some i \/ pc_endpoint pc = Some i) /\
  (forall n, pc_notify pc' = Some n -> n = notify c \/ pc_notify pc = Some n).
Proof.
  destruct c as [cp lm wt op en nt es ws hs]. unfold handle_step. cbn.
  destruct pc as [| |i n|i n|n|[e|i]|i|i|[e|s]|s| | |], ev; try done; cbn; intros Hs;
    try (apply bind_Some in Hs as (? & ? & Hs)); repeat (case_match; cbn in *; try done); simplify_eq/=; split_and!; try done; try lia; auto;
    intros; simplify_eq; auto.
Qed.

Lemma handler_step_inv c k ev c' : client_inv c -> handler_step c k ev = Some c' -> client_inv c'.
Proof.
  intros [I1 I2 I3 I4 I5 I6 I7 I8 I9]. unfold handler_step. destruct (handlers c !! k) as [h|] eqn:Hk; [|done]. cbn.
  destruct (handle_step c (h_pc h) ev) as [[c1 pc]|] eqn:Hs; [|done]. cbn. intros [= <-].
  apply handle_step_spec in Hs as (E1 & E2 & E3 & E4 & E5 & E6 & E7 & E8 & E9 & E10 & E11 & E12).
  set (h' := mkHandler (h_service h) pc).
  pose proof (count_insert is_active (handlers c) k h h' Hk) as C1.
  pose proof (count_insert is_waiting (handlers c) k h h' Hk) as C2.
  pose proof (count_insert is_opening (handlers c) k h h' Hk) as C3.
  pose proof (count_pos is_active (handlers c) k h Hk E9) as C4.
  rewrite E9 in C1. cbn [h_pc h' Z.b2z] in C1, C2, C3.
  change (h <| h_pc := pc |>) with h'. destruct c1 as [cp lm wt op en nt es ws hs].
  cbn [cap limit waiting opening endpoint notify endpoints watchers handlers] in *. subst.
  split; cbn [cap limit waiting opening endpoint notify endpoints watchers handlers]; try done.
  - destruct (is_active pc); cbn [Z.b2z] in C1; lia.
  - destruct (is_active pc); lia.
  - lia.
  - lia.
  - intros k' x i [(-> & <- & _)|[_ Hx]]%list_lookup_insert_Some Hi; [|by eapply I8].
    destruct (E11 i Hi) as [Hi'|Hi']; [apply I6 in Hi'; lia|by eapply I8].
  - intros k' x n [(-> & <- & _)|[_ Hx]]%list_lookup_insert_Some Hn; [|by eapply I9].
    destruct (E12 n Hn) as [->|Hn']; [done|by eapply I9].
Qed.

Lemma watchers_lookup c i e : client_inv c -> endpoints c !! i = Some e -> is_Some (watchers c !! i).
Proof. intros HI He. apply lookup_lt_is_Some. rewrite (ci_watchers _ HI). by eapply lookup_lt_Some. Qed.

Lemma client_inv_new maxConnections : client_inv (NewClient maxConnections).
Proof. split; try done; cbn; lia. Qed.

Lemma signal_inv c e :
  client_inv c -> (forall i, e = Some i -> endpoint c = Some i) -> client_inv (signalLocked (c <| endpoint := e |>)).
Proof.
  destruct c as [cp lm wt op en nt es ws hs]. intros [I1 I2 I3 I4 I5 I6 I7 I8 I9] He. split; cbn in *; try done.
  - intros i Hi. by apply I6, He.
  - intros k h n Hk Hn. specialize (I9 k h n Hk Hn). lia.
Qed.

Lemma SetEndpoint_inv c e : client_inv c -> client_inv (SetEndpoint c e).
Proof.
  intros HI. destruct e as [e|]; [|by apply signal_inv].
  destruct c as [cp lm wt op en nt es ws hs]. destruct HI as [I1 I2 I3 I4 I5 I6 I7 I8 I9]. split; cbn in *; try done.
  - by rewrite !length_app, I5.
  - intros i [= <-]. rewrite length_app. cbn. split; [lia|]. rewrite <- I5, list_lookup_middle by done. done.
  - intros i w x Hw Hne Hx. apply lookup_app_Some in Hw as [Hw|[Hge Hw]].
    + apply lookup_app_Some in Hx as [Hx|[Hge _]]; [by eapply I7|]. apply lookup_lt_Some in Hw. lia.
    + by apply list_lookup_singleton_Some in Hw as [_ <-].
  - intros k h i Hk Hi. rewrite length_app. cbn. specialize (I8 k h i Hk Hi). lia.
  - intros k h n Hk Hn. specialize (I9 k h n Hk Hn). lia.
Qed.

Lemma watch_step_inv c i c' r : client_inv c -> watch_step c i = Some (c', r) -> client_inv c'.
Proof.
  intros HI. unfold watch_step. destruct (watchers c !! i) as [w|] eqn:Hw; [|done].
  assert (is_Some (endpoints c !! i)) as [x Hx].
  { apply lookup_lt_is_Some. rewrite <- (ci_watchers _ HI). by eapply lookup_lt_Some. }
  rewrite Hx.
  assert (forall w', (w' <> WatchDone -> ep_done x = true) -> (w' = WatchEnd -> endpoint c <> Some i) ->
    client_inv (c <| watchers := <[i := w']> (watchers c) |>)) as Hset.
  { intros w' Hd He. destruct c as [cp lm wt op en nt es ws hs]. destruct HI as [I1 I2 I3 I4 I5 I6 I7 I8 I9].
    cbn in Hw, Hx, He. split; cbn in *; try done.
    - by rewrite length_insert.
    - intros j Hj. destruct (I6 j Hj) as [? Hne]. split; [done|].
      destruct (decide (j = i)) as [->|]; [|by rewrite list_lookup_insert_ne].
      rewrite list_lookup_insert_eq by by eapply lookup_lt_Some. intros [= ->]. by apply He.
    - intros j w2 y [(-> & <- & _)|[_ Hw2]]%list_lookup_insert_Some; [|by apply I7]. rewrite Hx. intros ? [= <-]. by apply Hd. }
  pose proof (ci_ended _ HI i w x Hw) as Hended.
  destruct w; intros Hs.
  - destruct (ep_done x) eqn:Hd; [|done]. injection Hs as <- _. by apply Hset.
  - injection Hs as <- _. apply Hset; [|done]. intros _. by apply Hended.
  - injection Hs as <- _. case_bool_decide as Hc; cbn in Hc.
    + assert (client_inv (signalLocked (c <| endpoint := None |>) <| watchers := <[i := WatchEnd]> (watchers c) |>)); [|done].
      destruct c as [cp lm wt op en nt es ws hs]. cbn in *. destruct HI as [I1 I2 I3 I4 I5 I6 I7 I8 I9].
      split; cbn in *; try done.
      * by rewrite length_insert.
      * intros j w2 y [(-> & <- & _)|[_ Hw2]]%list_lookup_insert_Some; [|by apply I7]. rewrite Hx. intros ? [= <-]. by apply Hended.
      * intros k h n Hk Hn. specialize (I9 k h n Hk Hn). lia.
    + apply Hset; [|done]. intros _. by apply Hended.
  - done.
Qed.

Lemma endpoints_inv c i e e' :
  client_inv c -> endpoints c !! i = Some e -> (ep_done e = true -> ep_done e' = true) ->
  client_inv (c <| endpoints := <[i := e']> (endpoints c) |>).
Proof.
  destruct c as [cp lm wt op en nt es ws hs]. intros [I1 I2 I3 I4 I5 I6 I7 I8 I9] He Hd. split; cbn in *; try done.
  - by rewrite length_insert.
  - intros j Hj. rewrite length_insert. by apply I6.
  - intros j w x Hw Hne [(-> & <- & _)|[_ Hx]]%list_lookup_insert_Some; [|by eapply I7]. apply Hd. by eapply I7.
  - intros k h j Hk Hj. rewrite length_insert. by eapply I8.
Qed.

Lemma accept_inv c service : client_inv c -> client_inv (acceptConn c service).1.
Proof.
  intros HI. unfold acceptConn. destruct (Nat.ltb_spec (limit c) (cap c)); [|done].
  destruct c as [cp lm wt op en nt es ws hs]. destruct HI as [I1 I2 I3 I4 I5 I6 I7 I8 I9]. split; cbn -[Z.of_nat count] in *; try done.
  - unfold count. rewrite countb_app, countb_one. fold (count is_active hs). rewrite <- I1. cbn. lia.
  - unfold count. rewrite countb_app, countb_one. fold (count is_waiting hs). cbn [is_waiting h_pc Nat.b2n]. lia.
  - unfold count. rewrite countb_app, countb_one. fold (count is_opening hs). cbn [is_opening h_pc Nat.b2n]. lia.
  - intros k h i [Hk|[_ Hk]]%lookup_app_Some; [by apply (I8 k)|]. by apply list_lookup_singleton_Some in Hk as [_ <-].
  - intros k h i [Hk|[_ Hk]]%lookup_app_Some; [by apply (I9 k)|]. by apply list_lookup_singleton_Some in Hk as [_ <-].
Qed.

Lemma client_reachable_inv maxConnections c : client_reachable maxConnections c -> client_inv c /\ cap c = cap (NewClient maxConnections).
Proof.
  induction 1 as [|c c' Hr [HI Hcap] Hs]; [split; [apply client_inv_new|done]|].
  destruct Hs as [c k ev c' Hs|c service|c e|c i c' r Hs|c i e b He|c i e He].
  - split; [by eapply handler_step_inv|]. unfold handler_step in Hs.
    destruct (handlers c !! k) as [h|]; [|done]. cbn in Hs. destruct (handle_step c (h_pc h) ev) as [[c1 pc]|] eqn:E; [|done].
    apply handle_step_spec in E as (E1 & _). cbn in Hs. injection Hs as <-. by transitivity (cap c).
  - split; [by apply accept_inv|]. unfold acceptConn. by case_match.
  - split; [by apply SetEndpoint_inv|]. by destruct e.
  - split; [by eapply watch_step_inv|]. unfold watch_step in Hs.
    repeat case_match; simplify_eq; try done.
  - split; [by apply (endpoints_inv c i e)|done].
  - split; [by apply (endpoints_inv c i e)|done].
Qed.

(** ** A queued connection *)

Fixpoint handler_run (c : Client) (k : nat) (evs : list handleEvent) : option Client :=
  match evs with
  | [] => Some c
  | ev :: evs => c ← handler_step c k ev; handler_run c k evs
  end.

Definition handler_at (c : Client) (k : nat) (pc : handlePc) : Prop := exists s, handlers c !! k = Some (mkHandler s pc).

Lemma handler_step_at c k pc ev c1 pc' :
  handler_at c k pc -> handle_step c pc ev = Some (c1, pc') ->
  exists c', handler_step c k ev = Some c' /\ handler_at c' k pc' /\ endpoint c' = endpoint c /\ endpoints c' = endpoints c /\ notify c' = notify c.
Proof.
  intros [s Hk] Hs. unfold handler_step. rewrite Hk. cbn. rewrite Hs. cbn. eexists. split; [reflexivity|].
  apply handle_step_spec in Hs as (E1 & E2 & E3 & E4 & E5 & E6 & _). cbn. split_and!; try done.
  exists s. cbn. rewrite E6, list_lookup_insert_eq by by eapply lookup_lt_Some. done.
Qed.

Lemma run_cons c k ev evs c' : handler_step c k ev = Some c' -> handler_run c k (ev :: evs) = handler_run c' k evs.
Proof. intros H. cbn. by rewrite H. Qed.

Lemma handler_run_reachable m c k evs c' :
  client_reachable m c -> handler_run c k evs = Some c' -> client_reachable m c'.
Proof.
  revert c. induction evs as [|ev evs IH]; intros c Hr; cbn; [by intros [= <-]|].
  destruct (handler_step c k ev) as [c1|] eqn:E; [|done]. cbn. apply IH. eapply CrStep; [exact Hr|]. by eapply CsHandler.
Qed.

(** From [HCheck] with a usable endpoint. *)
Lemma check_opens c k i e :
  handler_at c k HCheck -> endpoint c = Some i -> endpoints c !! i = Some e -> ep_bound e = true -> ep_done e = false ->
  exists c', handler_run c k [EvRun; EvRun; EvRun; EvRun; EvRun] = Some c' /\ handler_at c' k (HOpening i).
Proof.
  intros Hat Hep He Hb Hd.
  edestruct (handler_step_at c k HCheck EvRun) as (c1 & H1 & Hat1 & A1 & A2 & A3); [exact Hat|cbn; rewrite Hep; reflexivity|].
  edestruct (handler_step_at c1 k (HCheckBound i (notify c)) EvRun) as (c2 & H2 & Hat2 & B1 & B2 & B3); [exact Hat1|cbn; rewrite A2, He; cbn; rewrite Hb; reflexivity|].
  edestruct (handler_step_at c2 k (HCheckDone i (notify c)) EvRun) as (c3 & H3 & Hat3 & C1 & C2 & C3); [exact Hat2|cbn; rewrite B2, A2, He; cbn; rewrite Hd; reflexivity|].
  edestruct (handler_step_at c3 k (HWaited (inr i)) EvRun) as (c4 & H4 & Hat4 & D1 & D2 & D3); [exact Hat3|cbn; reflexivity|].
  edestruct (handler_step_at c4 k (HOpenStart i) EvRun) as (c5 & H5 & Hat5 & _); [exact Hat4|cbn; reflexivity|].
  exists c5. split; [|done].
  by rewrite (run_cons _ _ _ _ _ H1), (run_cons _ _ _ _ _ H2), (run_cons _ _ _ _ _ H3), (run_cons _ _ _ _ _ H4), (run_cons _ _ _ _ _ H5).
Qed.

Lemma client_reachable_rtc m c c' : client_reachable m c -> rtc client_step c c' -> client_reachable m c'.
Proof. intros Hr. induction 1; [done|]. eauto using CrStep. Qed.

Lemma handler_run_rtc c k evs c' : handler_run c k evs = Some c' -> rtc client_step c c'.
Proof.
  revert c. induction evs as [|ev evs IH]; intros c; cbn; [by intros [= <-]|].
  destruct (handler_step c k ev) as [c1|] eqn:E; [|done]. cbn. intros H%IH. eapply rtc_l; [|exact H]. by eapply CsHandler.
Qed.

(** At any one moment the waiting and the opening goroutines are active ones. *)
Lemma phases_within_limit c : client_inv c -> waiting c + opening c <= Z.of_nat (limit c).
Proof.
  intros [I1 I2 I3 I4 _ _ _ _ _]. rewrite I1, I3, I4. clear. unfold count, countb.
  induction (handlers c) as [|h l IH]; [done|]. cbn [List.filter].
  destruct (h_pc h); cbn -[Z.of_nat] in *; try (destruct r); cbn -[Z.of_nat] in *; lia.
Qed.

(** * Properties *)

(** C17. In every interleaving of the connection goroutines, the endpoint
    watchers and the listeners, at most [maxConnections] connections are
    handled at once and a connection is turned away only when exactly that many
    are.  [Snapshot] takes two readings, one under the lock and one after it,
    with any steps between: waiting and opening count the goroutines that were
    in these phases together at the first, the active ones are exactly those
    at the second, and neither reading exceeds the limit.  An endpoint in use
    is the most recent one, so the late end of an older mux never removes it. *)
Theorem client_accounting maxConnections c c' :
  client_reachable maxConnections c ->
  rtc client_step c c' ->
  (limit c <= cap (NewClient maxConnections))%nat /\
  limit c = count is_active (handlers c) /\
  (forall service, (acceptConn c service).2 = false <-> limit c = cap (NewClient maxConnections)) /\
  snapshot (snapshotLocked c) c' =
    mkSnapshot (Z.of_nat (count is_active (handlers c'))) (Z.of_nat (count is_waiting (handlers c)))
      (Z.of_nat (count is_opening (handlers c))) /\
  (let sn := snapshot (snapshotLocked c) c' in
   ActiveConnections sn <= Z.of_nat (cap (NewClient maxConnections)) /\
   WaitingConnections sn + OpeningConnections sn <= Z.of_nat (limit c)) /\
  (forall i, endpoint c = Some i -> S i = length (endpoints c)) /\
  (forall i c1 r, watch_step c i = Some (c1, r) -> endpoint c <> Some i -> endpoint c1 = endpoint c).
Proof.
  intros Hr Hrtc. pose proof (client_reachable_rtc _ _ _ Hr Hrtc) as [HI' Hcap']%client_reachable_inv.
  apply client_reachable_inv in Hr as [HI Hcap]. pose proof (phases_within_limit c HI) as Hphases.
  destruct HI as [I1 I2 I3 I4 I5 I6 I7 I8 I9]. rewrite <- Hcap. split_and!; try done.
  - intros service. unfold acceptConn. destruct (Nat.ltb_spec (limit c) (cap c)); cbn; split; try done; lia.
  - unfold snapshot, snapshotLocked. cbn [fst snd]. by rewrite (ci_limit _ HI'), I3, I4.
  - cbn -[Z.of_nat]. pose proof (ci_cap _ HI'). split; [lia|exact Hphases].
  - intros i Hi. by apply I6.
  - intros i c1 r. unfold watch_step. intros Hs Hne. repeat case_match; simplify_eq; try done.
    by rewrite bool_decide_eq_false_2 in * by done.
Qed.

(** A queued connection is served: whenever the client has an endpoint whose
    link is bound and whose mux is alive, every goroutine that still waits
    reaches [OpenService] on that endpoint by steps of its own, without any
    further notification. *)
Theorem queued_connection_opens maxConnections c k s pc i e :
  client_reachable maxConnections c ->
  handlers c !! k = Some (mkHandler s pc) ->
  pc = HStart \/ pc = HCheck \/ (exists n, pc = HSelect n) ->
  endpoint c = Some i -> endpoints c !! i = Some e -> ep_bound e = true -> ep_done e = false ->
  exists evs c', handler_run c k evs = Some c' /\ handler_at c' k (HOpening i) /\ client_reachable maxConnections c'.
Proof.
  intros Hr Hk Hpc Hep He Hb Hd.
  assert (exists evs c', handler_run c k evs = Some c' /\ handler_at c' k (HOpening i)) as (evs & c' & Hrun & Hat).
  { assert (handler_at c k pc) as Hat by by exists s. destruct Hpc as [->|[->|[n ->]]].
    - edestruct (handler_step_at c k HStart EvRun) as (c1 & H1 & Hat1 & A1 & A2 & A3); [exact Hat|cbn; reflexivity|].
      destruct (check_opens c1 k i e) as (c' & Hrun & Ho); [done|congruence|congruence|done|done|].
      exists (EvRun :: [EvRun; EvRun; EvRun; EvRun; EvRun]), c'. by rewrite (run_cons _ _ _ _ _ H1).
    - destruct (check_opens c k i e) as (c' & Hrun & Ho); try done. by eexists _, c'.
    - edestruct (handler_step_at c k (HSelect n) EvTimer) as (c1 & H1 & Hat1 & A1 & A2 & A3); [exact Hat|cbn; reflexivity|].
      destruct (check_opens c1 k i e) as (c' & Hrun & Ho); [done|congruence|congruence|done|done|].
      exists (EvTimer :: [EvRun; EvRun; EvRun; EvRun; EvRun]), c'. by rewrite (run_cons _ _ _ _ _ H1). }
  exists evs, c'. split_and!; [done|done|]. by eapply handler_run_reachable.
Qed.

(** ** Witnesses *)

Definition demoClient : Client :=
  (SetEndpoint (acceptConn (acceptConn (NewClient 1) "web").1 "db").1 (Some (mkEndpoint true false))).

Lemma demoClient_reachable : client_reachable 1 demoClient.
Proof. do 3 (eapply CrStep; [|constructor]). apply CrInit. Qed.

(** The first of its two goroutines has begun to wait, and then gives up. *)
Definition demoQueued : Client := default demoClient (handler_step demoClient 0 EvRun).
Definition demoGone : Client :=
  default demoClient
    (c ← handler_run (SetEndpoint demoQueued None) 0 [EvRun; EvCancelled (ErrNew "context canceled"); EvRun; EvRun]; handler_step c 0 EvRun).

Lemma demoQueued_reachable : client_reachable 1 demoQueued.
Proof. eapply CrStep; [apply demoClient_reachable|]. by apply (CsHandler _ 0 EvRun). Qed.

Lemma demoGone_rtc : rtc client_step demoQueued demoGone.
Proof.
  eapply rtc_l; [apply (CsSet _ None)|].
  by apply (handler_run_rtc _ 0 [EvRun; EvCancelled (ErrNew "context canceled"); EvRun; EvRun; EvRun]).
Qed.

(** The two readings are of two moments: one snapshot can report a waiting
    connection and no active one. *)
Example snapshot_two_moments : snapshot (snapshotLocked demoQueued) demoGone = mkSnapshot 0 1 0.
Proof. reflexivity. Qed.

Lemma client_accounting_witness :
  (acceptConn demoQueued "ssh").2 = false /\ ActiveConnections (snapshot (snapshotLocked demoQueued) demoGone) <= 1.
Proof.
  destruct (client_accounting 1 demoQueued demoGone demoQueued_reachable demoGone_rtc) as (H1 & H2 & H3 & _ & [H5 _] & _).
  split; [apply H3; vm_compute; reflexivity|exact H5].
Defined.

Lemma queued_connection_opens_witness :
  exists evs c', handler_run demoClient 0 evs = Some c' /\ handler_at c' 0 (HOpening 0).
Proof.
  destruct (queued_connection_opens 1 demoClient 0 "web" HStart 0 (mkEndpoint true false) demoClient_reachable)
    as (evs & c' & H1 & H2 & _); try (vm_compute; reflexivity); [left; reflexivity|].
  exists evs, c'. split; assumption.
Defined.
