(* ===== verification/BleScan.v ===== *)
(** * Discovering and connecting servers
    (internal/ble/ble.go; the line picker of internal/app/client.go)

    The Bluetooth backend is third-party code: an advertisement is what its
    methods return, and every native call has an outcome the environment
    chooses.  [scan] is the fold of its callback over the advertisements that
    arrive; [Find] and [Connect] keep a record of the native connections they
    open and drop ([nativeEffect]). *)

From S2P Require Export Identity.

(** ** Devices and advertisements *)

Record manufacturerItem := mkItem { CompanyID : Z; item_Data : bytes }.

(** What the methods of an [AdvertisementPayload] return, UUIDs printed. *)
Record payload := mkPayload {
  hasServiceUUID : bool;                   (* HasServiceUUID(ServiceUUID) *)
  p_ServiceUUIDs : list string;
  p_ServiceData : list (string * bytes);
  p_ManufacturerData : list manufacturerItem
}.

Record ScanResult := mkScanResult {
  sr_address : Z;                          (* bluetooth.Address *)
  sr_localName : string;
  sr_RSSI : Z;
  sr_payload : option payload              (* None: nil *)
}.

Record Device := mkDevice {
  dev_ID : string;
  ServerID : string;
  dev_Name : string;
  RSSI : Z;
  LightningBNB : bool;
  ServiceUUIDs : list string;
  ServiceData : list string;
  ManufacturerData : list string;
  address : Z;
  connection : option nat;                 (* the pendingConnection, by identity *)
  identityProbedAt : Z
}.

#[export] Instance eta_Device : Eta Device := fun d =>
  mkDevice (dev_ID d) (ServerID d) (dev_Name d) (RSSI d) (LightningBNB d) (ServiceUUIDs d) (ServiceData d)
    (ManufacturerData d) (address d) (connection d) (identityProbedAt d).

Definition TestCompanyID : Z := 0xffff.
Definition marker : bytes := [Byte.x4c; Byte.x42; Byte.x4e; Byte.x42; Byte.x31].
Definition maxPacketMTU : Z := 244.

Definition is_marker (item : manufacturerItem) : bool :=
  (CompanyID item =? TestCompanyID) && bool_decide (marker `prefix_of` item_Data item).

Definition isLightningBNB (p : option payload) : bool :=
  match p with
  | None => false
  | Some p => hasServiceUUID p || existsb is_marker (p_ManufacturerData p)
  end.

Definition advertisedMarkerName (p : option payload) : string :=
  match p with
  | None => ""
  | Some p =>
      match List.find is_marker (p_ManufacturerData p) with
      | Some item => TrimSpace (bytes_str (slice_from (item_Data item) (zlen marker)))
      | None => ""
      end
  end.

Fixpoint appendUnique (values additions : list string) : list string :=
  match additions with
  | [] => values
  | addition :: additions =>
      appendUnique (if bool_decide (addition ∈ values) then values else values ++ [addition]) additions
  end.

Definition hexText (p : bytes) : string := bytes_str (hex_encode p).

Definition advertisementDetails (p : option payload) : list string * list string * list string :=
  match p with
  | None => ([], [], [])
  | Some p =>
      (appendUnique [] (p_ServiceUUIDs p),
       appendUnique [] ((fun '(uuid, data) => uuid +:+ "=" +:+ hexText data) <$> p_ServiceData p),
       appendUnique [] ((fun item => hexText (be_put 2 (CompanyID item)) +:+ "=" +:+ hexText (item_Data item))
                        <$> p_ManufacturerData p))
  end.

Definition mergeDevice (previous next : Device) : Device :=
  let next := if bool_decide (dev_Name next = "") then next <| dev_Name := dev_Name previous |> else next in
  next <| LightningBNB := LightningBNB previous || LightningBNB next |>
       <| ServiceUUIDs := appendUnique (ServiceUUIDs next) (ServiceUUIDs previous) |>
       <| ServiceData := appendUnique (ServiceData next) (ServiceData previous) |>
       <| ManufacturerData := appendUnique (ManufacturerData next) (ManufacturerData previous) |>.

Definition packetMTU (r : result Z) : Z :=
  match r with
  | inl _ => 20
  | inr mtu => if mtu <=? 3 then 20 else Z.min (mtu - 3) maxPacketMTU
  end.

Section Scan.
Context (Address_String : Z -> string).

(** ** Scanning *)

(** The device of one advertisement. *)
Definition advertised (r : ScanResult) : Device :=
  let name := if bool_decide (advertisedMarkerName (sr_payload r) = "") then sr_localName r
              else advertisedMarkerName (sr_payload r) in
  let '(uuids, data, manufacturer) := advertisementDetails (sr_payload r) in
  mkDevice (Address_String (sr_address r)) "" name (sr_RSSI r) (isLightningBNB (sr_payload r))
    uuids data manufacturer (sr_address r) None 0.

(** The callback of [scan]: the map, and what was passed to [onDevice]. *)
Definition scanCallback (onlyLightningBNB haveCallback : bool) (st : gmap string Device * list Device) (r : ScanResult)
    : gmap string Device * list Device :=
  let '(devices, reported) := st in
  let device := advertised r in
  let previous := devices !! dev_ID device in
  let device := match previous with Some p => mergeDevice p device | None => device end in
  let existed := bool_decide (is_Some previous) in
  let was := match previous with Some p => LightningBNB p | None => false end in
  let report := haveCallback && LightningBNB device && (negb existed || negb was) in
  let report := if haveCallback && negb onlyLightningBNB
                then negb existed || (negb was && LightningBNB device) else report in
  (<[dev_ID device := device]> devices, if report then reported ++ [device] else reported).

Definition scanResults (onlyLightningBNB haveCallback : bool) (rs : list ScanResult)
    : gmap string Device * list Device :=
  fold_left (scanCallback onlyLightningBNB haveCallback) rs (∅, []).

(** How the native scan ended: by itself, or stopped after the duration. *)
Inductive scanEnd := ScanReturned (e : err) | ScanStopped (e : err) | ScanHangs.

Definition scanError (o : scanEnd) : err :=
  match o with
  | ScanReturned e => e
  | ScanStopped (Some e) => if errors_Is e ContextCanceled then None else Some e
  | ScanStopped None => None
  | ScanHangs => Some (ErrNew "Bluetooth scan did not stop")
  end.

(** [scan], with the outcome of [Enable]: the devices, in some order, and those
    reported. *)
Definition scan (onlyLightningBNB haveCallback : bool) (enable : err) (rs : list ScanResult) (o : scanEnd)
    : result (list Device) * list Device :=
  match enable with
  | Some e => (inl (ErrWrap "enable Bluetooth: " e ""), [])
  | None =>
      let '(devices, reported) := scanResults onlyLightningBNB haveCallback rs in
      match scanError o with
      | Some e => (inl e, reported)
      | None =>
          (inr (List.filter (fun d => negb onlyLightningBNB || LightningBNB d) (map_to_list devices).*2), reported)
      end
  end.

(** ** The line picker: [chooseDeviceLine] *)

Definition deviceDisplayName (device : Device) : string :=
  if bool_decide (TrimSpace (dev_Name device) = "") then
    if bool_decide (ServerID device = "") then "(unnamed)" else ServerID device
  else TrimSpace (dev_Name device).

(** [devicesByID[id]]: the zero device when absent. *)
Definition zeroDevice : Device := mkDevice "" "" "" 0 false [] [] [] 0 None 0.

(** The scanner's line, or its error (nil at the end of the input). *)
Definition chooseDeviceLine (scanned : result (list Device) * list Device) (input : string + err) : result Device :=
  match scanned with
  | (inl e, _) => inl e
  | (inr devices, reported) =>
      let discoveredIDs := dev_ID <$> reported in
      if bool_decide (discoveredIDs = []) then inl (ErrNew "no LightningBNB servers found")
      else
        let devicesByID := fold_left (fun m d => <[dev_ID d := d]> m) devices (∅ : gmap string Device) in
        let orderedDevices := (fun id => default zeroDevice (devicesByID !! id)) <$> discoveredIDs in
        match input with
        | inr (Some e) => inl e
        | inr None => inl (ErrNew "no server selection provided")
        | inl line =>
            match Atoi (TrimSpace line) with
            | None => inl (ErrNew "invalid server selection")
            | Some selection =>
                if (selection <? 1) || (zlen orderedDevices <? selection) then inl (ErrNew "invalid server selection")
                else inr (nth (Z.to_nat (selection - 1)) orderedDevices zeroDevice)
            end
        end
  end.

(** * Lemmas about scanning *)

Lemma mergeDevice_ID p d : dev_ID (mergeDevice p d) = dev_ID d.
Proof. unfold mergeDevice. by case_bool_decide. Qed.

Lemma mergeDevice_LightningBNB p d : LightningBNB (mergeDevice p d) = LightningBNB p || LightningBNB d.
Proof. unfold mergeDevice. by case_bool_decide. Qed.

Lemma advertised_ID r : dev_ID (advertised r) = Address_String (sr_address r).
Proof. unfold advertised. by destruct (advertisementDetails _) as [[a b] c]. Qed.

Record scan_inv (st : gmap string Device * list Device) : Prop := {
  sc_id : forall id d, st.1 !! id = Some d -> dev_ID d = id;
  sc_reported : forall id, id ∈ dev_ID <$> st.2 <-> exists d, st.1 !! id = Some d /\ LightningBNB d = true;
  sc_nodup : NoDup (dev_ID <$> st.2)
}.

Lemma scanCallback_inv st r : scan_inv st -> scan_inv (scanCallback true true st r).
Proof.
  destruct st as [m rep]. intros [I1 I2 I3]. unfold scanCallback. cbn [fst snd andb negb] in *.
  pose proof (advertised_ID r) as Hid. generalize dependent (advertised r). intros new Hid.
  set (id := dev_ID new) in *.
  set (d := match m !! id with Some p => mergeDevice p new | None => new end).
  assert (dev_ID d = id) as Hd by (unfold d; case_match; [apply mergeDevice_ID|done]).
  rewrite Hd.
  set (was := match m !! id with Some p => LightningBNB p | None => false end).
  assert (LightningBNB d = was || LightningBNB new) as Hlb.
  { unfold d, was. destruct (m !! id); [apply mergeDevice_LightningBNB|done]. }
  assert ((negb (bool_decide (is_Some (m !! id))) || negb was) = negb was) as Hw.
  { unfold was. destruct (m !! id); [|done]. by destruct (LightningBNB _). }
  assert (was = true <-> id ∈ dev_ID <$> rep) as Hrep.
  { rewrite I2. unfold was. destruct (m !! id) as [p|]; split; try done.
    - intros Hp. by exists p.
    - by intros (? & [= <-] & ?).
    - by intros (? & ? & _). }
  rewrite Hw. split; cbn [fst snd].
  - intros id' d' [[<- <-]|[_ Hm]]%lookup_insert_Some; [done|by apply I1].
  - intros id'. destruct (decide (id' = id)) as [->|Hne].
    + rewrite lookup_insert_eq. destruct was eqn:Ew; cbn in Hlb.
      * rewrite Hlb. cbn. rewrite <- Hrep. split; [intros _; by exists d|done].
      * rewrite Hlb, andb_true_r. destruct (LightningBNB new).
        { rewrite fmap_app, elem_of_app. split; [intros _; by exists d|]. intros _. right. cbn. rewrite Hd. by left. }
        rewrite <- Hrep. split; [done|]. intros (? & [= <-] & ?). congruence.
    + rewrite lookup_insert_ne by done. rewrite <- I2. destruct (LightningBNB d && negb was); [|done].
      rewrite fmap_app, elem_of_app. cbn. rewrite Hd, list_elem_of_singleton. naive_solver.
  - destruct (LightningBNB d && negb was) eqn:Er; [|done]. apply andb_true_iff in Er as [_ Hn%negb_true_iff].
    rewrite fmap_app. cbn. rewrite Hd. apply NoDup_app. split_and!; [done| |apply NoDup_singleton].
    intros x Hx ->%list_elem_of_singleton. apply Hrep in Hx. congruence.
Qed.

Lemma scanResults_inv rs : scan_inv (scanResults true true rs).
Proof.
  unfold scanResults. assert (scan_inv (∅, [])) as H0.
  { split; cbn; [done| |constructor]. intros id. rewrite elem_of_nil. split; [done|]. by intros (? & ? & _). }
  revert H0. generalize (∅ : gmap string Device, @nil Device). induction rs as [|r rs IH]; intros st Hst; [done|].
  cbn. by apply IH, scanCallback_inv.
Qed.

Lemma scanned_IDs m : (forall id d, m !! id = Some d -> dev_ID d = id) -> dev_ID <$> (map_to_list m).*2 = (map_to_list m).*1.
Proof.
  intros Hm. rewrite <- list_fmap_compose. apply list_fmap_ext. intros i [id d] Hi. cbn.
  apply list_elem_of_lookup_2, elem_of_map_to_list in Hi. by apply Hm.
Qed.

Lemma NoDup_filter_fmap {A B} (f : A -> B) (P : A -> bool) l : NoDup (f <$> l) -> NoDup (f <$> List.filter P l).
Proof.
  induction l as [|x l IH]; cbn; [done|]. intros [Hx Hl]%NoDup_cons. destruct (P x); [|by apply IH].
  cbn. apply NoDup_cons. split; [|by apply IH]. intros Hin. apply Hx. apply list_elem_of_fmap in Hin as (y & -> & Hy).
  apply list_elem_of_In, List.filter_In in Hy as [Hy _]. apply list_elem_of_fmap. exists y. split; [done|].
  by apply list_elem_of_In.
Qed.

Lemma scan_lists enable rs o devices reported :
  scan true true enable rs o = (inr devices, reported) ->
  NoDup (dev_ID <$> devices) /\ NoDup (dev_ID <$> reported) /\
  (forall d, d ∈ devices -> LightningBNB d = true) /\
  (forall id, id ∈ dev_ID <$> reported <-> id ∈ dev_ID <$> devices).
Proof.
  unfold scan. destruct enable; [done|]. pose proof (scanResults_inv rs) as HI.
  destruct (scanResults true true rs) as [m rep]. destruct HI as [I1 I2 I3]. cbn [fst snd] in *.
  destruct (scanError o); [done|]. intros [= <- <-]. cbn [negb orb]. split_and!; try done.
  - apply NoDup_filter_fmap. rewrite scanned_IDs by done. apply NoDup_fst_map_to_list.
  - intros d Hd. by apply list_elem_of_In, List.filter_In in Hd as [_ Hd].
  - intros id. rewrite I2, list_elem_of_fmap. split.
    + intros (d & Hm & Hl). exists d. split; [by rewrite (I1 id d)|]. apply list_elem_of_In, List.filter_In. split; [|done].
      apply list_elem_of_In, list_elem_of_fmap. exists (id, d). split; [done|]. by apply elem_of_map_to_list.
    + intros (d & -> & Hd). apply list_elem_of_In, List.filter_In in Hd as [Hd Hl].
      apply list_elem_of_In, list_elem_of_fmap in Hd as ([id d'] & -> & Hd). apply elem_of_map_to_list in Hd.
      exists d'. cbn in *. by rewrite (I1 id d').
Qed.

Lemma devicesByID_lookup devices (m : gmap string Device) d :
  NoDup (dev_ID <$> devices) -> d ∈ devices ->
  fold_left (fun m d => <[dev_ID d := d]> m) devices m !! dev_ID d = Some d.
Proof.
  assert (forall devices (m : gmap string Device) id, id ∉ dev_ID <$> devices ->
    fold_left (fun m d => <[dev_ID d := d]> m) devices m !! id = m !! id) as Hother.
  { clear. induction devices as [|d devices IH]; intros m id; [done|]. cbn. rewrite not_elem_of_cons. intros [Hne Hn].
    rewrite IH by done. by rewrite lookup_insert_ne. }
  revert m. induction devices as [|x devices IH]; intros m; cbn; [intros _ Hd; by apply elem_of_nil in Hd|].
  intros [Hx Hnd]%NoDup_cons [->|Hd]%elem_of_cons; [|by apply IH].
  rewrite Hother by done. by rewrite lookup_insert_eq.
Qed.

End Scan.

(** * Properties *)

(** The picker offers exactly the servers the scan found, each once, in the
    order they were recognised, and a number picks the server shown with it: the
    device chosen has the identifier that was listed under the number, is one of
    the scan's final devices, and is a LightningBNB server; a number is refused
    exactly when no line shows it. *)
Theorem picker_selects_listed address_string enable rs o devices reported line :
  scan address_string true true enable rs o = (inr devices, reported) ->
  NoDup (dev_ID <$> reported) /\ (forall id, id ∈ dev_ID <$> reported <-> id ∈ dev_ID <$> devices) /\
  (forall d, chooseDeviceLine (inr devices, reported) (inl line) = inr d ->
    exists n shown, Atoi (TrimSpace line) = Some n /\ reported !! Z.to_nat (n - 1) = Some shown /\ 1 <= n /\
      dev_ID d = dev_ID shown /\ d ∈ devices /\ LightningBNB d = true) /\
  (forall n, Atoi (TrimSpace line) = Some n -> reported <> [] ->
    (1 <= n <= zlen reported <-> exists d, chooseDeviceLine (inr devices, reported) (inl line) = inr d)).
Proof.
  intros (Hnd & Hndr & Hlb & Hids)%scan_lists.
  assert (forall n shown, reported !! Z.to_nat (n - 1) = Some shown -> exists d, d ∈ devices /\ dev_ID d = dev_ID shown /\
    nth (Z.to_nat (n - 1)) ((fun id => default zeroDevice
      (fold_left (fun m d => <[dev_ID d := d]> m) devices (∅ : gmap string Device) !! id)) <$> (dev_ID <$> reported)) zeroDevice = d) as Hnth.
  { intros n shown Hs. assert (dev_ID shown ∈ dev_ID <$> devices) as Hin.
    { apply Hids, list_elem_of_fmap. exists shown. split; [done|]. by eapply list_elem_of_lookup_2. }
    apply list_elem_of_fmap in Hin as (d & Hd & Hin). exists d. split_and!; [done|done|].
    apply nth_lookup_Some. rewrite !list_lookup_fmap, Hs. cbn. rewrite Hd. by rewrite devicesByID_lookup. }
  split_and!; [done|done|..].
  - intros d. unfold chooseDeviceLine. case_bool_decide; [done|].
    destruct (Atoi (TrimSpace line)) as [n|]; [|done].
    destruct ((n <? 1) || _) eqn:Hr; [done|]. bool2prop. unfold zlen in *. rewrite !length_fmap in *. intros [= <-].
    destruct (lookup_lt_is_Some_2 reported (Z.to_nat (n - 1)) ltac:(lia)) as [shown Hs].
    destruct (Hnth n shown Hs) as (d & Hin & Hd & ->). exists n, shown. split_and!; try done; try lia; by apply Hlb.
  - intros n Hn Hne. unfold chooseDeviceLine. rewrite bool_decide_eq_false_2 by by destruct reported. rewrite Hn.
    unfold zlen. rewrite !length_fmap. split.
    + intros Hr. rewrite (proj2 (Z.ltb_ge _ _)), (proj2 (Z.ltb_ge _ _)) by lia. cbn. by eexists.
    + intros [d Hd]. destruct (Z.ltb_spec n 1), (Z.ltb_spec (Z.of_nat (length reported)) n); done || lia.
Qed.

Definition demoResults : list ScanResult :=
  [mkScanResult 7 "tv" (-60) (Some (mkPayload false [] [] []));
   mkScanResult 9 "" (-70) (Some (mkPayload false [] [] [mkItem 0xffff (marker ++ [Byte.x20; Byte.x61])]));
   mkScanResult 7 "tv" (-58) (Some (mkPayload true [] [] []));
   mkScanResult 9 "box" (-71) None].

Lemma picker_selects_listed_witness :
  exists devices reported d, scan itoa true true None demoResults (ScanStopped None) = (inr devices, reported) /\
    chooseDeviceLine (inr devices, reported) (inl " 1 ") = inr d /\ dev_ID d = "9".
Proof.
  set (r := scan itoa true true None demoResults (ScanStopped None)).
  assert (exists devices reported, r = (inr devices, reported) /\ reported <> []) as (devices & reported & Hr & Hne).
  { eexists _, _. split; [vm_compute; reflexivity|discriminate]. }
  exists devices, reported.
  destruct (picker_selects_listed itoa None demoResults (ScanStopped None) devices reported " 1 " Hr) as (H1 & H2 & H3 & H4).
  destruct (proj1 (H4 1 ltac:(vm_compute; reflexivity) Hne)) as [d Hd].
  - split; [done|]. destruct reported; [done|]. rewrite zlen_cons. pose proof (zlen_nonneg reported). lia.
  - exists d. split; [exact Hr|]. split; [exact Hd|]. destruct (H3 d Hd) as (n & shown & Hn & Hs & _ & -> & _).
    assert (n = 1) as -> by (revert Hn; vm_compute; intros [= <-]; reflexivity).
    revert Hr Hs. vm_compute. intros [= <- <-] [= <-]. reflexivity.
Defined.
