(* ===== verification/BleConnect.v ===== *)
(** * Identifying and connecting servers
    (internal/ble/ble.go)

    [Find] and [Connect] over the native connections they open: every call of
    the Bluetooth backend has an outcome the environment chooses, a connection
    is named by a number, and [nativeEffect] is the trace of connections opened,
    dropped, and refused — left as they are — because the backend returned a
    device with another address.  A [pendingConnection] is the connection it holds until
    [take]. *)

From S2P Require Export BleScan.

Definition ServiceUUIDString : string := "13f0b6a0-4746-4c42-8e2f-1f62e4a0b1a0".
Definition RXUUIDString : string := "13f0b6a1-4746-4c42-8e2f-1f62e4a0b1a0".
Definition TXUUIDString : string := "13f0b6a2-4746-4c42-8e2f-1f62e4a0b1a0".
Definition IdentityUUIDString : string := "13f0b6a3-4746-4c42-8e2f-1f62e4a0b1a0".
Definition probeSettlingDelay : Z := 250 * 1000000.

Inductive nativeEffect := NConnected (h : nat) | NDisconnected (h : nat) | NRefused (h : nat).

(** ** pendingConnection *)

(** The pending connections that were not taken yet. *)
Abbreviation pendingMap := (gmap nat nat).

Definition take (pending : pendingMap) (p : nat) : option nat * pendingMap := (pending !! p, delete p pending).

(** ** connectNative *)

Inductive connectOutcome :=
  | ConnectCancelled (e : error) (late : bool)   (* ctx.Done(); whether the call succeeds later *)
  | ConnectFailed (e : error)
  | Connected (a : Z).                           (* a device with this address *)

Definition errInvalidConnectedDevice : error := ErrNew "bluetooth backend returned an invalid device".

Definition validateConnectedDevice (a expectedAddress : Z) : err :=
  if negb (a =? expectedAddress) then Some errInvalidConnectedDevice else None.

Definition connectNative (device : Device) (h : nat) (o : connectOutcome) : result nat * list nativeEffect :=
  match o with
  | ConnectCancelled e late => (inl e, if late : bool then [NConnected h; NDisconnected h] else [])
  | ConnectFailed e => (inl (ErrWrap ("connect to " +:+ dev_ID device +:+ ": ") e ""), [])
  | Connected a =>
      match validateConnectedDevice a (address device) with
      | Some e => (inl (ErrWrap ("connect to " +:+ dev_ID device +:+ ": ") e ""), [NConnected h; NRefused h])
      | None => (inr h, [NConnected h])
      end
  end.

(** ** Reading the identity *)

Definition readServerID (services : result Z) (characteristics : result (list string)) (value : result bytes)
    : result bytes :=
  let? n := services in
  if negb (n =? 1) then inl (ErrNew "LightningBNB service was not found")
  else
    let? cs := characteristics in
    if negb (zlen cs =? 1) || negb (bool_decide (head cs = Some IdentityUUIDString))
    then inl (ErrNew "LightningBNB server identity characteristic was not found")
    else
      let? id := value in
      if negb (zlen id =? 16) then inl (ErrNew ("invalid LightningBNB server identity length " +:+ itoa (zlen id)))
      else inr id.

(** One probe of a device: the connection, the read or the end of the context
    before it returned, and [ctx.Err()] afterwards. *)
Record probe := mkProbe {
  pr_connect : connectOutcome;
  pr_read : error + result bytes;
  pr_ctxErr : err
}.

Definition identifyConnected (device : Device) (h : nat) (p : probe) : option nat * result bytes * list nativeEffect :=
  match connectNative device h (pr_connect p) with
  | (inl e, eff) => (None, inl e, eff)
  | (inr native, eff) =>
      match pr_read p with
      | inl e => (None, inl e, eff ++ [NDisconnected native])
      | inr r => (Some native, r, eff)
      end
  end.

Definition disconnect (native : option nat) : list nativeEffect :=
  match native with Some h => [NDisconnected h] | None => [] end.

Definition identify (device : Device) (h : nat) (p : probe) : result bytes * list nativeEffect :=
  let '(native, r, eff) := identifyConnected device h p in (r, eff ++ disconnect native).

(** [Scan]: every device found is probed in turn; [now] is the clock after the
    probe. *)
Fixpoint Scan (devices : list Device) (h : nat) (probes : nat -> probe) (now : nat -> Z)
    : list Device * list nativeEffect :=
  match devices with
  | [] => ([], [])
  | device :: devices =>
      let '(r, eff) := identify device h (probes h) in
      let device := device <| identityProbedAt := now h |> in
      let device := match r with inr id => device <| ServerID := ServerID_String id |> | inl _ => device end in
      let '(rest, eff') := Scan devices (S h) probes now in (device :: rest, eff ++ eff')
  end.

(** ** Find *)

Definition notFound (id : string) : error := ErrNew ("LightningBNB server " +:+ quoted id +:+ " not found").

(** A device with the platform identifier [id]; [None]: there is none. *)
Fixpoint findPlatform (id : string) (devices : list Device) (h : nat) (probes : nat -> probe)
    : option (result Device * list nativeEffect) :=
  match devices with
  | [] => None
  | device :: devices =>
      if bool_decide (dev_ID device = id) then
        let '(native, r, eff) := identifyConnected device h (probes h) in
        Some match native with
             | None => (inr device, eff)
             | Some native =>
                 match r, pr_ctxErr (probes h) with
                 | inr serverID, _ =>
                     (inr (device <| ServerID := ServerID_String serverID |> <| connection := Some native |>), eff)
                 | inl _, Some e => (inl e, eff ++ [NDisconnected native])
                 | inl _, None => (inr (device <| connection := Some native |>), eff)
                 end
             end
      else findPlatform id devices (S h) probes
  end.

(** The device whose identity is [requestedID]. *)
Fixpoint findServer (id : string) (requestedID : bytes) (devices : list Device) (h : nat) (probes : nat -> probe)
    : result Device * list nativeEffect :=
  match devices with
  | [] => (inl (notFound id), [])
  | device :: devices =>
      let '(native, r, eff) := identifyConnected device h (probes h) in
      match r with
      | inl _ =>
          let eff := eff ++ disconnect native in
          match pr_ctxErr (probes h) with
          | Some e => (inl e, eff)
          | None => let '(r, eff') := findServer id requestedID devices (S h) probes in (r, eff ++ eff')
          end
      | inr serverID =>
          if bool_decide (serverID = requestedID)
          then (inr (device <| ServerID := ServerID_String serverID |> <| connection := native |>), eff)
          else
            let '(r, eff') := findServer id requestedID devices (S h) probes in
            (r, eff ++ disconnect native ++ eff')
      end
  end.

(** [Find], after [scan]. *)
Definition Find (id : string) (scanned : result (list Device)) (probes : nat -> probe)
    : result Device * list nativeEffect :=
  match scanned with
  | inl e => (inl e, [])
  | inr devices =>
      match findPlatform id devices 0 probes with
      | Some r => r
      | None =>
          match ParseServerID (bytes_str (to_lower_byte <$> str_bytes id)) with
          | inl _ => (inl (notFound id), [])
          | inr requestedID => findServer id requestedID devices 0 probes
          end
      end
  end.

(** The pending connections [Find] leaves behind. *)
Definition pendingOf (r : result Device) : pendingMap :=
  match r with inr d => match connection d with Some h => {[ h := h ]} | None => ∅ end | inl _ => ∅ end.

(** ** Connect *)

Record connectEnv := mkConnectEnv {
  ce_enable : err;
  ce_now : Z;
  ce_waitCancelled : err;                (* ctx.Done() while settling *)
  ce_connect : connectOutcome;
  ce_services : result Z;                (* how many services were found *)
  ce_characteristics : result (list string);
  ce_identity : result bytes;
  ce_start : err                         (* EnableNotifications *)
}.

(** The transport's characteristics, by index; a later one replaces an earlier. *)
Record transport := mkTransport { t_rx : option nat; t_tx : option nat; t_identity : option nat }.

Fixpoint findCharacteristics (t : transport) (i : nat) (characteristics : list string) : transport :=
  match characteristics with
  | [] => t
  | uuid :: rest =>
      let t := if bool_decide (uuid = RXUUIDString) then mkTransport (Some i) (t_tx t) (t_identity t)
               else if bool_decide (uuid = TXUUIDString) then mkTransport (t_rx t) (Some i) (t_identity t)
               else if bool_decide (uuid = IdentityUUIDString) then mkTransport (t_rx t) (t_tx t) (Some i)
               else t in
      findCharacteristics t (S i) rest
  end.

(** What [newClientPacketConn] is given. *)
Record clientTransport := mkClientTransport {
  ct_id : string; ct_serverID : string; ct_native : nat; ct_rx : nat; ct_tx : nat
}.

(** After the native connection is there. *)
Definition openTransport (device : Device) (native : nat) (env : connectEnv) : result clientTransport * list nativeEffect :=
  let fail e := (inl e, [NDisconnected native]) in
  match ce_services env with
  | inl e => fail (ErrWrap "discover LightningBNB service: " e "")
  | inr n =>
      if negb (n =? 1) then fail (ErrNew "LightningBNB service was not found on the selected device")
      else
        match ce_characteristics env with
        | inl e => fail (ErrWrap "discover LightningBNB characteristics: " e "")
        | inr characteristics =>
            let t := findCharacteristics (mkTransport None None None) 0 characteristics in
            match t_rx t, t_tx t with
            | Some rx, Some tx =>
                let serverID :=
                  match t_identity t, ce_identity env with
                  | Some _, inr id => if zlen id =? 16 then ServerID_String id else ""
                  | _, _ => ""
                  end in
                match ce_start env with
                | Some e => fail (ErrWrap "subscribe to LightningBNB transport: " e "")
                | None => (inr (mkClientTransport (dev_ID device) serverID native rx tx), [])
                end
            | _, _ => fail (ErrNew "selected device does not expose the complete LightningBNB transport")
            end
        end
  end.

Definition Connect (device : Device) (pending : pendingMap) (h : nat) (env : connectEnv)
    : result clientTransport * pendingMap * list nativeEffect :=
  match ce_enable env with
  | Some e => (inl (ErrWrap "enable Bluetooth: " e ""), pending, [])
  | None =>
      let '(taken, pending) := match connection device with Some p => take pending p | None => (None, pending) end in
      match taken with
      | Some native => let '(r, eff) := openTransport device native env in (r, pending, eff)
      | None =>
          let wait := probeSettlingDelay - (ce_now env - identityProbedAt device) in
          match (if negb (identityProbedAt device =? 0) && (0 <? wait) then ce_waitCancelled env else None) with
          | Some e => (inl e, pending, [])
          | None =>
              match connectNative device h (ce_connect env) with
              | (inl e, eff) => (inl e, pending, eff)
              | (inr native, eff) =>
                  let '(r, eff') := openTransport device native env in (r, pending, eff ++ eff')
              end
          end
      end
  end.

(** * Lemmas *)

(** The connections open after a trace, and those [connectNative] refused. *)
Definition live_step (s : gset nat) (e : nativeEffect) : gset nat :=
  match e with NConnected h => {[ h ]} ∪ s | NDisconnected h => s ∖ {[ h ]} | NRefused _ => s end.
Definition live_from (s : gset nat) (eff : list nativeEffect) : gset nat := fold_left live_step eff s.
Definition live (eff : list nativeEffect) : gset nat := live_from ∅ eff.

Definition refused_of (e : nativeEffect) : gset nat := match e with NRefused h => {[ h ]} | _ => ∅ end.
Definition refused (eff : list nativeEffect) : gset nat := ⋃ (refused_of <$> eff).

Definition owned (native : option nat) : gset nat := match native with Some h => {[ h ]} | None => ∅ end.

(** The backend connected to another device than it was asked for. *)
Definition mismatch (device : Device) (o : connectOutcome) : Prop := exists a, o = Connected a /\ a <> address device.

Definition handle (e : nativeEffect) : nat := match e with NConnected h | NDisconnected h | NRefused h => h end.

Lemma live_app s eff eff' : live_from s (eff ++ eff') = live_from (live_from s eff) eff'.
Proof. apply fold_left_app. Qed.

Lemma refused_app eff eff' : refused (eff ++ eff') = refused eff ∪ refused eff'.
Proof. unfold refused. by rewrite fmap_app, union_list_app_L. Qed.

Lemma refused_handle eff x : x ∈ refused eff -> exists e, e ∈ eff /\ handle e = x.
Proof.
  unfold refused. intros (X & HX & Hx)%elem_of_union_list. apply list_elem_of_fmap in HX as (e & -> & He).
  exists e. split; [done|]. destruct e; cbn in *; set_solver.
Qed.

(** A trace about other connections leaves those of [s] alone. *)
Lemma live_disjoint s eff : (forall e, e ∈ eff -> handle e ∉ s) -> live_from s eff = s ∪ live eff.
Proof.
  unfold live. assert (forall t, (forall e, e ∈ eff -> handle e ∉ s) -> live_from (s ∪ t) eff = s ∪ live_from t eff) as Hgen.
  { induction eff as [|e eff IH]; intros t Hs; [done|]. unfold live_from in *. cbn [fold_left].
    assert (live_step (s ∪ t) e = s ∪ live_step t e) as ->.
    { specialize (Hs e ltac:(by left)). destruct e; cbn in *; set_solver. }
    apply IH. intros e' He'. apply Hs. by right. }
  intros Hs. rewrite <- (Hgen ∅ Hs). by replace (s ∪ ∅) with s by set_solver.
Qed.

Lemma connectNative_live device h o r eff :
  connectNative device h o = (r, eff) ->
  (forall e, e ∈ eff -> handle e = h) /\ (forall x, x ∈ refused eff -> mismatch device o) /\
  match r with inr native => native = h /\ live eff = {[ h ]} /\ refused eff = ∅ | inl _ => live eff = refused eff end.
Proof.
  assert (forall e, e ∈ [NConnected h; NDisconnected h] \/ e ∈ [NConnected h; NRefused h] \/ e ∈ [NConnected h] -> handle e = h) as Hh.
  { intros e. rewrite !elem_of_cons, !elem_of_nil. intros [Hc|[Hc|Hc]]; repeat destruct Hc as [->|Hc]; done. }
  unfold connectNative, validateConnectedDevice, live, live_from, refused. destruct o as [e late|e|a].
  - intros [= <- <-]. destruct late; cbn; (split_and!; [|set_solver|set_solver]).
    + intros e' He'. apply Hh. by left.
    + intros e' He'. by apply elem_of_nil in He'.
  - intros [= <- <-]. split_and!; [|set_solver|done]. intros e' He'. by apply elem_of_nil in He'.
  - destruct (Z.eqb_spec a (address device)) as [Ha|Ha]; cbn; intros [= <- <-]; cbn; (split_and!; try done; [| |set_solver..]).
    + intros e' He'. apply Hh. by right; right.
    + set_solver.
    + intros e' He'. apply Hh. by right; left.
    + intros _ _. by exists a.
Qed.

(** A probe: the connection is the caller's, gone, or was refused. *)
Lemma identifyConnected_live device h p native r eff :
  identifyConnected device h p = (native, r, eff) ->
  (forall e, e ∈ eff -> handle e = h) /\ (forall x, x ∈ refused eff -> mismatch device (pr_connect p)) /\
  live eff = refused eff ∪ owned native /\ (forall x, native = Some x -> x = h /\ refused eff = ∅) /\
  (forall id, r = inr id -> native = Some h).
Proof.
  unfold identifyConnected. destruct (connectNative device h (pr_connect p)) as [[e|n] eff1] eqn:E;
    apply connectNative_live in E as (Hh & Hm & Hl).
  - intros [= <- <- <-]. split_and!; try done. rewrite Hl. cbn. set_solver.
  - destruct Hl as (-> & Hl & Hr). destruct (pr_read p) as [e|x].
    + intros [= <- <- <-]. split_and!; try done.
      * intros e' [He'|He']%elem_of_app; [by apply Hh|]. by apply list_elem_of_singleton in He' as ->.
      * intros x. rewrite refused_app, Hr. unfold refused. cbn. set_solver.
      * rewrite refused_app, Hr. unfold live, refused in *. rewrite live_app, Hl. cbn. set_solver.
    + intros [= <- <- <-]. split_and!; try done; [rewrite Hl, Hr; cbn; set_solver|by intros y [= <-]].
Qed.

Lemma refused_disconnect eff native : refused (eff ++ disconnect native) = refused eff.
Proof. rewrite refused_app. destruct native; unfold refused; cbn; set_solver. Qed.

Lemma disconnect_live eff native :
  live eff = refused eff ∪ owned native -> (forall x, native = Some x -> refused eff = ∅) ->
  live (eff ++ disconnect native) = refused (eff ++ disconnect native).
Proof.
  intros Hl Hr. rewrite refused_disconnect. unfold live in *. rewrite live_app, Hl.
  destruct native as [n|]; cbn; [rewrite (Hr n eq_refl)|]; set_solver.
Qed.

(** What [Find] leaves open, and the device it found. *)
Record found (h : nat) (devices : list Device) (probes : nat -> probe) (r : result Device) (eff : list nativeEffect) : Prop := {
  fo_handles : forall e, e ∈ eff -> (h <= handle e < h + length devices)%nat;
  fo_live : live eff = refused eff ∪ match r with inr d => owned (connection d) | inl _ => ∅ end;
  fo_refused : forall x, x ∈ refused eff -> exists i d, x = (h + i)%nat /\ devices !! i = Some d /\ mismatch d (pr_connect (probes x));
  fo_device : forall d, r = inr d -> exists d0, d0 ∈ devices /\ address d = address d0 /\ dev_ID d = dev_ID d0;
  fo_connection : forall d n, r = inr d -> connection d = Some n -> (h <= n < h + length devices)%nat /\ n ∉ refused eff
}.

Lemma found_next h x devices probes r eff : found (S h) devices probes r eff -> found h (x :: devices) probes r eff.
Proof.
  intros [F1 F2 F3 F4 F5]. split; cbn [length]; try done.
  - intros e He. specialize (F1 e He). lia.
  - intros y Hy. destruct (F3 y Hy) as (i & d & -> & Hd). exists (S i), d. split; [lia|done].
  - intros d Hr. destruct (F4 d Hr) as (d0 & H0 & H1). exists d0. split; [by right|done].
  - intros d n Hr Hn. destruct (F5 d n Hr Hn). split; [lia|done].
Qed.

(** Only the first device is probed. *)
Lemma found_here h x devices probes r eff :
  (forall e, e ∈ eff -> handle e = h) -> (forall y, y ∈ refused eff -> mismatch x (pr_connect (probes h))) ->
  live eff = refused eff ∪ match r with inr d => owned (connection d) | inl _ => ∅ end ->
  (forall d, r = inr d -> address d = address x /\ dev_ID d = dev_ID x) ->
  (forall d n, r = inr d -> connection d = Some n -> n = h /\ refused eff = ∅) ->
  found h (x :: devices) probes r eff.
Proof.
  intros Hh Hm Hl Hd Hn. split; cbn [length]; try done.
  - intros e He. rewrite (Hh e He). lia.
  - intros y Hy. pose proof (Hm y Hy) as Hmy. apply refused_handle in Hy as (e & He & <-). rewrite (Hh e He).
    exists 0%nat, x. split_and!; [lia|done|done].
  - intros d Hr. destruct (Hd d Hr). exists x. split_and!; [by left|done|done].
  - intros d n Hr Hc. destruct (Hn d n Hr Hc) as [-> ->]. split; [lia|]. apply not_elem_of_empty.
Qed.

(** The first device was given up, and the rest searched. *)
Lemma found_skip h x devices probes r eff0 eff :
  (forall e, e ∈ eff0 -> handle e = h) -> (forall y, y ∈ refused eff0 -> mismatch x (pr_connect (probes h))) ->
  live eff0 = refused eff0 -> found (S h) devices probes r eff -> found h (x :: devices) probes r (eff0 ++ eff).
Proof.
  intros Hh Hm Hl HF. pose proof (found_next h x _ _ _ _ HF) as [F1 F2 F3 F4 F5].
  assert (forall y, y ∈ refused eff0 -> y = h) as Hy0.
  { intros y (e & He & <-)%refused_handle. by apply Hh. }
  split; try done.
  - intros e [He|He]%elem_of_app; [|by apply F1]. rewrite (Hh e He). cbn. lia.
  - unfold live. rewrite live_app. fold (live eff0). rewrite live_disjoint.
    + rewrite Hl, F2, refused_app. set_solver.
    + intros e He Hin. rewrite Hl in Hin. apply Hy0 in Hin. pose proof (fo_handles _ _ _ _ _ HF e He). lia.
  - intros y. rewrite refused_app. intros [Hy|Hy]%elem_of_union; [|by apply F3]. pose proof (Hm y Hy). rewrite (Hy0 y Hy).
    exists 0%nat, x. split_and!; [lia|done|done].
  - intros d n Hr Hc. destruct (F5 d n Hr Hc) as [Hn Hni]. split; [done|]. rewrite refused_app.
    intros [Hin|Hin]%elem_of_union; [|done]. apply Hy0 in Hin as ->.
    destruct (fo_connection _ _ _ _ _ HF d _ Hr Hc). lia.
Qed.

Lemma findPlatform_spec id devices h probes r eff :
  Forall (fun d => connection d = None) devices -> findPlatform id devices h probes = Some (r, eff) ->
  found h devices probes r eff /\ (forall d, r = inr d -> dev_ID d = id).
Proof.
  intros Hc. revert h. induction Hc as [|x devices Hx Hc IH]; intros h; [done|]. cbn [findPlatform].
  case_bool_decide as Hid.
  - destruct (identifyConnected x h (probes h)) as [[native rr] eff1] eqn:E.
    apply identifyConnected_live in E as (Hh & Hm & Hl & Hn & Hok). intros [= Hr].
    destruct native as [n|]; [destruct (Hn n eq_refl) as [-> Hnr]; destruct rr as [e|sid]; [destruct (pr_ctxErr (probes h))|]|];
      injection Hr as <- <-; (split; [apply found_here|]); try done.
    + intros e' [He'|He']%elem_of_app; [by apply Hh|]. by apply list_elem_of_singleton in He' as ->.
    + intros y Hy. apply (Hm y). pose proof (refused_disconnect eff1 (Some h)) as Hrd. cbn [disconnect] in Hrd. by rewrite Hrd in Hy.
    + pose proof (disconnect_live eff1 (Some h) Hl (fun _ _ => Hnr)) as Hdl. cbn [disconnect] in Hdl. rewrite Hdl. set_solver.
    + by intros d [= <-].
    + by intros d n [= <-] [= <-].
    + by intros d [= <-].
    + by intros d [= <-].
    + by intros d n [= <-] [= <-].
    + by intros d [= <-].
    + rewrite Hl. cbn. by rewrite Hx.
    + by intros d [= <-].
    + intros d n [= <-]. by rewrite Hx.
    + by intros d [= <-].
  - intros Hf. apply IH in Hf as [HF Hd]. split; [by apply found_next|done].
Qed.

Lemma findServer_spec id sid devices h probes r eff :
  findServer id sid devices h probes = (r, eff) ->
  found h devices probes r eff /\ (forall d, r = inr d -> ServerID d = ServerID_String sid).
Proof.
  revert h r eff. induction devices as [|x devices IH]; intros h r eff; cbn [findServer].
  { intros [= <- <-]. split; [|done]. split; try done; intros ? Hin; by apply elem_of_nil in Hin. }
  destruct (identifyConnected x h (probes h)) as [[native rr] eff1] eqn:E.
  apply identifyConnected_live in E as (Hh & Hm & Hl & Hn & Hok).
  assert (live (eff1 ++ disconnect native) = refused (eff1 ++ disconnect native)) as Hdl.
  { apply disconnect_live; [done|]. intros y Hy. by apply (Hn y). }
  assert (forall e, e ∈ eff1 ++ disconnect native -> handle e = h) as Hh'.
  { intros e [He|He]%elem_of_app; [by apply Hh|]. destruct native as [n|]; [|by apply elem_of_nil in He].
    apply list_elem_of_singleton in He as ->. by apply Hn. }
  assert (forall y, y ∈ refused (eff1 ++ disconnect native) -> mismatch x (pr_connect (probes h))) as Hm'
    by (intros y; rewrite refused_disconnect; apply Hm).
  destruct (findServer id sid devices (S h) probes) as [r2 eff2] eqn:Ef. apply IH in Ef as [HF2 Hd2].
  destruct rr as [e|y].
  - destruct (pr_ctxErr (probes h)); intros [= <- <-]; (split; [|done]).
    + apply found_here; try done. rewrite Hdl. set_solver.
    + by apply found_skip.
  - case_bool_decide as Hy; intros [= <- <-].
    + specialize (Hok y eq_refl). subst native. split; [|intros d [= <-]; by rewrite <- Hy]. apply found_here; try done.
      * by intros d [= <-].
      * intros d n [= <-] [= <-]. by apply Hn.
    + rewrite app_assoc. split; [by apply found_skip|done].
Qed.

Lemma openTransport_live device native env r eff :
  openTransport device native env = (r, eff) ->
  refused eff = ∅ /\
  forall s, native ∉ s -> live_from (s ∪ {[ native ]}) eff = s ∪ match r with inr t => {[ ct_native t ]} | inl _ => ∅ end.
Proof.
  unfold openTransport, refused. intros H. repeat (case_match; simplify_eq); cbn; (split; [set_solver|]); intros s Hs; try done; set_solver.
Qed.

Lemma scanned_connection address_string only cb enable rs o devices reported :
  scan address_string only cb enable rs o = (inr devices, reported) -> Forall (fun d => connection d = None) devices.
Proof.
  unfold scan. destruct enable; [done|].
  assert (map_Forall (fun _ d => connection d = None) (scanResults address_string only cb rs).1) as Hm.
  { unfold scanResults. assert (map_Forall (fun _ d => connection d = None) (∅ : gmap string Device, @nil Device).1) as H0 by apply map_Forall_empty.
    revert H0. generalize (∅ : gmap string Device, @nil Device). induction rs as [|r rs IH]; intros st Hst; [done|].
    cbn [fold_left]. apply IH. destruct st as [m rep]. unfold scanCallback. cbn [fst snd] in *.
    apply map_Forall_insert_2; [|done].
    assert (connection (advertised address_string r) = None) as Hadv.
    { unfold advertised. by destruct (advertisementDetails _) as [[a b] c]. }
    destruct (m !! _); [|done]. unfold mergeDevice. by case_bool_decide. }
  destruct (scanResults _ _ _ _) as [m rep]. destruct (scanError o); [done|]. intros [= <- <-].
  apply Forall_forall. intros d Hd. apply list_elem_of_In, List.filter_In in Hd as [Hd _].
  apply list_elem_of_In, list_elem_of_fmap in Hd as ([id' d'] & -> & Hd). apply elem_of_map_to_list in Hd. by apply (Hm id').
Qed.

Lemma Find_spec id devices probes r eff :
  Forall (fun d => connection d = None) devices -> Find id (inr devices) probes = (r, eff) ->
  found 0 devices probes r eff /\
  (forall d, r = inr d -> dev_ID d = id \/
     exists sid, ParseServerID (bytes_str (to_lower_byte <$> str_bytes id)) = inr sid /\ ServerID d = ServerID_String sid).
Proof.
  intros Hc. unfold Find. destruct (findPlatform id devices 0 probes) as [[r0 eff0]|] eqn:Ep.
  - intros [= <- <-]. apply findPlatform_spec in Ep as [HF Hd]; [|done]. split; [done|]. intros d Hr. left. by apply Hd.
  - destruct (ParseServerID _) as [e|sid].
    + intros [= <- <-]. split; [|done]. split; try done; intros ? Hin; by apply elem_of_nil in Hin.
    + intros Hf. apply findServer_spec in Hf as [HF Hd]. split; [done|]. intros d Hr. right. exists sid. split; [done|by apply Hd].
Qed.

(** * Properties *)

(** C22. No native connection that [connectNative] returned is lost, and the ones
    it refuses are left open.  Whatever the backend does, [Find] leaves open
    exactly the connection the returned device carries, if any, and the ones
    refused, which are those of probes whose backend connected to another
    device; the device is one the scan found, with the platform identifier asked
    for or the identity asked for.  [Connect] on that device then leaves open
    exactly the transport's connection — none when it fails — and again what was
    refused. *)
Theorem find_connect_owned id devices probes r eff :
  Forall (fun d => connection d = None) devices ->
  Find id (inr devices) probes = (r, eff) ->
  live eff = refused eff ∪ match r with inr d => owned (connection d) | inl _ => ∅ end /\
  (forall x, x ∈ refused eff -> exists d, devices !! x = Some d /\ mismatch d (pr_connect (probes x))) /\
  (forall d, r = inr d ->
    (exists d0, d0 ∈ devices /\ address d = address d0 /\ dev_ID d = dev_ID d0) /\
    (dev_ID d = id \/ exists sid, ParseServerID (bytes_str (to_lower_byte <$> str_bytes id)) = inr sid /\ ServerID d = ServerID_String sid) /\
    forall h env r' pending' eff',
      (length devices <= h)%nat -> ce_enable env = None ->
      Connect d (pendingOf r) h env = (r', pending', eff') ->
      pending' = ∅ /\
      live (eff ++ eff') = refused (eff ++ eff') ∪ match r' with inr t => {[ ct_native t ]} | inl _ => ∅ end /\
      (forall x, x ∈ refused eff' -> mismatch d (ce_connect env))).
Proof.
  intros Hc Hf. destruct (Find_spec id devices probes r eff Hc Hf) as [[F1 F2 F3 F4 F5] Hid].
  split_and!; [done| |].
  { intros x Hx. destruct (F3 x Hx) as (i & d & -> & Hd). by exists d. }
  intros d ->. split_and!; [by apply F4|by apply Hid|]. intros h env r' pending' eff' Hfresh Hen. unfold Connect, pendingOf, take. rewrite Hen.
  assert (forall e, e ∈ eff -> (handle e < h)%nat) as Hlt by (intros e He; specialize (F1 e He); lia).
  assert (forall x, x ∈ refused eff -> x <> h) as Hnew.
  { intros x (e & He & <-)%refused_handle. specialize (Hlt e He). lia. }
  rewrite refused_app. destruct (connection d) as [n|] eqn:Hcn.
  - rewrite lookup_singleton_eq. destruct (openTransport d n env) as [r1 eff1] eqn:Eo. intros [= <- <- <-].
    apply openTransport_live in Eo as [Hr Ho]. split; [apply delete_singleton_eq|]. rewrite Hr. split; [|set_solver].
    destruct (F5 d n eq_refl Hcn) as [_ Hn]. unfold live. rewrite live_app. fold (live eff). rewrite F2. cbn [owned].
    rewrite (Ho _ Hn). set_solver.
  - cbn [owned] in F2. assert (live eff = refused eff) as Hl by (rewrite F2; set_solver).
    destruct (if (_ : bool) then ce_waitCancelled env else None) as [e|].
    { intros [= <- <- <-]. rewrite app_nil_r, Hl. unfold refused. cbn. split_and!; set_solver. }
    destruct (connectNative d h (ce_connect env)) as [[e|n] eff1] eqn:Ec; apply connectNative_live in Ec as (Hh & Hm & Hl1).
    + intros [= <- <- <-]. split_and!; [done| |done]. unfold live. rewrite live_app. fold (live eff). rewrite live_disjoint.
      * rewrite Hl, Hl1. set_solver.
      * intros e' He'. rewrite (Hh e' He'), Hl. intros Hin. by apply (Hnew h).
    + destruct Hl1 as (-> & Hl1 & Hr1). destruct (openTransport d h env) as [r1 eff2] eqn:Eo. intros [= <- <- <-].
      apply openTransport_live in Eo as [Hr2 Ho]. rewrite refused_app, Hr1, Hr2. split_and!; [done| |set_solver].
      unfold live. rewrite !live_app. fold (live eff). rewrite (live_disjoint (live eff) eff1), Hl, Hl1.
      * rewrite Ho; [set_solver|]. intros Hin. by apply (Hnew h).
      * intros e' He'. rewrite (Hh e' He'), Hl. intros Hin. by apply (Hnew h).
Qed.

Definition demoDevice (i : Z) : Device := mkDevice (itoa i) "" "" (-60) true [] [] [] i None 0.
Definition demoServerID : bytes := replicate 16 Byte.x41.
Definition demoProbes (i : nat) : probe :=
  mkProbe (Connected (Z.of_nat i)) (inr (inr (if bool_decide (i = 1%nat) then demoServerID else replicate 16 Byte.x42))) None.
Definition demoEnv : connectEnv :=
  mkConnectEnv None 0 None (ConnectFailed (ErrNew "unused")) (inr 1) (inr [TXUUIDString; RXUUIDString; IdentityUUIDString])
    (inr demoServerID) None.
Definition demoTarget : Device := (demoDevice 1) <| ServerID := ServerID_String demoServerID |> <| connection := Some 1%nat |>.
Definition demoTransport : clientTransport := mkClientTransport (dev_ID demoTarget) (ServerID_String demoServerID) 1 1 0.

(** The first device's backend connects elsewhere, the second is the server. *)
Definition demoElsewhere (i : nat) : probe :=
  if bool_decide (i = 0%nat) then mkProbe (Connected 7) (inr (inr demoServerID)) None else demoProbes i.
Definition demoLeaked : list nativeEffect := [NConnected 0; NRefused 0; NConnected 1].

Lemma find_connect_owned_witness :
  Find (ServerID_String demoServerID) (inr [demoDevice 0; demoDevice 1]) demoElsewhere = (inr demoTarget, demoLeaked) /\
  live (demoLeaked ++ []) = refused (demoLeaked ++ []) ∪ {[ 1%nat ]} /\ refused demoLeaked = {[ 0%nat ]}.
Proof.
  assert (Find (ServerID_String demoServerID) (inr [demoDevice 0; demoDevice 1]) demoElsewhere = (inr demoTarget, demoLeaked)) as E
    by (vm_compute; reflexivity).
  split; [exact E|].
  destruct (find_connect_owned (ServerID_String demoServerID) [demoDevice 0; demoDevice 1] demoElsewhere (inr demoTarget) demoLeaked) as (_ & _ & Hd).
  - repeat constructor.
  - exact E.
  - destruct (Hd demoTarget eq_refl) as (_ & _ & Hconn).
    destruct (Hconn 2%nat demoEnv (inr demoTransport) ∅ []) as (_ & Hl & _); [cbn; lia|reflexivity|vm_compute; reflexivity|].
    split; [exact Hl|vm_compute; reflexivity].
Defined.
