(* ===== verification/BleAdapter.v ===== *)
(** * The adapter
    (internal/ble/ble.go: Adapter)

    [Enable] once, the scans, and the register of transports by which the
    backend's callback [connectionChanged] finds the connection a disconnected
    device belongs to.  Transports are numbered in the order [Connect] registers
    them; they close from several goroutines, at any moment. *)

From S2P Require Export BleScan.

(** ** [Enable] and the scans *)

(** [enableOnce] and [enableErr]; [native]: what the backend answers if it is
    asked now. *)
Definition Enable (once : option err) (native : err) : option err * err :=
  match once with Some e => (once, e) | None => (Some native, native) end.

Section Scans.
Context (address_string : Z -> string) (enable : err) (rs : list ScanResult) (o : scanEnd).

Definition Discover : result (list Device) := (scan address_string true false enable rs o).1.
Definition DiscoverWithCallback : result (list Device) * list Device := scan address_string true true enable rs o.
Definition ScanAll : result (list Device) := (scan address_string false false enable rs o).1.
Definition ScanAllWithCallback : result (list Device) * list Device := scan address_string false true enable rs o.
End Scans.

(** ** The register *)

Record registered := mkRegistered {
  r_id : string;                         (* device.ID *)
  r_onClose : bool;                      (* conn.onClose is set *)
  r_done : bool;
  r_closing : bool                       (* closed, its onClose still to come *)
}.

#[export] Instance eta_registered : Eta registered := fun r => mkRegistered (r_id r) (r_onClose r) (r_done r) (r_closing r).

Record adapter := mkAdapter { transports : list registered; connections : gmap string nat }.

#[export] Instance eta_adapter : Eta adapter := fun a => mkAdapter (transports a) (connections a).

Definition NewAdapter : adapter := mkAdapter [] ∅.

Definition setTransport (a : adapter) (i : nat) (r : registered) : adapter := a <| transports := <[i := r]> (transports a) |>.

(** [conn.close]: the first caller closes [done]. *)
Definition closeTransport (a : adapter) (i : nat) : adapter :=
  match transports a !! i with
  | Some r => if r_done r then a else setTransport a i (r <| r_done := true |> <| r_closing := true |>)
  | None => a
  end.

(** The end of [close]: its [onClose], which removes its own entry. *)
Definition runOnClose (a : adapter) (i : nat) : adapter :=
  match transports a !! i with
  | Some r =>
      if negb (r_closing r) then a
      else
        let a := setTransport a i (r <| r_closing := false |>) in
        if r_onClose r && bool_decide (connections a !! r_id r = Some i)
        then a <| connections := delete (r_id r) (connections a) |> else a
  | None => a
  end.

(** [connectionChanged] *)
Definition connectionChanged (a : adapter) (id : string) (connected : bool) : adapter :=
  if connected then a else match connections a !! id with Some i => closeTransport a i | None => a end.

Inductive adapterTurn :=
  | ARegister (id : string)              (* Connect: connections[device.ID] = conn *)
  | AOnClose (i : nat)                   (* Connect: conn.onClose = ... *)
  | AClose (i : nat)                     (* monitor, Send, Close, a failed start *)
  | ARunOnClose (i : nat)
  | AChanged (id : string) (connected : bool).

Definition adapter_step (a : adapter) (t : adapterTurn) : adapter :=
  match t with
  | ARegister id =>
      a <| transports := transports a ++ [mkRegistered id false false false] |> <| connections := <[id := length (transports a)]> (connections a) |>
  | AOnClose i => match transports a !! i with Some r => setTransport a i (r <| r_onClose := true |>) | None => a end
  | AClose i => closeTransport a i
  | ARunOnClose i => runOnClose a i
  | AChanged id connected => connectionChanged a id connected
  end.

Inductive adapter_reachable : adapter -> Prop :=
  | ArInit : adapter_reachable NewAdapter
  | ArStep a t : adapter_reachable a -> adapter_reachable (adapter_step a t).

(** ** What the register promises *)

(** [i] is the last transport registered for [id]. *)
Definition newest (a : adapter) (id : string) (i : nat) : Prop :=
  (exists r, transports a !! i = Some r /\ r_id r = id) /\
  forall j r, transports a !! j = Some r -> r_id r = id -> (j <= i)%nat.

Definition live (a : adapter) (i : nat) : Prop := exists r, transports a !! i = Some r /\ r_done r = false.

Record adapter_inv (a : adapter) : Prop := {
  ai_sound : forall id i, connections a !! id = Some i -> newest a id i;
  ai_complete : forall id i, newest a id i -> live a i -> connections a !! id = Some i;
  ai_closing : forall i r, transports a !! i = Some r -> r_closing r = true -> r_done r = true
}.

(** Changing a transport but for its identity keeps [newest]. *)
Lemma newest_set a i r r' id j :
  transports a !! i = Some r -> r_id r' = r_id r -> newest (setTransport a i r') id j <-> newest a id j.
Proof.
  intros Hi Hid. destruct a as [ts cs]. unfold newest, setTransport. cbn in *.
  assert (forall k x, <[i:=r']> ts !! k = Some x -> exists y, ts !! k = Some y /\ r_id y = r_id x) as H1.
  { intros k x [(-> & -> & _)|[_ Hk]]%list_lookup_insert_Some; [by exists r|by exists x]. }
  assert (forall k y, ts !! k = Some y -> exists x, <[i:=r']> ts !! k = Some x /\ r_id x = r_id y) as H2.
  { intros k y Hk. destruct (decide (k = i)) as [->|Hne].
    - exists r'. rewrite list_lookup_insert_eq by by eapply lookup_lt_Some. split; [done|]. congruence.
    - exists y. by rewrite list_lookup_insert_ne. }
  split; intros [(x & Hx & Hxid) Hmax].
  - destruct (H1 _ _ Hx) as (y & Hy & Hyid). split; [exists y; split; [done|congruence]|].
    intros k y' Hk Hk'. destruct (H2 _ _ Hk) as (x' & Hx' & ?). eapply Hmax; [done|congruence].
  - destruct (H2 _ _ Hx) as (y & Hy & Hyid). split; [exists y; split; [done|congruence]|].
    intros k y' Hk Hk'. destruct (H1 _ _ Hk) as (x' & Hx' & ?). eapply Hmax; [done|congruence].
Qed.

(** Only the changed transport can come to live or die. *)
Lemma live_set a i r r' j : transports a !! i = Some r -> (r_done r = true -> r_done r' = true) -> live (setTransport a i r') j -> live a j.
Proof.
  intros Hi Hd (x & Hx & Hdone). destruct a as [ts cs]. unfold live. cbn in *.
  apply list_lookup_insert_Some in Hx as [(<- & <- & _)|[_ Hx]]; [|by exists x].
  exists r. split; [done|]. destruct (r_done r); [|done]. by rewrite Hd in Hdone.
Qed.

Lemma set_inv a i r r' :
  adapter_inv a -> transports a !! i = Some r -> r_id r' = r_id r -> (r_done r = true -> r_done r' = true) ->
  (r_closing r' = true -> r_done r' = true) -> adapter_inv (setTransport a i r').
Proof.
  intros [I1 I2 I3] Hi Hid Hd Hc. constructor.
  - intros id j Hj. apply (newest_set a i r r' id j Hi Hid). by apply I1.
  - intros id j Hn Hl. apply I2; [by apply (newest_set a i r r')|by eapply live_set].
  - intros j x Hx. destruct a as [ts cs]. cbn in *.
    apply list_lookup_insert_Some in Hx as [(<- & <- & _)|[_ Hx]]; [done|by eapply I3].
Qed.

Lemma close_transport_inv a i : adapter_inv a -> adapter_inv (closeTransport a i).
Proof.
  intros HI. unfold closeTransport. destruct (transports a !! i) as [r|] eqn:Ei; [|done]. destruct (r_done r) eqn:Ed; [done|].
  apply (set_inv a i r); try done; by destruct r.
Qed.

Lemma adapter_step_inv a t : adapter_inv a -> adapter_inv (adapter_step a t).
Proof.
  intros HI. destruct t as [id|i|i|i|id connected]; cbn [adapter_step].
  - destruct a as [ts cs], HI as [I1 I2 I3]. cbn in *.
    assert (forall id' i, id' <> id -> newest (mkAdapter (ts ++ [mkRegistered id false false false]) (<[id:=length ts]> cs)) id' i <->
      newest (mkAdapter ts cs) id' i) as Hn.
    { intros id' i Hne. unfold newest. cbn. split; intros [(x & Hx & Hid) Hm]; (split; [exists x; split; [|done]|]).
      - apply lookup_app_Some in Hx as [|[_ Hx]]; [done|]. destruct (i - length ts)%nat as [|n]; [|by destruct n]. by injection Hx as <-.
      - intros j r Hj. apply Hm. by apply lookup_app_l_Some.
      - by apply lookup_app_l_Some.
      - intros j r Hj Hr. apply lookup_app_Some in Hj as [|[_ Hj]]; [by eapply Hm|].
        destruct (j - length ts)%nat as [|n]; [injection Hj as <-; by destruct Hne|by destruct n]. }
    constructor; cbn.
    + intros id' i [[<- <-]|[Hne Hi]]%lookup_insert_Some; [|by apply Hn, I1]. unfold newest. cbn. split.
      * eexists. by rewrite list_lookup_middle.
      * intros j r Hj _. apply lookup_lt_Some in Hj. rewrite length_app in Hj. cbn in Hj. lia.
    + intros id' i Hnew (x & Hx & Hd). cbn in Hx. destruct (decide (id' = id)) as [->|Hne].
      * rewrite lookup_insert_eq. f_equal. destruct Hnew as [(y & Hy & _) Hm]. cbn in Hy, Hm.
        pose proof (Hm (length ts) (mkRegistered id false false false) ltac:(by rewrite list_lookup_middle) eq_refl).
        apply lookup_lt_Some in Hy. rewrite length_app in Hy. cbn in Hy. lia.
      * rewrite lookup_insert_ne by done. apply Hn in Hnew; [|done]. apply I2; [done|].
        destruct Hnew as [(y & Hy & _) _]. cbn in Hy. exists x. split; [|done]. cbn.
        rewrite lookup_app_l in Hx by (by eapply lookup_lt_Some). done.
    + intros i r Hr. apply lookup_app_Some in Hr as [Hr|[_ Hr]]; [by eapply I3|].
      destruct (i - length ts)%nat as [|n]; [by injection Hr as <-|by destruct n].
  - destruct (transports a !! i) as [r|] eqn:Ei; [|done]. apply (set_inv a i r); try done; try (by destruct r).
    intros Hc. destruct r. cbn in *. exact (ai_closing a HI i _ Ei Hc).
  - by apply close_transport_inv.
  - unfold runOnClose. destruct (transports a !! i) as [r|] eqn:Ei; [|done]. destruct (r_closing r) eqn:Ec; [|done]. cbn [negb].
    pose proof (ai_closing a HI i r Ei Ec) as Hd. set (r' := r <| r_closing := false |>).
    assert (adapter_inv (setTransport a i r')) as HI'.
    { apply (set_inv a i r); try done; by destruct r. }
    destruct (r_onClose r && _) eqn:Eb; [|done]. apply andb_true_iff in Eb as [_ Eb]. apply bool_decide_eq_true in Eb.
    destruct HI' as [I1 I2 I3]. constructor.
    + intros id j Hj. change (delete (r_id r) (connections a) !! id = Some j) in Hj. apply lookup_delete_Some in Hj as [_ Hj]. by apply I1.
    + intros id j Hn Hl. specialize (I2 id j Hn Hl). change (delete (r_id r) (connections a) !! id = Some j).
      apply lookup_delete_Some. split; [|done]. intros <-. change (connections a !! r_id r = Some i) in Eb.
      change (connections a !! r_id r = Some j) in I2. rewrite Eb in I2. injection I2 as <-.
      destruct Hl as (x & Hx & Hxd). change (<[i := r']> (transports a) !! i = Some x) in Hx.
      rewrite list_lookup_insert_eq in Hx by by eapply lookup_lt_Some. injection Hx as <-. destruct r. cbn in *. congruence.
    + exact I3.
  - unfold connectionChanged. destruct connected; [done|]. destruct (connections a !! id); [by apply close_transport_inv|done].
Qed.

Lemma adapter_reachable_inv a : adapter_reachable a -> adapter_inv a.
Proof. induction 1 as [|a t _ IH]; [constructor; cbn; intros *; try done; by intros [(x & Hx & _) _]|by apply adapter_step_inv]. Qed.

(** A disconnect reported by the backend closes the device's newest transport,
    and no other; an older one that closes late leaves the newest registered. *)
Lemma disconnect_closes_newest a id i :
  adapter_reachable a -> newest a id i ->
  ~ live (connectionChanged a id false) i /\
  (forall j, j <> i -> live a j -> live (connectionChanged a id false) j) /\
  (forall j, j <> i -> live a i -> connections (runOnClose a j) !! id = Some i).
Proof.
  intros Hr Hn. pose proof (adapter_reachable_inv a Hr) as HI. unfold connectionChanged. split_and!.
  - intros Hl. assert (live a i) as Hl'.
    { destruct (connections a !! id) as [k|]; [|done]. unfold closeTransport in Hl.
      destruct (transports a !! k) as [r|] eqn:Ek; [|done]. destruct (r_done r) eqn:Ed; [done|]. eapply live_set; [done| |done]. by destruct r. }
    rewrite (ai_complete a HI id i Hn Hl') in Hl. unfold closeTransport in Hl. destruct Hl' as (r & Hri & Hd). rewrite Hri, Hd in Hl.
    destruct Hl as (x & Hx & Hxd). cbn in Hx. destruct a as [ts cs]. cbn in *.
    rewrite list_lookup_insert_eq in Hx by by eapply lookup_lt_Some. injection Hx as <-. by destruct r.
  - intros j Hne (r & Hj & Hd). destruct (connections a !! id) as [k|] eqn:Ek; [|by exists r].
    assert (k = i) as ->.
    { apply (ai_sound a HI) in Ek. destruct Hn as [(x & Hx & Hxid) Hm], Ek as [(y & Hy & Hyid) Hm'].
      pose proof (Hm k y Hy Hyid). pose proof (Hm' i x Hx Hxid). lia. }
    unfold closeTransport. destruct (transports a !! i) as [r'|] eqn:Ei; [|by exists r]. destruct (r_done r'); [by exists r|].
    exists r. split; [|done]. destruct a as [ts cs]. cbn in *. by rewrite list_lookup_insert_ne.
  - intros j Hne Hl. pose proof (ai_complete a HI id i Hn Hl) as Hc. unfold runOnClose.
    destruct (transports a !! j) as [r|]; [|done]. destruct (r_closing r); [|done]. cbn [negb].
    destruct (r_onClose r && _) eqn:Eb; [|by destruct a]. apply andb_true_iff in Eb as [_ Eb]. apply bool_decide_eq_true in Eb.
    change (connections a !! r_id r = Some j) in Eb. change (delete (r_id r) (connections a) !! id = Some i).
    apply lookup_delete_Some. split; [|done]. intros Heq. rewrite Heq, Hc in Eb. by injection Eb as ->.
Qed.

(** The callback may close a transport between its registration and the
    assignment of its [onClose]: then nothing removes its entry, which stays
    until the device is connected again. *)
Example closed_before_onClose :
  let a := fold_left adapter_step [ARegister "d"; AChanged "d" false; ARunOnClose 0; AOnClose 0; AClose 0; ARunOnClose 0] NewAdapter in
  connections a !! "d" = Some 0%nat /\ transports a = [mkRegistered "d" true true false].
Proof. by vm_compute. Qed.
