(* ===== verification/BleConn.v ===== *)
(** * Packet connections over Bluetooth
    (internal/ble/client_conn.go, internal/ble/send_lock.go, and
    serverPacketConn of internal/ble/server_supported.go)

    Both connections queue received packets in [incoming], move them to
    [receive] in a goroutine, and serialise [Send] with a [packetSendLock].  The
    goroutines that call [Send] are program counters; every channel operation
    and every call of the backend is one step, and they interleave freely with
    arriving packets, [forward], the reader of [Receive] and [close]. *)

From S2P Require Export GoErrors.
From S2P Require Import BleScan.

(** [clientPacketConn] or [serverPacketConn]. *)
Inductive side := ClientConn | ServerConn.

Definition queueCapacity : nat := 128.

(** ** Senders *)

Inductive sendPc :=
  | SCheck                         (* the length and the first select *)
  | SLock                          (* lockPacketSend: waiting for the token *)
  | SRecheck                       (* holds the token: lockPacketSend's second select *)
  | SGiveUp (e : error)            (* lockPacketSend: mu.Unlock() before returning an error *)
  | SServerCheck                   (* serverPacketConn: the select after the lock *)
  | SWrite                         (* the backend's write *)
  | SFallback                      (* WriteWithoutResponse failed: Write *)
  | SClose (e : error)             (* c.close(false) *)
  | SUnlock (e : err)              (* defer c.sendMu.Unlock() *)
  | SReturn (e : err).

Record sender := mkSender { s_packet : bytes; s_pc : sendPc }.

(** [forward]. *)
Inductive forwardPc := FSelect | FHave (p : bytes) | FEnd.

Record packetConn := mkPacketConn {
  kind : side;
  mtu : Z;
  incoming : list bytes;
  receive : list bytes;
  receiveClosed : bool;
  forwarding : forwardPc;
  done_ : bool;                    (* the done channel is closed *)
  tokens : nat;                    (* len(sendMu.token) *)
  withACK : bool;
  senders : list sender;
  pushed : list bytes;             (* every packet that arrived *)
  taken : list bytes;              (* every packet the reader took *)
  written : list (bytes * bool);   (* every packet written, and whether with response *)
  disconnects : nat;
  onCloses : nat
}.

#[export] Instance eta_packetConn : Eta packetConn := fun c =>
  mkPacketConn (kind c) (mtu c) (incoming c) (receive c) (receiveClosed c) (forwarding c) (done_ c) (tokens c)
    (withACK c) (senders c) (pushed c) (taken c) (written c) (disconnects c) (onCloses c).
#[export] Instance eta_sender : Eta sender := fun s => mkSender (s_packet s) (s_pc s).

Definition newPacketConn (k : side) (m : Z) : packetConn :=
  mkPacketConn k m [] [] false FSelect false 1 false [] [] [] [] 0 0.

(** [newClientPacketConn]: the smaller packet size of the two characteristics. *)
Definition newClientPacketConn (rx tx : result Z) : packetConn :=
  newPacketConn ClientConn (Z.min (packetMTU rx) (packetMTU tx)).

Definition newServerPacketConn : packetConn := newPacketConn ServerConn maxPacketMTU.

(** ** Receiving *)

(** The notification callback, or [push]: the packet is dropped when the queue
    is full, or may be when the connection is closed. *)
Definition push (c : packetConn) (p : bytes) (sawDone : bool) : packetConn :=
  let c := c <| pushed := pushed c ++ [p] |> in
  if sawDone && done_ c then c
  else if (length (incoming c) <? queueCapacity)%nat then c <| incoming := incoming c ++ [p] |> else c.

(** [forward]: [sawDone] is which ready case a select takes. *)
Definition forward_step (c : packetConn) (sawDone : bool) : option packetConn :=
  match forwarding c with
  | FSelect =>
      if sawDone && done_ c then Some (c <| forwarding := FEnd |> <| receiveClosed := true |>)
      else match incoming c with
           | p :: rest => Some (c <| incoming := rest |> <| forwarding := FHave p |>)
           | [] => None
           end
  | FHave p =>
      if sawDone && done_ c then Some (c <| forwarding := FEnd |> <| receiveClosed := true |>)
      else if (length (receive c) <? queueCapacity)%nat
           then Some (c <| receive := receive c ++ [p] |> <| forwarding := FSelect |>) else None
  | FEnd => None
  end.

(** The reader of [Receive]. *)
Definition take_step (c : packetConn) : option packetConn :=
  match receive c with
  | p :: rest => Some (c <| receive := rest |> <| taken := taken c ++ [p] |>)
  | [] => None
  end.

(** ** Closing: [once.Do] *)

Definition close (c : packetConn) (disconnect : bool) : packetConn :=
  if done_ c then c
  else c <| done_ := true |> <| onCloses := S (onCloses c) |>
         <| disconnects := (if disconnect then S (disconnects c) else disconnects c) |>.

(** [Close]: the client disconnects. *)
Definition Close (c : packetConn) : packetConn :=
  close c (match kind c with ClientConn => true | ServerConn => false end).

(** [monitor], at a tick. *)
Definition monitor_tick (c : packetConn) (connected : result bool) : packetConn :=
  if done_ c then c
  else match connected with inr true => c | _ => close c false end.

(** ** Sending *)

(** What ends a select of a sender, or what the backend answers. *)
Inductive sendEvent :=
  | SvGo                            (* the case that lets it go on *)
  | SvCancelled (e : error)         (* ctx.Done() *)
  | SvClosed                        (* done *)
  | SvWrote (e : err).              (* the backend returned *)

Definition errPacketSendClosed : error := ErrNew "BLE packet connection closed while waiting to send".

Definition tooLong (k : side) : error :=
  match k with
  | ClientConn => ErrNew "BLE packet exceeds negotiated MTU"
  | ServerConn => ErrNew "BLE packet exceeds maximum MTU"
  end.

(** A select over [ctx.Done()] and [done] with a default case. *)
Definition pollDone (c : packetConn) (ev : sendEvent) (closedErr : error) (onErr : error -> sendPc) (ok : sendPc) : option sendPc :=
  match ev with
  | SvCancelled e => Some (onErr e)
  | SvClosed => if done_ c then Some (onErr closedErr) else None
  | SvGo => if done_ c then None else Some ok
  | SvWrote _ => None
  end.

Definition send_step (c : packetConn) (p : bytes) (pc : sendPc) (ev : sendEvent) : option (packetConn * sendPc) :=
  match pc with
  | SCheck =>
      if mtu c <? zlen p then Some (c, SReturn (Some (tooLong (kind c))))
      else pc ← pollDone c ev (Sent ErrClosedPipe) (fun e => SReturn (Some e)) SLock; Some (c, pc)
  | SLock =>
      match ev with
      | SvCancelled e => Some (c, SReturn (Some e))
      | SvClosed => if done_ c then Some (c, SReturn (Some errPacketSendClosed)) else None
      | SvGo => match tokens c with S n => Some (c <| tokens := n |>, SRecheck) | O => None end
      | SvWrote _ => None
      end
  | SRecheck =>
      pc ← pollDone c ev errPacketSendClosed SGiveUp (match kind c with ClientConn => SWrite | ServerConn => SServerCheck end);
      Some (c, pc)
  | SGiveUp e => match ev with SvGo => Some (c <| tokens := S (tokens c) |>, SReturn (Some e)) | _ => None end
  | SServerCheck => pc ← pollDone c ev (Sent ErrClosedPipe) (fun e => SUnlock (Some e)) SWrite; Some (c, pc)
  | SWrite =>
      match ev with
      | SvWrote None => Some (c <| written := written c ++ [(p, match kind c with ClientConn => withACK c | ServerConn => false end)] |>, SUnlock None)
      | SvWrote (Some e) =>
          match kind c with
          | ServerConn => Some (c, SUnlock (Some e))
          | ClientConn => Some (c, if withACK c then SClose e else SFallback)
          end
      | _ => None
      end
  | SFallback =>
      match ev with
      | SvWrote None => Some (c <| written := written c ++ [(p, true)] |> <| withACK := true |>, SUnlock None)
      | SvWrote (Some e) => Some (c, SClose e)
      | _ => None
      end
  | SClose e => match ev with SvGo => Some (close c false, SUnlock (Some e)) | _ => None end
  | SUnlock e => match ev with SvGo => Some (c <| tokens := S (tokens c) |>, SReturn e) | _ => None end
  | SReturn _ => None
  end.

Definition sender_step (c : packetConn) (k : nat) (ev : sendEvent) : option packetConn :=
  s ← senders c !! k;
  '(c, pc) ← send_step c (s_packet s) (s_pc s) ev;
  Some (c <| senders := <[k := s <| s_pc := pc |>]> (senders c) |>).

Inductive conn_step : packetConn -> packetConn -> Prop :=
  | CnPush c p d : conn_step c (push c p d)
  | CnForward c d c' : forward_step c d = Some c' -> conn_step c c'
  | CnTake c c' : take_step c = Some c' -> conn_step c c'
  | CnClose c : conn_step c (Close c)
  | CnCloseRemote c : conn_step c (close c false)           (* connectionChanged, closeCurrent *)
  | CnMonitor c r : conn_step c (monitor_tick c r)
  | CnSend c p : conn_step c (c <| senders := senders c ++ [mkSender p SCheck] |>)
  | CnSender c k ev c' : sender_step c k ev = Some c' -> conn_step c c'.

Inductive conn_reachable (c0 : packetConn) : packetConn -> Prop :=
  | CnInit : conn_reachable c0 c0
  | CnStep c c' : conn_reachable c0 c -> conn_step c c' -> conn_reachable c0 c'.

(** * Lemmas *)

#[local] Arguments queueCapacity : simpl never.
#[local] Arguments Nat.ltb : simpl never.

Definition held (c : packetConn) : list bytes := match forwarding c with FHave p => [p] | _ => [] end.

(** Everything accepted, in order: taken, readable, moving, queued. *)
Definition accepted (c : packetConn) : list bytes := taken c ++ receive c ++ held c ++ incoming c.

(** The sender holds the token. *)
Definition holding (s : sender) : bool :=
  match s_pc s with SRecheck | SGiveUp _ | SServerCheck | SWrite | SFallback | SClose _ | SUnlock _ => true | _ => false end.

(** The sender may hand its packet to the backend. *)
Definition sendable (pc : sendPc) : bool := match pc with SCheck | SReturn _ => false | _ => true end.

Record conn_inv (c : packetConn) : Prop := {
  cn_order : accepted c `sublist_of` pushed c;
  cn_incoming : (length (incoming c) <= queueCapacity)%nat;
  cn_receive : (length (receive c) <= queueCapacity)%nat;
  cn_end : receiveClosed c = true <-> forwarding c = FEnd;
  cn_done : forwarding c = FEnd -> done_ c = true;
  cn_tokens : (tokens c + countb holding (senders c) = 1)%nat;
  cn_size : forall k s, senders c !! k = Some s -> sendable (s_pc s) = true -> zlen (s_packet s) <= mtu c;
  cn_written : forall p a, (p, a) ∈ written c -> zlen p <= mtu c;
  cn_modes : exists l1 l2, written c = l1 ++ l2 /\ (forall x, x ∈ l1 -> x.2 = false) /\
    (forall x, x ∈ l2 -> x.2 = true) /\ (withACK c = false -> l2 = []) ;
  cn_fallback : forall k s, senders c !! k = Some s -> s_pc s = SFallback -> kind c = ClientConn /\ withACK c = false;
  cn_server : kind c = ServerConn -> withACK c = false;
  cn_once : onCloses c = (if done_ c then 1 else 0)%nat;
  cn_disconnects : (disconnects c <= onCloses c)%nat
}.

Ltac fields c := destruct c as [k0 m0 i0 r0 rc0 f0 d0 t0 a0 ss0 pu0 ta0 w0 di0 oc0].

Lemma close_fields c d :
  let c' := close c d in
  kind c' = kind c /\ mtu c' = mtu c /\ incoming c' = incoming c /\ receive c' = receive c /\
  receiveClosed c' = receiveClosed c /\ forwarding c' = forwarding c /\ tokens c' = tokens c /\ withACK c' = withACK c /\
  senders c' = senders c /\ pushed c' = pushed c /\ taken c' = taken c /\ written c' = written c /\ done_ c' = true.
Proof. unfold close. destruct c as [k m i r rc f d0 t a ss pu ta w di oc]. cbn. by destruct d0. Qed.

Lemma close_inv c d : conn_inv c -> conn_inv (close c d).
Proof.
  intros [J1 J2 J3 J4 J5 J6 J7 J8 J9 J10 J11 J12 J13].
  destruct (close_fields c d) as (E1 & E2 & E3 & E4 & E5 & E6 & E7 & E8 & E9 & E10 & E11 & E12 & E13).
  assert (onCloses (close c d) = 1%nat /\ (disconnects (close c d) <= 1)%nat) as [Ho Hd].
  { clear -J12 J13. fields c. unfold close. cbn in *. destruct d0; cbn; [lia|]. destruct d; lia. }
  split; rewrite ?E1, ?E2, ?E3, ?E4, ?E5, ?E6, ?E7, ?E8, ?E9, ?E10, ?E11, ?E12, ?E13; try done.
  - unfold accepted, held. by rewrite E3, E4, E6, E11.
  - by rewrite Ho.
Qed.

Lemma push_inv c p d : conn_inv c -> conn_inv (push c p d).
Proof.
  fields c. unfold push. cbn. intros [J1 J2 J3 J4 J5 J6 J7 J8 J9 J10 J11 J12 J13].
  destruct (d && d0); [|destruct (Nat.ltb_spec (length i0) queueCapacity)]; split; cbn in *; try done.
  - by apply sublist_inserts_r.
  - unfold accepted, held in *. cbn in *. rewrite !app_assoc. apply sublist_app; [by rewrite <- !app_assoc|done].
  - rewrite length_app. cbn. lia.
  - by apply sublist_inserts_r.
Qed.

Lemma forward_inv c d c' : conn_inv c -> forward_step c d = Some c' -> conn_inv c'.
Proof.
  fields c. unfold forward_step. cbn. intros [J1 J2 J3 J4 J5 J6 J7 J8 J9 J10 J11 J12 J13].
  unfold accepted, held in J1. cbn in *. destruct f0 as [|p|]; [| |done]; destruct (d && d0) eqn:Hd.
  - intros [= <-]. apply andb_true_iff in Hd as [_ ->]. by split.
  - destruct i0 as [|p i0]; [done|]. intros [= <-]. split; cbn in *; try done; [lia|].
    split; [intros H; by apply J4 in H|done].
  - intros [= <-]. apply andb_true_iff in Hd as [_ ->]. split; cbn; try done. etrans; [|exact J1].
    unfold accepted, held. cbn. do 2 (apply sublist_app; [done|]). by apply sublist_cons.
  - destruct (Nat.ltb_spec (length r0) queueCapacity); [|done]. intros [= <-]. split; cbn in *; try done.
    + unfold accepted, held. cbn. by rewrite <- app_assoc.
    + rewrite length_app. cbn. lia.
    + split; [intros H0; by apply J4 in H0|done].
Qed.

Lemma take_inv c c' : conn_inv c -> take_step c = Some c' -> conn_inv c'.
Proof.
  fields c. unfold take_step. cbn. intros [J1 J2 J3 J4 J5 J6 J7 J8 J9 J10 J11 J12 J13].
  destruct r0 as [|p r0]; [done|]. intros [= <-]. split; cbn in *; try done; [|lia].
  unfold accepted, held in *. cbn in *. by rewrite <- app_assoc.
Qed.

(** What a sender's step may change. *)
Lemma send_step_spec c p pc ev c' pc' :
  send_step c p pc ev = Some (c', pc') ->
  kind c' = kind c /\ mtu c' = mtu c /\ incoming c' = incoming c /\ receive c' = receive c /\
  receiveClosed c' = receiveClosed c /\ forwarding c' = forwarding c /\ senders c' = senders c /\
  pushed c' = pushed c /\ taken c' = taken c /\ (done_ c = true -> done_ c' = true) /\
  (tokens c' + Nat.b2n (holding (mkSender p pc')) = tokens c + Nat.b2n (holding (mkSender p pc)))%nat /\
  (sendable pc' = true -> sendable pc = true \/ zlen p <= mtu c) /\
  (pc' = SFallback -> kind c = ClientConn /\ withACK c = false) /\
  ((withACK c' = withACK c /\ written c' = written c) \/
   (withACK c' = withACK c /\ pc = SWrite /\ exists a, written c' = written c ++ [(p, a)] /\ (kind c = ClientConn -> a = withACK c) /\ (kind c = ServerConn -> a = false)) \/
   (pc = SFallback /\ pc' <> SFallback /\ withACK c' = true /\ written c' = written c ++ [(p, true)])) /\
  (onCloses c = (if done_ c then 1 else 0)%nat -> onCloses c' = (if done_ c' then 1 else 0)%nat) /\
  (disconnects c' = disconnects c /\ (onCloses c <= onCloses c')%nat).
Proof.
  fields c. unfold send_step, pollDone, close, holding. cbn. intros Hs.
  destruct pc as [| | |e| | | |e|e|e]; cbn in Hs; try done.
  - destruct (Z.ltb_spec m0 (zlen p)).
    { injection Hs as <- <-. cbn. split_and!; try done. by left. }
    destruct ev; cbn in Hs; try (destruct d0; cbn in Hs); try done; injection Hs as <- <-; cbn; split_and!; try done; auto.
  - destruct ev; try (destruct d0; try done); try (destruct t0; try done); injection Hs as <- <-; cbn; split_and!; try done; try lia; auto.
  - destruct ev; cbn in Hs; try (destruct d0; cbn in Hs; try done); try done; destruct k0; cbn in Hs; injection Hs as <- <-; cbn; split_and!; try done; auto.
  - destruct ev; try done; injection Hs as <- <-; cbn; split_and!; try done; try lia; auto.
  - destruct ev; cbn in Hs; try (destruct d0; cbn in Hs); try done; injection Hs as <- <-; cbn; split_and!; try done; auto.
  - destruct ev as [| | |[e|]]; try done; destruct k0; try destruct a0; injection Hs as <- <-; cbn; split_and!; try done; auto;
      right; left; (split_and!; [done|done|]); eexists; split_and!; try done.
  - destruct ev as [| | |[e|]]; try done; injection Hs as <- <-; cbn; split_and!; try done; auto.
    right; right. by split_and!.
  - destruct ev; try done; injection Hs as <- <-; destruct d0; cbn; split_and!; try done; auto; lia.
  - destruct ev; try done; injection Hs as <- <-; cbn; split_and!; try done; try lia; auto.
Qed.

Lemma holding_unique c j k s t :
  conn_inv c -> senders c !! j = Some s -> senders c !! k = Some t -> holding s = true -> holding t = true -> j = k.
Proof. intros HI. apply countb_unique. pose proof (cn_tokens _ HI). lia. Qed.

Lemma sender_step_inv c k ev c' : conn_inv c -> sender_step c k ev = Some c' -> conn_inv c'.
Proof.
  intros HI. unfold sender_step. destruct (senders c !! k) as [[p pc]|] eqn:Hk; [|done]. cbn.
  destruct (send_step c p pc ev) as [[c1 pc']|] eqn:Hs; [|done]. cbn. intros [= <-].
  apply send_step_spec in Hs as (E1 & E2 & E3 & E4 & E5 & E6 & E7 & E8 & E9 & E10 & E11 & E12 & E13 & E14 & E15 & E16 & E17).
  pose proof (countb_insert holding (senders c) k (mkSender p pc) (mkSender p pc') Hk) as Hcount.
  assert (forall j s, senders c !! j = Some s -> s_pc s = SFallback -> pc = SFallback \/ holding (mkSender p pc) = true -> j = k) as Huniq.
  { intros j s Hj Hf Hp. eapply (holding_unique c); [done|exact Hj|exact Hk|by unfold holding; rewrite Hf|].
    destruct Hp as [->|Hp]; [done|exact Hp]. }
  destruct HI as [J1 J2 J3 J4 J5 J6 J7 J8 J9 J10 J11 J12 J13].
  split; cbn [kind mtu incoming receive receiveClosed forwarding done_ tokens withACK senders pushed taken written disconnects onCloses];
    rewrite ?E1, ?E2, ?E3, ?E4, ?E5, ?E6, ?E7, ?E8, ?E9, ?E16; try done.
  - auto.
  - lia.
  - intros j s [(-> & <- & _)|[_ Hj]]%list_lookup_insert_Some Hsend; [|by eapply J7].
    cbn in *. destruct (E12 Hsend) as [Hp|]; [by apply (J7 _ _ Hk)|done].
  - assert (sendable pc = true -> zlen p <= mtu c) as Hsz by (intros Hp; by apply (J7 _ _ Hk)).
    intros q a. destruct E14 as [[_ ->]|[(_ & -> & b & -> & _)|(-> & _ & _ & ->)]]; [by apply J8| |];
      intros [Hq|Hq]%elem_of_app; try (by eapply J8); apply list_elem_of_singleton in Hq; injection Hq as -> _; by apply Hsz.
  - destruct J9 as (l1 & l2 & Hw & H1 & H2 & H3).
    destruct E14 as [[-> ->]|[(Ha & -> & b & -> & Hb & Hb')|(-> & _ & -> & ->)]].
    + by exists l1, l2.
    + rewrite Ha. destruct b eqn:Eb.
      * exists l1, (l2 ++ [(p, true)]). rewrite Hw, app_assoc. split_and!; try done.
        -- intros x [Hx|Hx]%elem_of_app; [by apply H2|]. by apply list_elem_of_singleton in Hx as ->.
        -- intros Hf. destruct (kind c); [specialize (Hb eq_refl)|specialize (Hb' eq_refl)]; congruence.
      * destruct (kind c) eqn:Hkind.
        -- specialize (Hb eq_refl). rewrite (H3 (eq_sym Hb)), app_nil_r in Hw. exists (l1 ++ [(p, false)]), [].
           rewrite Hw, app_nil_r. split_and!; try done; [|intros x Hx; by apply elem_of_nil in Hx].
           intros x [Hx|Hx]%elem_of_app; [by apply H1|]. by apply list_elem_of_singleton in Hx as ->.
        -- rewrite (H3 (J11 eq_refl)), app_nil_r in Hw. exists (l1 ++ [(p, false)]), [].
           rewrite Hw, app_nil_r. split_and!; try done; [|intros x Hx; by apply elem_of_nil in Hx].
           intros x [Hx|Hx]%elem_of_app; [by apply H1|]. by apply list_elem_of_singleton in Hx as ->.
    + exists l1, (l2 ++ [(p, true)]). rewrite Hw, app_assoc. split_and!; try done.
      intros x [Hx|Hx]%elem_of_app; [by apply H2|]. by apply list_elem_of_singleton in Hx as ->.
  - intros j s [(-> & <- & _)|[Hne Hj]]%list_lookup_insert_Some Hf.
    + cbn in Hf. destruct (E13 Hf) as [Hcl Hw]. split; [done|]. destruct E14 as [[-> _]|[(-> & _)|(_ & Hne & _)]]; done.
    + specialize (J10 _ _ Hj Hf). destruct E14 as [[-> _]|[(-> & _)|(-> & _)]]; try done.
      exfalso. apply Hne. symmetry. eapply Huniq; [exact Hj|done|by left].
  - intros Hsrv. specialize (J11 Hsrv). destruct E14 as [[-> _]|[(-> & _)|(-> & _)]]; try done.
    destruct (J10 _ _ Hk eq_refl) as [Hcl _]. congruence.
  - by apply E15.
  - lia.
Qed.

Lemma conn_inv_new k m : conn_inv (newPacketConn k m).
Proof.
  split; try done; cbn; try lia; try (by intros; cbn in *; lia).
  - intros p a Hp. by apply elem_of_nil in Hp.
  - exists [], []. split_and!; try done; intros x Hx; by apply elem_of_nil in Hx.
Qed.

Lemma conn_step_inv c c' : conn_inv c -> conn_step c c' -> conn_inv c'.
Proof.
  intros HI Hs. destruct Hs as [c p d|c d c' Hs|c c' Hs|c|c|c r|c p|c k ev c' Hs].
  - by apply push_inv.
  - by eapply forward_inv.
  - by eapply take_inv.
  - by apply close_inv.
  - by apply close_inv.
  - unfold monitor_tick. destruct (done_ c); [done|]. destruct r as [|[]]; try done; by apply close_inv.
  - fields c. destruct HI as [J1 J2 J3 J4 J5 J6 J7 J8 J9 J10 J11 J12 J13]. split; cbn -[countb] in *; try done.
    + rewrite countb_app, countb_one. cbn -[countb]. lia.
    + intros k s [Hj|[_ Hj]]%lookup_app_Some; [by apply J7 with k|]. by apply list_lookup_singleton_Some in Hj as [_ <-].
    + intros k s [Hj|[_ Hj]]%lookup_app_Some; [by apply J10 with k|]. by apply list_lookup_singleton_Some in Hj as [_ <-].
  - by eapply sender_step_inv.
Qed.

Lemma conn_reachable_inv k m c : conn_reachable (newPacketConn k m) c -> conn_inv c.
Proof. induction 1 as [|c c' _ IH Hs]; [apply conn_inv_new|]. by eapply conn_step_inv. Qed.

Lemma sublist_accepted_taken c : taken c `sublist_of` accepted c.
Proof. unfold accepted. by apply sublist_inserts_r. Qed.

(** The backend is busy with this sender's packet. *)
Definition in_backend (s : sender) : bool := match s_pc s with SWrite | SFallback => true | _ => false end.

(** * Properties *)

(** C19. A packet connection never reorders, duplicates or invents packets: in
    every interleaving what the reader took, and what is queued behind it, is a
    subsequence of what arrived, both queues hold at most 128 packets, and a
    packet that arrives on an open connection is dropped only when 128 packets
    are queued; the connection is closed once, and disconnects at most once. *)
Theorem conn_delivers_in_order k m c :
  conn_reachable (newPacketConn k m) c ->
  accepted c `sublist_of` pushed c /\ taken c `sublist_of` pushed c /\
  (length (incoming c) <= 128)%nat /\ (length (receive c) <= 128)%nat /\
  (forall p sawDone, done_ c = false -> (length (incoming c) < 128)%nat -> accepted (push c p sawDone) = accepted c ++ [p]) /\
  (receiveClosed c = true -> done_ c = true) /\ (onCloses c <= 1)%nat /\ (disconnects c <= 1)%nat.
Proof.
  intros [J1 J2 J3 J4 J5 J6 J7 J8 J9 J10 J11 J12 J13]%conn_reachable_inv. split_and!; try done.
  - etrans; [apply sublist_accepted_taken|done].
  - intros p d Hd Hlen. unfold push. cbn. rewrite Hd, andb_false_r. rewrite (proj2 (Nat.ltb_lt _ _)) by done.
    unfold accepted, held. cbn. by rewrite <- !app_assoc.
  - intros Hr. by apply J5, J4.
  - rewrite J12. destruct (done_ c); lia.
  - rewrite J12 in J13. destruct (done_ c); lia.
Qed.

(** C20. Sends are serialised: at most one goroutine is inside the backend's
    write, a holder always finds the token channel empty when it unlocks, no
    token is lost when every send has returned, no packet above the connection's
    size is ever written, and once a client fell back to writes with response
    every later packet is written that way. *)
Theorem sends_serialised k m c :
  conn_reachable (newPacketConn k m) c ->
  (forall i j s t, senders c !! i = Some s -> senders c !! j = Some t -> in_backend s = true -> in_backend t = true -> i = j) /\
  (forall i s, senders c !! i = Some s -> holding s = true -> tokens c = 0%nat) /\
  ((forall i s, senders c !! i = Some s -> exists e, s_pc s = SReturn e) -> tokens c = 1%nat) /\
  (forall p a, (p, a) ∈ written c -> zlen p <= mtu c) /\
  (exists l1 l2, written c = l1 ++ l2 /\ (forall x, x ∈ l1 -> x.2 = false) /\ (forall x, x ∈ l2 -> x.2 = true)).
Proof.
  intros HI%conn_reachable_inv. pose proof HI as [J1 J2 J3 J4 J5 J6 J7 J8 J9 J10 J11 J12 J13]. split_and!.
  - intros i j s t Hi Hj Hs Ht. apply (holding_unique c i j s t HI Hi Hj).
    + unfold in_backend, holding in *. by destruct (s_pc s).
    + unfold in_backend, holding in *. by destruct (s_pc t).
  - intros i s Hi Hh. pose proof (countb_pos holding _ _ _ Hi Hh). lia.
  - intros Hall. assert (countb holding (senders c) = 0%nat) as Hz; [|lia].
    assert (forall l : list sender, (forall i s, l !! i = Some s -> exists e, s_pc s = SReturn e) -> countb holding l = 0%nat) as Hl.
    { clear. induction l as [|s l IH]; intros H; [done|]. unfold countb in *. cbn.
      destruct (H 0%nat s eq_refl) as [e He]. unfold holding at 1. rewrite He. apply IH. intros i t Ht. by apply (H (S i)). }
    by apply Hl.
  - done.
  - destruct J9 as (l1 & l2 & Hw & H1 & H2 & _). by exists l1, l2.
Qed.

(** ** Witnesses *)

Definition stepped (o : packetConn -> option packetConn) (c : packetConn) : packetConn := default c (o c).

Lemma stepped_reachable c0 o c :
  (forall c c', o c = Some c' -> conn_step c c') -> conn_reachable c0 c -> conn_reachable c0 (stepped o c).
Proof.
  intros Ho Hc. unfold stepped. destruct (o c) as [c'|] eqn:E; [|done]. eapply CnStep; [exact Hc|]. by apply Ho.
Qed.

Definition demoConn : packetConn :=
  stepped take_step (stepped (fun c => forward_step c false) (stepped (fun c => forward_step c false)
    (push (newPacketConn ClientConn 20) [Byte.x01] false))).

Definition sending (p : bytes) (c : packetConn) : packetConn := c <| senders := senders c ++ [mkSender p SCheck] |>.
Definition sends (k : nat) (ev : sendEvent) : packetConn -> packetConn := stepped (fun c => sender_step c k ev).

Definition demoSends : packetConn :=
  sends 0 (SvWrote (Some (ErrNew "refused"))) (sends 0 SvGo (sends 0 SvGo (sends 1 SvGo (sends 0 SvGo
    (sending [Byte.x03] (sending [Byte.x02] demoConn)))))).

Lemma demoConn_reachable : conn_reachable (newPacketConn ClientConn 20) demoConn.
Proof.
  apply stepped_reachable; [by constructor|].
  do 2 (apply stepped_reachable; [intros c c' Hc; by apply CnForward with false|]).
  eapply CnStep; [apply CnInit|constructor].
Qed.

Lemma demoSends_reachable : conn_reachable (newPacketConn ClientConn 20) demoSends.
Proof.
  unfold demoSends, sends. do 5 (apply stepped_reachable; [intros c c' Hc; eapply CnSender, Hc|]).
  eapply CnStep; [eapply CnStep; [apply demoConn_reachable|apply (CnSend _ [Byte.x02])]|apply (CnSend _ [Byte.x03])].
Qed.

Lemma conn_delivers_in_order_witness : taken demoConn = [[Byte.x01]] /\ taken demoConn `sublist_of` pushed demoConn.
Proof. split; [reflexivity|]. apply (conn_delivers_in_order ClientConn 20 demoConn demoConn_reachable). Defined.

Lemma sends_serialised_witness : senders demoSends !! 0%nat = Some (mkSender [Byte.x02] SFallback) /\ tokens demoSends = 0%nat.
Proof.
  split; [reflexivity|].
  apply (proj1 (proj2 (sends_serialised ClientConn 20 demoSends demoSends_reachable)) 0%nat (mkSender [Byte.x02] SFallback)); reflexivity.
Defined.
