(* ===== verification/BlePeripheral.v ===== *)
(** * The GATT server's connections
    (internal/ble/server_supported.go)

    [peripheralServer] makes a packet connection out of the writes of a central:
    [ensureConnection] creates one and offers it to [Accept], [closeCurrent]
    drops it when the central disconnects.  The goroutines of the Bluetooth
    backend, of the accept loop and of [Close] are program counters; every
    critical section of [s.mu], every channel operation and both halves of
    [conn.close] are steps.  [scheduleAdvertisementRestart] is a second, smaller
    machine at the end. *)

From S2P Require Export GoErrors.

(** [conn.once], around [close(c.done)] and [onClose]. *)
Inductive onceState := COpen | CClosing | CClosed.

#[export] Instance onceState_eq_dec : EqDecision onceState.
Proof. solve_decision. Defined.

Inductive serverPc :=
  | PEnsure                        (* ensureConnection: the critical section *)
  | POffer (i : nat)               (* its select *)
  | PClose (i : nat) (ret : bool)  (* conn.close(); then back in ensureConnection? *)
  | POnClose (i : nat) (ret : bool)  (* close(c.done) done, before onClose *)
  | PPush (i : nat)                (* ensureConnection returned conn i *)
  | PCloseCurrent                  (* closeCurrent: the critical section *)
  | PShutdown                      (* Close: once.Do *)
  | PEnd.

Record peripheral := mkPeripheral {
  conns : list onceState;          (* every serverPacketConn *)
  current : option nat;
  connections : list nat;          (* the channel, capacity 1 *)
  accepted : list nat;             (* what Accept returned *)
  closed : bool;                   (* the done channel is closed *)
  threads : list serverPc
}.

#[export] Instance eta_peripheral : Eta peripheral := fun s =>
  mkPeripheral (conns s) (current s) (connections s) (accepted s) (closed s) (threads s).

Definition newPeripheral : peripheral := mkPeripheral [] None [] [] false [].

Definition isClosed (s : peripheral) (i : nat) : bool := negb (bool_decide (conns s !! i = Some COpen)).

(** [ensureConnection], the critical section: the current connection, or a new
    one. *)
Definition ensureLocked (s : peripheral) : peripheral * serverPc :=
  match current s with
  | Some i =>
      if negb (isClosed s i) then (s, PPush i)
      else (s <| conns := conns s ++ [COpen] |> <| current := Some (length (conns s)) |>, POffer (length (conns s)))
  | None => (s <| conns := conns s ++ [COpen] |> <| current := Some (length (conns s)) |>, POffer (length (conns s)))
  end.

(** The steps of a goroutine; [sawDone]: its select takes the closed channel. *)
Definition thread_step (s : peripheral) (pc : serverPc) (sawDone : bool) : option (peripheral * serverPc) :=
  match pc with
  | PEnsure => Some (ensureLocked s)
  | POffer i =>
      if sawDone && closed s then Some (s, PClose i true)
      else if bool_decide (connections s = []) then Some (s <| connections := [i] |>, PPush i)
      else Some (s, PClose i true)
  | PClose i ret =>
      match conns s !! i with
      | Some COpen => Some (s <| conns := <[i := CClosing]> (conns s) |>, POnClose i ret)
      | Some CClosing => None                     (* once.Do waits for the first caller *)
      | _ => Some (s, if ret : bool then PPush i else PEnd)
      end
  | POnClose i ret =>
      let s := s <| conns := <[i := CClosed]> (conns s) |> in
      Some (if bool_decide (current s = Some i) then s <| current := None |> else s,
            if ret : bool then PPush i else PEnd)
  | PPush i => Some (s, PEnd)
  | PCloseCurrent =>
      Some (s <| current := None |>, match current s with Some i => PClose i false | None => PEnd end)
  | PShutdown => Some (if closed s then (s, PEnd) else (s <| closed := true |>, PCloseCurrent))
  | PEnd => None
  end.

Definition run_thread (s : peripheral) (k : nat) (sawDone : bool) : option peripheral :=
  pc ← threads s !! k;
  '(s, pc) ← thread_step s pc sawDone;
  Some (s <| threads := <[k := pc]> (threads s) |>).

(** [Accept]'s third case. *)
Definition Accept (s : peripheral) : option (nat * peripheral) :=
  match connections s with
  | i :: rest => Some (i, s <| connections := rest |> <| accepted := accepted s ++ [i] |>)
  | [] => None
  end.

Definition spawn (s : peripheral) (pc : serverPc) : peripheral := s <| threads := threads s ++ [pc] |>.

Inductive server_step : peripheral -> peripheral -> Prop :=
  | PsThread s k d s' : run_thread s k d = Some s' -> server_step s s'
  | PsAccept s i s' : Accept s = Some (i, s') -> server_step s s'
  | PsWrite s : server_step s (spawn s PEnsure)              (* a write of the central *)
  | PsDisconnect s : server_step s (spawn s PCloseCurrent)   (* the central disconnected *)
  | PsShutdown s : server_step s (spawn s PShutdown)
  | PsConnClose s i : i ∈ accepted s -> server_step s (spawn s (PClose i false)).  (* packetConn.Close *)

Inductive peripheral_reachable : peripheral -> Prop :=
  | PrInit : peripheral_reachable newPeripheral
  | PrStep s s' : peripheral_reachable s -> server_step s s' -> peripheral_reachable s'.

(** What [Close] returns, from the outcomes of [advertisement.Stop], if one was
    started, and of [RemoveService]. *)
Definition closeResult (advertisement : option err) (remove : err) : err :=
  match advertisement with Some (Some e) => Some e | _ => remove end.

(** * The invariant *)

#[local] Arguments countb : simpl never.
#[local] Arguments Nat.b2n : simpl nomatch.

Definition offers (i : nat) (pc : serverPc) : bool := match pc with POffer j => bool_decide (i = j) | _ => false end.
Definition closes (i : nat) (pc : serverPc) : bool := match pc with PClose j _ => bool_decide (i = j) | _ => false end.
Definition finishes (i : nat) (pc : serverPc) : bool := match pc with POnClose j _ => bool_decide (i = j) | _ => false end.
Definition mentions (i : nat) (pc : serverPc) : bool :=
  match pc with POffer j | PPush j | PClose j _ | POnClose j _ => bool_decide (i = j) | _ => false end.

Definition handed (s : peripheral) : list nat := accepted s ++ connections s.

Record server_inv (s : peripheral) : Prop := {
  ps_current : forall i, current s = Some i -> exists o, conns s !! i = Some o /\ o <> CClosed;
  ps_open : forall i, conns s !! i = Some COpen -> current s = Some i \/ (0 < countb (closes i) (threads s))%nat;
  ps_offered : forall i, conns s !! i = Some COpen ->
    i ∈ handed s \/ (0 < countb (offers i) (threads s))%nat \/ (0 < countb (closes i) (threads s))%nat;
  ps_once : forall i, (countb (offers i) (threads s) + countb (fun j => bool_decide (i = j)) (handed s) <= 1)%nat;
  ps_capacity : (length (connections s) <= 1)%nat;
  ps_finishes : forall i, countb (finishes i) (threads s) = match conns s !! i with Some CClosing => 1%nat | _ => 0%nat end;
  ps_range : forall i, (length (conns s) <= i)%nat -> countb (mentions i) (threads s) = 0%nat /\ i ∉ handed s
}.

Lemma countb_not_in (i : nat) l : i ∉ l -> countb (fun j => bool_decide (i = j)) l = 0%nat.
Proof.
  induction l as [|j l IH]; [done|]. rewrite not_elem_of_cons. intros [Hne Hl]. unfold countb in *. cbn.
  rewrite bool_decide_eq_false_2 by done. by apply IH.
Qed.

Lemma countb_zero_le {A} (f g : A -> bool) l :
  (forall x, f x = true -> g x = true) -> countb g l = 0%nat -> countb f l = 0%nat.
Proof.
  intros Hfg. unfold countb. induction l as [|x l IH]; [done|]. cbn.
  destruct (g x) eqn:Hg; [done|]. destruct (f x) eqn:Hf; [|by apply IH]. by rewrite Hfg in Hg.
Qed.

Lemma mentions_none i s :
  server_inv s -> (length (conns s) <= i)%nat ->
  countb (offers i) (threads s) = 0%nat /\ countb (closes i) (threads s) = 0%nat /\
  countb (finishes i) (threads s) = 0%nat /\ i ∉ handed s.
Proof.
  intros HI Hi. destruct (ps_range _ HI i Hi) as [Hm Hh].
  split_and!; [..|done]; (eapply countb_zero_le; [|exact Hm]); intros pc; by destruct pc.
Qed.

Ltac peripheral s := destruct s as [cs cur ch acc cl ts].

(** A new goroutine about an accepted connection, or none. *)
Lemma spawn_inv s pc :
  server_inv s -> (forall i, offers i pc = false /\ finishes i pc = false /\ (mentions i pc = true -> i ∈ accepted s)) ->
  server_inv (spawn s pc).
Proof.
  peripheral s. intros [K1 K2 K3 K4 K5 K6 K7] Hpc. unfold handed in *. split; unfold handed; cbn in *; try done; intros i; rewrite ?countb_app, ?countb_one;
    destruct (Hpc i) as (H1 & H2 & H3); rewrite ?H1, ?H2; cbn.
  - intros Hi. destruct (K2 i Hi); [by left|right; lia].
  - intros Hi. destruct (K3 i Hi) as [|[|]]; [by left|right; left; lia|right; right; lia].
  - specialize (K4 i). rewrite countb_app in K4. lia.
  - rewrite K6. lia.
  - intros Hi. destruct (K7 i Hi) as [Hm Hh]. split; [|done]. destruct (mentions i pc); [|cbn; lia].
    exfalso. apply Hh, elem_of_app. left. by apply H3.
Qed.

Lemma Accept_inv s i s' : server_inv s -> Accept s = Some (i, s') -> server_inv s'.
Proof.
  peripheral s. unfold Accept. cbn. destruct ch as [|j ch]; [done|]. intros [K1 K2 K3 K4 K5 K6 K7] [= <- <-].
  cbn in *. assert (ch = []) as -> by (destruct ch; [done|cbn in K5; lia]).
  split; unfold handed in *; cbn in *; rewrite ?app_nil_r; try done; lia.
Qed.

(** One step of a goroutine, counted. *)
Lemma thread_counts (ts : list serverPc) k pc pc' :
  ts !! k = Some pc -> forall f, (countb f (<[k := pc']> ts) + Nat.b2n (f pc) = countb f ts + Nat.b2n (f pc'))%nat.
Proof. intros Hk f. by apply countb_insert. Qed.

(** Steps that only move the goroutine. *)
Lemma move_inv s k pc pc' :
  server_inv s -> threads s !! k = Some pc ->
  (forall i, offers i pc' = true -> offers i pc = true) -> (forall i, finishes i pc' = finishes i pc) ->
  (forall i, mentions i pc' = true -> mentions i pc = true \/ (i < length (conns s))%nat) ->
  (forall i, closes i pc = true -> closes i pc' = true \/ conns s !! i <> Some COpen) ->
  (forall i, offers i pc = true -> offers i pc' = true \/ closes i pc' = true \/ i ∈ handed s) ->
  server_inv (s <| threads := <[k := pc']> (threads s) |>).
Proof.
  peripheral s. intros [K1 K2 K3 K4 K5 K6 K7] Hk H1 H2 H3 H4 H5. cbn in *.
  pose proof (thread_counts ts k pc pc' Hk) as Hc.
  assert (forall i, cs !! i = Some COpen -> (0 < countb (closes i) ts)%nat -> (0 < countb (closes i) (<[k := pc']> ts))%nat) as Hcl.
  { intros i Hi Hp. specialize (Hc (closes i)). destruct (closes i pc) eqn:E; [|cbn in Hc; lia].
    destruct (H4 i E) as [E'|]; [rewrite E' in Hc; cbn in Hc; lia|done]. }
  split; unfold handed in *; cbn in *; try done; intros i.
  - intros Hi. destruct (K2 i Hi) as [|Hp]; [by left|right]. by apply Hcl.
  - intros Hi. destruct (K3 i Hi) as [|[Hp|Hp]]; [by left| |right; right; by apply Hcl].
    pose proof (Hc (offers i)) as Ho. pose proof (Hc (closes i)) as Ho'. destruct (offers i pc) eqn:E.
    + destruct (H5 i E) as [E'|[E'|Hh]]; [right; left; rewrite E' in Ho; cbn in Ho; lia| |by left].
      right; right. rewrite E' in Ho'. assert (closes i pc = false) as E2 by (by destruct pc). rewrite E2 in Ho'. cbn in Ho'. lia.
    + right; left. cbn in Ho. lia.
  - specialize (K4 i). specialize (Hc (offers i)). specialize (H1 i). destruct (offers i pc'); [rewrite H1 in Hc by done|]; cbn in Hc; lia.
  - specialize (Hc (finishes i)). rewrite H2 in Hc. rewrite <- K6. lia.
  - intros Hi. destruct (K7 i Hi) as [Hm Hh]. split; [|done]. specialize (Hc (mentions i)). rewrite Hm in Hc.
    destruct (mentions i pc') eqn:E; [destruct (H3 i E) as [Hp|]; [rewrite Hp in Hc|lia]|]; cbn in Hc; lia.
Qed.

Lemma mentioned_range s k pc i :
  server_inv s -> threads s !! k = Some pc -> mentions i pc = true -> (i < length (conns s))%nat.
Proof.
  intros HI Hk Hm. destruct (decide (i < length (conns s))%nat) as [|Hge]; [done|].
  destruct (ps_range _ HI i ltac:(lia)) as [Hz _]. pose proof (countb_pos _ _ _ _ Hk Hm). lia.
Qed.

Lemma ensure_inv s k :
  server_inv s -> threads s !! k = Some PEnsure ->
  (forall i, current s = Some i -> conns s !! i <> Some COpen) ->
  server_inv (mkPeripheral (conns s ++ [COpen]) (Some (length (conns s))) (connections s) (accepted s) (closed s)
    (<[k := POffer (length (conns s))]> (threads s))).
Proof.
  intros HI Hk Hcur. set (n := length (conns s)).
  destruct (mentions_none n s HI ltac:(unfold n; lia)) as (Z1 & Z2 & Z3 & Z4).
  pose proof (thread_counts _ k _ (POffer n) Hk) as Hc. pose proof HI as [K1 K2 K3 K4 K5 K6 K7].
  assert (forall i, conns s !! i = Some COpen -> i <> n) as Hne by (intros i Hi%lookup_lt_Some; unfold n; lia).
  split; unfold handed in *; cbn; try done.
  - intros i [= <-]. exists COpen. split; [|done]. unfold n. by rewrite list_lookup_middle.
  - intros i [Hi|[Hge Hi]]%lookup_app_Some.
    + right. destruct (K2 i Hi) as [Hi'|Hp]; [by destruct (Hcur i Hi')|]. specialize (Hc (closes i)). cbn in Hc. lia.
    + left. apply list_lookup_singleton_Some in Hi as [Hi _]. f_equal. unfold n. lia.
  - intros i [Hi|[Hge Hi]]%lookup_app_Some.
    + destruct (K3 i Hi) as [|[Hp|Hp]]; [by left|right; left|right; right].
      * specialize (Hc (offers i)). cbn in Hc. rewrite bool_decide_eq_false_2 in Hc by by apply Hne. cbn in Hc. lia.
      * specialize (Hc (closes i)). cbn in Hc. lia.
    + right; left. apply list_lookup_singleton_Some in Hi as [Hi _]. assert (i = n) as -> by (unfold n; lia).
      specialize (Hc (offers n)). cbn in Hc. rewrite bool_decide_eq_true_2 in Hc by done. cbn in Hc. lia.
  - intros i. specialize (Hc (offers i)). specialize (K4 i). cbn in Hc. case_bool_decide as Hi; cbn in Hc; [|lia].
    subst i. rewrite (countb_not_in n) by done. lia.
  - intros i. specialize (Hc (finishes i)). cbn in Hc. rewrite Nat.add_0_r in Hc. rewrite Nat.add_0_r in Hc. rewrite Hc, K6.
    destruct (decide (i < n)%nat) as [Hlt|Hge].
    + by rewrite lookup_app_l.
    + rewrite lookup_ge_None_2 by (unfold n in Hge; lia). rewrite lookup_app_r by (unfold n in Hge; lia).
      by destruct (i - length (conns s))%nat as [|[|]].
  - intros i Hi. rewrite length_app in Hi. cbn in Hi. destruct (K7 i ltac:(lia)) as [Hm Hh]. split; [|done].
    specialize (Hc (mentions i)). cbn in Hc. rewrite bool_decide_eq_false_2 in Hc by (unfold n; lia). cbn in Hc. lia.
Qed.

Lemma offer_inv s k i :
  server_inv s -> threads s !! k = Some (POffer i) -> connections s = [] ->
  server_inv (mkPeripheral (conns s) (current s) [i] (accepted s) (closed s) (<[k := PPush i]> (threads s))).
Proof.
  intros HI Hk Hch. pose proof (thread_counts _ k _ (PPush i) Hk) as Hc.
  assert (i < length (conns s))%nat as Hlt by (eapply (mentioned_range s k); [done|exact Hk|by apply bool_decide_eq_true_2]).
  destruct HI as [K1 K2 K3 K4 K5 K6 K7]. split; unfold handed in *; rewrite Hch in *; cbn in *; try done; rewrite ?app_nil_r in *.
  - intros j Hj. destruct (K2 j Hj) as [|Hp]; [by left|right]. specialize (Hc (closes j)). cbn in Hc. lia.
  - intros j Hj. destruct (K3 j Hj) as [Hh|[Hp|Hp]].
    + left. apply elem_of_app. by left.
    + specialize (Hc (offers j)). cbn in Hc. case_bool_decide as Hji; cbn in Hc.
      * left. apply elem_of_app. right. subst. by left.
      * right; left. lia.
    + right; right. specialize (Hc (closes j)). cbn in Hc. lia.
  - intros j. specialize (K4 j). specialize (Hc (offers j)). rewrite countb_app, countb_one.
    cbn in Hc. destruct (bool_decide (j = i)); cbn in Hc |- *; lia.
  - intros j. specialize (Hc (finishes j)). cbn in Hc. rewrite <- K6. lia.
  - intros j Hj. destruct (K7 j Hj) as [Hm Hh]. specialize (Hc (mentions j)). cbn in Hc. split; [lia|].
    rewrite elem_of_app, list_elem_of_singleton. intros [Hj'|Hj']; [done|lia].
Qed.

Lemma list_insert_lookup_other {A} (l : list A) i x j : j <> i -> <[i := x]> l !! j = l !! j.
Proof. intros. by apply list_lookup_insert_ne. Qed.

Lemma close_start_inv s k i ret :
  server_inv s -> threads s !! k = Some (PClose i ret) -> conns s !! i = Some COpen ->
  server_inv (mkPeripheral (<[i := CClosing]> (conns s)) (current s) (connections s) (accepted s) (closed s)
    (<[k := POnClose i ret]> (threads s))).
Proof.
  intros HI Hk Hi. pose proof (thread_counts _ k _ (POnClose i ret) Hk) as Hc.
  assert (i < length (conns s))%nat as Hlt by by eapply lookup_lt_Some.
  destruct HI as [K1 K2 K3 K4 K5 K6 K7].
  assert (forall j, <[i := CClosing]> (conns s) !! j = Some COpen -> j <> i /\ conns s !! j = Some COpen) as Hopen.
  { intros j [(-> & [=] & _)|[? ?]]%list_lookup_insert_Some. split; [congruence|done]. }
  split; unfold handed in *; cbn in *; try done.
  - intros j Hj. destruct (K1 j Hj) as (o & Ho & Hne). destruct (decide (j = i)) as [->|].
    + exists CClosing. by rewrite list_lookup_insert_eq.
    + exists o. by rewrite list_lookup_insert_ne by done.
  - intros j [Hne Hj]%Hopen. destruct (K2 j Hj) as [|Hp]; [by left|right]. specialize (Hc (closes j)). cbn in Hc.
    rewrite bool_decide_eq_false_2 in Hc by done. cbn in Hc. lia.
  - intros j [Hne Hj]%Hopen. destruct (K3 j Hj) as [|[Hp|Hp]]; [by left|right; left|right; right].
    + specialize (Hc (offers j)). cbn in Hc. lia.
    + specialize (Hc (closes j)). cbn in Hc. rewrite bool_decide_eq_false_2 in Hc by done. cbn in Hc. lia.
  - intros j. specialize (K4 j). specialize (Hc (offers j)). cbn in Hc. lia.
  - intros j. specialize (Hc (finishes j)). specialize (K6 j). cbn in Hc. destruct (decide (j = i)) as [->|Hne].
    + rewrite bool_decide_eq_true_2 in Hc by done. cbn in Hc. rewrite list_lookup_insert_eq by done. rewrite Hi in K6. lia.
    + rewrite bool_decide_eq_false_2 in Hc by done. cbn in Hc. rewrite list_lookup_insert_ne by done. lia.
  - intros j. rewrite length_insert. intros Hj. destruct (K7 j Hj) as [Hm Hh]. split; [|done].
    specialize (Hc (mentions j)). cbn in Hc. lia.
Qed.

Lemma close_end_inv s k i (ret : bool) :
  server_inv s -> threads s !! k = Some (POnClose i ret) ->
  server_inv (mkPeripheral (<[i := CClosed]> (conns s)) (if bool_decide (current s = Some i) then None else current s)
    (connections s) (accepted s) (closed s) (<[k := if ret then PPush i else PEnd]> (threads s))).
Proof.
  intros HI Hk. pose proof (thread_counts _ k _ (if ret then PPush i else PEnd) Hk) as Hc.
  assert (i < length (conns s))%nat as Hlt by (eapply (mentioned_range s k); [done|exact Hk|by apply bool_decide_eq_true_2]).
  destruct HI as [K1 K2 K3 K4 K5 K6 K7].
  assert (conns s !! i = Some CClosing) as Hi.
  { specialize (K6 i). pose proof (countb_pos (finishes i) _ k _ Hk ltac:(by apply bool_decide_eq_true_2)).
    destruct (conns s !! i) as [[]|]; try lia. done. }
  assert (forall j, <[i := CClosed]> (conns s) !! j = Some COpen -> j <> i /\ conns s !! j = Some COpen) as Hopen.
  { intros j [(-> & [=] & _)|[? ?]]%list_lookup_insert_Some. split; [congruence|done]. }
  assert (forall j, closes j (if ret then PPush i else PEnd) = false /\ offers j (if ret then PPush i else PEnd) = false /\
    finishes j (if ret then PPush i else PEnd) = false /\ (mentions j (if ret then PPush i else PEnd) = true -> j = i)) as Hpc.
  { intros j. destruct ret; cbn; split_and!; try done. by intros ?%bool_decide_eq_true. }
  split; unfold handed in *; cbn in *; try done.
  - intros j. case_bool_decide as Hcur; [done|]. intros Hj. destruct (K1 j Hj) as (o & Ho & Hne).
    exists o. rewrite list_lookup_insert_ne by congruence. done.
  - intros j [Hne Hj]%Hopen. destruct (K2 j Hj) as [Hcur|Hp].
    + left. by rewrite bool_decide_eq_false_2 by congruence.
    + right. destruct (Hpc j) as (Hp1 & _). specialize (Hc (closes j)). rewrite Hp1 in Hc. cbn in Hc. lia.
  - intros j [Hne Hj]%Hopen. destruct (Hpc j) as (Hp1 & Hp2 & _). destruct (K3 j Hj) as [|[Hp|Hp]]; [by left|right; left|right; right].
    + specialize (Hc (offers j)). rewrite Hp2 in Hc. cbn in Hc. lia.
    + specialize (Hc (closes j)). rewrite Hp1 in Hc. cbn in Hc. lia.
  - intros j. destruct (Hpc j) as (_ & Hp2 & _). specialize (K4 j). specialize (Hc (offers j)). rewrite Hp2 in Hc. cbn in Hc. lia.
  - intros j. destruct (Hpc j) as (_ & _ & Hp3 & _). specialize (Hc (finishes j)). specialize (K6 j). rewrite Hp3 in Hc. cbn in Hc.
    destruct (decide (j = i)) as [->|Hne].
    + rewrite bool_decide_eq_true_2 in Hc by done. cbn in Hc. rewrite list_lookup_insert_eq by done. rewrite Hi in K6. lia.
    + rewrite bool_decide_eq_false_2 in Hc by done. cbn in Hc. rewrite list_lookup_insert_ne by done. lia.
  - intros j. rewrite length_insert. intros Hj. destruct (K7 j Hj) as [Hm Hh]. split; [|done].
    destruct (Hpc j) as (_ & _ & _ & Hp4). specialize (Hc (mentions j)).
    destruct (mentions j (if ret then PPush i else PEnd)); [rewrite (Hp4 eq_refl) in Hj; lia|]. cbn in Hc. lia.
Qed.

Lemma closeCurrent_inv s k :
  server_inv s -> threads s !! k = Some PCloseCurrent ->
  server_inv (mkPeripheral (conns s) None (connections s) (accepted s) (closed s)
    (<[k := match current s with Some i => PClose i false | None => PEnd end]> (threads s))).
Proof.
  intros HI Hk. set (pc' := match current s with Some i => PClose i false | None => PEnd end).
  pose proof (thread_counts _ k _ pc' Hk) as Hc. destruct HI as [K1 K2 K3 K4 K5 K6 K7].
  assert (forall i, offers i pc' = false /\ finishes i pc' = false /\ closes i pc' = bool_decide (current s = Some i) /\
    mentions i pc' = bool_decide (current s = Some i)) as Hpc.
  { intros i. unfold pc'. destruct (current s) as [j|]; cbn; [|done]. split_and!; try done;
      (destruct (decide (i = j)) as [->|]; [by rewrite !bool_decide_eq_true_2|by rewrite !bool_decide_eq_false_2 by congruence]). }
  split; unfold handed in *; cbn in *; try done; intros i; destruct (Hpc i) as (P1 & P2 & P3 & P4).
  - intros Hi. right. specialize (Hc (closes i)). rewrite P3 in Hc. cbn in Hc.
    destruct (K2 i Hi) as [Hcur|Hp]; [rewrite bool_decide_eq_true_2 in Hc by done; cbn in Hc; lia|]. lia.
  - intros Hi. destruct (K3 i Hi) as [|[Hp|Hp]]; [by left|right; left|right; right].
    + specialize (Hc (offers i)). rewrite P1 in Hc. cbn in Hc. lia.
    + specialize (Hc (closes i)). cbn in Hc. lia.
  - specialize (K4 i). specialize (Hc (offers i)). rewrite P1 in Hc. cbn in Hc. lia.
  - specialize (Hc (finishes i)). rewrite P2 in Hc. cbn in Hc. rewrite <- K6. lia.
  - intros Hi. destruct (K7 i Hi) as [Hm Hh]. split; [|done]. specialize (Hc (mentions i)). rewrite P4 in Hc. cbn in Hc.
    case_bool_decide as Hcur; cbn in Hc; [|lia]. destruct (K1 i Hcur) as (o & Ho%lookup_lt_Some & _). lia.
Qed.

Lemma run_thread_inv s k d s' : server_inv s -> run_thread s k d = Some s' -> server_inv s'.
Proof.
  intros HI. unfold run_thread. destruct (threads s !! k) as [pc|] eqn:Hk; [|done]. cbn.
  assert (forall i, mentions i pc = true -> (i < length (conns s))%nat) as Hrange by (intros i; by eapply mentioned_range).
  destruct pc as [|i|i ret|i ret|i| | |]; cbn [thread_step]; [| | | | | | |done].
  - unfold ensureLocked. destruct (current s) as [i|] eqn:Hcur.
    + unfold isClosed. case_bool_decide as Ho; cbn; intros [= <-].
      * apply (move_inv s k PEnsure (PPush i)); try done. intros j Hj%bool_decide_eq_true. right. subst. by eapply lookup_lt_Some.
      * apply (ensure_inv s k); [done|done|]. intros j Hj. rewrite Hcur in Hj. by injection Hj as <-.
    + cbn. intros [= <-]. apply (ensure_inv s k); [done|done|]. intros j Hj. congruence.
  - destruct (d && closed s); [|case_bool_decide as Hch]; cbn; intros [= <-].
    + apply (move_inv s k (POffer i)); try done; cbn; auto.
    + by apply offer_inv.
    + apply (move_inv s k (POffer i)); try done; cbn; auto.
  - destruct (conns s !! i) as [[]|] eqn:Hi; cbn; [| |..]; try done; intros [= <-].
    + by apply (close_start_inv s k i ret).
    + apply (move_inv s k (PClose i ret)); try done; destruct ret; try done; cbn; auto;
        intros j Hj%bool_decide_eq_true; right; congruence.
    + apply (move_inv s k (PClose i ret)); try done; destruct ret; try done; cbn; auto;
        intros j Hj%bool_decide_eq_true; right; congruence.
  - cbn. intros [= <-]. pose proof (close_end_inv s k i ret HI Hk) as Hinv. cbn.
    destruct s as [cs cur ch acc cl ts]. cbn in *. case_bool_decide; exact Hinv.
  - cbn. intros [= <-]. by apply (move_inv s k (PPush i)).
  - cbn. intros [= <-]. by apply (closeCurrent_inv s k).
  - destruct (closed s) eqn:Hcl; cbn; intros [= <-].
    + by apply (move_inv s k PShutdown).
    + assert (server_inv (s <| threads := <[k := PCloseCurrent]> (threads s) |>)) as Hm by by apply (move_inv s k PShutdown).
      destruct s. destruct Hm as [K1 K2 K3 K4 K5 K6 K7]. by split.
Qed.

Lemma peripheral_reachable_inv s : peripheral_reachable s -> server_inv s.
Proof.
  induction 1 as [|s s' _ IH Hs].
  { split; try done; [intros i; unfold countb; cbn; lia|cbn; lia|]. intros i _. split; [done|]. apply not_elem_of_nil. }
  destruct Hs as [s k d s' Hs|s i s' Hs|s|s|s|s i Hi].
  - by eapply run_thread_inv.
  - by eapply Accept_inv.
  - by apply spawn_inv.
  - by apply spawn_inv.
  - by apply spawn_inv.
  - apply spawn_inv; [done|]. intros j. cbn. split_and!; try done. by intros ->%bool_decide_eq_true.
Qed.

(** ** Restarting the advertisement *)

Inductive restartPc :=
  | RTimer                         (* 750 ms, or done *)
  | RAttempt (attempt : Z)         (* the loop's first select *)
  | RCall (attempt : Z)            (* restart() *)
  | RWait (attempt : Z)            (* the pause before the next attempt *)
  | RFinish                        (* the deferred reset of the flag *)
  | REnd.

Record advertiser := mkAdvertiser {
  haveRestart : bool;              (* restartServiceAdvertisement is set *)
  restartingAdvertisement : bool;
  ad_closed : bool;
  restarters : list restartPc
}.

#[export] Instance eta_advertiser : Eta advertiser := fun a =>
  mkAdvertiser (haveRestart a) (restartingAdvertisement a) (ad_closed a) (restarters a).

(** [scheduleAdvertisementRestart], its critical section. *)
Definition scheduleAdvertisementRestart (a : advertiser) : advertiser :=
  if negb (haveRestart a) || restartingAdvertisement a then a
  else a <| restartingAdvertisement := true |> <| restarters := restarters a ++ [RTimer] |>.

(** The goroutine; the outcome of [restart()]. *)
Definition restart_pc (cl : bool) (pc : restartPc) (sawDone : bool) (e : err) : option restartPc :=
  match pc with
  | RTimer => Some (if sawDone && cl then RFinish else RAttempt 1)
  | RAttempt n => Some (if cl then RFinish else if n <=? 3 then RCall n else RFinish)
  | RCall n => Some (match e with None => RFinish | Some _ => if n <? 3 then RWait n else RFinish end)
  | RWait n => Some (if sawDone && cl then RFinish else RAttempt (n + 1))
  | RFinish => Some REnd
  | REnd => None
  end.

Definition restart_step (a : advertiser) (k : nat) (sawDone : bool) (e : err) : option advertiser :=
  pc ← restarters a !! k;
  pc' ← restart_pc (ad_closed a) pc sawDone e;
  let a := a <| restarters := <[k := pc']> (restarters a) |> in
  Some (match pc with RFinish => a <| restartingAdvertisement := false |> | _ => a end).

Inductive advertiser_step : advertiser -> advertiser -> Prop :=
  | AdSchedule a : advertiser_step a (scheduleAdvertisementRestart a)
  | AdRun a k d e a' : restart_step a k d e = Some a' -> advertiser_step a a'
  | AdClose a : advertiser_step a (a <| ad_closed := true |>).

Inductive advertiser_reachable (have : bool) : advertiser -> Prop :=
  | ArInit : advertiser_reachable have (mkAdvertiser have false false [])
  | ArStep a a' : advertiser_reachable have a -> advertiser_step a a' -> advertiser_reachable have a'.

Definition running (pc : restartPc) : bool := match pc with REnd => false | _ => true end.

(** Calls of [restart()] a goroutine may still make. *)
Definition calls_left (pc : restartPc) : Z :=
  match pc with RTimer => 3 | RAttempt n | RCall n => 4 - n | RWait n => 3 - n | RFinish | REnd => 0 end.

Definition restart_ok (pc : restartPc) : Prop :=
  match pc with RAttempt n | RCall n => 1 <= n <= 3 | RWait n => 1 <= n <= 2 | _ => True end.

Lemma restart_pc_spec cl pc d e pc' :
  restart_ok pc -> restart_pc cl pc d e = Some pc' ->
  restart_ok pc' /\ 0 <= calls_left pc' /\
  calls_left pc' <= calls_left pc - (match pc with RCall _ => 1 | _ => 0 end) /\
  running pc = true /\ (running pc' = false <-> pc = RFinish).
Proof.
  destruct pc as [|n|n|n| |]; cbn; intros Hok; try done.
  - intros [= <-]. destruct (d && cl); cbn; split_and!; (done || lia).
  - intros [= <-]. destruct cl; [|destruct (Z.leb_spec n 3)]; cbn; split_and!; (done || lia).
  - intros [= <-]. destruct e; [destruct (Z.ltb_spec n 3)|]; cbn; split_and!; (done || lia).
  - intros [= <-]. destruct (d && cl); cbn; split_and!; (done || lia).
  - intros [= <-]. cbn. split_and!; (done || lia).
Qed.

Lemma advertiser_inv have a :
  advertiser_reachable have a ->
  countb running (restarters a) = (if restartingAdvertisement a then 1 else 0)%nat /\
  Forall restart_ok (restarters a) /\ haveRestart a = have /\ (have = false -> restarters a = []).
Proof.
  induction 1 as [|a a' _ (I1 & I2 & I3 & I4) Hs]; [by split_and!|].
  destruct Hs as [a|a k d e a' Hs|a]; [..|done].
  - unfold scheduleAdvertisementRestart. destruct (negb (haveRestart a) || restartingAdvertisement a) eqn:E; [done|].
    apply orb_false_iff in E as [Hh Hr]. rewrite Hr in I1. destruct a as [h r c l]. cbn in *. subst have. split_and!; try done.
    + rewrite countb_app, countb_one, I1. done.
    + apply Forall_app. split; [done|by repeat constructor].
    + intros ->. done.
  - unfold restart_step in Hs. destruct (restarters a !! k) as [pc|] eqn:Hk; [|done]. cbn in Hs.
    destruct (restart_pc (ad_closed a) pc d e) as [pc'|] eqn:Hp; [|done]. cbn in Hs. injection Hs as <-.
    assert (restart_ok pc) as Hok by (rewrite Forall_forall in I2; by eapply I2, list_elem_of_lookup_2).
    apply restart_pc_spec in Hp as (H1 & _ & _ & H4 & H5); [|done].
    pose proof (countb_insert running _ k pc pc' Hk) as Hc. rewrite H4 in Hc. cbn in Hc.
    destruct a as [h r c l]. cbn in *.
    assert (have = false -> <[k := pc']> l = []) as Hnil by (intros Hh; by rewrite (I4 Hh)).
    assert (r = true) as -> by (destruct r; [done|]; pose proof (countb_pos running l k pc Hk H4); lia).
    assert (Forall restart_ok (<[k := pc']> l)) as Hall by by apply Forall_insert.
    destruct (running pc') eqn:Er; cbn in Hc.
    + assert (pc <> RFinish) as Hne by (intros Hf; apply H5 in Hf; congruence). destruct pc; try done; cbn; split_and!; try done; lia.
    + assert (pc = RFinish) as -> by by apply H5. cbn. split_and!; try done. lia.
Qed.

(** * Properties *)

(** C21. Under any interleaving of the backend's callbacks, the accept loop and
    [Close], the server never serves two connections: of two open connections
    one is about to be closed by some goroutine; no connection is handed to
    [Accept] twice; every open connection was handed over, is about to be, or is
    about to be closed, so writes never go to a connection nobody can accept;
    and the current connection is never one that was fully closed. *)
Theorem one_open_connection s :
  peripheral_reachable s ->
  (forall i j, i <> j -> conns s !! i = Some COpen -> conns s !! j = Some COpen ->
    exists k ret, threads s !! k = Some (PClose i ret) \/ threads s !! k = Some (PClose j ret)) /\
  NoDup (accepted s ++ connections s) /\ (length (connections s) <= 1)%nat /\
  (forall i, conns s !! i = Some COpen ->
    i ∈ accepted s ++ connections s \/ exists k, threads s !! k = Some (POffer i) \/ exists ret, threads s !! k = Some (PClose i ret)) /\
  (forall i, current s = Some i -> conns s !! i = Some COpen \/ conns s !! i = Some CClosing).
Proof.
  intros [K1 K2 K3 K4 K5 K6 K7]%peripheral_reachable_inv.
  assert (forall (f : serverPc -> bool) l, (0 < countb f l)%nat -> exists k pc, l !! k = Some pc /\ f pc = true) as Hex.
  { intros f l. unfold countb. induction l as [|pc l IH]; cbn; [lia|]. destruct (f pc) eqn:E; [intros _; by exists 0%nat, pc|].
    intros (k & x & Hk & Hx)%IH. by exists (S k), x. }
  assert (forall i, (0 < countb (closes i) (threads s))%nat -> exists k ret, threads s !! k = Some (PClose i ret)) as Hcl.
  { intros i (k & pc & Hk & Hpc)%Hex. destruct pc; try done. apply bool_decide_eq_true in Hpc as <-. by eexists _, _. }
  split_and!; [|..|done| |].
  - intros i j Hne Hi Hj. destruct (K2 i Hi) as [Hci|Hp]; [|apply Hcl in Hp as (k & ret & Hk); exists k, ret; by left].
    destruct (K2 j Hj) as [Hcj|Hp]; [congruence|]. apply Hcl in Hp as (k & ret & Hk). exists k, ret. by right.
  - apply NoDup_alt. intros a b x Ha Hb.
    assert (countb (fun j => bool_decide (x = j)) (handed s) <= 1)%nat as Hle by (specialize (K4 x); lia).
    eapply (countb_unique _ _ a b x x Hle Ha Hb); by apply bool_decide_eq_true_2.
  - intros i Hi. destruct (K3 i Hi) as [|[Hp|Hp]]; [by left|right..].
    + apply Hex in Hp as (k & pc & Hk & Hpc). destruct pc; try done. apply bool_decide_eq_true in Hpc as <-. exists k. by left.
    + apply Hcl in Hp as (k & ret & Hk). exists k. right. by exists ret.
  - intros i Hi. destruct (K1 i Hi) as ([] & Ho & Hne); auto. done.
Qed.

(** At most one goroutine restarts the advertisement, and each makes at most
    three attempts. *)
Theorem one_restart_at_a_time have a i j p q :
  advertiser_reachable have a -> restarters a !! i = Some p -> restarters a !! j = Some q ->
  running p = true -> running q = true -> i = j /\ restartingAdvertisement a = true /\ calls_left p <= 3.
Proof.
  intros (I1 & I2 & _)%advertiser_inv Hi Hj Hp Hq. split_and!.
  - eapply (countb_unique running); [|exact Hi|exact Hj|done|done]. rewrite I1. destruct (restartingAdvertisement a); lia.
  - pose proof (countb_pos running _ _ _ Hi Hp). destruct (restartingAdvertisement a); [done|lia].
  - rewrite Forall_forall in I2. specialize (I2 p (list_elem_of_lookup_2 _ _ _ Hi)). destruct p; cbn in *; lia.
Qed.

(** ** Witness *)

Definition stepped (k : nat) (s : peripheral) : peripheral := default s (run_thread s k false).

Lemma peripheral_stepped k s : peripheral_reachable s -> peripheral_reachable (stepped k s).
Proof.
  intros Hs. unfold stepped. destruct (run_thread s k false) as [s'|] eqn:E; [|done].
  eapply PrStep; [exact Hs|]. by eapply PsThread.
Qed.

(** A write, then a disconnection while the next write arrives. *)
Definition demoPeripheral : peripheral :=
  stepped 2 (stepped 1 (spawn (spawn (stepped 0 (stepped 0 (spawn newPeripheral PEnsure))) PCloseCurrent) PEnsure)).

Lemma demoPeripheral_reachable : peripheral_reachable demoPeripheral.
Proof.
  do 2 apply peripheral_stepped. eapply PrStep; [eapply PrStep; [|apply PsDisconnect]|apply PsWrite].
  do 2 apply peripheral_stepped. eapply PrStep; [apply PrInit|apply PsWrite].
Qed.

Lemma one_open_connection_witness :
  conns demoPeripheral = [COpen; COpen] /\
  exists k ret, threads demoPeripheral !! k = Some (PClose 0 ret) \/ threads demoPeripheral !! k = Some (PClose 1 ret).
Proof.
  split; [reflexivity|].
  apply (proj1 (one_open_connection demoPeripheral demoPeripheral_reachable) 0%nat 1%nat); [discriminate|reflexivity|reflexivity].
Defined.
