(* ===== verification/BleStart.v ===== *)
(** * Starting the GATT server
    (internal/ble/server_supported.go, server_config.go, server_checks_*.go)

    [StartServerWithOptions] as the sequence of its calls on the Bluetooth
    backend, each with an outcome, and what the failures undo. *)

From S2P Require Export GoErrors.
From S2P Require Import BleConnect.

(** ** transportService *)

Inductive charFlag := WritePermission | WriteWithoutResponsePermission | NotifyPermission | ReadPermission.

Record CharacteristicConfig := mkCharacteristic {
  ch_UUID : string;
  ch_Value : bytes;
  ch_Flags : list charFlag;
  ch_WriteEvent : bool              (* it has the write callback *)
}.

Definition transportService (serverID : bytes) : string * list CharacteristicConfig :=
  (ServiceUUIDString,
   [mkCharacteristic RXUUIDString [] [WritePermission; WriteWithoutResponsePermission] true;
    mkCharacteristic TXUUIDString [] [NotifyPermission] false;
    mkCharacteristic IdentityUUIDString serverID [ReadPermission] false]).

(** The local name and the service advertised; [None]: no generic
    advertisement. *)
Definition genericAdvertisementOptions (goos name : string) : option (string * list string) :=
  if bool_decide (goos = "windows") then None else Some (name, [ServiceUUIDString]).

(** [checkServerAdapter] on either platform. *)
Definition checkServerAdapter (goos : string) (peripheralRole : err) : err :=
  if bool_decide (goos = "windows") then peripheralRole else None.

(** [RecoverServerAdapter]. *)
Definition RecoverServerAdapter (goos : string) (resetRadio : err) : err :=
  if bool_decide (goos = "windows") then resetRadio
  else Some (ErrNew "automatic Bluetooth radio recovery is supported only on Windows").

(** ** StartServerWithOptions *)

Inductive backendCall :=
  | CallEnable | CallCheck | CallConnectHandler
  | CallAddService (characteristics : list CharacteristicConfig) | CallRemoveService
  | CallConfigure (name : string) (services : list string) | CallStart | CallStop.

Record backend := mkBackend {
  b_enable : err;
  b_check : err;
  b_addService : err;
  b_configure : err;
  b_start : err
}.

(** What [Accept] and [Close] of the server returned work with. *)
Record startedServer := mkStarted { hasAdvertisement : bool }.

Definition StartServerWithOptions (goos name : string) (serverID : bytes) (skipAdapterChecks : bool) (b : backend)
    : result startedServer * list backendCall :=
  match b_enable b with
  | Some e => (inl e, [CallEnable])
  | None =>
      let check := if skipAdapterChecks then None else checkServerAdapter goos (b_check b) in
      let calls := CallEnable :: (if skipAdapterChecks then [] else [CallCheck]) in
      match check with
      | Some e => (inl e, calls)
      | None =>
          let calls := calls ++ [CallConnectHandler; CallAddService (transportService serverID).2] in
          match b_addService b with
          | Some e => (inl e, calls)
          | None =>
              match genericAdvertisementOptions goos name with
              | None => (inr (mkStarted false), calls)
              | Some (localName, services) =>
                  let calls := calls ++ [CallConfigure localName services] in
                  match b_configure b with
                  | Some e => (inl e, calls ++ [CallStop; CallRemoveService])
                  | None =>
                      match b_start b with
                      | Some e => (inl e, calls ++ [CallStart; CallStop; CallRemoveService])
                      | None => (inr (mkStarted true), calls ++ [CallStart])
                      end
                  end
              end
          end
      end
  end.

(** [peripheralServer.Close], once. *)
Definition closeCalls (s : startedServer) : list backendCall :=
  (if hasAdvertisement s then [CallStop] else []) ++ [CallRemoveService].

(** The services registered and the advertisements running after a trace. *)
Definition registered (calls : list backendCall) (b : backend) : Z * Z :=
  fold_left (fun '(services, advertisements) call =>
      match call with
      | CallAddService _ => (if bool_decide (b_addService b = None) then services + 1 else services, advertisements)
      | CallRemoveService => (services - 1, advertisements)
      | CallStart => (services, if bool_decide (b_start b = None) then advertisements + 1 else advertisements)
      | CallStop => (services, 0)
      | _ => (services, advertisements)
      end) calls (0, 0).

(** A failed start leaves no service registered and nothing advertising, a
    successful one leaves one service and, outside Windows, one advertisement,
    which [Close] takes back. *)
Lemma start_cleans_up goos name serverID skip b r calls :
  StartServerWithOptions goos name serverID skip b = (r, calls) ->
  match r with
  | inl _ => registered calls b = (0, 0)
  | inr s => registered calls b = (1, if hasAdvertisement s then 1 else 0) /\
      (hasAdvertisement s = true <-> goos <> "windows") /\ registered (calls ++ closeCalls s) b = (0, 0)
  end.
Proof.
  destruct b as [[e1|] e2 [e3|] [e4|] [e5|]]; unfold StartServerWithOptions, genericAdvertisementOptions, checkServerAdapter; cbn;
    repeat (case_bool_decide; cbn); destruct skip; cbn; try destruct e2; intros [= <- <-]; cbn; try done; split_and!; done.
Qed.
