(* ===== verification/ClientLoop.v ===== *)
(** * The client's session loop
    (internal/app/client.go)

    [RunClient] opens its local listeners, picks a server and keeps one
    resumable session to it, reconnecting whenever the link is detached.
    [prepare] is everything before the loop; [client_turn] is the loop cut at
    the points where another goroutine can run: the checks of the inner loop,
    its pauses, [Find], [Connect], the critical sections of [BindClient] and the
    service list.  What blocks has an outcome the environment chooses. *)

From S2P Require Export AppPeer.
From S2P Require Import AppServices BleConnect.

(** ** Configuration and state *)

Record ClientConfig := mkClientConfig {
  cc_ListenPort : Z;
  cc_Services : list ClientService;
  cc_AllServices : bool;
  cc_DeviceID : string;
  cc_ResumeTimeout : Z;
  cc_MaxConnections : Z;
  cc_Compression : bool;
  cc_Benchmark : bool;                 (* Benchmark is not nil *)
  cc_Interactive : bool
}.

(** What [RunClient] returns: an error of the service list, or another. *)
Inductive clientError := ClientServiceError (e : serviceError) | ClientError (e : error).

Record listener := mkListener { ls_service : ClientService; ls_open : bool }.

Inductive clientPc :=
  | CpSession                          (* the outer loop: a new session *)
  | CpCheck                            (* the inner loop: its condition and select *)
  | CpIsBound                          (* linkSession.IsBound() *)
  | CpBound                            (* the pause while the link is bound *)
  | CpFind                             (* adapter.Find *)
  | CpPause                            (* waitContext *)
  | CpConnect (d : Device)             (* adapter.Connect *)
  | CpHello (d : Device) (c : nat) (connMTU : Z)               (* BindClient *)
  | CpReply (d : Device) (c : nat) (connMTU : Z) (cfg : Config)  (* its reply loop *)
  | CpAttach (d : Device) (c : nat) (connMTU m : Z)            (* attach *)
  | CpServices                         (* muxSession.Services *)
  | CpReturned (e : option clientError).

Record client := mkClient {
  peers : list peer;                   (* every session; the last is the current one *)
  endpoint : option nat;               (* what the bridge was given *)
  deviceID : string;
  selectedDevice : option Device;
  lastDevice : option Device;
  listeners : list listener;
  bridgeStarted : bool;
  allServicesStarted : bool;
  benchmarkStarted : bool;             (* benchmarkDone is not nil *)
  cancelled : bool;                    (* ctx *)
  cpc : clientPc
}.

#[export] Instance eta_client : Eta client := fun st =>
  mkClient (peers st) (endpoint st) (deviceID st) (selectedDevice st) (lastDevice st) (listeners st)
    (bridgeStarted st) (allServicesStarted st) (benchmarkStarted st) (cancelled st) (cpc st).
#[export] Instance eta_listener : Eta listener := fun l => mkListener (ls_service l) (ls_open l).

Inductive clientEffect :=
  | CPeer (e : peerEffect)
  | CSetEndpoint (i : nat)
  | CServeServices (services : list ClientService)
  | CStartBenchmark (i : nat).

(** ** Before the loop *)

(** [openListeners]: [listen] is the outcome of each [net.Listen], by its
    number; the listeners opened so far stay when one fails. *)
Fixpoint openListeners (listen : nat -> err) (ls : list listener) (services : list ClientService)
    : list listener * err :=
  match services with
  | [] => (ls, None)
  | service :: services =>
      match listen (length ls) with
      | Some e => (ls, Some (ErrWrap ("listen for service " +:+ quoted (Remote service) +:+ ": ") e ""))
      | None => openListeners listen (ls ++ [mkListener service true]) services
      end
  end.

Definition closeListeners (ls : list listener) : list listener := (fun l => l <| ls_open := false |>) <$> ls.

(** The deferred calls, then the return. *)
Definition return_ (st : client) (e : option clientError) : client :=
  st <| listeners := closeListeners (listeners st) |> <| cpc := CpReturned e |>.

Definition fail (st : client) (e : error) : client := return_ st (Some (ClientError e)).

Definition startBridge (st : client) : client * list clientEffect :=
  if bridgeStarted st then (st, [])
  else (st <| bridgeStarted := true |>, [CServeServices (ls_service <$> listeners st)]).

Definition initialClient (cfg : ClientConfig) : client :=
  mkClient [] None (cc_DeviceID cfg) None None [] false false false false CpSession.

(** Up to the outer loop; [chosen] is what the picker returns. *)
Definition prepare (cfg : ClientConfig) (listen : nat -> err) (chosen : result Device) : client * list clientEffect :=
  let st := initialClient cfg in
  match ValidateClientServices (cc_Services cfg) with
  | Some e => (return_ st (Some (ClientServiceError e)), [])
  | None =>
    if cc_AllServices cfg && negb (bool_decide (cc_Services cfg = []))
    then (fail st (ErrNew "--all-services cannot be combined with --service"), [])
    else if cc_AllServices cfg && negb (cc_ListenPort cfg =? 0)
    then (fail st (ErrNew "--listen-port cannot be combined with --all-services"), [])
    else
      let services := if bool_decide (cc_Services cfg = []) then [mkClientService (cc_ListenPort cfg) ""] else cc_Services cfg in
      let '(ls, e) := if cc_AllServices cfg then ([], None) else openListeners listen [] services in
      let st := st <| listeners := ls |> in
      match e with
      | Some e => (fail st e, [])
      | None =>
        if bool_decide (cc_DeviceID cfg = "") then
          if negb (cc_Interactive cfg)
          then (fail st (ErrNew "--device is required when stdin is not an interactive terminal"), [])
          else
            match chosen with
            | inl e => (fail st e, [])
            | inr d =>
                let st := st <| selectedDevice := Some d |>
                             <| deviceID := if bool_decide (ServerID d = "") then dev_ID d else ServerID d |> in
                if cc_AllServices cfg then (st, []) else startBridge st
            end
        else if cc_AllServices cfg then (st, []) else startBridge st
      end
  end.

(** ** The loop *)

Inductive clientEvent :=
  | CeSession (r : result SessionID)             (* rand.Read in NewSession *)
  | CeBenchmark (e : err)                        (* <-benchmarkDone *)
  | CeDone                                       (* <-linkSession.Done() *)
  | CeRun                                        (* a step that does not block *)
  | CeFound (r : result Device)
  | CeConnected (r : result (nat * Z * string))  (* the connection, its MTU and its server ID *)
  | CeSendFailed (second : bool) (e : error)       (* a HELLO packet could not be sent *)
  | CeReply (events : list handshakeEvent)
  | CeAttach (now : Z)
  | CeServices (r : result (list Service)) (listen : nat -> err)
  | CeEnd (received : bool).                     (* ctx is done; whether bridgeErr is ready *)

Definition clientLinkConfig (cfg : ClientConfig) : Config :=
  mkConfig (cc_ResumeTimeout cfg) DefaultReplayWindow (cc_MaxConnections cfg) (cc_Compression cfg).

Definition newClientPeer (cfg : ClientConfig) (l : Session) : peer :=
  mkPeer l (mkMux (cc_MaxConnections cfg) (cc_Compression cfg) [] false).

(** The current session: its number and its state. *)
Definition lastPeer (st : client) : option (nat * peer) :=
  p ← last (peers st); Some (Nat.pred (length (peers st)), p).

Definition setPeer (st : client) (i : nat) (p : peer) : client := st <| peers := <[i := p]> (peers st) |>.

(** [muxSession.Close(); linkSession.Close()]. *)
Definition closeLast (st : client) : client * list clientEffect :=
  match lastPeer st with
  | Some (i, p) => let '(p, eff) := closePeer i p in (setPeer st i p, CPeer <$> eff)
  | None => (st, [])
  end.

(** A server identity learned from a device or a connection. *)
Definition resolveID (st : client) (serverID : string) : client :=
  if negb (bool_decide (serverID = "")) && negb (bool_decide (deviceID st = serverID))
  then st <| deviceID := serverID |> else st.

Definition toConnect (st : client) (d : Device) : client := (resolveID st (ServerID d)) <| cpc := CpConnect d |>.

(** [bridgeErr], once the loop has ended: [ServeServices] only fails without
    listeners. *)
Definition bridgeResult (st : client) (received : bool) : option clientError :=
  if received && bridgeStarted st && bool_decide (listeners st = [])
  then Some (ClientError (ErrNew "no local service listeners configured")) else None.

(** The attempt to connect failed with [e]; [c]: a connection to close. *)
Definition attemptFailed (st : client) (c : option nat) (e : error) : client * list clientEffect :=
  let eff := match c with Some c => [CPeer (PCloseConn c)] | None => [] end in
  if bool_decide (RejectionReason e = "resume failed") then
    let '(st, eff') := closeLast st in (st <| cpc := CpSession |>, eff ++ eff')
  else (st <| cpc := CpPause |>, eff).

(** After the services were started, or need not be. *)
Definition afterBound (cfg : ClientConfig) (st : client) (i : nat) : client * list clientEffect :=
  if cc_Benchmark cfg && negb (benchmarkStarted st)
  then (st <| benchmarkStarted := true |> <| cpc := CpCheck |>, [CStartBenchmark i])
  else (st <| cpc := CpCheck |>, []).

(** A terminal error: both ends are closed first. *)
Definition closeAndFail (st : client) (e : option clientError) : client * list clientEffect :=
  let '(st, eff) := closeLast st in (return_ st e, eff).

(** The service list of [--all-services]. *)
Definition servicesRead (cfg : ClientConfig) (st : client) (i : nat) (r : result (list Service)) (listen : nat -> err)
    : client * list clientEffect :=
  match r with
  | inl e => closeAndFail st (Some (ClientError (ErrWrap "discover advertised services: " e "")))
  | inr advertised =>
      match ClientServicesForAdvertised advertised with
      | inl e => closeAndFail st (Some (ClientServiceError e))
      | inr clientServices =>
          if bool_decide (clientServices = [])
          then closeAndFail st (Some (ClientError (ErrNew "server advertised no services")))
          else
            let '(ls, e) := openListeners listen (listeners st) clientServices in
            let st := st <| listeners := ls |> in
            match e with
            | Some e => closeAndFail st (Some (ClientError e))
            | None =>
                let '(st, eff) := startBridge st in
                let '(st, eff') := afterBound cfg (st <| allServicesStarted := true |>) i in (st, eff ++ eff')
            end
      end
  end.

(** The turns that only leave the loop. *)
Definition endTurn (st : client) (received : bool) : option (client * list clientEffect) :=
  if negb (cancelled st) then None
  else
    match cpc st with
    | CpSession => Some (return_ st (bridgeResult st received), [])
    | CpCheck | CpPause => Some (closeAndFail st (bridgeResult st received))
    | _ => None
    end.

(** [None]: the event does not fit the point the loop is at. *)
Definition client_turn (cfg : ClientConfig) (st : client) (ev : clientEvent) : option (client * list clientEffect) :=
  match ev with
  | CeEnd received => endTurn st received
  | CeSession r =>
      match cpc st with
      | CpSession =>
          if cancelled st then None
          else
            match NewSession r (clientLinkConfig cfg) with
            | inl e => Some (fail st e, [])
            | inr l =>
                let i := length (peers st) in
                Some (st <| peers := peers st ++ [newClientPeer cfg l] |> <| endpoint := Some i |> <| cpc := CpCheck |>,
                      [CSetEndpoint i])
            end
      | _ => None
      end
  | _ =>
    '(i, p) ← lastPeer st;
    match cpc st, ev with
    | CpCheck, CeBenchmark e =>
        if cancelled st || negb (benchmarkStarted st) then None
        else Some (closeAndFail st (match e with Some e => Some (ClientError (ErrWrap "benchmark failed: " e "")) | None => None end))
    | CpCheck, CeDone =>
        if cancelled st || negb (closed (p_link p)) then None
        else
          let '(p, eff) := closeMux i p in
          let st := setPeer st i p in
          Some (if cc_Benchmark cfg
                then fail st (ErrWrap "benchmark BLE session ended: " (default (ErrNew "%!w(<nil>)") (err_ (p_link p))) "")
                else st <| cpc := CpSession |>, CPeer <$> eff)
    | CpCheck, CeRun => if cancelled st || closed (p_link p) then None else Some (st <| cpc := CpIsBound |>, [])
    | CpIsBound, CeRun =>
        Some (if IsBound (p_link p) then st <| cpc := CpBound |>
              else match selectedDevice st, lastDevice st with
                   | Some d, _ => toConnect (st <| selectedDevice := None |>) d
                   | None, Some d => toConnect (st <| lastDevice := None |>) d
                   | None, None => st <| cpc := CpFind |>
                   end, [])
    | CpBound, CeRun => Some (st <| cpc := CpCheck |>, [])
    | CpFind, CeFound r => Some (match r with inl _ => st <| cpc := CpPause |> | inr d => toConnect st d end, [])
    | CpPause, CeRun => Some (st <| cpc := CpCheck |>, [])
    | CpConnect d, CeConnected r =>
        Some match r with
             | inl e => attemptFailed st None e
             | inr (c, connMTU, serverID) => ((resolveID st serverID) <| cpc := CpHello d c connMTU |>, [])
             end
    | CpHello d c connMTU, CeRun =>
        Some match BindClient_hello (p_link p) connMTU with
             | inl e => attemptFailed st (Some c) e
             | inr (first, second) =>
                 (st <| cpc := CpReply d c connMTU (config (p_link p)) |>, [CPeer (PSend c first); CPeer (PSend c second)])
             end
    | CpReply d c connMTU offer, CeSendFailed second e =>
        Some (attemptFailed st (Some c) (ErrWrap (if second : bool then "send session resume state: " else "send session identity: ") e ""))
    | CpReply d c connMTU offer, CeReply events =>
        match (handshakeReply events 0).2 with
        | None => None
        | Some (inl e) => Some (attemptFailed st (Some c) e)
        | Some (inr (peerExpected, peerCfg, peerMTU)) =>
            Some match BindClient_finish (p_link p) connMTU offer peerExpected peerCfg peerMTU with
                 | (l, inl e) => attemptFailed (setPeer st i (p <| p_link := l |>)) (Some c) e
                 | (l, inr m) => ((setPeer st i (p <| p_link := l |>)) <| cpc := CpAttach d c connMTU m |>, [])
                 end
        end
    | CpAttach d c connMTU m, CeAttach now =>
        Some match attach (p_link p) c connMTU m now with
             | (l, eff, Some e) => attemptFailed (setPeer st i (p <| p_link := l |>)) (Some c) e
             | (l, eff, None) =>
                 let st := (setPeer st i (p <| p_link := l |>)) <| lastDevice := Some d |> in
                 let '(st, eff') := if cc_AllServices cfg && negb (allServicesStarted st)
                                    then (st <| cpc := CpServices |>, []) else afterBound cfg st i in
                 (st, ((fun e => CPeer (PLink i e)) <$> eff) ++ eff')
             end
    | CpServices, CeServices r listen => Some (servicesRead cfg st i r listen)
    | _, _ => None
    end
  end.

Inductive client_step (cfg : ClientConfig) : client -> list clientEffect -> client -> Prop :=
  | CtLoop st ev st' eff : client_turn cfg st ev = Some (st', eff) -> client_step cfg st eff st'
  | CtLink st i p o :
      peers st !! i = Some p -> background o = true ->
      client_step cfg st [] (setPeer st i (p <| p_link := oc_session (ep_run (p_link p) o) |>))
  | CtMuxDone st i p :
      peers st !! i = Some p -> client_step cfg st [] (setPeer st i (p <| p_mux := (p_mux p) <| mux_done := true |> |>))
  | CtCancel st : client_step cfg st [] (st <| cancelled := true |>)
  | CtBridgeClose st j l :                       (* ServeServices or serveListener, after ctx.Done() *)
      cancelled st = true -> bridgeStarted st = true -> listeners st !! j = Some l ->
      client_step cfg st [] (st <| listeners := <[j := l <| ls_open := false |>]> (listeners st) |>).

Inductive client_reachable (cfg : ClientConfig) : client -> Prop :=
  | CtInit listen chosen : client_reachable cfg (prepare cfg listen chosen).1
  | CtStep st eff st' : client_reachable cfg st -> client_step cfg st eff st' -> client_reachable cfg st'.

(** * The loop's invariant *)

Definition all_closed (ps : list peer) : Prop := forall i p, ps !! i = Some p -> closed (p_link p) = true.

(** Only the last session may be open, a closed one is unbound, and sessions
    compress only when configured. *)
Record peers_ok (cfg : ClientConfig) (ps : list peer) : Prop := {
  po_open : forall i p, ps !! i = Some p -> is_open p -> S i = length ps;
  po_bound : forall i p, ps !! i = Some p -> closed (p_link p) = true -> current (p_link p) = None;
  po_compression : forall i p, ps !! i = Some p -> Compression (config (p_link p)) = true -> cc_Compression cfg = true
}.

Lemma peers_ok_insert cfg ps i p l m :
  peers_ok cfg ps -> ps !! i = Some p ->
  (Compression (config l) = true -> Compression (config (p_link p)) = true) ->
  (closed (p_link p) = true -> closed l = true) -> (closed l = true -> current l = None) ->
  peers_ok cfg (<[i := mkPeer l m]> ps).
Proof.
  intros [I1 I2 I3] Hi E1 E2 E3. split.
  - intros j q [(-> & <- & _)|[_ Hj]]%list_lookup_insert_Some Hq; rewrite length_insert; [|by apply (I1 j q)].
    apply (I1 _ p Hi). unfold is_open in *. cbn in Hq. destruct (closed (p_link p)); [|done]. by rewrite E2 in Hq.
  - intros j q [(-> & <- & _)|[_ Hj]]%list_lookup_insert_Some; [done|by apply (I2 j)].
  - intros j q [(-> & <- & _)|[_ Hj]]%list_lookup_insert_Some; [|by apply (I3 j)]. cbn. intros Hq%E1. by eapply I3.
Qed.

Lemma peers_ok_update cfg ps i p l m :
  peers_ok cfg ps -> ps !! i = Some p -> evolves (p_link p) l -> peers_ok cfg (<[i := mkPeer l m]> ps).
Proof.
  intros HI Hi (E1 & E2 & E3 & E4 & E5). apply (peers_ok_insert cfg ps i p); try done.
  intros Hc. destruct (E4 Hc) as [Hp|]; [|done]. pose proof (po_bound _ _ HI _ _ Hi Hp).
  destruct (current l) as [b|]; [|done]. destruct (E5 b eq_refl) as (? & ? & _). congruence.
Qed.

Lemma peers_ok_snoc cfg ps l m :
  peers_ok cfg ps -> all_closed ps -> current l = None ->
  (Compression (config l) = true -> cc_Compression cfg = true) -> peers_ok cfg (ps ++ [mkPeer l m]).
Proof.
  intros [I1 I2 I3] Hc Hl Hcomp. split.
  - intros j q [Hj|[Hj Hq]]%lookup_app_Some Ho; [unfold is_open in Ho; by rewrite (Hc j q) in Ho|].
    apply list_lookup_singleton_Some in Hq as [Hq _]. rewrite length_app. cbn. lia.
  - intros j q [Hj|[Hj Hq]]%lookup_app_Some; [by apply (I2 j)|]. by apply list_lookup_singleton_Some in Hq as [_ <-].
  - intros j q [Hj|[Hj Hq]]%lookup_app_Some; [by apply (I3 j)|]. by apply list_lookup_singleton_Some in Hq as [_ <-].
Qed.

(** Closing the last session closes all. *)
Lemma peers_closed_insert cfg ps i p p' :
  peers_ok cfg ps -> ps !! i = Some p -> S i = length ps -> closed (p_link p') = true -> all_closed (<[i := p']> ps).
Proof.
  intros HI Hi Hl Hc j q [(-> & <- & _)|[Hne Hj]]%list_lookup_insert_Some; [done|].
  destruct (closed (p_link q)) eqn:Hq; [done|]. apply (po_open _ _ HI) in Hj; [|done]. lia.
Qed.

Lemma last_closed_all cfg ps i p :
  peers_ok cfg ps -> ps !! i = Some p -> S i = length ps -> closed (p_link p) = true -> all_closed ps.
Proof. intros HI Hi Hl Hc. rewrite <- (list_insert_id ps i p Hi). by eapply peers_closed_insert. Qed.

Lemma lastPeer_Some st i p : lastPeer st = Some (i, p) <-> peers st !! i = Some p /\ S i = length (peers st).
Proof.
  unfold lastPeer. rewrite last_lookup. destruct (peers st !! Nat.pred (length (peers st))) as [q|] eqn:E; cbn; split.
  - intros [= <- <-]. split; [done|]. apply lookup_lt_Some in E. lia.
  - intros [Hi Hl]. assert (Nat.pred (length (peers st)) = i) as Hp by lia. rewrite Hp in E. congruence.
  - done.
  - intros [Hi Hl]. assert (Nat.pred (length (peers st)) = i) as Hp by lia. rewrite Hp in E. congruence.
Qed.

Lemma closeMux_evolves i p : evolves (p_link p) (p_link (closeMux i p).1).
Proof. unfold closeMux. destruct p as [l m]. cbn. case_match; [done|]. apply (closeLink_evolves i (mkPeer l _)). Qed.

(** What [closeLast] leaves: everything closed, the rest as it was. *)
Lemma closeLast_spec cfg st :
  peers_ok cfg (peers st) ->
  exists ps, (closeLast st).1 = st <| peers := ps |> /\ peers_ok cfg ps /\ all_closed ps /\ length ps = length (peers st).
Proof.
  intros HI. unfold closeLast. destruct (lastPeer st) as [[i p]|] eqn:E.
  - apply lastPeer_Some in E as [Hi Hl]. destruct (closePeer_closes i p) as [Hc Hev].
    destruct (closePeer i p) as [[l m] eff]. cbn in *. exists (<[i := mkPeer l m]> (peers st)). split_and!; [done|..].
    + by eapply peers_ok_update.
    + by eapply peers_closed_insert.
    + by rewrite length_insert.
  - exists (peers st). destruct st as [ps ? ? ? ? ? ? ? ? ? ?]. split_and!; try done. cbn in *. intros i p Hi.
    unfold lastPeer in E. cbn in E. destruct (last ps) eqn:El; [done|]. by apply last_None in El as ->.
Qed.

Definition lastIndex (ps : list peer) : option nat := match ps with [] => None | _ => Some (Nat.pred (length ps)) end.

(** What holds while the loop runs, wherever it is. *)
Record base_inv (cfg : ClientConfig) (st : client) : Prop := {
  bi_peers : peers_ok cfg (peers st);
  bi_endpoint : endpoint st = lastIndex (peers st);
  bi_open : cancelled st = false -> Forall (fun l => ls_open l = true) (listeners st);
  bi_bridge : bridgeStarted st = true <-> listeners st <> [];
  bi_services : bridgeStarted st = negb (cc_AllServices cfg) || allServicesStarted st;
  bi_benchmark : benchmarkStarted st = true -> cc_Benchmark cfg = true
}.

Definition returned_inv (cfg : ClientConfig) (st : client) : Prop :=
  peers_ok cfg (peers st) /\ endpoint st = lastIndex (peers st) /\ all_closed (peers st) /\
  Forall (fun l => ls_open l = false) (listeners st).

Definition client_inv (cfg : ClientConfig) (st : client) : Prop :=
  match cpc st with
  | CpReturned _ => returned_inv cfg st
  | CpSession => base_inv cfg st /\ all_closed (peers st)
  | CpServices => base_inv cfg st /\ peers st <> [] /\ cc_AllServices cfg = true /\ allServicesStarted st = false
  | _ => base_inv cfg st /\ peers st <> []
  end.

(** The loop is between two sessions or inside one. *)
Definition plain (pc : clientPc) : bool :=
  match pc with CpSession | CpServices | CpReturned _ => false | _ => true end.

Lemma plain_inv cfg st pc : plain pc = true -> base_inv cfg st -> peers st <> [] -> client_inv cfg (st <| cpc := pc |>).
Proof. intros Hp [I1 I2 I3 I4 I5 I6] Hne. destruct pc; try done; (split; [by split|exact Hne]). Qed.

Lemma base_setPeer cfg st i p : base_inv cfg st -> peers_ok cfg (<[i := p]> (peers st)) -> base_inv cfg (setPeer st i p).
Proof.
  intros [I1 I2 I3 I4 I5 I6] Hp. split; cbn; try done. rewrite I2. unfold lastIndex.
  pose proof (length_insert (peers st) i p) as Hl. destruct (peers st) as [|q ps]; [done|].
  destruct (<[i := p]> (q :: ps)); [done|]. by rewrite Hl.
Qed.

Lemma setPeer_some st i p : peers st <> [] -> peers (setPeer st i p) <> [].
Proof. intros Hne Hn. apply Hne. cbn in Hn. apply (f_equal length) in Hn. rewrite length_insert in Hn. by apply nil_length_inv. Qed.

Lemma closeListeners_closed ls : Forall (fun l => ls_open l = false) (closeListeners ls).
Proof. unfold closeListeners. apply Forall_fmap, Forall_forall. by intros. Qed.

Lemma return_inv cfg st e :
  peers_ok cfg (peers st) -> endpoint st = lastIndex (peers st) -> all_closed (peers st) -> client_inv cfg (return_ st e).
Proof. intros H1 H2 H3. split; [done|]. split; [done|]. split; [done|]. apply closeListeners_closed. Qed.

Lemma lastIndex_length ps ps' : length ps = length ps' -> lastIndex ps = lastIndex ps'.
Proof. unfold lastIndex. destruct ps, ps'; cbn; intros Hl; try done. by injection Hl as ->. Qed.

Lemma closeLast_inv cfg st :
  base_inv cfg st -> base_inv cfg (closeLast st).1 /\ all_closed (peers (closeLast st).1) /\
  length (peers (closeLast st).1) = length (peers st).
Proof.
  intros [I1 I2 I3 I4 I5 I6]. destruct (closeLast_spec cfg st I1) as (ps & -> & Hp & Hc & Hl).
  split; [|by split]. split; try done. cbn. rewrite I2. symmetry. by apply lastIndex_length.
Qed.

Lemma closeAndFail_inv cfg st e :
  peers_ok cfg (peers st) -> endpoint st = lastIndex (peers st) -> client_inv cfg (closeAndFail st e).1.
Proof.
  intros H1 H2. unfold closeAndFail. destruct (closeLast_spec cfg st H1) as (ps & Hps & Hp & Hc & Hl).
  destruct (closeLast st) as [st' eff]. cbn in Hps. subst st'. apply return_inv; [done| |done].
  cbn. rewrite H2. symmetry. by apply lastIndex_length.
Qed.

Lemma attemptFailed_inv cfg st c e : base_inv cfg st -> peers st <> [] -> client_inv cfg (attemptFailed st c e).1.
Proof.
  intros HI Hne. unfold attemptFailed. case_bool_decide.
  - destruct (closeLast_inv cfg st HI) as ([J1 J2 J3 J4 J5 J6] & Hc & _). destruct (closeLast st) as [st' eff].
    split; [by split|exact Hc].
  - by apply plain_inv.
Qed.

Lemma resolveID_inv cfg st d : base_inv cfg st -> base_inv cfg (resolveID st d) /\ peers (resolveID st d) = peers st.
Proof. intros [I1 I2 I3 I4 I5 I6]. unfold resolveID. by case_match. Qed.

Lemma toConnect_inv cfg st d : base_inv cfg st -> peers st <> [] -> client_inv cfg (toConnect st d).
Proof.
  intros HI Hne. destruct (resolveID_inv cfg st (ServerID d) HI) as [HI' Hp].
  apply plain_inv; [done..|]. by rewrite Hp.
Qed.

Lemma afterBound_inv cfg st i : base_inv cfg st -> peers st <> [] -> client_inv cfg (afterBound cfg st i).1.
Proof.
  intros HI Hne. unfold afterBound. destruct (cc_Benchmark cfg) eqn:Hb; [destruct (negb (benchmarkStarted st))|]; cbn [andb fst];
    (split; [|exact Hne]); destruct HI as [I1 I2 I3 I4 I5 I6]; by split.
Qed.

Lemma openListeners_spec listen ls services ls' e :
  openListeners listen ls services = (ls', e) ->
  Forall (fun l => ls_open l = true) ls -> Forall (fun l => ls_open l = true) ls' /\
  (e = None -> ls' = ls ++ ((fun s => mkListener s true) <$> services)).
Proof.
  revert ls. induction services as [|s services IH]; intros ls; cbn [openListeners].
  { intros [= <- <-] Hls. split; [done|]. intros _. by rewrite app_nil_r. }
  destruct (listen (length ls)); [by intros [= <- <-] Hls|]. intros Ho Hls. apply IH in Ho as [H1 H2].
  - split; [done|]. intros He. rewrite (H2 He). by rewrite <- app_assoc.
  - apply Forall_app. split; [done|by repeat constructor].
Qed.

Lemma startBridge_inv cfg st :
  peers_ok cfg (peers st) -> endpoint st = lastIndex (peers st) ->
  (cancelled st = false -> Forall (fun l => ls_open l = true) (listeners st)) -> listeners st <> [] -> negb (cc_AllServices cfg) || allServicesStarted st = true ->
  (benchmarkStarted st = true -> cc_Benchmark cfg = true) ->
  base_inv cfg (startBridge st).1 /\ peers (startBridge st).1 = peers st /\ cpc (startBridge st).1 = cpc st.
Proof.
  intros H1 H2 H3 H4 H5 H6. unfold startBridge. destruct (bridgeStarted st) eqn:Hb; (split; [|done]); split; cbn; rewrite ?Hb, ?H5; done.
Qed.

(** What the bridge is started with, or not at all. *)
Lemma prepare_inv cfg listen chosen : client_inv cfg (prepare cfg listen chosen).1.
Proof.
  assert (peers_ok cfg []) as H0 by (split; intros i p Hi; by rewrite lookup_nil in Hi).
  assert (all_closed []) as H1 by (intros i p Hi; by rewrite lookup_nil in Hi).
  unfold prepare. destruct (ValidateClientServices (cc_Services cfg)); [by apply return_inv|].
  destruct (cc_AllServices cfg && negb (bool_decide (cc_Services cfg = []))); [by apply return_inv|].
  destruct (cc_AllServices cfg && negb (cc_ListenPort cfg =? 0)); [by apply return_inv|].
  set (services := if bool_decide (cc_Services cfg = []) then _ else _).
  assert (services <> []) as Hne by (unfold services; case_bool_decide; done).
  destruct (if cc_AllServices cfg then _ else _) as [ls e] eqn:Ho.
  destruct e as [e|]; [by apply return_inv|].
  assert (Forall (fun l => ls_open l = true) ls /\ (cc_AllServices cfg = true -> ls = []) /\
    (cc_AllServices cfg = false -> ls <> [])) as (L1 & L2 & L3).
  { destruct (cc_AllServices cfg); [injection Ho as <-; by split_and!|].
    apply openListeners_spec in Ho as [Hop Hls]; [|done]. split_and!; [done..|]. intros _.
    rewrite (Hls eq_refl). by destruct services. }
  assert (forall st, peers st = [] -> endpoint st = None -> listeners st = ls -> bridgeStarted st = false ->
    allServicesStarted st = false -> benchmarkStarted st = false -> cpc st = CpSession ->
    client_inv cfg (if cc_AllServices cfg then (st, []) else startBridge st).1) as Hgo.
  { intros st P1 P2 P3 P4 P5 P6 P7. destruct (cc_AllServices cfg) eqn:Ha.
    - unfold client_inv. cbn [fst]. rewrite P7, P1. split; [|done]. split; rewrite ?P1, ?P2, ?P3, ?P4, ?P5, ?P6, ?Ha; try done.
      by rewrite L2.
    - destruct (startBridge_inv cfg st) as (HI & Hp & Hc); rewrite ?P1, ?P2, ?P3, ?P5, ?P6, ?Ha; try done; [by apply L3|].
      unfold client_inv. rewrite Hc, P7, Hp, P1. by split. }
  case_bool_decide; [|by apply Hgo]. destruct (negb (cc_Interactive cfg)); [by apply return_inv|].
  destruct chosen as [e|d]; [by apply return_inv|]. by apply Hgo.
Qed.

Lemma servicesRead_inv cfg st i r listen :
  base_inv cfg st -> peers st <> [] -> cc_AllServices cfg = true -> allServicesStarted st = false ->
  client_inv cfg (servicesRead cfg st i r listen).1.
Proof.
  intros HI Hne Ha Hs. pose proof (closeAndFail_inv cfg st) as Hfail.
  specialize (fun e => Hfail e (bi_peers _ _ HI) (bi_endpoint _ _ HI)). unfold servicesRead. destruct r as [e|advertised]; [apply Hfail|].
  destruct (ClientServicesForAdvertised advertised) as [e|services]; [apply Hfail|].
  case_bool_decide as Hsv; [apply Hfail|].
  destruct HI as [I1 I2 I3 I4 I5 I6]. rewrite Ha, Hs in I5. cbn in I5.
  assert (listeners st = []) as Hl by (destruct (listeners st); [done|]; by rewrite (proj2 I4) in I5).
  rewrite Hl. destruct (openListeners listen [] services) as [ls e] eqn:Ho.
  apply openListeners_spec in Ho as [Hop Hls]; [|done].
  destruct e as [e|].
  - by apply closeAndFail_inv.
  - assert (ls <> []) as Hls0 by (rewrite (Hls eq_refl); by destruct services).
    set (st1 := st <| listeners := ls |>).
    assert (base_inv cfg ((startBridge st1).1 <| allServicesStarted := true |>) /\
      peers (startBridge st1).1 = peers st) as [HI Hp].
    { unfold startBridge, st1. cbn. rewrite I5. cbn. split; [|done]. split; cbn; try done. by rewrite orb_true_r. }
    destruct (startBridge st1) as [st2 eff]. cbn in HI, Hp.
    pose proof (afterBound_inv cfg (st2 <| allServicesStarted := true |>) i HI) as Hab.
    destruct (afterBound cfg _ i) as [st3 eff']. apply Hab. cbn. by rewrite Hp.
Qed.

Lemma BindClient_finish_evolves s connMTU offer e peerCfg m : evolves s (BindClient_finish s connMTU offer e peerCfg m).1.
Proof.
  unfold BindClient_finish. do 2 (case_match; [done|]). pose proof (reconcile_evolves s e) as Hr.
  destruct (reconcilePeerLocked s _) as [s1 [x|]]; [done|]. cbn in *. etrans; [exact Hr|apply negotiate_evolves].
Qed.

(** Storing an evolved link keeps the invariant. *)
Lemma setPeer_evolves cfg st i p l :
  base_inv cfg st -> peers st !! i = Some p -> evolves (p_link p) l -> base_inv cfg (setPeer st i (p <| p_link := l |>)).
Proof. intros HI Hi Hev. apply base_setPeer; [done|]. eapply (peers_ok_update cfg _ i p); [apply HI|done..]. Qed.

Lemma attach_succeeds cfg st i p c connMTU m now l eff :
  base_inv cfg st -> peers st !! i = Some p -> attach (p_link p) c connMTU m now = (l, eff, None) ->
  base_inv cfg (setPeer st i (p <| p_link := l |>)).
Proof.
  intros HI Hi Hat. apply base_setPeer; [done|]. unfold attach in Hat.
  destruct (closed (p_link p)) eqn:Hc; [done|]. injection Hat as <- _.
  apply (peers_ok_insert cfg _ i p _ _ (bi_peers _ _ HI) Hi); [|by rewrite Hc|];
    destruct (ackDirty _); cbn; (done || by rewrite Hc).
Qed.

Lemma attach_failed l c connMTU m now l' eff e : attach l c connMTU m now = (l', eff, Some e) -> l' = l.
Proof. unfold attach. destruct (closed l); [|done]. by intros [= <- _ _]. Qed.

Lemma client_inv_base cfg st : client_inv cfg st -> (forall e, cpc st <> CpReturned e) -> base_inv cfg st.
Proof. unfold client_inv. destruct (cpc st); naive_solver. Qed.

Lemma lastPeer_some st i p : lastPeer st = Some (i, p) -> peers st !! i = Some p /\ peers st <> [].
Proof. intros [Hi Hl]%lastPeer_Some. split; [done|]. intros Hn. by rewrite Hn in Hi. Qed.

Ltac turn_is Ht :=
  apply Some_inj, (f_equal fst) in Ht; cbn [fst] in Ht; rewrite <- Ht; clear Ht.

Lemma endTurn_inv cfg st received st' eff :
  client_inv cfg st -> endTurn st received = Some (st', eff) -> client_inv cfg st'.
Proof.
  intros HI Ht. unfold endTurn in Ht. destruct (negb (cancelled st)); [done|].
  assert ((forall e, cpc st <> CpReturned e) -> client_inv cfg (closeAndFail st (bridgeResult st received)).1) as Hclose.
  { intros Hpc. pose proof (client_inv_base _ _ HI Hpc) as HB. apply closeAndFail_inv; apply HB. }
  destruct (cpc st) eqn:Hpc; try done; turn_is Ht.
  - unfold client_inv in HI. rewrite Hpc in HI. destruct HI as [HI Hc]. apply return_inv; [apply HI..|done].
  - by apply Hclose.
  - by apply Hclose.
Qed.

Lemma newSession_inv cfg st r st' eff :
  client_inv cfg st -> client_turn cfg st (CeSession r) = Some (st', eff) -> client_inv cfg st'.
Proof.
  intros HI Ht. cbn [client_turn] in Ht. destruct (cpc st) eqn:Hpc; try done. destruct (cancelled st); [done|].
  unfold client_inv in HI. rewrite Hpc in HI. destruct HI as [HI Hc].
  destruct r as [e|sid]; cbn [NewSession] in Ht; turn_is Ht; [apply return_inv; [apply HI..|done]|].
  assert (peers st ++ [newClientPeer cfg (NewSessionWithID sid (clientLinkConfig cfg))] <> []) as Hne.
  { intros Hn. by apply app_eq_nil in Hn as [_ ?]. }
  split; [|done]. destruct HI as [I1 I2 I3 I4 I5 I6]. split; cbn -[normalized]; try done.
  - apply peers_ok_snoc; [done|done|done|]. cbn. unfold normalized. by repeat (case_match; cbn).
  - unfold lastIndex. destruct (peers st ++ _) eqn:E; [done|]. rewrite <- E, length_app. f_equal. cbn. lia.
Qed.

(** The session has ended: its mux is closed too. *)
Lemma done_inv cfg st i p :
  base_inv cfg st -> lastPeer st = Some (i, p) -> closed (p_link p) = true ->
  base_inv cfg (setPeer st i (closeMux i p).1) /\ all_closed (peers (setPeer st i (closeMux i p).1)).
Proof.
  intros HI [Hi Hl]%lastPeer_Some Hc. pose proof (closeMux_evolves i p) as Hev.
  assert (closed (p_link (closeMux i p).1) = true) as Hc' by (by apply Hev). split.
  - apply base_setPeer; [done|]. destruct (closeMux i p) as [[l m] eff]. eapply peers_ok_update; [apply HI|done..].
  - cbn. eapply peers_closed_insert; [apply HI|done..].
Qed.

Lemma client_turn_inv cfg st ev st' eff :
  client_inv cfg st -> client_turn cfg st ev = Some (st', eff) -> client_inv cfg st'.
Proof.
  intros HI Ht. destruct ev as [r|e| | |r|r|second e|events|now|r listen|received];
    try (by eapply newSession_inv); try (by eapply endTurn_inv).
  all: cbn [client_turn] in Ht; destruct (lastPeer st) as [[i p]|] eqn:Hl; [|done]; cbn [mbind option_bind] in Ht;
    destruct (lastPeer_some _ _ _ Hl) as [Hi Hne].
  all: destruct (cpc st) as [| | | | | |d|d c m|d c m offer|d c m n| |] eqn:Hpc; try done;
    unfold client_inv in HI; rewrite Hpc in HI; destruct HI as [HI HI'].
  - destruct (cancelled st || _); [done|]. turn_is Ht. apply closeAndFail_inv; apply HI.
  - destruct (cancelled st || negb (closed (p_link p))) eqn:Hc; [done|].
    apply orb_false_iff in Hc as [_ Hc%negb_false_iff].
    destruct (done_inv cfg st i p HI Hl Hc) as [HB Hcl]. destruct (closeMux i p) as [p' eff']. turn_is Ht.
    destruct (cc_Benchmark cfg); [apply return_inv; [apply HB..|done]|].
    destruct HB as [I1 I2 I3 I4 I5 I6]. split; [by split|done].
  - destruct (cancelled st || _); [done|]. turn_is Ht. by apply plain_inv.
  - turn_is Ht. destruct (IsBound (p_link p)); [by apply plain_inv|].
    destruct HI as [I1 I2 I3 I4 I5 I6].
    destruct (selectedDevice st) as [d|]; [apply toConnect_inv; [by split|done]|].
    destruct (lastDevice st) as [d|]; [apply toConnect_inv; [by split|done]|apply plain_inv; [done|by split|done]].
  - turn_is Ht. by apply plain_inv.
  - turn_is Ht. by apply plain_inv.
  - turn_is Ht. destruct (BindClient_hello (p_link p) m) as [e|[first second]]; [by apply attemptFailed_inv|by apply plain_inv].
  - turn_is Ht. destruct r as [e|d]; [by apply plain_inv|by apply toConnect_inv].
  - turn_is Ht. destruct r as [e|[[c m] sid]]; [by apply attemptFailed_inv|]. cbn [fst].
    destruct (resolveID_inv cfg st sid HI) as [HI1 Hp]. apply plain_inv; [done..|by rewrite Hp].
  - turn_is Ht. by apply attemptFailed_inv.
  - destruct (handshakeReply events 0).2 as [[e|[[exp pcfg] pm]]|]; [turn_is Ht; by apply attemptFailed_inv| |done].
    turn_is Ht. pose proof (BindClient_finish_evolves (p_link p) m offer exp pcfg pm) as Hev.
    destruct (BindClient_finish (p_link p) m offer exp pcfg pm) as [l [e|m']]; cbn [fst] in *.
    + apply attemptFailed_inv; [by apply setPeer_evolves|by apply setPeer_some].
    + apply plain_inv; [done|by apply setPeer_evolves|by apply setPeer_some].
  - turn_is Ht. destruct (attach (p_link p) c m n now) as [[l eff2] [e|]] eqn:Hat.
    + apply attach_failed in Hat as ->. apply attemptFailed_inv; [by apply setPeer_evolves|by apply setPeer_some].
    + pose proof (attach_succeeds cfg st i p c m n now l eff2 HI Hi Hat) as HI1.
      pose proof (setPeer_some st i (p <| p_link := l |>) Hne) as Hne1.
      set (st1 := setPeer st i (p <| p_link := l |>)) in *.
      destruct (cc_AllServices cfg && negb (allServicesStarted _)) eqn:Ha.
      * apply andb_true_iff in Ha as [Ha Hs%negb_true_iff]. cbn [fst].
        destruct HI1 as [I1 I2 I3 I4 I5 I6]. split; [by split|]. by split_and!.
      * assert (base_inv cfg (st1 <| lastDevice := Some d |>)) as HI2 by (destruct HI1 as [I1 I2 I3 I4 I5 I6]; by split).
        pose proof (afterBound_inv cfg _ i HI2 Hne1) as Hab. by destruct (afterBound cfg _ i).
  - turn_is Ht. destruct HI' as (_ & Ha & Hs). by apply servicesRead_inv.
Qed.

(** What the goroutines of a session do to it. *)
Lemma link_step_inv cfg st i p l m :
  client_inv cfg st -> peers st !! i = Some p -> evolves (p_link p) l -> client_inv cfg (setPeer st i (mkPeer l m)).
Proof.
  intros HI Hi Hev. assert (peers_ok cfg (peers st) -> peers_ok cfg (<[i := mkPeer l m]> (peers st))) as Hp.
  { intros. by eapply peers_ok_update. }
  assert (all_closed (peers st) -> all_closed (<[i := mkPeer l m]> (peers st))) as Hc.
  { intros Hall j q [(-> & <- & _)|[_ Hj]]%list_lookup_insert_Some; [|by eapply Hall]. apply Hev. by eapply Hall. }
  assert (base_inv cfg st -> base_inv cfg (setPeer st i (mkPeer l m))) as Hb.
  { intros HB. apply base_setPeer; [done|]. apply Hp, HB. }
  pose proof (setPeer_some st i (mkPeer l m)) as Hs.
  unfold client_inv in *. change (cpc (setPeer st i (mkPeer l m))) with (cpc st).
  destruct (cpc st); try (destruct HI as [H1 H2]; split; [by apply Hb|by apply Hs]).
  - destruct HI as [H1 H2]. split; [by apply Hb|by apply Hc].
  - destruct HI as (H1 & H2 & H3). split; [by apply Hb|]. split; [by apply Hs|done].
  - destruct HI as (H1 & H2 & H3 & H4). split_and!; [by apply Hp| |by apply Hc|done].
    cbn. rewrite H2. apply lastIndex_length. by rewrite length_insert.
Qed.

Lemma client_step_inv cfg st eff st' : client_inv cfg st -> client_step cfg st eff st' -> client_inv cfg st'.
Proof.
  intros HI Hstep. destruct Hstep as [st0 ev st1 eff1 Ht|st0 i p o Hi Hbg|st0 i p Hi|st0|st0 j l Hc Hb Hj].
  - by eapply client_turn_inv.
  - apply (link_step_inv cfg st0 i p _ _ HI Hi). by apply ep_run_evolves.
  - by apply (link_step_inv cfg st0 i p _ _ HI Hi).
  - unfold client_inv in *. change (cpc (st0 <| cancelled := true |>)) with (cpc st0).
    destruct (cpc st0); try done; destruct HI as [HB H2]; (split; [|exact H2]); destruct HB; by split.
  - unfold client_inv in *. set (st1 := st0 <| listeners := _ |>). change (cpc st1) with (cpc st0).
    assert (base_inv cfg st0 -> base_inv cfg st1) as HB.
    { intros [I1 I2 I3 I4 I5 I6]. split; try done; [cbn; congruence|]. cbn. rewrite I4, <- !length_zero_iff_nil, length_insert. done. }
    destruct (cpc st0); try (by destruct HI as [? H2]; (split; [by apply HB|exact H2])).
    destruct HI as (R1 & R2 & R3 & R4). split_and!; try done. by apply Forall_insert.
Qed.

Lemma client_loop_inv cfg st : client_reachable cfg st -> client_inv cfg st.
Proof.
  induction 1 as [listen chosen|st eff st' Hr IH Hs]; [apply prepare_inv|by eapply client_step_inv].
Qed.

(** ** What ends a session *)

(** Errors that mean the server forgot the session. *)
Definition forgotten (ev : clientEvent) : Prop :=
  match ev with
  | CeConnected (inl e) | CeSendFailed _ e => RejectionReason e = "resume failed"
  | CeReply events => exists e, (handshakeReply events 0).2 = Some (inl e) /\ RejectionReason e = "resume failed"
  | _ => False
  end.

(** A turn that closes an open session either leaves the loop, or follows an
    answer that means the server forgot the session. *)
Lemma closeAndFail_returned st e st' eff : closeAndFail st e = (st', eff) -> cpc st' = CpReturned e.
Proof. unfold closeAndFail. destruct (closeLast st). by intros [= <- _]. Qed.

Definition opens (st : client) (i : nat) : Prop := exists p, peers st !! i = Some p /\ is_open p.

(** What a turn does to the sessions: nothing, or the last one evolves. *)
Definition keeps (st st' : client) : Prop := forall i, opens st i -> opens st' i.

Lemma keeps_peers st st' : peers st' = peers st -> keeps st st'.
Proof. intros Hp i. unfold opens. by rewrite Hp. Qed.

Lemma keeps_setPeer st i p p' :
  peers st !! i = Some p -> (is_open p -> is_open p') -> keeps st (setPeer st i p').
Proof.
  intros Hi Hop j (q & Hj & Hq). unfold opens. cbn. destruct (decide (i = j)) as [<-|Hne].
  - exists p'. rewrite list_lookup_insert_eq by by eapply lookup_lt_Some. split; [done|]. apply Hop. congruence.
  - exists q. by rewrite list_lookup_insert_ne.
Qed.

Lemma all_closed_keeps st st' : all_closed (peers st) -> keeps st st'.
Proof. intros Hc i (p & Hi & Ho). unfold is_open in Ho. by rewrite (Hc i p Hi) in Ho. Qed.

Lemma BindClient_finish_closed s connMTU offer e peerCfg m :
  closed (BindClient_finish s connMTU offer e peerCfg m).1 = closed s.
Proof.
  unfold BindClient_finish. do 2 (case_match; [done|]).
  assert (closed (reconcilePeerLocked s e).1 = closed s) as Hr by (unfold reconcilePeerLocked; by repeat case_match).
  by destruct (reconcilePeerLocked s e) as [s1 [x|]].
Qed.

Lemma BindClient_finish_reason s connMTU offer e peerCfg m l x :
  BindClient_finish s connMTU offer e peerCfg m = (l, inl x) -> RejectionReason x = "".
Proof.
  unfold BindClient_finish, reconcilePeerLocked, validatePeerExpected. intros Hf.
  repeat (case_match; simplify_eq; try done).
Qed.

Lemma attach_closed l c connMTU m now l' eff : attach l c connMTU m now = (l', eff, None) -> closed l' = false.
Proof. unfold attach. destruct (closed l) eqn:Hc; [done|]. intros [= <- _]. by destruct (ackDirty _). Qed.

(** A failed attempt. *)
Lemma attemptFailed_keeps st c e :
  keeps st (attemptFailed st c e).1 \/ (cpc (attemptFailed st c e).1 = CpSession /\ RejectionReason e = "resume failed").
Proof.
  unfold attemptFailed. case_bool_decide; [right|left; by apply keeps_peers].
  by destruct (closeLast st).
Qed.

Lemma resolveID_peers st d : peers (resolveID st d) = peers st.
Proof. unfold resolveID. by case_match. Qed.

Lemma afterBound_peers cfg st i : peers (afterBound cfg st i).1 = peers st.
Proof. unfold afterBound. by case_match. Qed.

Lemma servicesRead_keeps cfg st i r listen :
  keeps st (servicesRead cfg st i r listen).1 \/ exists e, cpc (servicesRead cfg st i r listen).1 = CpReturned e.
Proof.
  assert (forall st e, exists e', cpc (closeAndFail st e).1 = CpReturned e') as Hfail.
  { intros st0 e. exists e. destruct (closeAndFail st0 e) as [st' eff] eqn:E. by apply closeAndFail_returned in E. }
  unfold servicesRead. destruct r as [e|l]; [right; apply Hfail|]. destruct (ClientServicesForAdvertised l); [right; apply Hfail|].
  case_bool_decide; [right; apply Hfail|]. destruct (openListeners _ _ _) as [ls [e|]]; [right; apply Hfail|]. left.
  assert (peers (startBridge (st <| listeners := ls |>)).1 = peers st) as Hp by (unfold startBridge; by case_match).
  destruct (startBridge _) as [st1 eff1]. cbn in Hp. pose proof (afterBound_peers cfg (st1 <| allServicesStarted := true |>) i) as Ha.
  destruct (afterBound _ _ i) as [st2 eff2]. apply keeps_peers. cbn in *. congruence.
Qed.

Lemma turn_keeps cfg st ev st' eff :
  client_inv cfg st -> client_turn cfg st ev = Some (st', eff) ->
  keeps st st' \/ (exists e, cpc st' = CpReturned e) \/ (cpc st' = CpSession /\ forgotten ev).
Proof.
  intros HI Ht. destruct ev as [r|e| | |r|r|second e|events|now|r listen|received].
  1:{ left. cbn in Ht. destruct (cpc st) eqn:Hpc; try done. destruct (cancelled st); [done|].
      unfold client_inv in HI. rewrite Hpc in HI. apply all_closed_keeps, HI. }
  10:{ right. left. cbn [client_turn] in Ht. unfold endTurn in Ht. destruct (negb (cancelled st)); [done|].
      destruct (cpc st); try done; [by injection Ht as <- _; eexists|..]; injection Ht as Ht; apply closeAndFail_returned in Ht; by eexists. }
  all: cbn [client_turn] in Ht; destruct (lastPeer st) as [[i p]|] eqn:Hl; [|done]; cbn [mbind option_bind] in Ht;
    pose proof Hl as [Hi Hlen]%lastPeer_Some.
  all: destruct (cpc st) as [| | | | | |d|d c m|d c m offer|d c m n| |] eqn:Hpc; try done;
    unfold client_inv in HI; rewrite Hpc in HI; destruct HI as [HI HI'].
  all: assert (closed (p_link p) = true -> forall st2, keeps st st2) as Hclosed by
    (intros Hc st2; apply all_closed_keeps; by eapply last_closed_all; [apply HI|..]).
  - right. left. destruct (cancelled st || _); [done|]. injection Ht as Ht. apply closeAndFail_returned in Ht. by eexists.
  - left. destruct (cancelled st || negb (closed (p_link p))) eqn:Hc; [done|].
    apply orb_false_iff in Hc as [_ Hc%negb_false_iff]. by apply Hclosed.
  - left. destruct (cancelled st || _); [done|]. turn_is Ht. by apply keeps_peers.
  - left. turn_is Ht. apply keeps_peers. unfold toConnect. repeat case_match; try done; cbn; by rewrite resolveID_peers.
  - left. turn_is Ht. by apply keeps_peers.
  - left. turn_is Ht. by apply keeps_peers.
  - left. turn_is Ht. unfold BindClient_hello. destruct (closed (p_link p)) eqn:Hc; [by apply Hclosed|by apply keeps_peers].
  - left. turn_is Ht. destruct r as [e|d]; apply keeps_peers; [done|]. unfold toConnect. cbn. by rewrite resolveID_peers.
  - turn_is Ht. destruct r as [e|[[c m] sid]].
    + destruct (attemptFailed_keeps st None e) as [|[??]]; [by left|right; by right].
    + left. apply keeps_peers. cbn. by rewrite resolveID_peers.
  - turn_is Ht. destruct (attemptFailed_keeps st (Some c) (ErrWrap (if second then "send session resume state: " else "send session identity: ") e "")) as [|[??]]; [by left|right; by right].
  - destruct (handshakeReply events 0).2 as [[e|[[exp pcfg] pm]]|] eqn:Hr; [| |done]; turn_is Ht.
    + destruct (attemptFailed_keeps st (Some c) e) as [|[??]]; [by left|right; right]. split; [done|]. by exists e.
    + left. pose proof (BindClient_finish_closed (p_link p) m offer exp pcfg pm) as Hc.
      destruct (BindClient_finish (p_link p) m offer exp pcfg pm) as [l [e|m']] eqn:Hf; cbn [fst] in *;
        assert (keeps st (setPeer st i (p <| p_link := l |>))) as Hk by
          (eapply keeps_setPeer; [exact Hi|]; unfold is_open; cbn; congruence).
      * apply BindClient_finish_reason in Hf. destruct (attemptFailed_keeps (setPeer st i (p <| p_link := l |>)) (Some c) e) as [Hk'|[_ Hx]]; [|by rewrite Hf in Hx].
        intros j Hj. by apply Hk', Hk.
      * exact Hk.
  - left. turn_is Ht. destruct (attach (p_link p) c m n now) as [[l eff2] [e|]] eqn:Hat.
    + unfold attach in Hat. destruct (closed (p_link p)) eqn:Hc; [by apply Hclosed|done].
    + apply attach_closed in Hat. pose proof (keeps_setPeer st i p (p <| p_link := l |>) Hi (fun _ => Hat)) as Hk.
      set (st1 := setPeer st i (p <| p_link := l |>)) in *. cbn zeta. destruct (cc_AllServices cfg && _); [exact Hk|].
      pose proof (afterBound_peers cfg (st1 <| lastDevice := Some d |>) i) as Hp. destruct (afterBound cfg _ i) as [st2 eff3].
      intros j Hj. unfold opens. cbn [fst] in *. rewrite Hp. by apply Hk.
  - turn_is Ht. destruct (servicesRead_keeps cfg st i r listen); [by left|right; by left].
Qed.

(** ** Runs of the loop *)

Fixpoint run_client (cfg : ClientConfig) (st : client) (evs : list clientEvent) : option (client * list clientEffect) :=
  match evs with
  | [] => Some (st, [])
  | ev :: evs =>
      '(st, eff) ← client_turn cfg st ev;
      '(st, eff') ← run_client cfg st evs;
      Some (st, eff ++ eff')
  end.

Lemma run_client_reachable cfg st evs st' eff :
  client_reachable cfg st -> run_client cfg st evs = Some (st', eff) -> client_reachable cfg st'.
Proof.
  revert st eff. induction evs as [|ev evs IH]; intros st eff Hr; cbn; [by intros [= <- _]|].
  destruct (client_turn cfg st ev) as [[st1 eff1]|] eqn:Ht; [|done]. cbn.
  destruct (run_client cfg st1 evs) as [[st2 eff2]|] eqn:Hn; [|done]. cbn. intros [= <- _].
  eapply IH; [|done]. eapply CtStep; [done|]. by eapply CtLoop.
Qed.

(** The two turns of [BindClient] from its HELLO on, once the answer is there. *)
Lemma bind_turns cfg st i q d c connMTU ack expected peerCfg m now :
  lastPeer st = Some (i, q) -> is_open q -> cpc st = CpReply d c connMTU (config (p_link q)) ->
  (handshakeReply [EvPacket ack] 0).2 = Some (inr (expected, peerCfg, m)) ->
  Compression peerCfg = Compression (config (p_link q)) -> txBase (p_link q) <= expected <= txNext (p_link q) ->
  exists st' eff l b,
    run_client cfg st [CeReply [EvPacket ack]; CeAttach now] = Some (st', eff) /\
    peers st' = <[i := q <| p_link := l |>]> (peers st) /\ lastDevice st' = Some d /\
    current l = Some b /\ conn b = c /\ resumed (p_link q) l expected.
Proof.
  intros Hl Hop Hpc Hr Hcomp He. pose proof Hl as [Hi Hlen]%lastPeer_Some.
  destruct (BindClient_resumes (p_link q) connMTU expected peerCfg m c now Hop Hcomp He)
    as (l1 & m' & l2 & eff & b & Hf & Hat & Hb & Hconn & Hres).
  set (st1 := (setPeer st i (q <| p_link := l1 |>)) <| cpc := CpAttach d c connMTU m' |>).
  assert (client_turn cfg st (CeReply [EvPacket ack]) = Some (st1, [])) as H1.
  { cbn [client_turn]. rewrite Hl, Hpc. cbn [mbind option_bind]. rewrite Hr. by rewrite Hf. }
  assert (lastPeer st1 = Some (i, q <| p_link := l1 |>)) as Hl1.
  { apply lastPeer_Some. cbn. rewrite list_lookup_insert_eq, length_insert by by eapply lookup_lt_Some. done. }
  cbn [run_client]. rewrite H1. cbn [mbind option_bind client_turn]. rewrite Hl1. cbn [mbind option_bind].
  change (cpc st1) with (CpAttach d c connMTU m').
  change (p_link (q <| p_link := l1 |>)) with l1. cbn iota. rewrite Hat. cbn zeta.
  set (st2 := (setPeer st1 i _) <| lastDevice := Some d |>).
  assert (peers st2 = <[i := q <| p_link := l2 |>]> (peers st)) as Hp2.
  { unfold st2, st1. cbn. by rewrite list_insert_insert_eq. }
  destruct (cc_AllServices cfg && negb (allServicesStarted st2)); [cbn; by eexists _, _, l2, b|].
  pose proof (afterBound_peers cfg st2 i) as Ha.
  assert (lastDevice (afterBound cfg st2 i).1 = Some d) as Hd by (unfold afterBound; by case_match).
  destruct (afterBound cfg st2 i) as [st3 eff3]. cbn in *. exists st3. eexists. exists l2, b. split; [reflexivity|]. by rewrite Ha, Hp2.
Qed.

(** * Properties *)


(** C6. The client never drops a session that could still be resumed: a turn of
    its loop after which an open session is closed is one after which
    [RunClient] returns, or one in which the server answered that it no longer
    has the session; every other failure — no server found, no connection, a
    broken or rejected handshake — leaves it open for the next attempt. *)
Theorem client_keeps_session cfg st ev st' eff i p :
  client_reachable cfg st -> client_turn cfg st ev = Some (st', eff) ->
  peers st !! i = Some p -> is_open p ->
  (exists p', peers st' !! i = Some p' /\ is_open p') \/
  (exists e, cpc st' = CpReturned e) \/ (cpc st' = CpSession /\ forgotten ev).
Proof.
  intros Hr Ht Hi Hop. destruct (turn_keeps cfg st ev st' eff (client_loop_inv _ _ Hr) Ht) as [Hk|H]; [left|by right].
  apply Hk. by exists p.
Qed.

(** ** Witnesses *)

Definition demoClientCfg : ClientConfig := mkClientConfig 8080 [] false "AA:BB" (60 * Second) 32 false false false.
Definition demoClientSid : SessionID := replicate 16 Byte.x11.
Definition demoServerDevice : Device := mkDevice "AA:BB" "" "server" (-50) true [] [] [] 7 None 0.
Definition demoAck : bytes := encodeHelloAck 0 (normalized (mkConfig 0 0 0 false)) 185.
Definition demoStart : client := (prepare demoClientCfg (fun _ => None) (inl (Sent EOF))).1.
Definition demoDial : list clientEvent :=
  [CeSession (inr demoClientSid); CeRun; CeRun; CeFound (inr demoServerDevice); CeConnected (inr (0%nat, 185, "")); CeRun].
Definition demoBind : list clientEvent := demoDial ++ [CeReply [EvPacket demoAck]; CeAttach Second].
Definition demoRun (evs : list clientEvent) : client :=
  match run_client demoClientCfg demoStart evs with Some (st, _) => st | None => demoStart end.

Lemma demoRun_reachable evs : client_reachable demoClientCfg (demoRun evs).
Proof.
  unfold demoRun. destruct (run_client demoClientCfg demoStart evs) as [[st eff]|] eqn:E; [|apply CtInit].
  eapply run_client_reachable; [apply CtInit|exact E].
Qed.

(** The link bound by [demoBind], detached again. *)
Definition demoDetach (st : client) : client :=
  match peers st with
  | p :: _ => setPeer st 0 (p <| p_link := oc_session (ep_run (p_link p) (OFail 1 (2 * Second) (ErrNew "gone"))) |>)
  | [] => st
  end.
Definition demoLost : client := demoDetach (demoRun demoBind).


Definition demoLostPeer : peer := match peers demoLost with p :: _ => p | [] => newClientPeer demoClientCfg (NewSessionWithID [] (mkConfig 0 0 0 false)) end.



(** The server refuses for the time being: the session stays. *)
Definition demoBusy : client := demoRun demoDial.
Definition demoBusyTurn : client * list clientEffect :=
  default (demoBusy, []) (client_turn demoClientCfg demoBusy (CeReply [EvPacket (SendReject "server busy")])).
Definition demoBusyPeer : peer := match peers demoBusy with p :: _ => p | [] => demoLostPeer end.

Lemma client_keeps_session_witness :
  exists p', peers demoBusyTurn.1 !! 0%nat = Some p' /\ is_open p'.
Proof.
  destruct (client_keeps_session demoClientCfg demoBusy (CeReply [EvPacket (SendReject "server busy")])
    demoBusyTurn.1 demoBusyTurn.2 0 demoBusyPeer) as [H|[[e He]|[H _]]].
  - apply demoRun_reachable.
  - vm_compute. reflexivity.
  - vm_compute. reflexivity.
  - vm_compute. reflexivity.
  - exact H.
  - exfalso. revert He. vm_compute. discriminate.
  - exfalso. revert H. vm_compute. discriminate.
Defined.
