(* ===== verification/Reconnect.v ===== *)
(** * Reconnecting: both loops together
    (internal/app/client.go and internal/app/server.go)

    The client's loop and the server's accept loop run against each other: the
    packets one sends are the packets the other receives.  After a detachment
    one exchange binds both sessions again, with nothing lost on either side. *)

From S2P Require Import ServerLoop ClientLoop BleScan.

Lemma hello_read id expected cfg connMTU first second e :
  encodeHello id expected cfg connMTU = (first, second) -> zlen id = 16 -> config_ok cfg -> 0 <= expected < 2 ^ 64 ->
  (ReadHello [first; second] e).1 = inr (wire_hello id expected cfg connMTU).
Proof.
  intros He Hid Hcfg Hexp. assert (first = encodeHelloID id) as -> by (unfold encodeHello in He; by simplify_eq).
  assert (second = (encodeHello id expected cfg connMTU).2) as -> by by rewrite He.
  unfold ReadHello. cbn [readHelloLoop]. rewrite readHelloPacket_id by done.
  cbn [readHelloLoop]. by rewrite (readHelloPacket_hello _ id).
Qed.

Lemma ack_read expected cfg m :
  config_ok cfg -> 0 <= expected < 2 ^ 64 ->
  (handshakeReply [EvPacket (encodeHelloAck expected cfg m)] 0).2 = Some (inr (expected, wire_config cfg, normalizeMTU m)).
Proof.
  intros Hcfg He. cbn [handshakeReply]. rewrite decodeHelloAck_encode_aux by done.
  assert (bool_decide (at_ (encodeHelloAck expected cfg m) 0 = packetReject) = false) as -> by by apply bool_decide_eq_false_2.
  by rewrite andb_false_r.
Qed.

(** The client's turns from [Connect] to its HELLO. *)
Lemma dial_turns cfg st j q d c connMTU sid :
  lastPeer st = Some (j, q) -> is_open q -> cpc st = CpConnect d ->
  exists st1 first second,
    encodeHello (id (p_link q)) (rxNext (p_link q)) (config (p_link q)) connMTU = (first, second) /\
    run_client cfg st [CeConnected (inr (c, connMTU, sid)); CeRun] =
      Some (st1, [CPeer (PSend c first); CPeer (PSend c second)]) /\
    peers st1 = peers st /\ cpc st1 = CpReply d c connMTU (config (p_link q)).
Proof.
  intros Hl Hop Hpc. destruct (encodeHello _ _ _ _) as [first second] eqn:He.
  set (st0 := (resolveID st sid) <| cpc := CpHello d c connMTU |>).
  assert (peers st0 = peers st) as Hp by (unfold st0; cbn; apply resolveID_peers).
  assert (lastPeer st0 = Some (j, q)) as Hl0 by (unfold lastPeer in *; by rewrite Hp).
  exists (st0 <| cpc := CpReply d c connMTU (config (p_link q)) |>), first, second. split; [done|]. split; [|done].
  cbn [run_client client_turn]. rewrite Hl, Hpc. cbn [mbind option_bind]. fold st0.
  rewrite Hl0. cbn [mbind option_bind]. change (cpc st0) with (CpHello d c connMTU). cbn iota.
  unfold BindClient_hello, is_open in *. rewrite Hop, He. done.
Qed.

(** * Properties *)

(** C8. After a detachment the two loops bind both sessions again and nothing is
    lost: for a server waiting in [Accept] with an open session and a client
    about to connect with its open session of the same identity, whose offsets
    fit each other's retained data, the client's HELLO is accepted, the server's
    answer is accepted, both links are bound to the new connections, everything
    received on either side is kept, and every byte the other side has not
    received is still there to be sent. *)
Theorem reconnect_resumes scfg sst ccfg cst i p j q d c connMTU sid c' connMTU' e now now' :
  server_reachable scfg sst -> pc sst = PcAccept -> currentLink sst = Some i ->
  sessions sst !! i = Some p -> is_open p ->
  cpc cst = CpConnect d -> lastPeer cst = Some (j, q) -> is_open q ->
  id (p_link q) = id (p_link p) -> zlen (id (p_link q)) = 16 ->
  config_ok (config (p_link p)) -> config_ok (config (p_link q)) ->
  Compression (config (p_link q)) = Compression (config (p_link p)) ->
  0 <= txBase (p_link p) <= rxNext (p_link q) -> rxNext (p_link q) <= txNext (p_link p) < 2 ^ 64 ->
  0 <= txBase (p_link q) <= rxNext (p_link p) -> rxNext (p_link p) <= txNext (p_link q) < 2 ^ 64 ->
  exists first second ack cst1 sst' seff cst' ceff p' q' bp bq,
    run_client ccfg cst [CeConnected (inr (c, connMTU, sid)); CeRun] =
      Some (cst1, [CPeer (PSend c first); CPeer (PSend c second)]) /\
    run_loop scfg sst [EvAccept c' connMTU' [first; second] e; EvBind; EvAcked None now'] =
      Some (sst', SSend c' ack :: seff) /\
    run_client ccfg cst1 [CeReply [EvPacket ack]; CeAttach now] = Some (cst', ceff) /\
    sessions sst' = <[i := p']> (sessions sst) /\ peers cst' = <[j := q']> (peers cst) /\
    current (p_link p') = Some bp /\ conn bp = c' /\ current (p_link q') = Some bq /\ conn bq = c /\
    resumed (p_link p) (p_link p') (rxNext (p_link q)) /\ resumed (p_link q) (p_link q') (rxNext (p_link p)).
Proof.
  intros Hr Hpc Hcur Hi Hop Hcpc Hl Hoq Hid Hlen Hokp Hokq Hcomp H1 H2 H3 H4.
  destruct (dial_turns ccfg cst j q d c connMTU sid Hl Hoq Hcpc) as (cst1 & first & second & Henc & Hdial & Hp1 & Hpc1).
  pose proof (hello_read _ _ _ _ _ _ e Henc Hlen Hokq ltac:(lia)) as Hread.
  destruct (resume_turns scfg sst i p c' connMTU' [first; second] e _ now' (server_reachable_inv _ _ Hr) Hpc Hcur Hi Hop Hread)
    as (l1 & m & l2 & seff & bp & Hrun & Hc1 & Hok1 & Hbp & Hconnp & Hresp); [done..|cbn; lia|].
  pose proof (ack_read (rxNext (p_link p)) (config l1) m (Hok1 Hokp) ltac:(lia)) as Hack.
  assert (lastPeer cst1 = Some (j, q)) as Hl1 by (unfold lastPeer in *; by rewrite Hp1).
  destruct (bind_turns ccfg cst1 j q d c connMTU _ _ _ _ now Hl1 Hoq Hpc1 Hack) as (cst' & ceff & lq & bq & Hbind & Hp2 & _ & Hbq & Hconnq & Hresq);
    [cbn; congruence|lia|].
  do 7 eexists. exists ceff, (p <| p_link := l2 |>), (q <| p_link := lq |>), bp, bq.
  split; [exact Hdial|]. split; [exact Hrun|]. split; [exact Hbind|]. rewrite Hp1 in Hp2. split_and!; done.
Qed.

(** ** Witness *)

(** The server that lost its connection, and its client about to reconnect. *)
Definition demoReconnecting : client :=
  match run_client demoClientCfg demoLost [CeRun; CeRun] with Some (st, _) => st | None => demoLost end.

Lemma reconnect_resumes_witness :
  exists first second ack cst1 sst' seff cst' ceff,
    run_client demoClientCfg demoReconnecting [CeConnected (inr (5%nat, 185, "")); CeRun] =
      Some (cst1, [CPeer (PSend 5 first); CPeer (PSend 5 second)]) /\
    run_loop demoCfg demoDetached [EvAccept 9 244 [first; second] closedConn; EvBind; EvAcked None (5 * Second)] =
      Some (sst', SSend 9 ack :: seff) /\
    run_client demoClientCfg cst1 [CeReply [EvPacket ack]; CeAttach (5 * Second)] = Some (cst', ceff).
Proof.
  pose proof (reconnect_resumes demoCfg demoDetached demoClientCfg demoReconnecting 0 demoDetachedPeer 0 demoLostPeer
    demoServerDevice 5 185 "" 9 244 closedConn (5 * Second) (5 * Second) demoDetached_reachable) as H.
  do 9 specialize (H ltac:(vm_compute; reflexivity)).
  do 2 specialize (H ltac:(vm_compute; split_and!; (reflexivity || discriminate))).
  specialize (H ltac:(vm_compute; reflexivity)).
  do 4 specialize (H ltac:(vm_compute; split_and!; (reflexivity || discriminate))).
  destruct H as (first & second & ack & cst1 & sst' & seff & cst' & ceff & _ & _ & _ & _ & A & B & D & _).
  exists first, second, ack, cst1, sst', seff, cst', ceff. split; [exact A|]. split; [exact B|exact D].
Defined.
