(* ===== verification/Benchmark.v ===== *)
(** * The throughput benchmark
    (internal/app/benchmark.go)

    The option parser and the stream plan, the handshake of one benchmark
    stream, and its two pumps.  The pumps are a machine of four program
    counters — the sending loop, its acknowledgement reader, the receiving loop
    and the bytes in flight between them — whose steps interleave freely; the
    connection between them delivers bytes in order, which is what a stream
    promises (MuxPipe), and may fail at any call. *)

From S2P Require Export GoErrors.
From S2P Require Import GoStrings.

Definition benchmarkMagic : string := "LBNBBEN1".
Definition benchmarkBlockSize : Z := 16 * 1024.
Definition benchmarkOutstandingWindow : Z := 256 * 1024.
Definition benchmarkReady : byte := Byte.x01.
Definition benchmarkStart : byte := Byte.x01.

(** ** Directions *)

Inductive benchmarkDirection := benchmarkUpload | benchmarkDownload | benchmarkBoth.

#[export] Instance benchmarkDirection_eq_dec : EqDecision benchmarkDirection.
Proof. solve_decision. Defined.

(** The constants, from [iota + 1]. *)
Definition direction_byte (d : benchmarkDirection) : byte :=
  match d with benchmarkUpload => Byte.x01 | benchmarkDownload => Byte.x02 | benchmarkBoth => Byte.x03 end.

Definition parseBenchmarkDirection (value : string) : result benchmarkDirection :=
  let s := bytes_str (to_lower_byte <$> str_bytes (TrimSpace value)) in
  if bool_decide (s = "upload") || bool_decide (s = "tx") then inr benchmarkUpload
  else if bool_decide (s = "download") || bool_decide (s = "rx") then inr benchmarkDownload
  else if bool_decide (s = "both") || bool_decide (s = "bidirectional") then inr benchmarkBoth
  else inl (ErrNew "--direction must be upload, download, or both").

(** The directions of one turn of the loop over [connections]. *)
Definition directionTurn (d : benchmarkDirection) : list benchmarkDirection :=
  (if bool_decide (d = benchmarkUpload) || bool_decide (d = benchmarkBoth) then [benchmarkUpload] else []) ++
  (if bool_decide (d = benchmarkDownload) || bool_decide (d = benchmarkBoth) then [benchmarkDownload] else []).

Definition benchmarkDirections (value : string) (connections : Z) : result (list benchmarkDirection) :=
  if (connections <=? 0) || (32 <? connections)
  then inl (ErrNew "benchmark connections must be between 1 and 32")
  else
    let? d := parseBenchmarkDirection value in
    let streamCount := if bool_decide (d = benchmarkBoth) then connections * 2 else connections in
    if 32 <? streamCount then inl (ErrNew "bidirectional benchmarks support at most 16 streams per direction")
    else inr (concat (replicate (Z.to_nat connections) (directionTurn d))).

Definition ValidateBenchmarkDirection (value : string) : err :=
  match parseBenchmarkDirection value with inl e => Some e | inr _ => None end.

Definition ValidateBenchmarkConnections (direction : string) (connections : Z) : err :=
  match benchmarkDirections direction connections with inl e => Some e | inr _ => None end.

Definition benchmarkDirectionName (d : benchmarkDirection) : string :=
  match d with benchmarkUpload => "upload" | benchmarkDownload => "download" | benchmarkBoth => "both" end.

Record BenchmarkClientConfig := mkBenchmarkConfig {
  bc_Direction : string;
  bc_Duration : Z;
  bc_DialTimeout : Z;
  bc_Connections : Z;
  bc_StatsInterval : Z;
  bc_StatsTUI : bool
}.

(** ** The handshake *)

Definition benchmarkHeader (d : benchmarkDirection) : bytes := str_bytes benchmarkMagic ++ [direction_byte d].

(** What one end does with its connection: a write, or a read with its outcome. *)
Inductive benchEnd :=
  | BWaitHeader                        (* responder: the header *)
  | BWaitStart (d : benchmarkDirection)  (* responder: the start marker *)
  | BServe (d : benchmarkDirection)    (* responder: its pump *)
  | BFailed (e : error).

(** [handleBenchmarkConnection], one [io.ReadFull] or [writeFull] at a time:
    what it read, and what it writes next. *)
Definition responderRead (st : benchEnd) (r : result bytes) : benchEnd * option bytes :=
  match st with
  | BWaitHeader =>
      match r with
      | inl e => (BFailed (ErrWrap "read benchmark handshake: " e ""), None)
      | inr header =>
          if negb (bool_decide (slice_to header (slen benchmarkMagic) = str_bytes benchmarkMagic))
          then (BFailed (ErrNew "invalid benchmark handshake"), None)
          else if bool_decide (at_ header (slen benchmarkMagic) = direction_byte benchmarkUpload)
          then (BWaitStart benchmarkUpload, Some [benchmarkReady])
          else if bool_decide (at_ header (slen benchmarkMagic) = direction_byte benchmarkDownload)
          then (BWaitStart benchmarkDownload, Some [benchmarkReady])
          else (BFailed (ErrNew "invalid benchmark stream direction"), None)
      end
  | BWaitStart d =>
      match r with
      | inl e => (BFailed (ErrWrap "wait for benchmark start: " e ""), None)
      | inr start =>
          if negb (bool_decide (at_ start 0 = benchmarkStart))
          then (BFailed (ErrNew "invalid benchmark start marker"), None) else (BServe d, None)
      end
  | _ => (st, None)
  end.

(** The client's check of the readiness marker. *)
Definition readinessChecked (r : result bytes) : err :=
  match r with
  | inl e => Some (ErrWrap "wait for benchmark responder: " e "")
  | inr ready =>
      if negb (bool_decide (at_ ready 0 = benchmarkReady)) then Some (ErrNew "invalid benchmark readiness marker") else None
  end.

(** ** The payload: xorshift on 64 bits *)

Definition xorshift (state : Z) : Z :=
  let state := Z.lxor state (u64 (Z.shiftl state 13)) in
  let state := Z.lxor state (Z.shiftr state 7) in
  Z.lxor state (u64 (Z.shiftl state 17)).

Fixpoint fillPayload (n : nat) (state : Z) : bytes :=
  match n with
  | O => []
  | S n => let state := xorshift state in z_byte state :: fillPayload n state
  end.

Definition fillBenchmarkPayload (n : nat) : bytes := fillPayload n 0x9e3779b97f4a7c15.

(** ** Errors that end a benchmark normally *)

Definition cleanBenchmarkSessionError (e : error) : bool :=
  errors_Is e EOF || errors_Is e ErrUnexpectedEOF || errors_Is e ErrClosedPipe || errors_Is e NetErrClosed
  || errors_Is e ErrSessionClosed.

Definition cleanBenchmarkServerError (e : err) : err :=
  match e with
  | None => None
  | Some e =>
      if errors_Is e EOF || errors_Is e ErrUnexpectedEOF || errors_Is e NetErrClosed || errors_Is e ErrClosedPipe
         || errors_Is e ErrSessionClosed then None
      else if bool_decide (error_text e = "stream closed") then None else Some e
  end.

(** ** The pumps *)

Inductive sendPc :=
  | SpCheck                      (* the critical section of the sending loop *)
  | SpWrite (rest : Z)           (* writeFull: bytes of the block still to write *)
  | SpWait                       (* <-wake *)
  | SpReturned (e : error).

Inductive ackPc :=
  | ApRead                       (* io.ReadFull of 8 bytes *)
  | ApCount (delta : Z)          (* addConfirmed *)
  | ApSignal (last : bool)       (* signal() *)
  | ApEnd.

Inductive recvPc :=
  | RpRead
  | RpAck (rest : bytes) (e : err)   (* writeFull of the acknowledgement; Read's error *)
  | RpReturned (e : error).

Record pump := mkPump {
  sent : Z;
  confirmed : Z;
  sendErr : err;                 (* state.err *)
  wake : bool;                   (* a token is in the channel *)
  s_pc : sendPc;
  a_pc : ackPc;
  countedTX : Z;                 (* what addConfirmed was given *)
  data : Z;                      (* payload bytes in flight; nobody looks at them *)
  acks : bytes;                  (* acknowledgement bytes in flight *)
  total : Z;
  acknowledged : Z;
  countedRX : Z;
  r_pc : recvPc
}.

#[export] Instance eta_pump : Eta pump := fun s =>
  mkPump (sent s) (confirmed s) (sendErr s) (wake s) (s_pc s) (a_pc s) (countedTX s) (data s) (acks s)
    (total s) (acknowledged s) (countedRX s) (r_pc s).

Definition newPump : pump := mkPump 0 0 None false SpCheck ApRead 0 0 [] 0 0 0 RpRead.

(** The outcome of a call on the connection; [n] bytes and an error. *)
Inductive pumpTurn :=
  | TSend                        (* a step of the sending loop that is not a write *)
  | TWrite (n : Z) (e : err)
  | TAck (e : err)               (* the acknowledgement reader, its read's outcome *)
  | TRead (n : Z) (e : err)
  | TWriteAck (n : Z) (e : err).

Definition errInvalidAck : error := ErrNew "invalid benchmark acknowledgement".

(** [pumpBenchmarkSend]. *)
Definition send_step (s : pump) (t : pumpTurn) : option pump :=
  match s_pc s, t with
  | SpCheck, TSend =>
      Some match sendErr s with
           | Some e => s <| s_pc := SpReturned e |>
           | None =>
               let outstanding := u64 (sent s - confirmed s) in
               if benchmarkOutstandingWindow <=? outstanding then s <| s_pc := SpWait |>
               else
                 let block := Z.min benchmarkBlockSize (benchmarkOutstandingWindow - outstanding) in
                 s <| sent := u64 (sent s + block) |> <| s_pc := SpWrite block |>
           end
  | SpWait, TSend => if wake s then Some (s <| wake := false |> <| s_pc := SpCheck |>) else None
  | SpWrite rest, TWrite n e =>
      if (n <? 0) || (rest <? n) then None
      else
        let s := s <| data := data s + n |> in
        Some match e with
             | Some e => s <| s_pc := SpReturned e |>
             | None => if n =? 0 then s <| s_pc := SpReturned (Sent ErrNoProgress) |>
                       else if rest =? n then s <| s_pc := SpCheck |> else s <| s_pc := SpWrite (rest - n) |>
             end
  | _, _ => None
  end.

(** The acknowledgement reader. *)
Definition ack_step (s : pump) (t : pumpTurn) : option pump :=
  match a_pc s, t with
  | ApRead, TAck (Some e) => Some (s <| sendErr := Some e |> <| a_pc := ApSignal true |>)
  | ApRead, TAck None =>
      if zlen (acks s) <? 8 then None
      else
        let total := be_get (slice_to (acks s) 8) in
        let s := s <| acks := slice_from (acks s) 8 |> in
        Some (if (total <? confirmed s) || (sent s <? total)
              then s <| sendErr := Some errInvalidAck |> <| a_pc := ApSignal true |>
              else s <| confirmed := total |> <| a_pc := ApCount (total - confirmed s) |>)
  | ApCount delta, TAck None =>
      Some (s <| countedTX := (if 0 <? delta then u64 (countedTX s + delta) else countedTX s) |> <| a_pc := ApSignal false |>)
  | ApSignal last, TAck None => Some (s <| wake := true |> <| a_pc := (if last : bool then ApEnd else ApRead) |>)
  | _, _ => None
  end.

(** What follows one [Read]'s bytes. *)
Definition afterRead (s : pump) (e : err) : pump :=
  match e with Some e => s <| r_pc := RpReturned e |> | None => s <| r_pc := RpRead |> end.

(** [pumpBenchmarkReceive]. *)
Definition recv_step (s : pump) (t : pumpTurn) : option pump :=
  match r_pc s, t with
  | RpRead, TRead n e =>
      if (n <? 0) || (Z.min (data s) benchmarkBlockSize <? n) then None
      else Some (if 0 <? n then
        let s := s <| data := data s - n |> <| total := u64 (total s + n) |> <| countedRX := u64 (countedRX s + n) |> in
        if benchmarkBlockSize <=? u64 (total s - acknowledged s) then s <| r_pc := RpAck (be_put 8 (total s)) e |>
        else afterRead s e
      else afterRead s e)
  | RpAck rest e, TWriteAck n we =>
      if (n <? 0) || (zlen rest <? n) then None
      else
        let s := s <| acks := acks s ++ slice_to rest n |> in
        Some match we with
             | Some we => s <| r_pc := RpReturned we |>
             | None => if n =? 0 then s <| r_pc := RpReturned (Sent ErrNoProgress) |>
                       else if zlen rest =? n then afterRead (s <| acknowledged := total s |>) e
                       else s <| r_pc := RpAck (slice_from rest n) e |>
             end
  | _, _ => None
  end.

Definition pump_step (s : pump) (t : pumpTurn) : option pump :=
  match t with
  | TSend | TWrite _ _ => send_step s t
  | TAck _ => ack_step s t
  | TRead _ _ | TWriteAck _ _ => recv_step s t
  end.

(** Reachable while fewer than 2^64 bytes are sent. *)
Definition in_range (s : pump) : Prop := sent s + benchmarkOutstandingWindow < 2 ^ 64.

Inductive pump_reachable : pump -> Prop :=
  | PrInit : pump_reachable newPump
  | PrStep s t s' : pump_reachable s -> in_range s -> pump_step s t = Some s' -> pump_reachable s'.

(** * The pumps' invariant *)

(** Increasing totals above [c], and the last of them. *)
Fixpoint chain (c : Z) (ts : list Z) : Prop :=
  match ts with [] => True | t :: ts => c < t /\ chain t ts end.
Fixpoint chain_end (c : Z) (ts : list Z) : Z := match ts with [] => c | t :: ts => chain_end t ts end.

Lemma chain_le c ts : chain c ts -> c <= chain_end c ts.
Proof. revert c. induction ts as [|t ts IH]; cbn; [lia|]. intros c [H1 H2]. specialize (IH t H2). lia. Qed.

Lemma chain_snoc c ts t : chain c ts -> chain_end c ts < t -> chain c (ts ++ [t]).
Proof. revert c. induction ts as [|x ts IH]; cbn; [done|]. intros c [H1 H2] H3. split; [done|by apply IH]. Qed.

Lemma chain_end_snoc c ts t : chain_end c (ts ++ [t]) = t.
Proof. revert c. induction ts as [|x ts IH]; cbn; [done|]. intros c. apply IH. Qed.

Definition encodeAcks (ts : list Z) : bytes := concat (be_put 8 <$> ts).

Lemma encodeAcks_snoc ts t : encodeAcks (ts ++ [t]) = encodeAcks ts ++ be_put 8 t.
Proof. unfold encodeAcks. rewrite fmap_app, concat_app. cbn. by rewrite app_nil_r. Qed.

Lemma zlen_encodeAcks ts : zlen (encodeAcks ts) = 8 * zlen ts.
Proof.
  induction ts as [|t ts IH]; [done|]. change (encodeAcks (t :: ts)) with (be_put 8 t ++ encodeAcks ts).
  rewrite zlen_app, zlen_be_put, zlen_cons, IH. lia.
Qed.

(** What the sending loop still writes of its block. *)
Definition unwritten (s : pump) : Z := match s_pc s with SpWrite rest => rest | _ => 0 end.
Definition uncounted (s : pump) : Z := match a_pc s with ApCount delta => delta | _ => 0 end.

Definition sending (s : pump) : Prop := forall e, s_pc s <> SpReturned e.
Definition receiving (s : pump) : Prop := forall e, r_pc s <> RpReturned e.

(** The acknowledgements under way: those in flight ([ak]), and the one being
    written; [cf], [tt], [an] are [confirmed], [total] and [acknowledged]. *)
Record acks_inv (cf : Z) (ak : bytes) (rp : recvPc) (tt an : Z) (ts : list Z) (tail : bytes) : Prop := {
  ai_bytes : ak ++ tail = encodeAcks ts;
  ai_tail : match rp with RpRead => tail = [] | RpAck rest _ => tail = rest /\ rest <> [] | RpReturned _ => True end;
  ai_chain : chain cf ts;
  ai_end : match rp with
           | RpRead => chain_end cf ts = an
           | RpAck _ _ => chain_end cf ts = tt
           | RpReturned _ => chain_end cf ts <= tt
           end
}.
Definition acks_ok (cf : Z) (ak : bytes) (rp : recvPc) (tt an : Z) : Prop := exists ts tail, acks_inv cf ak rp tt an ts tail.

Record pump_inv (s : pump) : Prop := {
  pi_data : 0 <= data s;
  pi_unwritten : 0 <= unwritten s <= benchmarkBlockSize;
  pi_writing : forall rest, s_pc s = SpWrite rest -> 0 < rest;
  pi_sent : total s + data s + unwritten s <= sent s;
  pi_exact : sending s -> total s + data s + unwritten s = sent s;
  pi_confirmed : 0 <= confirmed s;
  pi_window : sent s - confirmed s <= benchmarkOutstandingWindow;
  pi_range : sent s < 2 ^ 64;
  pi_acks : acks_ok (confirmed s) (acks s) (r_pc s) (total s) (acknowledged s);
  pi_acked : 0 <= acknowledged s <= total s /\
    (r_pc s = RpRead -> total s - acknowledged s < benchmarkBlockSize);
  pi_tx : countedTX s + uncounted s = confirmed s /\ 0 <= uncounted s /\ 0 <= countedTX s;
  pi_rx : countedRX s = total s;
  pi_err : match a_pc s with ApSignal true | ApEnd => is_Some (sendErr s) | _ => sendErr s = None end;
  pi_wait : s_pc s = SpWait -> wake s = false -> a_pc s = ApRead \/ a_pc s = ApEnd ->
    sendErr s = None /\ benchmarkOutstandingWindow <= sent s - confirmed s
}.

Lemma confirmed_le s : pump_inv s -> confirmed s <= total s.
Proof.
  intros HI. destruct (pi_acks _ HI) as (ts & tail & [_ _ A3 A4]). apply chain_le in A3.
  destruct (pi_acked _ HI) as [[_ Ha] _]. destruct (r_pc s); lia.
Qed.

Lemma newPump_inv : pump_inv newPump.
Proof. split; cbn; try done; try lia. exists [], []. by split. Qed.

#[local] Arguments u64 : simpl never.
#[local] Arguments benchmarkBlockSize : simpl never.
#[local] Arguments benchmarkOutstandingWindow : simpl never.

Lemma sizes : 0 < benchmarkBlockSize /\ benchmarkBlockSize < benchmarkOutstandingWindow.
Proof. done. Qed.

(** A step of the sending loop. *)
Lemma send_inv s t s' : pump_inv s -> in_range s -> send_step s t = Some s' -> pump_inv s'.
Proof.
  intros HI Hr Hs. pose proof (confirmed_le s HI) as Hcl. unfold in_range in Hr. pose proof sizes.
  assert (u64 (sent s - confirmed s) = sent s - confirmed s) as Hu.
  { destruct HI as [I1 I2 IW I3 I4 I5 I6 I7 I8 I9 I10 I11 I12 I13]. apply u64_id. lia. }
  destruct HI as [I1 I2 IW I3 I4 I5 I6 I7 I8 I9 I10 I11 I12 I13].
  destruct s as [sn cf se wk sp ap ct dt ak tt an cr rp]. unfold send_step, sending, unwritten, uncounted in *. cbn in *.
  destruct sp as [|rest| |e], t as [|n e'|e'|n e'|n e']; try done.
  - destruct se as [e|].
    + injection Hs as <-. split; unfold unwritten, uncounted, sending; cbn; try done; try lia. intros Hn. by destruct (Hn e).
    + rewrite Hu in Hs. destruct (Z.leb_spec benchmarkOutstandingWindow (sn - cf)); injection Hs as <-.
      * split; unfold unwritten, uncounted, sending; cbn; try done; try lia; auto.
      * specialize (I4 ltac:(done)). set (blk := Z.min _ _).
        assert (u64 (sn + blk) = sn + blk) as Hu2 by (apply u64_id; lia).
        split; unfold unwritten, uncounted, sending; cbn; rewrite ?Hu2; try done; try lia. intros ? [= <-]. lia.
  - destruct (Z.ltb_spec n 0); [done|]. destruct (Z.ltb_spec rest n); [done|]. cbn [orb] in Hs. injection Hs as <-.
    specialize (I4 ltac:(done)).
    destruct e' as [e'|]; [|destruct (Z.eqb_spec n 0); [|destruct (Z.eqb_spec rest n)]];
      (split; unfold unwritten, uncounted, sending; cbn; try done; try lia; try (intros ? [= <-]; lia); intros Hn; by edestruct Hn).
  - destruct wk; [|done]. injection Hs as <-. specialize (I4 ltac:(done)). split; unfold unwritten, uncounted, sending; cbn; done.
Qed.

(** The acknowledgement reader takes the oldest total, which is one the sender
    reserved and newer than the last. *)
Lemma ack_oldest cf ak rp tt an :
  acks_ok cf ak rp tt an -> 0 <= cf -> 0 <= an <= tt -> tt < 2 ^ 64 -> 8 <= zlen ak ->
  cf < be_get (slice_to ak 8) <= tt /\ acks_ok (be_get (slice_to ak 8)) (slice_from ak 8) rp tt an.
Proof.
  intros (ts & tail & [A1 A2 A3 A4]) Hcf Han Htt H8. destruct ts as [|t ts].
  { apply (f_equal zlen) in A1. rewrite zlen_app in A1. pose proof (zlen_nonneg tail). change (zlen (encodeAcks [])) with 0 in A1. lia. }
  change (encodeAcks (t :: ts)) with (be_put 8 t ++ encodeAcks ts) in A1. cbn in A3, A4. destruct A3 as [Ht A3].
  pose proof (chain_le _ _ A3). assert (t <= tt) as Htt2 by (destruct rp; lia).
  assert (slice_to ak 8 = be_put 8 t) as Hto.
  { transitivity (slice_to (ak ++ tail) 8).
    - unfold slice_to. rewrite take_app_le; [done|]. unfold zlen in H8. lia.
    - rewrite A1. by apply slice_to_app_l. }
  assert (slice_from ak 8 ++ tail = encodeAcks ts) as Hfrom.
  { transitivity (slice_from (ak ++ tail) 8); [|rewrite A1; by apply slice_from_app_l].
    unfold slice_from. rewrite drop_app_le; [done|]. unfold zlen in H8. lia. }
  rewrite Hto, be_get_put_id by (change (256 ^ Z.of_nat 8) with (2 ^ 64); lia).
  split; [lia|]. exists ts, tail. split; [done|done|done|]. by destruct rp.
Qed.

Lemma ack_inv s t s' : pump_inv s -> in_range s -> ack_step s t = Some s' -> pump_inv s'.
Proof.
  intros HI Hr Hs. pose proof (confirmed_le s HI) as Hcl. unfold in_range in Hr. pose proof sizes.
  destruct HI as [I1 I2 IW I3 I4 I5 I6 I7 I8 I9 I10 I11 I12 I13].
  destruct s as [sn cf se wk sp ap ct dt ak tt an cr rp]. unfold ack_step, sending, unwritten, uncounted in *. cbn in *.
  destruct ap as [|delta|last|], t as [|n e'|[e'|]|n e'|n e']; try done.
  - injection Hs as <-. split; unfold unwritten, uncounted, sending; cbn; try done; try lia. by intros _ _ [|].
  - destruct (Z.ltb_spec (zlen ak) 8) as [|H8]; [done|].
    destruct (ack_oldest _ _ _ _ _ I8 ltac:(lia) ltac:(lia) ltac:(lia) H8) as [Ht Hok].
    destruct ((be_get (slice_to ak 8) <? cf) || (sn <? be_get (slice_to ak 8))) eqn:Hbad; [bool2prop; lia|].
    injection Hs as <-. split; unfold unwritten, uncounted, sending; cbn; try done; try lia. by intros _ _ [|].
  - injection Hs as <-. assert ((if 0 <? delta then u64 (ct + delta) else ct) = cf) as Hct.
    { destruct (Z.ltb_spec 0 delta); [|lia]. rewrite u64_id; lia. }
    split; unfold unwritten, uncounted, sending; cbn; rewrite ?Hct; try done; try lia. by intros _ _ [|].
  - injection Hs as <-. destruct last; (split; unfold unwritten, uncounted, sending; cbn; done).
Qed.

(** The invariant is about the rest of the state too: what a receiving step
    must show. *)
Lemma recv_fields s dt ak tt an cr rp :
  pump_inv s -> 0 <= dt -> tt + dt = total s + data s -> cr = tt ->
  acks_ok (confirmed s) ak rp tt an -> 0 <= an <= tt -> (rp = RpRead -> tt - an < benchmarkBlockSize) ->
  pump_inv (mkPump (sent s) (confirmed s) (sendErr s) (wake s) (s_pc s) (a_pc s) (countedTX s) dt ak tt an cr rp).
Proof.
  intros [I1 I2 IW I3 I4 I5 I6 I7 I8 I9 I10 I11 I12 I13] H1 H2 H3 H4 H5 H6.
  split; try done; unfold sending, unwritten in *; cbn; lia || (intros Hs; specialize (I4 Hs); lia).
Qed.

Lemma acks_returned cf ak rp tt an e tt' : acks_ok cf ak rp tt an -> tt <= tt' -> an <= tt -> acks_ok cf ak (RpReturned e) tt' an.
Proof. intros (ts & tail & [A1 A2 A3 A4]) Ht Ha. exists ts, tail. split; try done. destruct rp; lia. Qed.

Lemma acks_read cf ak tt an tt' : acks_ok cf ak RpRead tt an -> acks_ok cf ak RpRead tt' an.
Proof. intros (ts & tail & [A1 A2 A3 A4]). by exists ts, tail. Qed.

(** A new acknowledgement. *)
Lemma acks_new cf ak tt an tt' e :
  acks_ok cf ak RpRead tt an -> an < tt' -> acks_ok cf ak (RpAck (be_put 8 tt') e) tt' an.
Proof.
  intros (ts & tail & [A1 -> A3 A4]) Ht. exists (ts ++ [tt']), (be_put 8 tt'). split.
  - rewrite encodeAcks_snoc. rewrite app_nil_r in A1. by rewrite A1.
  - split; [done|]. intros Hn. by apply (f_equal length) in Hn.
  - apply chain_snoc; [done|]. by rewrite A4.
  - apply chain_end_snoc.
Qed.

(** Part of it was written. *)
Lemma acks_written cf ak rest e tt an n :
  acks_ok cf ak (RpAck rest e) tt an -> 0 <= n <= zlen rest ->
  (n < zlen rest -> acks_ok cf (ak ++ slice_to rest n) (RpAck (slice_from rest n) e) tt an) /\
  (n = zlen rest -> acks_ok cf (ak ++ slice_to rest n) RpRead tt tt) /\
  forall we, acks_ok cf (ak ++ slice_to rest n) (RpReturned we) tt an.
Proof.
  intros (ts & tail & [A1 [-> A2] A3 A4]) Hn.
  assert ((ak ++ slice_to rest n) ++ slice_from rest n = encodeAcks ts) as Hb.
  { by rewrite <- app_assoc, slice_to_from. }
  split_and!; intros; exists ts, (slice_from rest n); split; try done; try lia.
  - split; [done|]. intros Hnil. apply (f_equal zlen) in Hnil. rewrite zlen_slice_from in Hnil by lia.
    change (zlen (@nil byte)) with 0 in Hnil. lia.
  - apply zlen_zero_nil. rewrite zlen_slice_from; lia.
Qed.

Lemma recv_inv s t s' : pump_inv s -> recv_step s t = Some s' -> pump_inv s'.
Proof.
  intros HI Hs. pose proof sizes. pose proof (pi_sent _ HI) as Hst. pose proof (pi_unwritten _ HI) as Huw.
  pose proof (pi_range _ HI) as Hrg. pose proof (pi_acks _ HI) as Hak. pose proof (pi_acked _ HI) as [Ha Hb].
  pose proof (pi_rx _ HI) as Hrx. pose proof (pi_data _ HI) as Hd.
  unfold recv_step, afterRead in Hs. destruct (r_pc s) as [|rest e|e] eqn:Hpc, t as [|n e'|e'|n e'|n e']; try done.
  - destruct (Z.ltb_spec n 0); [done|]. destruct (Z.ltb_spec (Z.min (data s) benchmarkBlockSize) n); [done|]. cbn [orb] in Hs.
    specialize (Hb eq_refl).
    destruct (Z.ltb_spec 0 n).
    + assert (u64 (total s + n) = total s + n) as Hu by (apply u64_id; lia).
      assert (u64 (countedRX s + n) = total s + n) as Hu2 by (rewrite Hrx; exact Hu).
      cbn in Hs. rewrite Hu, Hu2, u64_id in Hs by lia.
      destruct (Z.leb_spec benchmarkBlockSize (total s + n - acknowledged s)); injection Hs as <-.
      * apply recv_fields; cbn; try done; try lia. eapply acks_new; [exact Hak|lia].
      * destruct e' as [e'|]; (apply recv_fields; cbn; try done; try lia);
          first [by eapply acks_read|eapply acks_returned; [exact Hak|lia..]].
    + injection Hs as <-. destruct e' as [e'|]; (apply recv_fields; cbn; try done; try lia);
        first [by eapply acks_read|eapply acks_returned; [exact Hak|lia..]].
  - destruct (Z.ltb_spec n 0); [done|]. destruct (Z.ltb_spec (zlen rest) n); [done|]. cbn [orb] in Hs. injection Hs as <-.
    destruct (acks_written _ _ _ _ _ _ n Hak ltac:(lia)) as (W1 & W2 & W3).
    destruct e' as [we|]; [|destruct (Z.eqb_spec n 0); [|destruct (Z.eqb_spec (zlen rest) n); [destruct e as [e|]|]]];
      (apply recv_fields; cbn; try done; try lia).
    + eapply acks_returned; [apply W2; lia|lia..].
    + apply W2. lia.
    + apply W1. lia.
Qed.

Lemma pump_reachable_inv s : pump_reachable s -> pump_inv s.
Proof.
  induction 1 as [|s t s' Hr IH Hin Hs]; [apply newPump_inv|].
  destruct t; cbn in Hs; (by eapply send_inv) || (by eapply ack_inv) || (by eapply recv_inv).
Qed.

(** ** Draining the pumps *)

Definition ok_turn (t : pumpTurn) : Prop :=
  match t with TSend => True | TWrite _ e | TAck e | TRead _ e | TWriteAck _ e => e = None end.

(** Steps of which none fails and none starts a new block. *)
Inductive drains_to : pump -> pump -> Prop :=
  | DrDone s : drains_to s s
  | DrStep s t s' s'' : ok_turn t -> pump_step s t = Some s' -> sent s' = sent s -> drains_to s' s'' -> drains_to s s''.

Lemma drains_trans s s' s'' : drains_to s s' -> drains_to s' s'' -> drains_to s s''.
Proof. induction 1 as [|s t s1 s2 H1 H2 H3 _ IH]; [done|]. intros H. by eapply DrStep; [..|apply IH]. Qed.

Lemma drains_one s t s' : ok_turn t -> pump_step s t = Some s' -> sent s' = sent s -> drains_to s s'.
Proof. intros. by eapply DrStep; [..|apply DrDone]. Qed.

Lemma pump_step_inv s t s' : pump_inv s -> in_range s -> pump_step s t = Some s' -> pump_inv s'.
Proof. intros HI Hr Hs. destruct t; cbn in Hs; (by eapply send_inv) || (by eapply ack_inv) || (by eapply recv_inv). Qed.

Lemma drains_inv s s' : drains_to s s' -> pump_inv s -> in_range s -> pump_inv s' /\ sent s' = sent s.
Proof.
  induction 1 as [|s t s1 s2 H1 H2 H3 _ IH]; [done|]. intros HI Hr.
  pose proof (pump_step_inv s t s1 HI Hr H2) as HI1. unfold in_range in *. rewrite H3 in IH. by destruct (IH HI1 Hr).
Qed.

(** The sending loop is between two blocks. *)
Lemma drain_block s :
  pump_inv s -> sending s ->
  exists s', drains_to s s' /\ unwritten s' = 0 /\ sending s' /\ r_pc s' = r_pc s /\ a_pc s' = a_pc s /\ sendErr s' = sendErr s.
Proof.
  intros HI Hs. destruct (s_pc s) as [|rest| |e] eqn:Hpc; try (exists s; split; [apply DrDone|]; unfold unwritten; by rewrite Hpc).
  pose proof (pi_writing _ HI rest Hpc). exists (s <| data := data s + rest |> <| s_pc := SpCheck |>). split; [|done].
  apply (drains_one _ (TWrite rest None)); [done| |done]. cbn. unfold send_step. rewrite Hpc.
  destruct (Z.ltb_spec rest 0); [lia|]. rewrite Z.ltb_irrefl. cbn [orb].
  destruct (Z.eqb_spec rest 0); [lia|]. by rewrite Z.eqb_refl.
Qed.

(** The receiver is between two reads. *)
Lemma drain_ack s rest :
  pump_inv s -> r_pc s = RpAck rest None ->
  drains_to s (s <| acks := acks s ++ rest |> <| acknowledged := total s |> <| r_pc := RpRead |>).
Proof.
  intros HI Hpc. destruct (pi_acks _ HI) as (ts & tail & [_ A2 _ _]). rewrite Hpc in A2. destruct A2 as [_ Hne].
  pose proof (zlen_nonneg rest). assert (zlen rest <> 0) by (intros Hz; by apply Hne, zlen_zero_nil).
  apply (drains_one _ (TWriteAck (zlen rest) None)); [done| |done]. cbn. unfold recv_step. rewrite Hpc.
  destruct (Z.ltb_spec (zlen rest) 0); [lia|]. rewrite Z.ltb_irrefl. cbn [orb].
  destruct (Z.eqb_spec (zlen rest) 0); [lia|]. rewrite Z.eqb_refl. by rewrite slice_to_all.
Qed.

Definition same_sender (s s' : pump) : Prop := s_pc s' = s_pc s /\ a_pc s' = a_pc s /\ sendErr s' = sendErr s.

#[export] Instance same_sender_preorder : PreOrder same_sender.
Proof. split; [done|]. intros s1 s2 s3 (A1 & A2 & A3) (B1 & B2 & B3). unfold same_sender. split_and!; congruence. Qed.

Lemma drain_read s :
  pump_inv s -> in_range s -> r_pc s = RpRead ->
  exists s', drains_to s s' /\ same_sender s s' /\ r_pc s' = RpRead /\ data s' = 0.
Proof.
  intros HI Hr Hpc. remember (Z.to_nat (data s)) as k eqn:Hk. revert s HI Hr Hpc Hk.
  induction k as [k IH] using lt_wf_ind. intros s HI Hr Hpc Hk. pose proof (pi_data _ HI). pose proof sizes.
  destruct (Z.eqb_spec (data s) 0) as [Hz|Hz]; [exists s; split; [apply DrDone|by split]|].
  set (n := Z.min (data s) benchmarkBlockSize).
  assert (exists s1, pump_step s (TRead n None) = Some s1 /\ data s1 = data s - n /\ same_sender s s1 /\ sent s1 = sent s /\
    (r_pc s1 = RpRead \/ exists rest, r_pc s1 = RpAck rest None)) as (s1 & Hs & Hd1 & Hss & Hsent & Hpc1).
  { cbn. unfold recv_step. rewrite Hpc. destruct (Z.ltb_spec n 0); [lia|].
    destruct (Z.ltb_spec (Z.min (data s) benchmarkBlockSize) n); [lia|]. cbn [orb].
    destruct (Z.ltb_spec 0 n); [|lia]. eexists. split; [reflexivity|]. cbn.
    destruct (benchmarkBlockSize <=? _); cbn; split_and!; try done; [right; by eexists|by left]. }
  pose proof (pump_step_inv s _ s1 HI Hr Hs) as HI1.
  assert (in_range s1) as Hr1 by (unfold in_range; by rewrite Hsent).
  assert (exists s2, drains_to s1 s2 /\ same_sender s1 s2 /\ data s2 = data s1 /\ r_pc s2 = RpRead) as (s2 & Hd2 & Hss2 & Hdt & Hpc2).
  { destruct Hpc1 as [Hp|[rest Hp]]; [exists s1; split; [apply DrDone|done]|].
    eexists. split; [by apply drain_ack|done]. }
  destruct (drains_inv _ _ Hd2 HI1 Hr1) as [HI2 Hsent2].
  destruct (IH (Z.to_nat (data s2))) with (s := s2) as (s3 & Hd3 & Hss3 & Hpc3 & Hz3); [lia|done|unfold in_range; by rewrite Hsent2|done|done|].
  exists s3. split_and!; [|by etrans; [|etrans]|done|done].
  eapply DrStep; [|exact Hs|exact Hsent|]; [done|]. by eapply drains_trans.
Qed.

Definition same_receiver (s s' : pump) : Prop :=
  s_pc s' = s_pc s /\ r_pc s' = r_pc s /\ data s' = data s /\ total s' = total s /\ acknowledged s' = acknowledged s /\
  sendErr s' = sendErr s.

#[export] Instance same_receiver_preorder : PreOrder same_receiver.
Proof.
  split; [done|]. intros s1 s2 s3 (A1 & A2 & A3 & A4 & A5 & A6) (B1 & B2 & B3 & B4 & B5 & B6).
  unfold same_receiver. split_and!; congruence.
Qed.

(** The acknowledgement reader is at its read. *)
Lemma drain_signal s :
  pump_inv s -> sendErr s = None ->
  exists s', drains_to s s' /\ same_receiver s s' /\ acks s' = acks s /\ a_pc s' = ApRead.
Proof.
  intros HI He. pose proof (pi_err _ HI) as Herr. rewrite He in Herr.
  assert (forall s, a_pc s = ApSignal false ->
    exists s', drains_to s s' /\ same_receiver s s' /\ acks s' = acks s /\ a_pc s' = ApRead) as Hsig.
  { intros s0 Hpc. exists (s0 <| wake := true |> <| a_pc := ApRead |>). split; [|done].
    apply (drains_one _ (TAck None)); [done| |done]. cbn. unfold ack_step. by rewrite Hpc. }
  destruct (a_pc s) as [|delta|[]|] eqn:Hpc; [exists s; split; [apply DrDone|done]| |by destruct Herr|by apply Hsig|by destruct Herr].
  set (s1 := s <| countedTX := (if 0 <? delta then u64 (countedTX s + delta) else countedTX s) |> <| a_pc := ApSignal false |>).
  destruct (Hsig s1 eq_refl) as (s2 & Hd & Hsr & Ha & Hp). exists s2. split; [|by split; [|split]].
  apply (DrStep s (TAck None) s1); [done| |done|done]. cbn. unfold ack_step. by rewrite Hpc.
Qed.

Lemma drain_acks s :
  pump_inv s -> in_range s -> sendErr s = None -> r_pc s = RpRead ->
  exists s', drains_to s s' /\ same_receiver s s' /\ acks s' = [] /\ a_pc s' = ApRead.
Proof.
  remember (length (acks s)) as k eqn:Hk. revert s Hk.
  induction k as [k IH] using lt_wf_ind. intros s Hk HI Hr He Hp.
  destruct (drain_signal s HI He) as (s1 & Hd1 & Hsr1 & Ha1 & Hp1).
  destruct (drains_inv _ _ Hd1 HI Hr) as [HI1 Hs1].
  assert (in_range s1) as Hr1 by (unfold in_range; by rewrite Hs1).
  pose proof Hsr1 as (_ & Hpr & _ & _ & _ & He1). rewrite Hp in Hpr. rewrite He in He1.
  destruct (pi_acks _ HI1) as (ts & tail & [A1 A2 _ _]). rewrite Hpr in A2. subst tail. rewrite app_nil_r in A1.
  destruct ts as [|t ts]; [by exists s1|].
  assert (8 <= zlen (acks s1)) as H8 by (rewrite A1, zlen_encodeAcks, zlen_cons; pose proof (zlen_nonneg ts); lia).
  pose proof (pi_acked _ HI1) as [Ha _]. pose proof (pi_sent _ HI1). pose proof (pi_data _ HI1). pose proof (pi_unwritten _ HI1).
  pose proof (pi_range _ HI1).
  destruct (ack_oldest _ _ _ _ _ (pi_acks _ HI1) (pi_confirmed _ HI1) Ha ltac:(lia) H8) as [Hold _].
  set (tot := be_get (slice_to (acks s1) 8)) in *.
  set (s2 := s1 <| acks := slice_from (acks s1) 8 |> <| confirmed := tot |> <| a_pc := ApCount (tot - confirmed s1) |>).
  assert (pump_step s1 (TAck None) = Some s2) as Hs2.
  { cbn. unfold ack_step. rewrite Hp1. destruct (Z.ltb_spec (zlen (acks s1)) 8); [lia|]. cbn zeta. fold tot.
    destruct ((tot <? confirmed (s1 <| acks := slice_from (acks s1) 8 |>)) || _) eqn:Hb; [|done]. cbn in Hb. bool2prop; lia. }
  destruct (IH (length (acks s2))) with (s := s2) as (s3 & Hd3 & Hsr3 & H3); try done.
  - rewrite Hk, <- Ha1. unfold s2, slice_from, zlen in *. cbn. rewrite length_drop. lia.
  - by eapply pump_step_inv.
  - exists s3. split; [|split; [|done]].
    + eapply drains_trans; [exact Hd1|]. by apply (DrStep s1 (TAck None) s2).
    + etrans; [exact Hsr1|]. etrans; [|exact Hsr3]. done.
Qed.

(** A waiting sender was woken. *)
Lemma drain_wake s :
  pump_inv s -> in_range s -> sending s -> sendErr s = None -> unwritten s = 0 -> a_pc s = ApRead ->
  sent s - confirmed s < benchmarkOutstandingWindow ->
  exists s', drains_to s s' /\ s_pc s' = SpCheck /\ same_receiver s (s' <| s_pc := s_pc s |>) /\
    confirmed s' = confirmed s /\ countedTX s' = countedTX s.
Proof.
  intros HI Hr Hs He Hu Ha Hw. destruct (s_pc s) as [|rest| |e] eqn:Hpc.
  - exists s. split; [apply DrDone|]. unfold same_receiver. cbn. by rewrite Hpc.
  - pose proof (pi_writing _ HI rest Hpc). unfold unwritten in Hu. rewrite Hpc in Hu. lia.
  - destruct (wake s) eqn:Hwk.
    + exists (s <| wake := false |> <| s_pc := SpCheck |>). split; [|unfold same_receiver; cbn; by rewrite Hpc].
      apply (drains_one _ TSend); [done| |done]. cbn. unfold send_step. by rewrite Hpc, Hwk.
    + destruct (pi_wait _ HI Hpc Hwk (or_introl Ha)). lia.
  - by destruct (Hs e).
Qed.

(** ** The plan and the handshake *)

Lemma directionTurn_spec d :
  Forall (fun x => x <> benchmarkBoth) (directionTurn d) /\
  zlen (directionTurn d) = (if bool_decide (d = benchmarkBoth) then 2 else 1) /\
  (forall x, x <> benchmarkBoth -> countb (fun y => bool_decide (y = x)) (directionTurn d) =
    if bool_decide (d = x) || bool_decide (d = benchmarkBoth) then 1%nat else 0%nat).
Proof. by destruct d; (split_and!; [repeat constructor| |intros []]). Qed.

Lemma plan_spec d n :
  Forall (fun x => x <> benchmarkBoth) (concat (replicate n (directionTurn d))) /\
  zlen (concat (replicate n (directionTurn d))) = Z.of_nat n * (if bool_decide (d = benchmarkBoth) then 2 else 1) /\
  (forall x, x <> benchmarkBoth -> countb (fun y => bool_decide (y = x)) (concat (replicate n (directionTurn d))) =
    if bool_decide (d = x) || bool_decide (d = benchmarkBoth) then n else 0%nat).
Proof.
  destruct (directionTurn_spec d) as (H1 & H2 & H3). induction n as [|n (I1 & I2 & I3)].
  { split_and!; [constructor|done|]. intros x _. by destruct (_ || _). }
  cbn [replicate concat]. split_and!.
  - by apply Forall_app.
  - rewrite zlen_app, I2, H2. destruct (bool_decide _); lia.
  - intros x Hx. rewrite countb_app, (I3 x Hx), (H3 x Hx). by destruct (_ || _).
Qed.

Lemma benchmarkDirections_count value connections ds :
  benchmarkDirections value connections = inr ds -> 1 <= zlen ds <= 32.
Proof.
  unfold benchmarkDirections. destruct ((connections <=? 0) || (32 <? connections)) eqn:Hc; [done|]. bool2prop.
  destruct (parseBenchmarkDirection value) as [e|d]; [done|]. cbn [rbind].
  destruct (Z.ltb_spec 32 (if bool_decide (d = benchmarkBoth) then connections * 2 else connections)); [done|]. intros [= <-].
  destruct (plan_spec d (Z.to_nat connections)) as (_ & -> & _). destruct (bool_decide _); lia.
Qed.

Lemma responder_accepts d :
  d <> benchmarkBoth -> responderRead BWaitHeader (inr (benchmarkHeader d)) = (BWaitStart d, Some [benchmarkReady]).
Proof. by destruct d. Qed.

(** * Properties *)

(** The benchmark's plan and handshake fit each other: an accepted direction
    and connection count gives between 1 and 32 streams, the given number in
    each direction asked for and none in the other; and the responder accepts
    the header of each, its readiness marker passes the client's check, and the
    start marker makes it serve that direction. *)
Theorem benchmark_plan value connections ds :
  benchmarkDirections value connections = inr ds ->
  exists d, parseBenchmarkDirection value = inr d /\ 1 <= zlen ds <= 32 /\
    (forall x, x <> benchmarkBoth -> countb (fun y => bool_decide (y = x)) ds =
      if bool_decide (d = x) || bool_decide (d = benchmarkBoth) then Z.to_nat connections else 0%nat) /\
    forall x, x ∈ ds ->
      responderRead BWaitHeader (inr (benchmarkHeader x)) = (BWaitStart x, Some [benchmarkReady]) /\
      readinessChecked (inr [benchmarkReady]) = None /\
      responderRead (BWaitStart x) (inr [benchmarkStart]) = (BServe x, None).
Proof.
  unfold benchmarkDirections. destruct ((connections <=? 0) || (32 <? connections)) eqn:Hc; [done|]. bool2prop.
  destruct (parseBenchmarkDirection value) as [e|d] eqn:Hd; [done|]. cbn [rbind].
  destruct (Z.ltb_spec 32 (if bool_decide (d = benchmarkBoth) then connections * 2 else connections)); [done|]. intros [= <-].
  destruct (plan_spec d (Z.to_nat connections)) as (P1 & P2 & P3). exists d. split_and!; try done.
  - rewrite P2. destruct (bool_decide _); lia.
  - rewrite P2. destruct (bool_decide _); lia.
  - intros x Hx. rewrite Forall_forall in P1. by rewrite responder_accepts by by apply P1.
Qed.

(** The benchmark counts what was delivered: in every interleaving of its
    loops, bytes counted as sent are bytes the receiver acknowledged, which are
    bytes it received and counted, which are bytes that were sent; at most
    256 KiB are unconfirmed; and an acknowledgement that arrives is never
    rejected. *)
Theorem pump_accounts s :
  pump_reachable s ->
  0 <= countedTX s <= confirmed s /\ confirmed s <= total s /\ countedRX s = total s /\
  total s <= sent s <= confirmed s + benchmarkOutstandingWindow /\
  (forall s', a_pc s = ApRead -> in_range s -> ack_step s (TAck None) = Some s' ->
    sendErr s' = None /\ confirmed s < confirmed s' <= total s).
Proof.
  intros HI%pump_reachable_inv. pose proof (confirmed_le s HI). pose proof (pi_tx _ HI). pose proof (pi_window _ HI).
  pose proof (pi_sent _ HI). pose proof (pi_data _ HI). pose proof (pi_unwritten _ HI). pose proof (pi_rx _ HI).
  pose proof (pi_range _ HI). pose proof (pi_acked _ HI) as [Ha _]. split_and!; try lia.
  - intros s' Hpc Hr Hs. unfold ack_step in Hs. rewrite Hpc in Hs.
    pose proof (pi_err _ HI) as He. rewrite Hpc in He.
    destruct (Z.ltb_spec (zlen (acks s)) 8) as [|H8]; [done|].
    destruct (ack_oldest _ _ _ _ _ (pi_acks _ HI) (pi_confirmed _ HI) Ha ltac:(lia) H8) as [Hold _].
    cbn zeta in Hs. destruct (_ || _) eqn:Hb in Hs; [cbn in Hb; bool2prop; lia|]. injection Hs as <-. cbn. by split; [|lia].
Qed.

(** The benchmark never stalls on its own: from every reachable state in
    which no call failed, its loops can run — without a failing call and without
    starting a new block — until everything sent has been received and counted,
    less than 16 KiB is unconfirmed, everything confirmed is counted, and the
    sending loop is back at its check with room for the next block. *)
Theorem pump_drains s :
  pump_reachable s -> in_range s -> sending s -> sendErr s = None ->
  r_pc s = RpRead \/ (exists rest, r_pc s = RpAck rest None) ->
  exists s', drains_to s s' /\ sent s' = sent s /\ total s' = sent s /\ countedRX s' = sent s /\
    sent s - confirmed s' < benchmarkBlockSize /\ countedTX s' = confirmed s' /\ s_pc s' = SpCheck /\ sendErr s' = None.
Proof.
  intros HI%pump_reachable_inv Hr Hs He Hp.
  destruct (drain_block s HI Hs) as (s1 & D1 & U1 & S1 & P1 & A1 & E1). destruct (drains_inv _ _ D1 HI Hr) as [I1 R1].
  assert (in_range s1) as Hr1 by (unfold in_range; by rewrite R1).
  assert (exists s2, drains_to s1 s2 /\ same_sender s1 s2 /\ r_pc s2 = RpRead) as (s2 & D2 & SS2 & P2).
  { rewrite <- P1 in Hp. destruct Hp as [Hp|[rest Hp]]; [exists s1; split; [apply DrDone|done]|].
    eexists. split; [by apply drain_ack|done]. }
  destruct (drains_inv _ _ D2 I1 Hr1) as [I2 R2]. assert (in_range s2) as Hr2 by (unfold in_range; by rewrite R2).
  destruct (drain_read s2 I2 Hr2 P2) as (s3 & D3 & SS3 & P3 & Z3). destruct (drains_inv _ _ D3 I2 Hr2) as [I3 R3].
  assert (in_range s3) as Hr3 by (unfold in_range; by rewrite R3).
  assert (same_sender s1 s3) as (Q1 & Q2 & Q3) by by etrans. assert (sendErr s3 = None) as He3 by congruence.
  destruct (drain_acks s3 I3 Hr3 He3 P3) as (s4 & D4 & (T1 & T2 & T3 & T4 & T5 & T6) & Ac4 & Ap4).
  destruct (drains_inv _ _ D4 I3 Hr3) as [I4 R4]. assert (in_range s4) as Hr4 by (unfold in_range; by rewrite R4).
  assert (sending s4) as Hs4 by (intros e Hx; apply (S1 e); congruence).
  assert (unwritten s4 = 0) as U4 by (unfold unwritten in *; by rewrite T1, Q1).
  assert (total s4 = sent s4) as Htot by (pose proof (pi_exact _ I4 Hs4); lia).
  assert (confirmed s4 = acknowledged s4) as Hcf.
  { destruct (pi_acks _ I4) as (ts & tail & [B1 B2 _ B4]). rewrite T2, P3 in B2, B4. subst tail. rewrite Ac4 in B1.
    destruct ts; [done|]. apply (f_equal zlen) in B1. rewrite zlen_encodeAcks, zlen_cons in B1.
    pose proof (zlen_nonneg ts). change (zlen (@nil byte ++ [])) with 0 in B1. lia. }
  pose proof (pi_acked _ I4) as [_ Hblk]. specialize (Hblk ltac:(congruence)). pose proof sizes.
  destruct (drain_wake s4 I4 Hr4 Hs4 ltac:(congruence) U4 Ap4 ltac:(lia)) as (s5 & D5 & C5 & (V1 & V2 & V3 & V4 & V5 & V6) & F5 & G5).
  destruct (drains_inv _ _ D5 I4 Hr4) as [I5 R5]. exists s5.
  pose proof (pi_rx _ I5). pose proof (pi_tx _ I4) as (Htx & _). unfold uncounted in Htx. rewrite Ap4 in Htx. cbn in *.
  split_and!; try congruence; try lia. repeat (eapply drains_trans; [eassumption|]). apply DrDone.
Qed.

(** ** Witnesses *)

Lemma benchmark_plan_witness :
  parseBenchmarkDirection " Both " = inr benchmarkBoth /\
  exists d, parseBenchmarkDirection " Both " = inr d /\
    1 <= zlen [benchmarkUpload; benchmarkDownload; benchmarkUpload; benchmarkDownload] <= 32.
Proof.
  split; [vm_compute; reflexivity|].
  destruct (benchmark_plan " Both " 2 [benchmarkUpload; benchmarkDownload; benchmarkUpload; benchmarkDownload]) as (d & H1 & H2 & _);
    [vm_compute; reflexivity|]. by exists d.
Defined.

(** Two blocks written, the first read and half of its acknowledgement under
    way. *)
Definition demoPumpTurns : list pumpTurn :=
  [TSend; TWrite 16384 None; TSend; TWrite 100 None; TRead 16384 None; TWriteAck 4 None].

Definition demoPump : pump := fold_left (fun s t => default s (pump_step s t)) demoPumpTurns newPump.

Lemma demoPump_reachable : pump_reachable demoPump.
Proof.
  assert (forall s t, in_range s -> pump_reachable s -> pump_reachable (default s (pump_step s t))) as Hst.
  { intros s t Hr Hs. destruct (pump_step s t) as [s'|] eqn:E; [|done]. by eapply PrStep. }
  unfold demoPump, demoPumpTurns. cbn [fold_left].
  repeat (apply Hst; [vm_compute; reflexivity|]). apply PrInit.
Qed.

Lemma pump_accounts_witness : confirmed demoPump <= total demoPump /\ total demoPump = 16384.
Proof. split; [|vm_compute; reflexivity]. exact (proj1 (proj2 (pump_accounts demoPump demoPump_reachable))). Defined.

Lemma pump_drains_witness : exists s', drains_to demoPump s' /\ total s' = 32768.
Proof.
  destruct (pump_drains demoPump demoPump_reachable) as (s' & H1 & _ & H2 & _).
  - vm_compute. reflexivity.
  - intros e. vm_compute. discriminate.
  - vm_compute. reflexivity.
  - right. eexists. vm_compute. reflexivity.
  - exists s'. split; [exact H1|]. rewrite H2. vm_compute. reflexivity.
Defined.
