(* ===== verification/BenchmarkRun.v ===== *)
(** * Starting a benchmark
    (internal/app/benchmark.go: runBenchmarkClient, ServeBenchmarkStreams)

    Opening the streams and releasing them together is sequential: it is
    written in a monad that logs the calls on the connections, and every call
    is answered by a network that may look at everything done so far.  What
    follows is BenchmarkEnd's. *)

From S2P Require Import GoStrings Handshake.
From S2P Require Export Benchmark.

(** ** Calls, logged *)

(** A connection is the number of the [open] call that returned it. *)
Inductive benchCall :=
  | COpen (timeout : Z) (r : result nat)
  | CNoDelay (c : nat)
  | CDeadline (c : nat) (deadline : option Z)
  | CWrite (c : nat) (accepted : bytes)
  | CReadFull (c : nat) (r : result bytes)
  | CPump (c : nat) (d : benchmarkDirection)
  | CApprove (c : nat)
  | CClose (c : nat).

Definition trace : Type := list benchCall.

(** The answers, each from the calls so far. *)
Record network := mkNetwork {
  net_now : trace -> Z;
  net_open : trace -> result nat;
  net_write : trace -> nat -> bytes -> Z * err;
  net_readFull : trace -> nat -> Z -> result bytes;
  net_pump : trace -> nat -> benchmarkDirection -> error;
  net_approve : trace -> nat -> err;
  net_isTCP : bool;
  net_hasDeadline : bool
}.

(** [None] is a panic: a slice expression out of range. *)
Definition calls (A : Type) : Type := trace -> option (A * trace).

Definition cret {A} (a : A) : calls A := fun tr => Some (a, tr).
Definition cbind {A B} (m : calls A) (k : A -> calls B) : calls B :=
  fun tr => match m tr with Some (a, tr) => k a tr | None => None end.
Definition clog (c : benchCall) : calls () := fun tr => Some ((), tr ++ [c]).

Notation "'let*' x := m 'in' k" := (cbind m (fun x => k))
  (at level 10, x pattern, k at level 200) : go_scope.
Notation "'do*' m 'in' k" := (cbind m (fun _ => k))
  (at level 10, k at level 200) : go_scope.

Section Network.
Context (net : network).

(** [io.Writer.Write], logged with the bytes it took. *)
Definition cwrite (c : nat) (data : bytes) : calls (Z * err) := fun tr =>
  let '(n, e) := net_write net tr c data in
  if (n <? 0) || (zlen data <? n) then None else Some ((n, e), tr ++ [CWrite c (slice_to data n)]).

Definition creadFull (c : nat) (n : Z) : calls (result bytes) := fun tr =>
  let r := net_readFull net tr c n in Some (r, tr ++ [CReadFull c r]).

Definition copen (timeout : Z) : calls (result nat) := fun tr =>
  let r := net_open net tr in Some (r, tr ++ [COpen timeout r]).

Definition cnow : calls Z := fun tr => Some (net_now net tr, tr).

(** [writeFull]; every turn of its loop takes at least one byte. *)
Fixpoint writeFullLoop (fuel : nat) (c : nat) (data : bytes) : calls err :=
  if zlen data <=? 0 then cret None
  else
    match fuel with
    | O => fun _ => None
    | S fuel =>
        let* (n, e) := cwrite c data in
        match e with
        | Some e => cret (Some e)
        | None => if n =? 0 then cret (Some (Sent ErrNoProgress)) else writeFullLoop fuel c (slice_from data n)
        end
    end.

Definition writeFull (c : nat) (data : bytes) : calls err := writeFullLoop (length data) c data.

Definition configureBenchmarkTCP (c : nat) : calls () := if net_isTCP net then clog (CNoDelay c) else cret ().

Definition setBenchmarkDeadline (c : nat) (deadline : option Z) : calls () :=
  if net_hasDeadline net then clog (CDeadline c deadline) else cret ().

Record benchmarkPeer := mkPeer { p_conn : nat; p_direction : benchmarkDirection }.

Fixpoint closeBenchmarkConnections (peers : list benchmarkPeer) : calls () :=
  match peers with
  | [] => cret ()
  | peer :: peers => do* clog (CClose (p_conn peer)) in closeBenchmarkConnections peers
  end.

(** ** Setting up the streams *)

(** The first loop: the error it returns with, and [peers] as the deferred close
    sees them. *)
Fixpoint openStreams (dialTimeout : Z) (directions : list benchmarkDirection) (peers : list benchmarkPeer)
    : calls (err * list benchmarkPeer) :=
  match directions with
  | [] => cret (None, peers)
  | d :: directions =>
      let* r := copen dialTimeout in
      match r with
      | inl e => cret (Some (ErrWrap "open benchmark stream: " e ""), peers)
      | inr c =>
          do* configureBenchmarkTCP c in
          let* now := cnow in
          do* setBenchmarkDeadline c (Some (now + dialTimeout)) in
          let* e := writeFull c (benchmarkHeader d) in
          match e with
          | Some e => do* clog (CClose c) in cret (Some (ErrWrap "start benchmark stream: " e ""), peers)
          | None => openStreams dialTimeout directions (peers ++ [mkPeer c d])
          end
      end
  end.

(** The second loop. *)
Fixpoint awaitReady (peers : list benchmarkPeer) : calls err :=
  match peers with
  | [] => cret None
  | peer :: peers =>
      let* r := creadFull (p_conn peer) 1 in
      match readinessChecked r with
      | Some e => cret (Some e)
      | None => awaitReady peers
      end
  end.

(** The third loop. *)
Fixpoint releaseStreams (peers : list benchmarkPeer) : calls err :=
  match peers with
  | [] => cret None
  | peer :: peers =>
      let* e := writeFull (p_conn peer) [benchmarkStart] in
      match e with
      | Some e => cret (Some (ErrWrap "release benchmark stream: " e ""))
      | None => do* setBenchmarkDeadline (p_conn peer) None in releaseStreams peers
      end
  end.

(** The checks at the head of [runBenchmarkClient]. *)
Definition checkBenchmark (cfg : BenchmarkClientConfig) : result (list benchmarkDirection) :=
  if (bc_Duration cfg <=? 0) || (bc_DialTimeout cfg <=? 0)
  then inl (ErrNew "benchmark duration and setup timeout must be greater than zero")
  else
    let? directions := benchmarkDirections (bc_Direction cfg) (bc_Connections cfg) in
    if bc_StatsInterval cfg <? 0 then inl (ErrNew "benchmark stats interval must not be negative") else inr directions.

(** The three loops; the deferred close runs when one of them returns. *)
Definition setupBenchmark (cfg : BenchmarkClientConfig) (directions : list benchmarkDirection)
    : calls (error + list benchmarkPeer) :=
  let* (e, peers) := openStreams (bc_DialTimeout cfg) directions [] in
  match e with
  | Some e => do* closeBenchmarkConnections peers in cret (inl e)
  | None =>
      let* e := awaitReady peers in
      match e with
      | Some e => do* closeBenchmarkConnections peers in cret (inl e)
      | None =>
          let* e := releaseStreams peers in
          match e with
          | Some e => do* closeBenchmarkConnections peers in cret (inl e)
          | None => cret (inr peers)
          end
      end
  end.

(** [runBenchmarkClient] up to its pumps: an error, or the peers to pump. *)
Definition startBenchmark (cfg : BenchmarkClientConfig) : calls (error + list benchmarkPeer) :=
  match checkBenchmark cfg with
  | inl e => cret (inl e)
  | inr directions => setupBenchmark cfg directions
  end.

(** [RunBenchmarkClient]: over TCP connections to an address. *)
Definition tcpNetwork (address : string) : network :=
  mkNetwork (net_now net)
    (fun tr => match net_open net tr with
               | inl e => inl (ErrWrap ("connect to benchmark endpoint " +:+ address +:+ ": ") e "")
               | inr c => inr c
               end)
    (net_write net) (net_readFull net) (net_pump net) (net_approve net) true true.

(** ** The responder *)

(** Its pump and its result. *)
Definition servePump (c : nat) (d : benchmarkDirection) : calls error := fun tr =>
  Some (net_pump net tr c d, tr ++ [CPump c d]).

Definition responderHandshake (c : nat) : calls (error + benchmarkDirection) :=
  let* r := creadFull c (slen benchmarkMagic + 1) in
  match responderRead BWaitHeader r with
  | (BWaitStart d, Some out) =>
      let* e := writeFull c out in
      match e with
      | Some e => cret (inl (ErrWrap "confirm benchmark readiness: " e ""))
      | None =>
          let* r := creadFull c 1 in
          match responderRead (BWaitStart d) r with
          | (BServe d, _) => cret (inr d)
          | (BFailed e, _) => cret (inl e)
          | _ => fun _ => None
          end
      end
  | (BFailed e, _) => cret (inl e)
  | _ => fun _ => None
  end.

(** [handleBenchmarkConnection]; the goroutine that closes [c] when the context
    ends does nothing else. *)
Definition handleBenchmarkConnection (c : nat) : calls err :=
  do* configureBenchmarkTCP c in
  let* now := cnow in
  do* setBenchmarkDeadline c (Some (now + 10 * Second)) in
  let* r := responderHandshake c in
  match r with
  | inl e => do* clog (CClose c) in cret (Some e)
  | inr d =>
      do* setBenchmarkDeadline c None in
      let* e := servePump c d in
      do* clog (CClose c) in cret (cleanBenchmarkServerError (Some e))
  end.

(** The goroutine of one accepted stream: what it logs. *)
Definition serveBenchmarkStream (ctxDone : bool) (id : nat) : calls (option string) := fun tr =>
  let e := net_approve net tr id in
  (do* clog (CApprove id) in
   match e with
   | Some _ => do* clog (CClose id) in cret None
   | None =>
       let* e := handleBenchmarkConnection id in
       cret match e with
            | Some e => if ctxDone then None
                        else Some ("benchmark stream " +:+ itoa (Z.of_nat id) +:+ " ended: " +:+ error_text e)
            | None => None
            end
   end) tr.
End Network.

Definition RunBenchmarkClient (net : network) (address : string) (cfg : BenchmarkClientConfig) : calls (error + list benchmarkPeer) :=
  if bool_decide (address = "") then cret (inl (ErrNew "benchmark address must not be empty"))
  else startBenchmark (tcpNetwork net address) cfg.

(** [ServeBenchmarkStreams]: the outcomes of its [Accept]s, each with
    [ctx.Err() != nil] after it; the streams it serves, and its result. *)
Fixpoint ServeBenchmarkStreams (accepts : list (result nat * bool)) : list nat * option err :=
  match accepts with
  | [] => ([], None)
  | (inl e, ctxDone) :: _ => ([], Some (if ctxDone || cleanBenchmarkSessionError e then None else Some e))
  | (inr stream, _) :: accepts =>
      let '(served, r) := ServeBenchmarkStreams accepts in (stream :: served, r)
  end.

(** * What a log says *)

Definition written (c : nat) (tr : trace) : bytes :=
  concat ((fun k => match k with CWrite c' p => if decide (c' = c) then p else [] | _ => [] end) <$> tr).

Definition opened (tr : trace) : list nat :=
  concat ((fun k => match k with COpen _ (inr c) => [c] | _ => [] end) <$> tr).

Definition closed (tr : trace) : list nat :=
  concat ((fun k => match k with CClose c => [c] | _ => [] end) <$> tr).

Definition is_ready (tr : trace) (c : nat) : Prop :=
  exists ready, CReadFull c (inr ready) ∈ tr /\ at_ ready 0 = benchmarkReady.

(** Documented behaviour of the network: [Write] takes a part of its argument
    ([io.Writer]), and [open] returns a connection of its own. *)
Definition writer_ok (net : network) : Prop := forall tr c data, 0 <= (net_write net tr c data).1 <= zlen data.
Definition fresh_conns (net : network) : Prop := forall tr c, net_open net tr = inr c -> c ∉ opened tr.

Lemma written_app c t t' : written c (t ++ t') = written c t ++ written c t'.
Proof. unfold written. by rewrite fmap_app, concat_app. Qed.

Lemma opened_app t t' : opened (t ++ t') = opened t ++ opened t'.
Proof. unfold opened. by rewrite fmap_app, concat_app. Qed.

Lemma closed_app t t' : closed (t ++ t') = closed t ++ closed t'.
Proof. unfold closed. by rewrite fmap_app, concat_app. Qed.

Lemma written_writes c c' ps : written c (CWrite c' <$> ps) = if decide (c' = c) then concat ps else [].
Proof.
  unfold written. induction ps as [|p ps IH]; [by destruct (decide _)|]. rewrite !fmap_cons. cbn [concat].
  rewrite IH. by destruct (decide (c' = c)).
Qed.

Lemma opened_writes c ps : opened (CWrite c <$> ps) = [].
Proof. unfold opened. by induction ps. Qed.

Lemma closed_writes c ps : closed (CWrite c <$> ps) = [].
Proof. unfold closed. by induction ps. Qed.

Lemma zlen_header d : zlen (benchmarkHeader d) = 9.
Proof. by destruct d. Qed.

Create Rewrite HintDb logs.
#[export] Hint Rewrite written_app opened_app closed_app written_writes opened_writes closed_writes : logs.

(** Calls that neither open, write nor close. *)
Definition silent (t : trace) : Prop :=
  Forall (fun k => match k with CNoDelay _ | CDeadline _ _ | CReadFull _ _ => True | _ => False end) t.

Lemma silent_logs t : silent t -> opened t = [] /\ closed t = [] /\ forall c, written c t = [].
Proof.
  unfold silent, opened, closed, written. induction 1 as [|k t Hk Ht (IH1 & IH2 & IH3)]; [done|].
  rewrite !fmap_cons. cbn [concat]. rewrite IH1, IH2. destruct k; try done; split_and!; try done; intros c'; rewrite fmap_cons; cbn; by rewrite IH3.
Qed.

Section Setup.
Context (net : network) (Hw : writer_ok net) (Hf : fresh_conns net).

Lemma cwrite_spec c data tr :
  exists n e, net_write net tr c data = (n, e) /\ 0 <= n <= zlen data /\
    cwrite net c data tr = Some ((n, e), tr ++ [CWrite c (slice_to data n)]).
Proof.
  pose proof (Hw tr c data) as Hn. unfold cwrite. destruct (net_write net tr c data) as [n e]. cbn in Hn. exists n, e.
  split_and!; try lia; [done|]. by rewrite (proj2 (Z.ltb_ge n 0)), (proj2 (Z.ltb_ge (zlen data) n)) by lia.
Qed.

(** [writeFull] returns, wrote a prefix, and all of it when it reports none
    missing. *)
Lemma writeFullLoop_spec fuel c data tr :
  (length data <= fuel)%nat ->
  exists e ps, writeFullLoop net fuel c data tr = Some (e, tr ++ (CWrite c <$> ps)) /\
    concat ps `prefix_of` data /\ (e = None -> concat ps = data).
Proof.
  revert data tr. induction fuel as [|fuel IH]; intros data tr Hlen; cbn [writeFullLoop].
  - destruct data; [|cbn in Hlen; lia]. exists None, []. by rewrite app_nil_r.
  - destruct (Z.leb_spec (zlen data) 0) as [H0|H0].
    { exists None, []. rewrite app_nil_r. split_and!; [done|apply prefix_nil|]. intros _. destruct data; [done|zl]. }
    destruct (cwrite_spec c data tr) as (n & e & _ & Hn & Heq). unfold cbind. rewrite Heq. destruct e as [e|].
    { exists (Some e), [slice_to data n]. cbn [concat fmap list_fmap map]. rewrite app_nil_r. split_and!; [done|apply prefix_slice_to|done]. }
    destruct (Z.eqb_spec n 0) as [->|Hn0].
    { exists (Some (Sent ErrNoProgress)), [[]]. split_and!; [done|apply prefix_nil|done]. }
    destruct (IH (slice_from data n) (tr ++ [CWrite c (slice_to data n)])) as (e & ps & -> & Hp & He); [zl|].
    exists e, (slice_to data n :: ps). rewrite <- app_assoc. cbn [concat fmap list_fmap map app]. split_and!; [done| |].
    + rewrite <- (slice_to_from data n) at 2. by apply prefix_app.
    + intros Hnone. rewrite He by done. apply slice_to_from.
Qed.

Lemma writeFull_spec c data tr :
  exists e ps, writeFull net c data tr = Some (e, tr ++ (CWrite c <$> ps)) /\
    concat ps `prefix_of` data /\ (e = None -> concat ps = data).
Proof. by apply writeFullLoop_spec. Qed.

Lemma configure_spec c tr : exists t, configureBenchmarkTCP net c tr = Some ((), tr ++ t) /\ silent t.
Proof.
  unfold configureBenchmarkTCP. destruct (net_isTCP net); [by exists [CNoDelay c]; split; [|repeat constructor]|].
  exists []. split; [by rewrite app_nil_r|constructor].
Qed.

Lemma deadline_spec c d tr : exists t, setBenchmarkDeadline net c d tr = Some ((), tr ++ t) /\ silent t.
Proof.
  unfold setBenchmarkDeadline. destruct (net_hasDeadline net); [by exists [CDeadline c d]; split; [|repeat constructor]|].
  exists []. split; [by rewrite app_nil_r|constructor].
Qed.

(** What the first loop logged: [ps] are the peers it added. *)
Record openLog (tr t : trace) (ps : list benchmarkPeer) : Prop := {
  ol_nodup : NoDup (opened t);
  ol_fresh : forall c, c ∈ opened t -> c ∉ opened tr;
  ol_own : forall c, c ∉ opened t -> written c t = [];
  ol_header : forall c, zlen (written c t) <= 9;
  ol_peers : forall c, c ∈ p_conn <$> ps -> c ∈ opened t
}.

Definition openResult (directions : list benchmarkDirection) (e : err) (t : trace) (ps : list benchmarkPeer) : Prop :=
  match e with
  | Some _ => forall c, c ∈ opened t -> c ∈ p_conn <$> ps \/ c ∈ closed t
  | None => closed t = [] /\ opened t = p_conn <$> ps /\ p_direction <$> ps = directions /\
      Forall (fun p => written (p_conn p) t = benchmarkHeader (p_direction p)) ps
  end.

(** One turn: a connection is opened and given (a part of) its header. *)
Lemma openLog_cons tr t0 ws c ps t :
  opened t0 = [c] -> (forall c', written c' t0 = []) -> c ∉ opened tr ->
  concat ws `prefix_of` benchmarkHeader (p_direction ps) -> p_conn ps = c ->
  forall qs, openLog (tr ++ t0 ++ (CWrite c <$> ws)) t qs -> openLog tr (t0 ++ (CWrite c <$> ws) ++ t) (ps :: qs).
Proof.
  intros Ho Hwr Hc Hp Hpc qs [L1 L2 L3 L4 L5].
  assert (c ∉ opened t) as Hct by (intros Hin%L2; apply Hin; autorewrite with logs; rewrite Ho; set_solver).
  assert (zlen (concat ws) <= 9) as Hlen.
  { rewrite <- (zlen_header (p_direction ps)). apply prefix_length in Hp. unfold zlen. lia. }
  constructor; autorewrite with logs; rewrite ?Ho; cbn [app].
  - by constructor.
  - intros c' [->|Hin]%elem_of_cons; [done|]. apply L2 in Hin. autorewrite with logs in Hin. set_solver.
  - intros c' Hn. autorewrite with logs. rewrite Hwr, L3 by set_solver. rewrite decide_False by set_solver. done.
  - intros c'. autorewrite with logs. rewrite Hwr. cbn [app]. destruct (decide (c = c')) as [<-|Hne]; [|apply L4].
    by rewrite L3, app_nil_r.
  - cbn. intros c' [->|Hin]%elem_of_cons; [rewrite Hpc; set_solver|]. right. by apply L5.
Qed.

Lemma openLog_nil tr t : opened t = [] -> (forall c, written c t = []) -> openLog tr t [].
Proof.
  intros Ho Hwr. constructor; rewrite ?Ho; try set_solver; [constructor|]. intros c. by rewrite Hwr.
Qed.

Lemma openStreams_spec timeout directions tr peers :
  exists e ps t, openStreams net timeout directions peers tr = Some ((e, peers ++ ps), tr ++ t) /\
    openLog tr t ps /\ openResult directions e t ps.
Proof.
  revert tr peers. induction directions as [|d directions IH]; intros tr peers; cbn [openStreams].
  { exists None, [], []. rewrite !app_nil_r. split_and!; [done|by apply openLog_nil|done]. }
  unfold cbind at 1, copen. destruct (net_open net tr) as [e|c] eqn:Ec.
  { eexists _, [], [COpen timeout (inl e)]. rewrite app_nil_r. split_and!; [done|by apply openLog_nil|set_solver]. }
  pose proof (Hf _ _ Ec) as Hc. unfold cbind, cnow, clog, cret.
  destruct (configure_spec c (tr ++ [COpen timeout (inr c)])) as (t1 & -> & Q1).
  destruct (deadline_spec c (Some (net_now net ((tr ++ [COpen timeout (inr c)]) ++ t1) + timeout))
    ((tr ++ [COpen timeout (inr c)]) ++ t1)) as (t2 & -> & Q2).
  destruct (writeFull_spec c (benchmarkHeader d) (((tr ++ [COpen timeout (inr c)]) ++ t1) ++ t2)) as (e & ws & -> & Hp & He).
  destruct (silent_logs t1 Q1) as (O1 & C1 & W1), (silent_logs t2 Q2) as (O2 & C2 & W2).
  set (t0 := [COpen timeout (inr c)] ++ t1 ++ t2).
  assert (opened t0 = [c]) as Ho by (unfold t0; autorewrite with logs; by rewrite O1, O2).
  assert (closed t0 = []) as Hcl by (unfold t0; autorewrite with logs; by rewrite C1, C2).
  assert (forall c', written c' t0 = []) as Hwr by (intros c'; unfold t0; autorewrite with logs; by rewrite W1, W2).
  replace ((((tr ++ [COpen timeout (inr c)]) ++ t1) ++ t2) ++ (CWrite c <$> ws)) with (tr ++ t0 ++ (CWrite c <$> ws))
    by (unfold t0; by rewrite <- !app_assoc).
  clearbody t0. destruct e as [e|].
  - exists (Some (ErrWrap "start benchmark stream: " e "")), [], (t0 ++ (CWrite c <$> ws) ++ [CClose c]).
    rewrite !app_nil_r, <- !app_assoc. split_and!; [done| |].
    + destruct (openLog_cons tr t0 ws c (mkPeer c d) [CClose c] Ho Hwr Hc Hp eq_refl []) as [L1 L2 L3 L4 _]; [by apply openLog_nil|].
      constructor; [done..|set_solver].
    + intros c'. autorewrite with logs. rewrite Ho, Hcl. cbn. set_solver.
  - destruct (IH (tr ++ t0 ++ (CWrite c <$> ws)) (peers ++ [mkPeer c d])) as (e & qs & t & -> & HL & HR).
    exists e, (mkPeer c d :: qs), (t0 ++ (CWrite c <$> ws) ++ t). rewrite <- !app_assoc. split_and!; [done|by eapply openLog_cons|].
    destruct e as [e|]; cbn in HR |- *.
    + intros c'. autorewrite with logs. rewrite Ho, Hcl. cbn. rewrite !elem_of_cons. naive_solver.
    + destruct HR as (R1 & R2 & R3 & R4). autorewrite with logs. rewrite Ho, Hcl, R1, R2, R3. split_and!; [done..|].
      assert (c ∉ opened t) as Hct.
      { intros Hin%(ol_fresh _ _ _ HL). apply Hin. autorewrite with logs. rewrite Ho. set_solver. }
      constructor; cbn.
      * autorewrite with logs. rewrite Hwr, decide_True, (ol_own _ _ _ HL c Hct), app_nil_r by done. by apply He.
      * rewrite Forall_forall in R4 |- *. intros p Hin. autorewrite with logs. rewrite Hwr.
        rewrite decide_False; [by apply R4|]. intros ->. apply Hct. rewrite R2. by apply list_elem_of_fmap_2.
Qed.

Lemma awaitReady_spec peers tr :
  exists e t, awaitReady net peers tr = Some (e, tr ++ t) /\ silent t /\
    (e = None -> Forall (is_ready t) (p_conn <$> peers)).
Proof.
  revert tr. induction peers as [|p peers IH]; intros tr; cbn [awaitReady].
  { exists None, []. rewrite app_nil_r. split_and!; [done|constructor|constructor]. }
  unfold cbind, creadFull. set (r := net_readFull net tr (p_conn p) 1). destruct (readinessChecked r) as [e|] eqn:Er.
  { exists (Some e), [CReadFull (p_conn p) r]. split_and!; [done|repeat constructor|done]. }
  destruct (IH (tr ++ [CReadFull (p_conn p) r])) as (e & t & -> & Hs & Ht). exists e, (CReadFull (p_conn p) r :: t).
  rewrite <- app_assoc. split_and!; [done|by constructor|]. intros He. specialize (Ht He). constructor.
  - unfold readinessChecked in Er. destruct r as [|ready]; [done|]. exists ready. split; [by left|].
    case_bool_decide; [done|discriminate].
  - eapply Forall_impl; [exact Ht|]. intros c (ready & Hin & Hr). exists ready. split; [by right|done].
Qed.

(** The third loop writes nothing but start markers. *)
Lemma releaseStreams_spec peers tr :
  NoDup (p_conn <$> peers) ->
  exists e t, releaseStreams net peers tr = Some (e, tr ++ t) /\ opened t = [] /\ closed t = [] /\
    (forall c, c ∉ p_conn <$> peers -> written c t = []) /\
    (e = None -> Forall (fun c => written c t = [benchmarkStart]) (p_conn <$> peers)).
Proof.
  revert tr. induction peers as [|p peers IH]; intros tr Hnd; cbn [releaseStreams].
  { exists None, []. rewrite app_nil_r. split_and!; done || constructor. }
  apply NoDup_cons in Hnd as [Hni Hnd]. unfold cbind, cret.
  destruct (writeFull_spec (p_conn p) [benchmarkStart] tr) as (e & ws & -> & _ & He). destruct e as [e|].
  { eexists _, (CWrite (p_conn p) <$> ws). split_and!; [done|by autorewrite with logs..| |done].
    intros c Hc. autorewrite with logs. rewrite decide_False by set_solver. done. }
  destruct (deadline_spec (p_conn p) None (tr ++ (CWrite (p_conn p) <$> ws))) as (t1 & -> & Q1).
  destruct (silent_logs t1 Q1) as (O1 & C1 & W1).
  destruct (IH ((tr ++ (CWrite (p_conn p) <$> ws)) ++ t1) Hnd) as (e & t & -> & Ho & Hc & Hwr & Hres).
  exists e, ((CWrite (p_conn p) <$> ws) ++ t1 ++ t). rewrite <- !app_assoc. autorewrite with logs. rewrite O1, C1, Ho, Hc.
  split_and!; [done..| |].
  - intros c Hn. autorewrite with logs. rewrite W1, Hwr, decide_False by set_solver. done.
  - intros Hnone. cbn. constructor.
    + autorewrite with logs. rewrite W1, Hwr, decide_True, He by done. done.
    + specialize (Hres Hnone). rewrite Forall_forall in Hres |- *. intros c Hin. autorewrite with logs.
      rewrite W1, (Hres c Hin), decide_False by (intros Heq; apply Hni; by rewrite Heq). done.
Qed.

Lemma closeConnections_spec peers tr :
  closeBenchmarkConnections peers tr = Some ((), tr ++ (CClose <$> (p_conn <$> peers))).
Proof.
  revert tr. induction peers as [|p peers IH]; intros tr; cbn [closeBenchmarkConnections]; [by rewrite app_nil_r|].
  unfold cbind, clog. rewrite IH. by rewrite <- app_assoc.
Qed.

End Setup.

Lemma closes_logs cs : opened (CClose <$> cs) = [] /\ closed (CClose <$> cs) = cs /\ forall c, written c (CClose <$> cs) = [].
Proof.
  unfold opened, closed, written. induction cs as [|c cs (IH1 & IH2 & IH3)]; [done|]. rewrite !fmap_cons. cbn [concat].
  rewrite IH1, IH2. split_and!; [done..|]. intros c'. rewrite fmap_cons. cbn. by rewrite IH3.
Qed.

(** A write after a full header comes after the phase whose writes stay within
    the headers. *)
Lemma write_after_header t t' t1 c p t2 :
  (forall c', zlen (written c' t) <= 9) -> t ++ t' = t1 ++ CWrite c p :: t2 -> p <> [] -> 9 <= zlen (written c t1) ->
  exists t1', t1 = t ++ t1' /\ t' = t1' ++ CWrite c p :: t2.
Proof.
  intros Hle Heq Hp Hlen. apply app_eq_inv in Heq as [(k & -> & Heq)|(k & -> & Heq)].
  - destruct k as [|x k].
    { cbn in Heq. exists []. by rewrite !app_nil_r. }
    cbn in Heq. injection Heq as <- ->. specialize (Hle c). autorewrite with logs in Hle.
    unfold written in Hle at 2. rewrite fmap_cons in Hle. cbn in Hle. rewrite decide_True in Hle by done.
    rewrite !zlen_app in Hle. destruct p; [done|]. rewrite zlen_cons in Hle.
    pose proof (zlen_nonneg p). pose proof (zlen_nonneg (written c k)). fold (written c k) in Hle. lia.
  - by exists k.
Qed.

Lemma no_write t t1 c p t2 : written c t = [] -> t = t1 ++ CWrite c p :: t2 -> p = [].
Proof.
  intros Hwr ->. autorewrite with logs in Hwr. apply app_eq_nil in Hwr as [_ Hwr]. unfold written in Hwr. rewrite fmap_cons in Hwr.
  cbn in Hwr. rewrite decide_True in Hwr by done. by apply app_eq_nil in Hwr as [? _].
Qed.

Lemma silent_no_write t t' t1 c p t2 :
  silent t -> t ++ t' = t1 ++ CWrite c p :: t2 -> exists t1', t1 = t ++ t1' /\ t' = t1' ++ CWrite c p :: t2.
Proof.
  intros Hs Heq. apply app_eq_inv in Heq as [(k & -> & Heq)|(k & -> & Heq)]; [|by exists k].
  destruct k as [|x k]; [cbn in Heq; exists []; by rewrite !app_nil_r|].
  cbn in Heq. injection Heq as <- ->. unfold silent in Hs. by apply Forall_app in Hs as [_ [[] _]%Forall_cons].
Qed.

(** Writes after the headers find the barrier passed, once every responder was
    found ready; before that there is none. *)
Lemma barrier t t' t'' ps t1 c b t2 :
  (forall c', zlen (written c' t) <= 9) -> silent t' -> opened t = p_conn <$> ps ->
  Forall (fun p => written (p_conn p) t = benchmarkHeader (p_direction p)) ps ->
  Forall (is_ready t') (p_conn <$> ps) \/ written c t'' = [] -> opened t'' = [] ->
  t ++ t' ++ t'' = t1 ++ CWrite c b :: t2 -> b <> [] -> 9 <= zlen (written c t1) ->
  opened t1 = p_conn <$> ps /\
  forall p, p ∈ ps -> benchmarkHeader (p_direction p) `prefix_of` written (p_conn p) t1 /\ is_ready t1 (p_conn p).
Proof.
  intros L4 Hs Ho Hhead Hready Ho' Heq Hb Hlen.
  destruct (write_after_header _ _ _ _ _ _ L4 Heq Hb Hlen) as (k1 & -> & Heq1).
  destruct (silent_no_write _ _ _ _ _ _ Hs Heq1) as (k2 & -> & Heq2).
  destruct Hready as [Hready|Hwr]; [|by destruct Hb; eapply no_write].
  rewrite Heq2 in Ho'. autorewrite with logs in Ho'. apply app_eq_nil in Ho' as [Hk2 _].
  destruct (silent_logs t' Hs) as (O' & _ & W'). split; [autorewrite with logs; by rewrite O', Hk2, !app_nil_r|].
  intros p Hp. rewrite Forall_forall in Hhead. rewrite Forall_forall in Hready. autorewrite with logs. rewrite (Hhead p Hp). split; [by apply prefix_app_r|].
  destruct (Hready (p_conn p)) as (r & Hin & Hr); [by apply list_elem_of_fmap_2|]. exists r. split; [set_solver|done].
Qed.

(** * Properties *)

(** C24. A benchmark starts together or not at all.  Whatever the network
    answers, the setup returns; if it fails, every connection it opened is
    closed; if it succeeds, the streams are exactly those of the plan, each on
    a connection of its own that is still open and was given its header and the
    start marker and nothing else; and in either case nothing beyond the header is written on
    any stream before every stream of the plan has its whole header written and its
    responder's readiness read. *)
Theorem benchmark_setup net cfg :
  writer_ok net -> fresh_conns net ->
  exists r tr, startBenchmark net cfg [] = Some (r, tr) /\
    match r with
    | inl _ => forall c, c ∈ opened tr -> c ∈ closed tr
    | inr peers =>
        checkBenchmark cfg = inr (p_direction <$> peers) /\ NoDup (p_conn <$> peers) /\
        opened tr = p_conn <$> peers /\ closed tr = [] /\
        forall p, p ∈ peers -> written (p_conn p) tr = benchmarkHeader (p_direction p) ++ [benchmarkStart]
    end /\
    (forall t1 c b t2, tr = t1 ++ CWrite c b :: t2 -> b <> [] -> 9 <= zlen (written c t1) ->
      exists peers, checkBenchmark cfg = inr (p_direction <$> peers) /\ opened t1 = p_conn <$> peers /\
        forall p, p ∈ peers -> benchmarkHeader (p_direction p) `prefix_of` written (p_conn p) t1 /\ is_ready t1 (p_conn p)).
Proof.
  intros Hw Hf. unfold startBenchmark. destruct (checkBenchmark cfg) as [e|directions] eqn:Hck.
  { exists (inl e), []. split_and!; [done|set_solver|]. intros t1 c b t2 Heq. by destruct t1. }
  unfold setupBenchmark, cbind, cret.
  destruct (openStreams_spec net Hw Hf (bc_DialTimeout cfg) directions [] []) as (e & ps & t & -> & [L1 L2 L3 L4 L5] & HR). cbn [app].
  destruct (closes_logs (p_conn <$> ps)) as (X1 & X2 & X3). unfold openResult in HR.
  destruct e as [e|].
  { rewrite closeConnections_spec. eexists _, _. split_and!; [done| |].
    - intros c. autorewrite with logs. rewrite X1, X2, app_nil_r. intros [|]%HR; set_solver.
    - intros t1 c b t2 Heq Hb Hlen. destruct (write_after_header _ _ _ _ _ _ L4 Heq Hb Hlen) as (t1' & -> & Heq').
      by destruct Hb; eapply no_write. }
  destruct HR as (R1 & R2 & R3 & R4).
  destruct (awaitReady_spec net ps t) as (e & t' & -> & Hs & Hready). destruct (silent_logs t' Hs) as (O' & C' & W').
  destruct e as [e|].
  { rewrite closeConnections_spec. eexists _, _. rewrite <- app_assoc. split_and!; [done| |].
    - intros c. autorewrite with logs. rewrite O', X1, X2, !app_nil_r, R2. set_solver.
    - intros t1 c b t2 Heq Hb Hlen. exists ps. rewrite R3. split; [done|].
      eapply (barrier t t' _ ps t1 c b t2 L4 Hs R2 R4); [| |exact Heq|done..]; [right; apply X3|done]. }
  destruct (releaseStreams_spec net Hw Hf ps (t ++ t') ltac:(by rewrite <- R2)) as (e & t'' & -> & O2 & C2 & W2 & F2).
  destruct e as [e|].
  { rewrite closeConnections_spec. eexists _, _. rewrite <- !app_assoc. split_and!; [done| |].
    - intros c. autorewrite with logs. rewrite O', O2, X1, X2, !app_nil_r, R2. set_solver.
    - intros t1 c b t2 Heq Hb Hlen. exists ps. rewrite R3. split; [done|].
      eapply (barrier t t' _ ps t1 c b t2 L4 Hs R2 R4); [| |exact Heq|done..]; [left; by apply Hready|by rewrite opened_app, O2, X1]. }
  eexists _, _. rewrite <- app_assoc. split; [done|]. split.
  - autorewrite with logs. rewrite O', C', R1, R2, R3, O2, C2, !app_nil_r. split_and!; [done|by rewrite <- R2|done..|].
    specialize (F2 eq_refl). rewrite Forall_forall in R4. rewrite Forall_forall in F2. intros p Hp. autorewrite with logs.
    rewrite W', (R4 p Hp), F2; [done|]. by apply list_elem_of_fmap_2.
  - intros t1 c b t2 Heq Hb Hlen. exists ps. rewrite R3. split; [done|].
    eapply (barrier t t' _ ps t1 c b t2 L4 Hs R2 R4); [| |exact Heq|done..]; [left; by apply Hready|done].
Qed.

(** ** Witnesses *)

(** A network that answers every call: connections are numbered, a write takes
    at most five bytes, and a responder is always ready. *)
Definition demoNetwork : network :=
  mkNetwork (fun _ => 0) (fun tr => inr (S (list_max (opened tr)))) (fun _ _ data => (Z.min 5 (zlen data), None))
    (fun _ _ _ => inr [benchmarkReady]) (fun _ _ _ => Sent EOF) (fun _ _ => None) true true.

Definition demoBenchmark : BenchmarkClientConfig := mkBenchmarkConfig "both" (10 * Second) (5 * Second) 2 0 false.

Lemma demo_writer : writer_ok demoNetwork.
Proof. intros tr c data. cbn. pose proof (zlen_nonneg data). lia. Qed.

Lemma demo_fresh : fresh_conns demoNetwork.
Proof.
  intros tr c [= <-] Hin%list_elem_of_In. pose proof (proj1 (list_max_le (opened tr) _) (le_n _)) as Hall.
  rewrite List.Forall_forall in Hall. specialize (Hall _ Hin). lia.
Qed.

Lemma benchmark_setup_witness :
  exists peers tr, startBenchmark demoNetwork demoBenchmark [] = Some (inr peers, tr) /\ length peers = 4%nat /\
    p_conn <$> peers = [1; 2; 3; 4]%nat /\ opened tr = p_conn <$> peers.
Proof.
  destruct (benchmark_setup demoNetwork demoBenchmark demo_writer demo_fresh) as (r & tr & Heq & Hr & _).
  vm_compute in Heq. injection Heq as <- <-. cbn [p_conn] in Hr. destruct Hr as (_ & _ & Ho & _).
  eexists _, _. split; [vm_compute; reflexivity|]. split; [reflexivity|]. split; [reflexivity|exact Ho].
Defined.
