(* ===== verification/BenchmarkEnd.v ===== *)
(** * The end of a benchmark
    (internal/app/benchmark.go: runBenchmarkClient after its setup)

    The pumps of Benchmark, one per stream, the acknowledgement reader each
    sending pump starts, the timer, the context and the goroutine that waits for
    the first of them, as one machine whose steps interleave.  The other end of
    every stream is arbitrary: bytes arrive as the network likes and every call on
    a connection has the outcome it likes.  What is assumed of a connection is
    what its documentation promises of one that was closed: no more bytes
    arrive, and a call on it returns — a [Write] with an error, a [Read] with
    bytes that had arrived or an error. *)

From S2P Require Import GoStrings.
From S2P Require Export BenchmarkRun.

(** ** The machine *)

(** One peer: its direction, its pump's state, whether the goroutine around the
    pump has sent the result. *)
Record stream := mkStream { sm_direction : benchmarkDirection; sm_pump : pump; sm_gone : bool }.

#[export] Instance eta_stream : Eta stream := fun x => mkStream (sm_direction x) (sm_pump x) (sm_gone x).

Inductive ending := ByContext | ByTimer | ByResult (e : error).

Inductive runPc :=
  | AtSelect
  | AtClose (why : ending) (k : nat)     (* closeBenchmarkConnections, the next peer *)
  | AtWait (why : ending)                (* pumps.Wait *)
  | AtDefer (r : err) (k : nat)          (* the deferred close *)
  | AtEnd (r : err).

Record benchRun := mkBenchRun {
  pumps : list stream;
  b_closed : list bool;                  (* which connections were closed *)
  results : list error;                  (* the channel *)
  ctxDone : bool;
  timerFired : bool;
  reported : bool;                       (* the result line *)
  b_pc : runPc
}.

#[export] Instance eta_benchRun : Eta benchRun := fun s =>
  mkBenchRun (pumps s) (b_closed s) (results s) (ctxDone s) (timerFired s) (reported s) (b_pc s).

(** One pump per peer, the channel as large as the number of peers. *)
Definition newRun (directions : list benchmarkDirection) : benchRun :=
  mkBenchRun ((fun d => mkStream d newPump false) <$> directions) (replicate (length directions) false) [] false false false AtSelect.

Definition uploads (x : stream) : bool := bool_decide (sm_direction x = benchmarkUpload).

(** What the stream's pump returned. *)
Definition returned (x : stream) : err :=
  if uploads x then match s_pc (sm_pump x) with SpReturned e => Some e | _ => None end
  else match r_pc (sm_pump x) with RpReturned e => Some e | _ => None end.

Inductive runTurn :=
  | RContext | RTimer                              (* the environment *)
  | RArrive (i : nat) (n : nat) (ack : bytes)      (* payload or acknowledgement bytes reach a peer *)
  | RPump (i : nat) (t : pumpTurn)
  | RResult (i : nat)                              (* results <- *)
  | RSelect (why : ending)
  | RMain.

(** The turns of the pump the stream runs. *)
Definition runs_turn (x : stream) (t : pumpTurn) : bool :=
  match t with TSend | TWrite _ _ | TAck _ => uploads x | TRead _ _ | TWriteAck _ _ => negb (uploads x) end.

(** What a call on a closed connection returns. *)
Definition outcome_ok (closed : bool) (t : pumpTurn) : bool :=
  match t with
  | TWrite _ e | TWriteAck _ e => negb closed || bool_decide (is_Some e)
  | TRead n e => negb closed || bool_decide (is_Some e) || (0 <? n)
  | TSend | TAck _ => true
  end.

Definition returnError (duration : string) (s : benchRun) (why : ending) : err :=
  match why with
  | ByContext | ByTimer => None
  | ByResult e => if ctxDone s then None else Some (ErrWrap ("benchmark stream ended before " +:+ duration +:+ ": ") e "")
  end.

Definition run_step (duration : string) (s : benchRun) (t : runTurn) : option benchRun :=
  match t with
  | RContext => if ctxDone s then None else Some (s <| ctxDone := true |>)
  | RTimer => if timerFired s then None else Some (s <| timerFired := true |>)
  | RArrive i n ack =>
      x ← pumps s !! i; closed ← b_closed s !! i;
      if (closed : bool) then None
      else
        let p := (sm_pump x) <| data := data (sm_pump x) + Z.of_nat n |> <| acks := acks (sm_pump x) ++ ack |> in
        Some (s <| pumps := <[i := x <| sm_pump := p |>]> (pumps s) |>)
  | RPump i t =>
      x ← pumps s !! i; closed ← b_closed s !! i;
      if runs_turn x t && outcome_ok closed t then
        p ← pump_step (sm_pump x) t; Some (s <| pumps := <[i := x <| sm_pump := p |>]> (pumps s) |>)
      else None
  | RResult i =>
      x ← pumps s !! i; e ← returned x;
      if sm_gone x || (length (pumps s) <=? length (results s))%nat then None
      else Some (s <| results := results s ++ [e] |> <| pumps := <[i := x <| sm_gone := true |>]> (pumps s) |>)
  | RSelect why =>
      match b_pc s, why, results s with
      | AtSelect, ByContext, _ => if ctxDone s then Some (s <| b_pc := AtClose why 0 |>) else None
      | AtSelect, ByTimer, _ => if timerFired s then Some (s <| b_pc := AtClose why 0 |>) else None
      | AtSelect, ByResult e, e' :: rest =>
          if decide (e = e') then Some (s <| results := rest |> <| b_pc := AtClose why 0 |>) else None
      | _, _, _ => None
      end
  | RMain =>
      match b_pc s with
      | AtClose why k =>
          Some (if (k <? length (pumps s))%nat then s <| b_closed := <[k := true]> (b_closed s) |> <| b_pc := AtClose why (S k) |>
                else s <| b_pc := AtWait why |>)
      | AtWait why =>
          if forallb sm_gone (pumps s)
          then Some (s <| reported := match why with ByTimer => true | _ => reported s end |>
                       <| b_pc := AtDefer (returnError duration s why) 0 |>)
          else None
      | AtDefer r k =>
          Some (if (k <? length (pumps s))%nat then s <| b_closed := <[k := true]> (b_closed s) |> <| b_pc := AtDefer r (S k) |>
                else s <| b_pc := AtEnd r |>)
      | _ => None
      end
  end.

Inductive run_reachable (duration : string) (directions : list benchmarkDirection) : benchRun -> Prop :=
  | RrInit : run_reachable duration directions (newRun directions)
  | RrStep s t s' : run_reachable duration directions s -> run_step duration s t = Some s' -> run_reachable duration directions s'.

(** ** Who moves, and when

    The client's own goroutine, the goroutine of each pump, and the
    acknowledgement reader of each sending pump. *)

Inductive goroutine := GMain | GPump (i : nat) | GAck (i : nat).

#[export] Instance goroutine_eq_dec : EqDecision goroutine.
Proof. solve_decision. Defined.

Definition agent (t : runTurn) : option goroutine :=
  match t with
  | RContext | RTimer | RArrive _ _ _ => None
  | RPump i (TAck _) => Some (GAck i)
  | RPump i _ | RResult i => Some (GPump i)
  | RSelect _ | RMain => Some GMain
  end.

(** A pump that has not returned can go on by itself: it is not in a call on an
    open connection, and if it waits for [wake] the token is there. *)
Definition pump_ready (closed : bool) (x : stream) : Prop :=
  if uploads x then
    match s_pc (sm_pump x) with SpCheck => True | SpWait => wake (sm_pump x) = true | SpWrite _ => closed = true | SpReturned _ => False end
  else match r_pc (sm_pump x) with RpRead | RpAck _ _ => closed = true | RpReturned _ => False end.

Definition due (g : goroutine) (s : benchRun) : Prop :=
  match g with
  | GMain =>
      match b_pc s with
      | AtSelect => ctxDone s = true \/ timerFired s = true \/ results s <> []
      | AtClose _ _ | AtDefer _ _ => True
      | AtWait _ => forallb sm_gone (pumps s) = true
      | AtEnd _ => False
      end
  | GPump i => exists x closed, pumps s !! i = Some x /\ b_closed s !! i = Some closed /\ sm_gone x = false /\
      (pump_ready closed x \/ is_Some (returned x) /\ (length (results s) < length (pumps s))%nat)
  | GAck i => exists x closed, pumps s !! i = Some x /\ b_closed s !! i = Some closed /\ uploads x = true /\
      match a_pc (sm_pump x) with ApRead => closed = true | ApCount _ | ApSignal _ => True | ApEnd => False end
  end.

(** * Invariants *)

(** A stream: a pump whose result was sent has returned; after its error the
    acknowledgement reader leaves a token, so that a waiting pump wakes. *)
Record stream_ok (x : stream) : Prop := {
  so_gone : sm_gone x = true -> is_Some (returned x);
  so_data : 0 <= data (sm_pump x);
  so_rest : forall rest, s_pc (sm_pump x) = SpWrite rest -> 0 <= rest;
  so_error : a_pc (sm_pump x) = ApEnd \/ a_pc (sm_pump x) = ApSignal true -> is_Some (sendErr (sm_pump x));
  so_wake : s_pc (sm_pump x) = SpWait -> a_pc (sm_pump x) = ApEnd -> wake (sm_pump x) = true
}.

Lemma stream_ok_new d : stream_ok (mkStream d newPump false).
Proof. split; cbn; try done. by intros [|]. Qed.

Lemma stream_ok_arrive x n ack :
  stream_ok x ->
  stream_ok (x <| sm_pump := (sm_pump x) <| data := data (sm_pump x) + Z.of_nat n |> <| acks := acks (sm_pump x) ++ ack |> |>).
Proof. destruct x as [d p g]. destruct p. intros [H1 H2 HW H3 H4]. split; cbn in *; try done. lia. Qed.

Lemma stream_ok_gone x : stream_ok x -> is_Some (returned x) -> stream_ok (x <| sm_gone := true |>).
Proof. destruct x as [d p g]. intros [H1 H2 HW H3 H4] Hr. by split. Qed.

(** The invariant of the stream after a step of its pump. *)
#[local] Ltac stream_done :=
  split; unfold returned, uploads; cbn [afterRead sm_direction sm_pump sm_gone s_pc a_pc r_pc data sendErr wake upd]; rewrite ?bool_decide_true, ?bool_decide_false by done;
  try done; try lia; try (intros ? [= <-]; lia).

Lemma stream_ok_pump x t p :
  runs_turn x t = true -> pump_step (sm_pump x) t = Some p -> stream_ok x -> stream_ok (x <| sm_pump := p |>).
Proof.
  destruct x as [d q g]. destruct q as [sn cf se wk sp ap ct da ak tt an cr rp]. unfold runs_turn.
  intros Hr Hs [H1 H2 HW H3 H4]. unfold returned, uploads in *. cbn in *.
  change (stream_ok (mkStream d p g)).
  destruct t as [|n e|e|n e|n e]; cbn [pump_step] in Hs; try (apply negb_true_iff in Hr); rewrite Hr in H1; [apply bool_decide_eq_true in Hr..|apply bool_decide_eq_false in Hr|apply bool_decide_eq_false in Hr].
  - assert (g = true -> is_Some (match sp with SpReturned e => Some e | _ => None end)) as H1' by done.
    destruct sp; cbn in Hs; try done.
    + destruct se as [e|]; [injection Hs as <-; stream_done|].
      assert (ap <> ApEnd /\ ap <> ApSignal true) as [Ha1 Ha2].
      { split; intros ->; destruct H3 as [? ?]; try done; [by left|by right]. }
      pose proof sizes. destruct (_ <=? _) eqn:Eb; bool2prop; injection Hs as <-; stream_done; intros Hg; destruct (H1' Hg); done.
    + destruct wk; [|done]. injection Hs as <-. stream_done; intros Hg; destruct (H1' Hg); done.
  - destruct sp as [|rest| |]; cbn in Hs; try done. destruct ((n <? 0) || (rest <? n)) eqn:En; [done|]. bool2prop.
    destruct e as [e|]; [injection Hs as <-; stream_done|].
    destruct (n =? 0); [|destruct (rest =? n)]; injection Hs as <-; stream_done; intros Hg; destruct (H1 Hg); done.
  - destruct ap as [|dl|last|], e as [e|]; cbn in Hs; try done.
    + injection Hs as <-. stream_done.
    + destruct (_ <? 8); [done|]. destruct (_ || _); injection Hs as <-; stream_done; by intros [|].
    + injection Hs as <-. stream_done; by intros [|].
    + injection Hs as <-. destruct last; stream_done; [intros _; apply H3; by right|by intros [|]].
  - destruct rp as [|rest e0|e0]; cbn in Hs; try done.
    destruct ((n <? 0) || _) eqn:En; [done|]. bool2prop. injection Hs as <-.
    destruct (0 <? n) eqn:Hn; bool2prop; [destruct (_ <=? _)|]; destruct e as [e|]; stream_done. all: intros Hg; destruct (H1 Hg); done.
  - destruct rp as [|rest e0|e0]; cbn in Hs; try done.
    destruct ((n <? 0) || _) eqn:En; [done|]. bool2prop. injection Hs as <-.
    destruct e as [e|]; [stream_done|].
    destruct (n =? 0); [stream_done|]. destruct (_ =? _); [destruct e0 as [e0|]|]; stream_done; intros Hg; destruct (H1 Hg); done.
Qed.

(** ** Work left on a closed connection *)

Definition ackWork (p : pump) : nat :=
  match a_pc p with
  | ApEnd => 0
  | ApSignal true => 1
  | ApRead => 3 * length (acks p) + 2
  | ApSignal false => 3 * length (acks p) + 3
  | ApCount _ => 3 * length (acks p) + 4
  end.

Definition sendWork (p : pump) : nat :=
  match s_pc p with SpCheck => 4 | SpWait => 3 | SpWrite _ => 2 | SpReturned _ => 1 end.

Definition recvWork (p : pump) : nat :=
  match r_pc p with RpRead => Z.to_nat (data p) + 3 | RpAck _ _ => 2 | RpReturned _ => 1 end.

Definition streamWork (x : stream) : nat :=
  (if uploads x then 3 * ackWork (sm_pump x) + 2 * Nat.b2n (wake (sm_pump x)) else 0) +
  (if sm_gone x then 0 else if uploads x then sendWork (sm_pump x) else recvWork (sm_pump x)).

Lemma streamWork_decreases x t p :
  stream_ok x -> runs_turn x t = true -> outcome_ok true t = true -> pump_step (sm_pump x) t = Some p ->
  (streamWork (x <| sm_pump := p |>) < streamWork x)%nat.
Proof.
  destruct x as [d q g]. destruct q as [sn cf se wk sp ap ct da ak tt an cr rp]. unfold runs_turn, outcome_ok.
  intros [H1 H2 HW H3 H4] Hr Ho Hs. unfold streamWork, returned, uploads, ackWork, sendWork, recvWork in *. cbn -[Nat.mul] in *.
  destruct t as [|n e|e|n e|n e]; cbn [pump_step] in Hs; cbn [negb orb] in Ho; try (apply negb_true_iff in Hr); rewrite ?Hr in H1 |- *.
  - assert (g = false) as -> by (destruct g; [destruct (H1 eq_refl) as [? ?]; by destruct sp|done]).
    destruct sp; cbn in Hs; try done.
    + destruct se as [e|]; [injection Hs as <-; cbn; lia|]. destruct (_ <=? _); injection Hs as <-; cbn; lia.
    + destruct wk; [|done]. injection Hs as <-. cbn. lia.
  - assert (g = false) as -> by (destruct g; [destruct (H1 eq_refl) as [? ?]; by destruct sp|done]).
    destruct sp as [|rest| |]; cbn in Hs; try done. destruct (_ || _); [done|]. bool2prop. destruct e as [e|]; [|by destruct Ho].
    injection Hs as <-. cbn. lia.
  - destruct ap as [|dl|last|], e as [e|]; cbn in Hs; try done.
    + injection Hs as <-. cbn -[Nat.mul]. lia.
    + destruct (Z.ltb_spec (zlen ak) 8) as [|Hl]; [done|]. unfold zlen in Hl.
      assert (length (slice_from ak 8) + 8 = length ak)%nat as Hlen by (unfold slice_from; rewrite length_drop; lia).
      destruct (_ || _); injection Hs as <-; cbn -[Nat.mul]; lia.
    + injection Hs as <-. cbn -[Nat.mul]. lia.
    + injection Hs as <-. destruct last, wk; cbn -[Nat.mul]; lia.
  - assert (g = false) as -> by (destruct g; [destruct (H1 eq_refl) as [? ?]; by destruct rp|done]).
    destruct rp as [|rest e0|e0]; cbn in Hs; try done. destruct ((n <? 0) || _) eqn:En; [done|]. bool2prop. injection Hs as <-.
    destruct (Z.ltb_spec 0 n) as [Hn|Hn]; [destruct (_ <=? _)|]; destruct e as [e|]; cbn; try lia.
    apply orb_true_iff in Ho as [Ho|Ho]; bool2prop; [by destruct Ho|lia].
  - assert (g = false) as -> by (destruct g; [destruct (H1 eq_refl) as [? ?]; by destruct rp|done]).
    destruct rp as [|rest e0|e0]; cbn in Hs; try done. destruct ((n <? 0) || _) eqn:En; [done|]. bool2prop. injection Hs as <-.
    destruct e as [e|]; [cbn; lia|]. by destruct Ho.
Qed.

(** ** The run's invariant *)

Definition conns_closed (s : benchRun) : Prop := forall i, b_closed s !! i <> Some false.
Definition all_gone (s : benchRun) : Prop := Forall (fun x => sm_gone x = true) (pumps s).
Definition acks_ended (s : benchRun) : Prop := Forall (fun x => uploads x = true -> a_pc (sm_pump x) = ApEnd) (pumps s).

Definition why_ok (s : benchRun) (why : ending) : Prop :=
  match why with ByContext => ctxDone s = true | ByTimer => timerFired s = true | ByResult _ => True end.

Definition result_ok (duration : string) (s : benchRun) (r : err) : Prop :=
  match r with
  | None => (reported s = true /\ timerFired s = true) \/ ctxDone s = true
  | Some e' => exists e, e' = ErrWrap ("benchmark stream ended before " +:+ duration +:+ ": ") e ""
  end.

Record run_inv (duration : string) (s : benchRun) : Prop := {
  ri_streams : Forall stream_ok (pumps s);
  ri_closed : length (b_closed s) = length (pumps s);
  ri_results : (length (results s) <= countb sm_gone (pumps s))%nat;
  ri_pc : match b_pc s with
          | AtSelect => True
          | AtClose why k => (forall i, (i < k)%nat -> b_closed s !! i <> Some false) /\ why_ok s why
          | AtWait why => conns_closed s /\ why_ok s why
          | AtDefer r _ | AtEnd r => conns_closed s /\ all_gone s /\ result_ok duration s r
          end
}.

(** A stream moves: the step of its pump, of the network, of its goroutine. *)
Record stream_moves (s : benchRun) (i : nat) (x y : stream) (rs : list error) : Prop := {
  mv_old : pumps s !! i = Some x;
  mv_ok : stream_ok x -> stream_ok y;
  mv_gone : sm_gone x = true -> sm_gone y = true;
  mv_returned : sm_gone y = false -> is_Some (returned x) -> is_Some (returned y);
  mv_results : (length rs + Nat.b2n (sm_gone x) = length (results s) + Nat.b2n (sm_gone y))%nat;
  mv_work : conns_closed s -> stream_ok x -> (streamWork y < streamWork x)%nat
}.

Definition with_stream (s : benchRun) (i : nat) (y : stream) (rs : list error) : benchRun :=
  s <| results := rs |> <| pumps := <[i := y]> (pumps s) |>.

Definition of_stream (t : runTurn) : option nat :=
  match t with RArrive i _ _ | RPump i _ | RResult i => Some i | _ => None end.

Lemma with_same s i y : with_stream s i y (results s) = s <| pumps := <[i := y]> (pumps s) |>.
Proof. by destruct s. Qed.

(** A pump that returned takes no more turns; its acknowledgement reader may. *)
Lemma returned_stuck x t :
  runs_turn x t = true -> is_Some (returned x) -> (exists e, t = TAck e) \/ pump_step (sm_pump x) t = None.
Proof.
  destruct x as [d q g]. unfold returned, runs_turn, uploads. cbn [sm_direction sm_pump]. intros Hr Hx.
  destruct t as [| |e| |]; [..|by left; exists e| |]; right; try (apply negb_true_iff in Hr); rewrite Hr in Hx; cbn;
    unfold send_step, recv_step; by destruct (s_pc q), (r_pc q); destruct Hx.
Qed.

Lemma returned_stays x t p :
  runs_turn x t = true -> pump_step (sm_pump x) t = Some p -> is_Some (returned x) -> is_Some (returned (x <| sm_pump := p |>)).
Proof.
  intros Hr Hs Hx. destruct (returned_stuck x t Hr Hx) as [[e ->]|Hn]; [|congruence].
  assert (s_pc p = s_pc (sm_pump x)) as Hp.
  { destruct x as [d q g]. destruct q as [sn cf se wk sp ap ct da ak tt an cr rp]. cbn in Hs.
    destruct ap as [|dl|last|], e as [e|]; cbn in Hs; try done; [..|destruct (_ <? 8); [done|]; destruct (_ || _)| |]; by injection Hs as <-. }
  destruct x as [d q g]. change (is_Some (returned (mkStream d p g))). unfold runs_turn, returned, uploads in *.
  cbn [sm_direction sm_pump] in *. rewrite Hr in Hx. by rewrite Hr, Hp.
Qed.

Lemma stream_turn_moves duration s t i s' :
  Forall stream_ok (pumps s) -> of_stream t = Some i -> run_step duration s t = Some s' ->
  exists x y rs, stream_moves s i x y rs /\ s' = with_stream s i y rs.
Proof.
  intros Hok Ht Hs. destruct t as [| |j n ack|j t|j|why|]; try done; injection Ht as ->; cbn [run_step] in Hs.
  - destruct (pumps s !! i) as [x|] eqn:Hi; [|done]. destruct (b_closed s !! i) as [[|]|] eqn:Hc; [done| |done]. injection Hs as <-.
    eexists x, _, _. split; [|symmetry; apply with_same]. split; [done|by apply stream_ok_arrive| |done|done|].
    + by destruct x.
    + intros Hcc. by destruct (Hcc i).
  - destruct (pumps s !! i) as [x|] eqn:Hi; [|done]. destruct (b_closed s !! i) as [cl|] eqn:Hc; [|done]. cbn in Hs.
    destruct (runs_turn x t) eqn:Hr; [|done]. destruct (outcome_ok cl t) eqn:Ho; [|done].
    destruct (pump_step (sm_pump x) t) as [p|] eqn:Hp; [|done]. injection Hs as <-.
    eexists x, _, _. split; [|symmetry; apply with_same]. split; [done|by eapply stream_ok_pump|by destruct x|by intros _; eapply returned_stays|done|].
    intros Hcc Hx. assert (cl = true) as -> by (destruct cl; [done|by destruct (Hcc i)]). by eapply streamWork_decreases.
  - destruct (pumps s !! i) as [x|] eqn:Hi; [|done]. cbn in Hs. destruct (returned x) as [e|] eqn:Hr; [|done]. cbn in Hs.
    destruct (sm_gone x) eqn:Hg; [done|]. destruct (_ <=? _)%nat; [done|]. injection Hs as <-.
    exists x, (x <| sm_gone := true |>), (results s ++ [e]). split; [|done].
    split; [done|by intros Hx; apply stream_ok_gone|done|done|rewrite Hg, length_app; cbn; lia|].
    intros _ _. destruct x as [d p g]. cbn in *. subst g. unfold streamWork, uploads, sendWork, recvWork. cbn.
    destruct (bool_decide _), (s_pc p), (r_pc p); lia.
Qed.

Lemma Forall_insert_in {A} (P : A -> Prop) l i y : Forall P l -> P y -> Forall P (<[i := y]> l).
Proof. intros Hl Hy. by apply Forall_insert. Qed.

Lemma with_stream_inv duration s i x y rs :
  run_inv duration s -> stream_moves s i x y rs -> run_inv duration (with_stream s i y rs).
Proof.
  intros [I1 I2 I3 I4] [M1 M2 M3 M4 M5 M6]. pose proof (countb_insert sm_gone (pumps s) i x y M1) as Hc.
  assert (stream_ok x) as Hx by (rewrite Forall_lookup in I1; by eapply I1).
  assert (all_gone s -> all_gone (with_stream s i y rs)) as Hgone.
  { unfold all_gone. destruct s. cbn in *. intros Hg. apply Forall_insert_in; [done|]. apply M3.
    rewrite Forall_lookup in Hg. by eapply Hg. }
  assert (length rs <= countb sm_gone (<[i := y]> (pumps s)))%nat as Hrs by lia. clear Hc M5.
  destruct s as [ps cl r cd tf rp pc]. unfold with_stream in *. cbn in *. split; cbn.
  - apply Forall_insert_in; [done|by apply M2].
  - by rewrite length_insert.
  - done.
  - destruct pc; try done; destruct I4 as (Hcl & Hg & Hr); (split_and!; [done|by apply Hgone|done]).
Qed.

Lemma conns_closed_upto s k : length (b_closed s) = length (pumps s) -> (length (pumps s) <= k)%nat ->
  (forall i, (i < k)%nat -> b_closed s !! i <> Some false) -> conns_closed s.
Proof. intros Hl Hk H i Hi. eapply H; [|exact Hi]. apply lookup_lt_Some in Hi. lia. Qed.

Lemma closed_insert (l : list bool) i k : l !! i <> Some false -> <[k := true]> l !! i <> Some false.
Proof. intros H. destruct (decide (i = k)) as [->|Hne]; [|by rewrite list_lookup_insert_ne by done]. by intros [(_ & ? & _)|[]]%list_lookup_insert_Some. Qed.

Lemma closed_new (l : list bool) k : <[k := true]> l !! k <> Some false.
Proof. by intros [(_ & ? & _)|[]]%list_lookup_insert_Some. Qed.

(** The program's own turns. *)
Lemma main_inv duration s t s' :
  run_inv duration s -> of_stream t = None -> run_step duration s t = Some s' -> run_inv duration s'.
Proof.
  intros [I1 I2 I3 I4] Ht Hs. destruct s as [ps cl rs cd tf rp pc]. cbn in *.
  destruct t as [| | | | |why|]; try done; cbn [run_step] in Hs; cbn -[Nat.ltb] in Hs.
  - destruct cd; [done|]. injection Hs as <-. split; try done. cbn.
    destruct pc; try done; try (destruct I4 as [? Hy]; split; [done|by destruct why]); destruct I4 as (? & ? & Hr);
      (split_and!; [done..|destruct r; [done|by right]]).
  - destruct tf; [done|]. injection Hs as <-. split; try done. cbn.
    destruct pc; try done; try (destruct I4 as [? Hy]; split; [done|by destruct why]); destruct I4 as (? & ? & Hr);
      (split_and!; [done..|destruct r; [done|destruct Hr as [[? _]|]; [by left|by right]]]).
  - destruct pc, why; try done.
    + destruct cd; [|done]. injection Hs as <-. split; try done. cbn. split; [|done]. intros i Hi. lia.
    + destruct tf; [|done]. injection Hs as <-. split; try done. cbn. split; [|done]. intros i Hi. lia.
    + destruct rs as [|e' rs]; [done|]. destruct (decide _); [|done]. injection Hs as <-. cbn in I3.
      split; cbn; [done..|lia|]. split; [|done]. intros i Hi. lia.
  - destruct pc as [|why k|why|r k|r]; try done.
    + destruct I4 as [Hc Hy]. destruct (k <? length ps)%nat eqn:E; injection Hs as <-.
      * split; cbn; [done|by rewrite length_insert|done|]. split; [|done]. intros i Hi.
        destruct (decide (i = k)) as [->|]; [apply closed_new|apply closed_insert, Hc; lia].
      * apply Nat.ltb_ge in E. split; try done. cbn. split; [|done]. by apply (conns_closed_upto _ k).
    + destruct (forallb sm_gone ps) eqn:Eg; [|done]. injection Hs as <-.
      destruct I4 as [Hc Hy]. split; try done. cbn. split_and!; [done| |].
      * unfold all_gone. cbn. apply Forall_forall. intros x Hx. rewrite forallb_forall in Eg. by apply Eg, list_elem_of_In.
      * unfold returnError. destruct why; cbn in *; [by right|by left|]. destruct cd; [by right|by eexists].
    + destruct I4 as (Hc & Hg & Hr). destruct (k <? length ps)%nat eqn:E; injection Hs as <-; [|by split].
      split; cbn; [done|by rewrite length_insert|done|]. split_and!; [|done..]. intros i. apply closed_insert, Hc.
Qed.

Lemma run_step_inv duration s t s' : run_inv duration s -> run_step duration s t = Some s' -> run_inv duration s'.
Proof.
  intros HI Hs. destruct (of_stream t) as [i|] eqn:Ht; [|by eapply main_inv].
  destruct (stream_turn_moves duration s t i s') as (x & y & rs & Hm & ->); [by destruct HI|done..|]. by eapply with_stream_inv.
Qed.

Lemma run_reachable_inv duration directions s : run_reachable duration directions s -> run_inv duration s.
Proof.
  induction 1 as [|s t s' _ IH Hs]; [|by eapply run_step_inv]. split; cbn.
  - apply Forall_fmap, Forall_true. intros d. apply stream_ok_new.
  - by rewrite length_replicate, length_fmap.
  - lia.
  - done.
Qed.

(** ** Progress *)

Lemma stream_at duration s i x : run_inv duration s -> pumps s !! i = Some x -> stream_ok x.
Proof. intros [I1 _ _ _] Hi. rewrite Forall_lookup in I1. by eapply I1. Qed.

(** The channel has room for the result of every pump. *)
Lemma results_room duration s i x :
  run_inv duration s -> pumps s !! i = Some x -> sm_gone x = false -> (length (results s) < length (pumps s))%nat.
Proof.
  intros [_ _ I3 _] Hi Hg. pose proof (countb_insert sm_gone (pumps s) i x (x <| sm_gone := true |>) Hi) as Hc.
  assert (countb sm_gone (<[i := x <| sm_gone := true |>]> (pumps s)) <= length (<[i := x <| sm_gone := true |>]> (pumps s)))%nat as Hle by apply filter_length_le.
  rewrite length_insert in Hle. rewrite Hg in Hc. change (sm_gone (x <| sm_gone := true |>)) with true in Hc. cbn [Nat.b2n] in Hc. lia.
Qed.

Lemma send_never_blocks duration s i x :
  run_inv duration s -> pumps s !! i = Some x -> sm_gone x = false -> is_Some (returned x) -> is_Some (run_step duration s (RResult i)).
Proof.
  intros HI Hi Hg [e He]. pose proof (results_room _ _ _ _ HI Hi Hg) as Hroom. cbn [run_step]. rewrite Hi. cbn. rewrite He. cbn.
  rewrite Hg, (proj2 (Nat.leb_gt _ _)) by done. by eexists.
Qed.

(** A turn of the stream's pump, as a turn of the run. *)
Lemma pump_turn duration s i x closed t p :
  pumps s !! i = Some x -> b_closed s !! i = Some closed -> runs_turn x t = true -> outcome_ok closed t = true ->
  pump_step (sm_pump x) t = Some p -> exists s', run_step duration s (RPump i t) = Some s'.
Proof. intros Hi Hc Hr Ho Hp. cbn [run_step]. rewrite Hi. cbn. rewrite Hc. cbn. rewrite Hr, Ho. cbn. rewrite Hp. by eexists. Qed.

Definition closedError : error := Sent NetErrClosed.

Lemma ready_turn closed x :
  stream_ok x -> pump_ready closed x ->
  exists t, (forall i, agent (RPump i t) = Some (GPump i)) /\ runs_turn x t = true /\ outcome_ok closed t = true /\ is_Some (pump_step (sm_pump x) t).
Proof.
  destruct x as [d q g]. destruct q as [sn cf se wk sp ap ct da ak tt an cr rp]. intros [H1 H2 HW H3 H4].
  unfold pump_ready, uploads, runs_turn in *. cbn in *. destruct (bool_decide _) eqn:Hd; intros Hr.
  - destruct sp as [|rest| |]; try done.
    + exists TSend. split_and!; [done|exact Hd|done|]. cbn. destruct se; by eexists.
    + specialize (HW rest eq_refl). exists (TWrite 0 (Some closedError)). split_and!; [done|exact Hd|by destruct closed|]. cbn.
      rewrite (proj2 (Z.ltb_ge rest 0)) by done. by eexists.
    + subst wk. exists TSend. split_and!; [done|exact Hd|done|by eexists].
  - destruct rp as [|rest e|]; try done.
    + exists (TRead 0 (Some closedError)). split_and!; [done|apply negb_true_iff; exact Hd|by destruct closed|]. cbn.
      rewrite (proj2 (Z.ltb_ge _ 0)); [by eexists|]. pose proof sizes. lia.
    + exists (TWriteAck 0 (Some closedError)). split_and!; [done|apply negb_true_iff; exact Hd|by destruct closed|]. cbn.
      rewrite (proj2 (Z.ltb_ge _ 0)) by apply zlen_nonneg. by eexists.
Qed.

(** Whoever is due can move. *)
Lemma due_enabled duration s g :
  run_inv duration s -> due g s -> exists t s', agent t = Some g /\ run_step duration s t = Some s'.
Proof.
  intros HI. destruct g as [|i|i]; cbn [due].
  - destruct (b_pc s) as [|why k|why|r k|r] eqn:Epc.
    + intros [H|[H|H]].
      * exists (RSelect ByContext). cbn. rewrite Epc, H. by eexists.
      * exists (RSelect ByTimer). cbn. rewrite Epc, H. by eexists.
      * destruct (results s) as [|e rs] eqn:Er; [done|]. exists (RSelect (ByResult e)). cbn. rewrite Epc, Er, decide_True by done. by eexists.
    + intros _. exists RMain. cbn. rewrite Epc. by eexists.
    + intros H. exists RMain. cbn. rewrite Epc, H. by eexists.
    + intros _. exists RMain. cbn. rewrite Epc. by eexists.
    + done.
  - intros (x & closed & Hi & Hc & Hg & [Hr|[Hr _]]).
    + destruct (ready_turn closed x (stream_at _ _ _ _ HI Hi) Hr) as (t & Ha & Ht & Ho & p & Hp).
      destruct (pump_turn duration s i x closed t p Hi Hc Ht Ho Hp) as [s' Hs]. by exists (RPump i t), s'.
    + destruct (send_never_blocks _ _ _ _ HI Hi Hg Hr) as [s' Hs]. by exists (RResult i), s'.
  - intros (x & closed & Hi & Hc & Hu & Ha).
    assert (forall e p, ack_step (sm_pump x) (TAck e) = Some p -> exists t s', agent t = Some (GAck i) /\ run_step duration s t = Some s') as Hack.
    { intros e p Hp. destruct (pump_turn duration s i x closed (TAck e) p Hi Hc) as [s' Hs]; [done|done|done|]. by exists (RPump i (TAck e)), s'. }
    destruct (a_pc (sm_pump x)) as [|dl|last|] eqn:Ea; try done.
    + apply (Hack (Some closedError) ((sm_pump x) <| sendErr := Some closedError |> <| a_pc := ApSignal true |>)). unfold ack_step. by rewrite Ea.
    + eapply (Hack None). unfold ack_step. by rewrite Ea.
    + eapply (Hack None). unfold ack_step. by rewrite Ea.
Qed.

(** A pump on a closed connection does not wait for ever: it can go on, or the
    acknowledgement reader that will wake it can. *)
Lemma closed_due duration s i x :
  run_inv duration s -> conns_closed s -> pumps s !! i = Some x ->
  sm_gone x = false \/ (uploads x = true /\ a_pc (sm_pump x) <> ApEnd) -> exists g, due g s.
Proof.
  intros HI Hcl Hi Hx. assert (b_closed s !! i = Some true) as Hc.
  { destruct (b_closed s !! i) as [[|]|] eqn:E; [done|by destruct (Hcl i)|]. apply lookup_ge_None in E. pose proof (ri_closed _ _ HI).
    pose proof (lookup_lt_Some _ _ _ Hi). lia. }
  assert (uploads x = true -> a_pc (sm_pump x) <> ApEnd -> exists g, due g s) as Hack.
  { intros Hu Ha. exists (GAck i), x, true. split_and!; [done..|]. by destruct (a_pc (sm_pump x)). }
  destruct Hx as [Hg|[Hu Ha]]; [|by apply Hack].
  pose proof (results_room _ _ _ _ HI Hi Hg) as Hroom. pose proof (so_wake _ (stream_at _ _ _ _ HI Hi)) as Hw.
  assert (pump_ready true x \/ is_Some (returned x) \/ (uploads x = true /\ s_pc (sm_pump x) = SpWait /\ wake (sm_pump x) = false)) as Hcase.
  { unfold pump_ready, returned. destruct (uploads x); [destruct (s_pc (sm_pump x))|destruct (r_pc (sm_pump x))]; try by left.
    - destruct (wake (sm_pump x)); [by left|by right; right].
    - by right; left.
    - by right; left. }
  destruct Hcase as [H|[H|(Hu & Hp & Hwk)]]; [exists (GPump i), x, true; (split_and!; [done..|]); by auto| |].
  { exists (GPump i), x, true. split_and!; [done..|]. by right. }
  apply Hack; [done|]. intros Ha. rewrite Hw in Hwk by done. done.
Qed.

(** Something for the [select]: it was passed, or one of its cases is ready, or
    a pump has a result to send. *)
Definition awake (s : benchRun) : Prop :=
  b_pc s <> AtSelect \/ ctxDone s = true \/ timerFired s = true \/ results s <> [] \/
  exists i x, pumps s !! i = Some x /\ sm_gone x = false /\ is_Some (returned x).

(** What [runBenchmarkClient] leaves behind when it has returned: no goroutine
    it started, and no open connection. *)
Definition finished (duration : string) (s : benchRun) : Prop :=
  exists r, b_pc s = AtEnd r /\ all_gone s /\ acks_ended s /\ conns_closed s /\ result_ok duration s r.

Definition work (s : benchRun) : nat :=
  match b_pc s with AtWait _ => length (pumps s) + 2 | AtDefer _ k => 1 + (length (pumps s) - k) | _ => 0 end
  + sum_list_with streamWork (pumps s).

(** Past the first round of closes. *)
Definition closing (duration : string) (s : benchRun) : Prop :=
  run_inv duration s /\ conns_closed s /\ match b_pc s with AtSelect | AtClose _ _ => False | _ => True end.

Lemma closing_step duration s t s' :
  closing duration s -> run_step duration s t = Some s' ->
  closing duration s' /\ ((work s' < work s)%nat \/ agent t = None /\ work s' = work s /\ forall g, due g s -> due g s').
Proof.
  intros (HI & Hcl & Hpc) Hs. pose proof (run_step_inv _ _ _ _ HI Hs) as HI'. destruct (of_stream t) as [i|] eqn:Ht.
  - destruct (stream_turn_moves duration s t i s') as (x & y & rs & Hm & ->); [by destruct HI|done..|].
    assert (b_pc (with_stream s i y rs) = b_pc s) as Epc by by destruct s.
    assert (pumps (with_stream s i y rs) = <[i := y]> (pumps s)) as Eps by by destruct s.
    split; [split_and!; [done|by destruct s|by rewrite Epc]|]. left.
    pose proof (mv_work _ _ _ _ _ Hm Hcl (stream_at _ _ _ _ HI (mv_old _ _ _ _ _ Hm))) as Hw.
    pose proof (sum_list_with_insert streamWork (pumps s) i x y (mv_old _ _ _ _ _ Hm)) as Hsum.
    unfold work. rewrite Epc, Eps, length_insert. lia.
  - destruct s as [ps cl rs cd tf rp pc]. unfold work, closing in *.
    destruct t as [| | | | |why|]; try done; cbn [run_step] in Hs; cbn -[Nat.ltb] in Hs; cbn in Hpc.
    + destruct cd; [done|]. injection Hs as <-. split; [done|]. right. split_and!; [done..|]. intros [|j|j]; cbn; by destruct pc.
    + destruct tf; [done|]. injection Hs as <-. split; [done|]. right. split_and!; [done..|]. intros [|j|j]; cbn; by destruct pc.
    + by destruct pc.
    + destruct pc as [|why k|why|r k|r]; try done.
      * destruct (forallb sm_gone ps) eqn:Eg; [|done]. injection Hs as <-. split; [done|]. left. cbn -[Nat.sub]. lia.
      * destruct (k <? length ps)%nat eqn:E; injection Hs as <-.
        -- apply Nat.ltb_lt in E. split; [split_and!; [done| |done]|left; cbn -[Nat.sub]; lia]. intros i. apply closed_insert, Hcl.
        -- split; [done|]. left. cbn -[Nat.sub]. lia.
Qed.

Lemma forallb_missing {A} (f : A -> bool) l : forallb f l = false -> exists i x, l !! i = Some x /\ f x = false.
Proof.
  induction l as [|x l IH]; [done|]. cbn. destruct (f x) eqn:Ex; [|intros _; by exists 0%nat, x].
  intros (i & y & Hi & Hy)%IH. by exists (S i), y.
Qed.

Lemma closing_due duration s : closing duration s -> finished duration s \/ exists g, due g s.
Proof.
  intros (HI & Hcl & Hpc). destruct (b_pc s) as [|why k|why|r k|r] eqn:Epc; try done.
  - right. destruct (forallb sm_gone (pumps s)) eqn:Eg; [exists GMain; cbn; by rewrite Epc|].
    destruct (forallb_missing _ _ Eg) as (i & x & Hi & Hg). eapply closed_due; [done..|by left].
  - right. exists GMain. cbn. by rewrite Epc.
  - pose proof (ri_pc _ _ HI) as Hend. rewrite Epc in Hend. destruct Hend as (_ & Hg & Hr).
    destruct (forallb (fun x => negb (uploads x) || match a_pc (sm_pump x) with ApEnd => true | _ => false end) (pumps s)) eqn:Ea.
    + left. exists r. split_and!; try done. apply Forall_forall. intros x Hx Hu. rewrite forallb_forall in Ea.
      specialize (Ea x (proj1 (list_elem_of_In _ _) Hx)). rewrite Hu in Ea. by destruct (a_pc (sm_pump x)).
    + right. destruct (forallb_missing _ _ Ea) as (i & x & Hi & Hx). apply orb_false_iff in Hx as [Hu Hx]. apply negb_false_iff in Hu.
      eapply closed_due; [done..|]. right. split; [done|]. intros Hae. by rewrite Hae in Hx.
Qed.

(** A step of a stream, or of the environment, leaves the program's place. *)
Lemma place_kept duration s t s' :
  run_inv duration s -> agent t <> Some GMain -> run_step duration s t = Some s' ->
  b_pc s' = b_pc s /\ length (pumps s') = length (pumps s).
Proof.
  intros HI Ha Hs. destruct (of_stream t) as [i|] eqn:Ht.
  - destruct (stream_turn_moves duration s t i s') as (x & y & rs & Hm & ->); [by destruct HI|done..|].
    destruct s. cbn. by rewrite length_insert.
  - destruct s as [ps cl rs cd tf rp pc]. destruct t; try done; cbn in Hs; [destruct cd|destruct tf]; try done; by injection Hs as <-.
Qed.

(** The turns of the program's own goroutine, and the others before the
    [select] is passed. *)
Lemma select_turn duration s t s' :
  b_pc s = AtSelect -> agent t = Some GMain -> run_step duration s t = Some s' -> exists why, b_pc s' = AtClose why 0.
Proof.
  destruct s as [ps cl rs cd tf rp pc]. cbn. intros -> Ha Hs. destruct t as [| | |i [] | |why|]; try done; cbn in Hs.
  destruct why; [destruct cd|destruct tf|destruct rs; [done|]; destruct (decide _)]; try done; injection Hs as <-; by eexists.
Qed.

Lemma close_turn duration s t s' why k :
  run_inv duration s -> b_pc s = AtClose why k -> agent t = Some GMain -> run_step duration s t = Some s' ->
  closing duration s' \/ b_pc s' = AtClose why (S k) /\ (length (pumps s') - S k < length (pumps s) - k)%nat.
Proof.
  intros HI Hpc Ha Hs. pose proof (run_step_inv _ _ _ _ HI Hs) as HI'. destruct t as [| | |i [] | |w|]; try done; cbn [run_step] in Hs; rewrite Hpc in Hs; [by destruct w|].
  destruct (k <? length (pumps s))%nat eqn:E; injection Hs as <-.
  - right. apply Nat.ltb_lt in E. destruct s. cbn -[Nat.sub] in *. split; [done|lia].
  - left. split_and!; [done| |by destruct s]. pose proof (ri_pc _ _ HI') as H. destruct s. by destruct H.
Qed.

Lemma ready_kept duration s t s' :
  run_inv duration s -> agent t <> Some GMain -> run_step duration s t = Some s' ->
  ctxDone s = true \/ timerFired s = true \/ results s <> [] -> ctxDone s' = true \/ timerFired s' = true \/ results s' <> [].
Proof.
  intros HI Ha Hs Hr. destruct (of_stream t) as [i|] eqn:Ht.
  - destruct (stream_turn_moves duration s t i s') as (x & y & rs & Hm & ->); [by destruct HI|done..|].
    pose proof (mv_results _ _ _ _ _ Hm) as Hrs. pose proof (mv_gone _ _ _ _ _ Hm) as Hg. destruct s as [ps cl r cd tf rp pc]. cbn in *.
    destruct Hr as [Hr|[Hr|Hr]]; [by left|by right; left|right; right]. intros ->. destruct r; [done|]. cbn in Hrs.
    destruct (sm_gone x); [rewrite Hg in Hrs by done|destruct (sm_gone y)]; cbn in Hrs; lia.
  - destruct s as [ps cl rs cd tf rp pc]. destruct t; try done; cbn in Hs; [destruct cd|destruct tf]; try done; injection Hs as <-; cbn in *; auto.
Qed.

Lemma result_turn duration s i t s' x :
  pumps s !! i = Some x -> is_Some (returned x) -> agent t = Some (GPump i) -> run_step duration s t = Some s' -> results s' <> [].
Proof.
  intros Hi Hx Ha Hs. destruct t as [| | |j t|j| |]; try done; cbn [run_step] in Hs.
  - assert (j = i) as -> by (by destruct t; injection Ha). rewrite Hi in Hs. cbn in Hs. destruct (b_closed s !! i); [|done]. cbn in Hs.
    destruct (runs_turn x t) eqn:Hr; [|done]. destruct (returned_stuck x t Hr Hx) as [[e ->]|Hn]; [done|]. rewrite Hn in Hs. by destruct (outcome_ok _ _).
  - injection Ha as ->. rewrite Hi in Hs. cbn in Hs. destruct (returned x); [|done]. cbn in Hs. destruct (_ || _); [done|]. injection Hs as <-.
    destruct s as [ps cl rs cd tf rp pc]. by destruct rs.
Qed.

Lemma result_kept duration s i t s' x :
  run_inv duration s -> pumps s !! i = Some x -> sm_gone x = false -> is_Some (returned x) -> run_step duration s t = Some s' ->
  agent t <> Some GMain ->
  (exists x, pumps s' !! i = Some x /\ sm_gone x = false /\ is_Some (returned x)) \/ results s' <> [].
Proof.
  intros HI Hi Hg Hx Hs Ha. destruct (of_stream t) as [j|] eqn:Ht.
  - destruct (stream_turn_moves duration s t j s') as (z & y & rs & Hm & ->); [by destruct HI|done..|].
    destruct Hm as [M1 M2 M3 M4 M5 M6]. destruct s as [ps cl r cd tf rp pc]. cbn in *. destruct (decide (i = j)) as [->|Hne].
    + rewrite Hi in M1. injection M1 as <-. destruct (sm_gone y) eqn:Hy.
      * right. intros ->. rewrite Hg in M5. cbn in M5. lia.
      * left. exists y. split_and!; [|done|by apply M4]. apply list_lookup_insert_eq. by eapply lookup_lt_Some.
    + left. exists x. by rewrite list_lookup_insert_ne.
  - left. exists x. destruct s as [ps cl rs cd tf rp pc]. destruct t; try done; cbn in Hs; [destruct cd|destruct tf]; try done; by injection Hs as <-.
Qed.

Section Run.
Context (duration : string) (run : nat -> benchRun) (Hfair : fair_run (run_step duration) agent due run)
  (Hinv : run_inv duration (run 0%nat)).

Lemma run_kept k : run_inv duration (run k).
Proof. apply (fair_run_keeps _ _ _ _ _ Hfair); [|done]. intros s t s'. apply run_step_inv. Qed.

(** The first round of closes. *)
Lemma closes_end j why k : b_pc (run j) = AtClose why k -> eventually run (closing duration) j.
Proof.
  remember (length (pumps (run j)) - k)%nat as n eqn:Hn. revert j k Hn. induction n as [n IH] using lt_wf_ind. intros j k Hn Hpc.
  apply (eventually_then run (fun s => closing duration s \/ b_pc s = AtClose why (S k) /\ (length (pumps s) - S k < n)%nat)).
  - apply (eventually_by (run_step duration) agent due run GMain
      (fun s => run_inv duration s /\ b_pc s = AtClose why k /\ (length (pumps s) - k = n)%nat)); [done|..].
    + intros s (_ & H & _). cbn. by rewrite H.
    + intros s t s' (HI & Hs1 & Hs2) Hs. destruct (decide (agent t = Some GMain)) as [Ha|Ha].
      * right. rewrite <- Hs2. by eapply close_turn.
      * left. destruct (place_kept _ _ _ _ HI Ha Hs) as [Hp Hl]. split_and!; [by eapply run_step_inv|congruence|lia].
    + intros s t s' (HI & Hs1 & Hs2) Ha Hs. rewrite <- Hs2. by eapply close_turn.
    + split_and!; [apply run_kept|done|done].
  - intros j' _ [HR|[Hp Hlt]]; [by apply eventually_now|]. by eapply IH.
Qed.

Lemma select_taken j :
  b_pc (run j) = AtSelect -> ctxDone (run j) = true \/ timerFired (run j) = true \/ results (run j) <> [] ->
  eventually run (closing duration) j.
Proof.
  intros Hpc Hready. apply (eventually_then run (fun s => exists why, b_pc s = AtClose why 0)); [|intros j' _ [why H]; by eapply closes_end].
  apply (eventually_by (run_step duration) agent due run GMain
    (fun s => run_inv duration s /\ b_pc s = AtSelect /\ (ctxDone s = true \/ timerFired s = true \/ results s <> []))); [done|..].
  - intros s (_ & H & Hr). cbn. by rewrite H.
  - intros s t s' (HI & Hs1 & Hs2) Hs. destruct (decide (agent t = Some GMain)) as [Ha|Ha].
    + right. by eapply select_turn.
    + left. destruct (place_kept _ _ _ _ HI Ha Hs) as [Hp Hl]. split_and!; [by eapply run_step_inv|congruence|]. by eapply ready_kept.
  - intros s t s' (HI & Hs1 & Hs2) Ha Hs. by eapply select_turn.
  - split_and!; [apply run_kept|done|done].
Qed.

(** A pump that has returned sends its result. *)
Lemma result_sent j i x :
  b_pc (run j) = AtSelect -> pumps (run j) !! i = Some x -> sm_gone x = false -> is_Some (returned x) ->
  eventually run (closing duration) j.
Proof.
  intros Hpc Hi Hg Hx.
  apply (eventually_then run (fun s => (exists why, b_pc s = AtClose why 0) \/ b_pc s = AtSelect /\ results s <> [])).
  - apply (eventually_by (run_step duration) agent due run (GPump i)
      (fun s => run_inv duration s /\ b_pc s = AtSelect /\ exists x, pumps s !! i = Some x /\ sm_gone x = false /\ is_Some (returned x))); [done|..].
    + intros s (HI & _ & y & Hy & Hyg & Hyr). destruct (b_closed s !! i) as [c|] eqn:Hc.
      * exists y, c. split_and!; [done..|]. right. split; [done|]. by eapply results_room.
      * apply lookup_ge_None in Hc. pose proof (ri_closed _ _ HI). pose proof (lookup_lt_Some _ _ _ Hy). lia.
    + intros s t s' (HI & Hs1 & y & Hy & Hyg & Hyr) Hs. destruct (decide (agent t = Some GMain)) as [Ha|Ha].
      * right. left. by eapply select_turn.
      * destruct (place_kept _ _ _ _ HI Ha Hs) as [Hp Hl]. destruct (result_kept _ _ _ _ _ _ HI Hy Hyg Hyr Hs Ha) as [H|H].
        -- left. split_and!; [by eapply run_step_inv|congruence|done].
        -- right. right. split; [congruence|done].
    + intros s t s' (HI & Hs1 & y & Hy & Hyg & Hyr) Ha Hs. right.
      destruct (place_kept duration s t s' HI) as [Hp Hl]; [congruence|done|]. split; [congruence|]. by eapply result_turn.
    + split_and!; [apply run_kept|done|by exists x].
  - intros j' _ [[why H]|[H Hr]]; [by eapply closes_end|]. apply select_taken; [done|]. by right; right.
Qed.

Lemma awake_closing : awake (run 0%nat) -> eventually run (closing duration) 0.
Proof.
  pose proof (run_kept 0) as HI. intros Ha. destruct (b_pc (run 0%nat)) as [|why k|why|r k|r] eqn:Epc.
  - destruct Ha as [Ha|[Ha|[Ha|[Ha|(i & x & Hi & Hg & Hx)]]]]; [done|..|by eapply result_sent]; apply select_taken; auto.
  - by eapply closes_end.
  - apply eventually_now. pose proof (ri_pc _ _ HI) as H. rewrite Epc in H. split_and!; [done|apply H|by rewrite Epc].
  - apply eventually_now. pose proof (ri_pc _ _ HI) as H. rewrite Epc in H. split_and!; [done|apply H|by rewrite Epc].
  - apply eventually_now. pose proof (ri_pc _ _ HI) as H. rewrite Epc in H. split_and!; [done|apply H|by rewrite Epc].
Qed.

Lemma awake_finishes : awake (run 0%nat) -> eventually run (finished duration) 0.
Proof.
  intros Ha. apply (eventually_then run (closing duration)); [by apply awake_closing|]. intros j _ Hc.
  apply (eventually_work (run_step duration) agent due run (closing duration) (finished duration) work j Hfair); [|apply closing_due|done].
  intros s t s'. apply closing_step.
Qed.
End Run.

(** * Properties *)

(** C25. A benchmark that runs comes to an end and cleans up.  In every
    interleaving of its pumps, their acknowledgement readers, the timer, the
    context and the network, a goroutine that is due can move, and the channel of
    results never blocks a pump.  Once the duration is over, the context is done
    or a pump has returned, every run in which no goroutine stays due for ever
    without a turn reaches a state in which the client has returned, every pump
    and every acknowledgement reader has ended, and every connection is closed.
    The client then reports no error only if the timer fired and the result line
    was logged, or the context is done.  A goroutine is due unless it has ended, waits for
    [wake], the [select] or the other goroutines in vain, or is in a call on an open connection: those may last
    for ever; calls on a closed one return. *)
Theorem benchmark_returns duration directions s :
  run_reachable duration directions s ->
  (forall g, due g s -> exists t s', agent t = Some g /\ run_step duration s t = Some s') /\
  (forall i x, pumps s !! i = Some x -> sm_gone x = false -> is_Some (returned x) -> is_Some (run_step duration s (RResult i))) /\
  (awake s -> forall run, run 0%nat = s -> fair_run (run_step duration) agent due run -> exists k, finished duration (run k)).
Proof.
  intros Hr. pose proof (run_reachable_inv _ _ _ Hr) as HI. split_and!.
  - intros g. by apply due_enabled.
  - intros i x. by apply send_never_blocks.
  - intros Ha run <- Hfair. destruct (awake_finishes duration run Hfair HI Ha) as (k & _ & Hk). by exists k.
Qed.

(** ** Witness

    An upload fills its window and waits; the timer fires. *)
Definition demoUntilTimer : list runTurn :=
  concat (replicate 16 [RPump 0 TSend; RPump 0 (TWrite benchmarkBlockSize None)]) ++
  [RPump 0 TSend; RArrive 1 100 []; RPump 1 (TRead 100 None); RTimer].

(** The reader that the close interrupts wakes the pump. *)
Definition demoAfterTimer : list runTurn :=
  [RSelect ByTimer; RMain; RMain; RMain;
   RPump 0 (TAck (Some closedError)); RPump 0 (TAck None); RPump 0 TSend; RPump 0 TSend; RResult 0;
   RPump 1 (TRead 0 (Some closedError)); RResult 1;
   RMain; RMain; RMain; RMain].

Definition demoRun (ts : list runTurn) : benchRun :=
  default (newRun []) (turns (run_step "10s") (newRun [benchmarkUpload; benchmarkDownload]) ts).

Lemma turns_reachable duration directions s ts s' :
  run_reachable duration directions s -> turns (run_step duration) s ts = Some s' -> run_reachable duration directions s'.
Proof.
  revert s. induction ts as [|t ts IH]; intros s Hr; [by intros [= <-]|]. cbn [turns].
  destruct (run_step duration s t) as [s1|] eqn:E; [|done]. cbn. apply IH. by eapply RrStep.
Qed.

Lemma demo_reachable : run_reachable "10s" [benchmarkUpload; benchmarkDownload] (demoRun demoUntilTimer).
Proof. eapply (turns_reachable _ _ _ demoUntilTimer); [apply RrInit|]. vm_compute. reflexivity. Qed.

Lemma demo_fair : fair_run (run_step "10s") agent due (play (run_step "10s") (demoRun demoUntilTimer) demoAfterTimer).
Proof.
  apply (play_fair _ _ _ _ _ (demoRun (demoUntilTimer ++ demoAfterTimer))); [vm_compute; reflexivity|].
  intros [|i|i] Hdue; [by vm_compute in Hdue|..].
  - destruct Hdue as (x & c & Hx & _ & Hg & _). destruct i as [|[|i]]; vm_compute in Hx; [..|done]; injection Hx as <-; by vm_compute in Hg.
  - destruct Hdue as (x & c & Hx & _ & Hu & Ha). destruct i as [|[|i]]; vm_compute in Hx; [..|done]; injection Hx as <-.
    + by vm_compute in Ha.
    + by vm_compute in Hu.
Qed.

Lemma benchmark_returns_witness :
  (s_pc <$> (sm_pump <$> pumps (demoRun demoUntilTimer) !! 0%nat)) = Some SpWait /\
  exists k, finished "10s" (play (run_step "10s") (demoRun demoUntilTimer) demoAfterTimer k).
Proof.
  split; [vm_compute; reflexivity|].
  destruct (benchmark_returns "10s" [benchmarkUpload; benchmarkDownload] (demoRun demoUntilTimer) demo_reachable) as (_ & _ & H).
  apply H; [|reflexivity|apply demo_fair]. right; right; left. vm_compute. reflexivity.
Defined.
