(* ===== verification/Picker.v ===== *)
(** * The interactive server picker
    (internal/app/picker.go)

    The Bubble Tea model of the picker: [Update] is one message, its result the
    new model, the commands it asks for and the contexts it cancels.  The
    renderer, which draws with a third-party library, is left out but for the
    layout and the row under the mouse. *)

From S2P Require Export BleScan.
From S2P Require Import MuxServices.

(** ** Data *)

Definition pickerDeviceFirstRowY : Z := 11.
Definition pickerSpinnerFrames : Z := 10.    (* len(pickerSpinnerFrames) *)

Record pickerServicesState := mkServicesState {
  ss_loading : bool;
  ss_request : Z;
  ss_services : list Service;
  ss_err : err
}.

Record pickerModel := mkPicker {
  orderedIDs : list string;
  devices : gmap string Device;
  selected : Z;
  serviceState : gmap string pickerServicesState;
  serviceProbeCancel : option Z;       (* the probe this cancels, by its request *)
  serviceProbeID : string;
  serviceProbeRequest : Z;
  windowWidth : Z;
  frame : Z;
  scanning : bool;
  scanErr : err;
  selectionErr : err;
  canceled : bool;
  picked : option Device               (* result *)
}.

#[export] Instance eta_picker : Eta pickerModel := fun m =>
  mkPicker (orderedIDs m) (devices m) (selected m) (serviceState m) (serviceProbeCancel m) (serviceProbeID m)
    (serviceProbeRequest m) (windowWidth m) (frame m) (scanning m) (scanErr m) (selectionErr m) (canceled m) (picked m).

Definition newPickerModel : pickerModel := mkPicker [] ∅ 0 ∅ None "" 0 0 0 true None None false None.

(** Commands and cancellations. *)
Inductive pickerEffect :=
  | NextScanEvent
  | NextScanTick
  | Probe (deviceID : string) (request : Z) (device : Device)
  | CancelProbe (request : Z)
  | CancelScan
  | Quit.

Inductive pickerMsg :=
  | ScanEvent (device : option Device) (found : list Device) (e : err) (done_ : bool)
  | ScanTick
  | WindowSize (width : Z)
  | ContextDone (e : err)
  | ServicesEvent (deviceID : string) (request : Z) (services : list Service) (e : err)
  | Mouse (motion : bool) (y : Z)
  | Key (k : string).

(** ** Operations *)

Definition cancelServiceProbe (m : pickerModel) : pickerModel * list pickerEffect :=
  (m <| serviceProbeCancel := None |> <| serviceProbeID := "" |>,
   match serviceProbeCancel m with Some r => [CancelProbe r] | None => [] end).

Definition ensureSelectedServices (m : pickerModel) : pickerModel * list pickerEffect :=
  match (if (selected m <? 0) || (zlen (orderedIDs m) <=? selected m) then None else orderedIDs m !! Z.to_nat (selected m)) with
  | None => (m, [])
  | Some deviceID =>
      if match serviceState m !! deviceID with Some state => negb (ss_loading state) | None => false end then (m, [])
      else if bool_decide (serviceProbeID m = deviceID) && bool_decide (is_Some (serviceProbeCancel m)) then (m, [])
      else
        let '(m, eff) := cancelServiceProbe m in
        let device := default zeroDevice (devices m !! deviceID) in
        let request := u64 (serviceProbeRequest m + 1) in
        (m <| serviceProbeCancel := Some request |> <| serviceProbeID := deviceID |> <| serviceProbeRequest := request |>
           <| serviceState := <[deviceID := mkServicesState true request [] None]> (serviceState m) |>,
         eff ++ [Probe deviceID request device])
  end.

(** A device of the scan: its row appears with the first report. *)
Definition addDevice (m : pickerModel) (d : Device) : pickerModel :=
  let m := if bool_decide (is_Some (devices m !! dev_ID d)) then m else m <| orderedIDs := orderedIDs m ++ [dev_ID d] |> in
  m <| devices := <[dev_ID d := d]> (devices m) |>.

Definition isCanceled (e : err) : bool := match e with Some e => errors_Is e ContextCanceled | None => false end.

Definition pickerDeviceIndexAtY (y : Z) : option Z :=
  if y <? pickerDeviceFirstRowY then None else Some (Z.quot (y - pickerDeviceFirstRowY) 2).

Definition moveTo (m : pickerModel) (index : Z) : pickerModel * list pickerEffect :=
  ensureSelectedServices (m <| selected := index |>).

(** [nil] or what enter picked; [None]: the selection is out of range, which
    panics. *)
Definition enterKey (m : pickerModel) : option (pickerModel * list pickerEffect) :=
  if bool_decide (orderedIDs m = []) then
    Some (if negb (scanning m) then (m <| selectionErr := Some (ErrNew "no LightningBNB servers found") |>, [Quit]) else (m, []))
  else if selected m <? 0 then None
  else
    id ← orderedIDs m !! Z.to_nat (selected m);
    let m := m <| picked := Some (default zeroDevice (devices m !! id)) |> in
    let '(m, eff) := cancelServiceProbe m in
    Some (m, eff ++ [CancelScan; Quit]).

Definition keyPressed (m : pickerModel) (k : string) : option (pickerModel * list pickerEffect) :=
  if bool_decide (k = "ctrl+c") || bool_decide (k = "esc") || bool_decide (k = "q") || bool_decide (k = "Q")
  then Some (m <| canceled := true |>, [CancelScan; Quit])
  else if bool_decide (k = "up") || bool_decide (k = "k") then
    Some (if bool_decide (orderedIDs m = []) then (m, [])
          else moveTo m (Z.rem (selected m + zlen (orderedIDs m) - 1) (zlen (orderedIDs m))))
  else if bool_decide (k = "down") || bool_decide (k = "j") then
    Some (if bool_decide (orderedIDs m = []) then (m, [])
          else moveTo m (Z.rem (selected m + 1) (zlen (orderedIDs m))))
  else if bool_decide (k = "enter") then enterKey m
  else Some (m, []).

Definition servicesArrived (m : pickerModel) (deviceID : string) (request : Z) (services : list Service) (e : err)
    : pickerModel * list pickerEffect :=
  match serviceState m !! deviceID with
  | None => (m, [])
  | Some state =>
      if negb (ss_request state =? request) then (m, [])
      else
        let m := m <| serviceState := <[deviceID := mkServicesState false (ss_request state) services e]> (serviceState m) |> in
        if serviceProbeRequest m =? request then cancelServiceProbe m else (m, [])
  end.

Definition scanEvent (m : pickerModel) (device : option Device) (found : list Device) (e : err) (done_ : bool)
    : pickerModel * list pickerEffect :=
  let m := match device with Some d => addDevice m d | None => m end in
  if done_ then
    let m := m <| scanning := false |> <| scanErr := e |> in
    let m := fold_left addDevice found m in
    if bool_decide (is_Some e) && negb (isCanceled e) then (m, [Quit]) else ensureSelectedServices m
  else
    let m := if zlen (orderedIDs m) <=? selected m then m <| selected := zlen (orderedIDs m) - 1 |> else m in
    let '(m, eff) := ensureSelectedServices m in (m, NextScanEvent :: eff).

(** [Update]; [None] is a panic. *)
Definition Update (m : pickerModel) (msg : pickerMsg) : option (pickerModel * list pickerEffect) :=
  match msg with
  | ScanEvent device found e done_ => Some (scanEvent m device found e done_)
  | ScanTick =>
      Some (if negb (scanning m) then (m, []) else (m <| frame := Z.rem (frame m + 1) pickerSpinnerFrames |>, [NextScanTick]))
  | WindowSize width => Some (m <| windowWidth := width |>, [])
  | ContextDone e => Some (m <| selectionErr := e |>, [Quit])
  | ServicesEvent deviceID request services e => Some (servicesArrived m deviceID request services e)
  | Mouse motion y =>
      Some (if negb motion then (m, [])
            else match pickerDeviceIndexAtY y with
                 | Some index =>
                     if (zlen (orderedIDs m) <=? index) || (index =? selected m) then (m, []) else moveTo m index
                 | None => (m, [])
                 end)
  | Key k => keyPressed m k
  end.

(** [stop], and what [chooseDeviceTUI] returns for the final model. *)
Definition stop (m : pickerModel) : pickerModel * list pickerEffect :=
  let '(m, eff) := cancelServiceProbe m in (m, eff ++ [CancelScan]).

Definition chooseDeviceTUI (runErr : err) (m : pickerModel) : result Device :=
  match runErr with
  | Some e => inl e
  | None =>
      if bool_decide (is_Some (scanErr m)) && negb (isCanceled (scanErr m))
      then inl (default (Sent EOF) (scanErr m))
      else
        match selectionErr m with
        | Some e => inl e
        | None =>
            if canceled m then inl (ErrNew "server selection canceled")
            else match picked m with Some d => inr d | None => inl (ErrNew "server selection canceled") end
        end
  end.

(** ** Layout *)

Record pickerLayout := mkLayout { frameWidth : Z; leftWidth : Z; rightWidth : Z; split_ : bool }.

Definition pickerLayoutFor (windowWidth : Z) : pickerLayout :=
  let windowWidth := if windowWidth <=? 0 then 120 else windowWidth in
  let frameWidth := windowWidth - 10 in
  let frameWidth := if 110 <? frameWidth then 110 else frameWidth in
  let frameWidth := if frameWidth <? 40 then 40 else frameWidth in
  if frameWidth <? 82 then mkLayout frameWidth (frameWidth - 6) 0 false
  else
    let panelContentWidth := frameWidth - 13 in
    let left := Z.quot (panelContentWidth * 3) 5 in
    mkLayout frameWidth left (panelContentWidth - left) true.

(** The panels fit into the frame: with borders (2) and, side by side, the gap;
    the content of a panel is at least 34 columns, or 27 when split. *)
Lemma pickerLayout_fits w :
  let l := pickerLayoutFor w in
  40 <= frameWidth l <= 110 /\
  (split_ l = false -> leftWidth l + 2 <= frameWidth l - 4 /\ 34 <= leftWidth l /\ rightWidth l = 0) /\
  (split_ l = true -> leftWidth l + 2 + 1 + rightWidth l + 2 <= frameWidth l - 4 /\ 27 <= rightWidth l <= leftWidth l).
Proof.
  unfold pickerLayoutFor. cbn zeta. repeat (case_match; bool2prop); cbn in *; split_and!; try done; intros;
    Z.to_euclidean_division_equations; lia.
Qed.

(** ** Runs *)

(** What the scanner sends: a device, or the end of the scan; fewer than 2^64
    probes were started. *)
Definition msg_ok (m : pickerModel) (msg : pickerMsg) : Prop :=
  serviceProbeRequest m + 1 < 2 ^ 64 /\
  match msg with ScanEvent None _ _ false => False | _ => True end.

Inductive picker_reachable : pickerModel -> list pickerEffect -> Prop :=
  | PkInit : picker_reachable newPickerModel []
  | PkStep m trace msg m' eff :
      picker_reachable m trace -> msg_ok m msg -> Update m msg = Some (m', eff) -> picker_reachable m' (trace ++ eff).

(** The probes that were started and not cancelled, after a trace. *)
Definition live_probe (s : gset Z) (e : pickerEffect) : gset Z :=
  match e with Probe _ r _ => {[ r ]} ∪ s | CancelProbe r => s ∖ {[ r ]} | _ => s end.
Definition live_probes (s : gset Z) (eff : list pickerEffect) : gset Z := fold_left live_probe eff s.

(** * The invariant *)

#[local] Arguments live_probes : simpl never.

Definition probe_set (m : pickerModel) : gset Z := match serviceProbeCancel m with Some r => {[ r ]} | None => ∅ end.

Record rows_ok (ids : list string) (ds : gmap string Device) : Prop := {
  rw_nodup : NoDup ids;
  rw_known : forall id, id ∈ ids <-> is_Some (ds !! id);
  rw_id : forall id d, ds !! id = Some d -> dev_ID d = id
}.

Record picker_inv (m : pickerModel) : Prop := {
  pk_rows : rows_ok (orderedIDs m) (devices m);
  pk_selected : 0 <= selected m /\ (selected m < zlen (orderedIDs m) \/ orderedIDs m = [] /\ selected m = 0);
  pk_probe : forall r, serviceProbeCancel m = Some r -> r = serviceProbeRequest m /\
    serviceState m !! serviceProbeID m = Some (mkServicesState true r [] None);
  pk_requests : forall id st, serviceState m !! id = Some st -> 1 <= ss_request st <= serviceProbeRequest m;
  pk_counter : 0 <= serviceProbeRequest m;
  pk_picked : forall d, picked m = Some d -> dev_ID d ∈ orderedIDs m
}.

Lemma addDevice_rows m d :
  rows_ok (orderedIDs m) (devices m) -> rows_ok (orderedIDs (addDevice m d)) (devices (addDevice m d)).
Proof.
  intros [R1 R2 R3]. unfold addDevice. case_bool_decide as Hd; cbn; split.
  - done.
  - intros id. rewrite R2. destruct (decide (dev_ID d = id)) as [<-|Hne]; [by rewrite lookup_insert_eq|by rewrite lookup_insert_ne].
  - intros id x [[<- <-]|[_ Hx]]%lookup_insert_Some; [done|by apply R3].
  - apply NoDup_app. split; [done|]. split; [|apply NoDup_singleton].
    intros id Hid ->%list_elem_of_singleton. by apply Hd, R2.
  - intros id. rewrite elem_of_app, list_elem_of_singleton, R2.
    destruct (decide (dev_ID d = id)) as [<-|Hne]; [rewrite lookup_insert_eq|rewrite lookup_insert_ne by done]; naive_solver.
  - intros id x [[<- <-]|[_ Hx]]%lookup_insert_Some; [done|by apply R3].
Qed.

Lemma addDevice_ids m d : exists l, orderedIDs (addDevice m d) = orderedIDs m ++ l.
Proof. unfold addDevice. case_bool_decide; cbn; [exists []; by rewrite app_nil_r|by eexists]. Qed.

(** Only rows are added. *)
Lemma addDevice_inv m d : picker_inv m -> picker_inv (addDevice m d).
Proof.
  intros [I1 I2 I3 I4 I5 I6]. pose proof (addDevice_rows m d I1) as HR. destruct (addDevice_ids m d) as [l Hl].
  assert (addDevice m d = m <| orderedIDs := orderedIDs m ++ l |> <| devices := devices (addDevice m d) |>) as He.
  { unfold addDevice in *. destruct m. case_bool_decide; cbn in *; [|by simplify_list_eq]. by rewrite <- Hl. }
  rewrite Hl in HR. rewrite He. clear He Hl. split; cbn; try done.
  - rewrite zlen_app. pose proof (zlen_nonneg l). destruct I2 as [Hs [Hlt|[Hn Hz]]]; [lia|].
    split; [done|]. rewrite Hz, Hn. destruct l as [|x l]; [by right|left]. change (zlen (@nil string)) with 0.
    rewrite zlen_cons in *. pose proof (zlen_nonneg l). lia.
  - intros d' Hd. apply elem_of_app. left. by apply I6.
Qed.

Lemma addDevices_inv m ds : picker_inv m -> picker_inv (fold_left addDevice ds m).
Proof. revert m. induction ds as [|d ds IH]; intros m HI; [done|]. by apply IH, addDevice_inv. Qed.

Lemma cancel_inv m : picker_inv m -> picker_inv (cancelServiceProbe m).1.
Proof. intros [I1 I2 I3 I4 I5 I6]. by split. Qed.

Lemma cancel_live m : live_probes (probe_set m) (cancelServiceProbe m).2 = ∅.
Proof. unfold cancelServiceProbe, probe_set, live_probes. cbn. destruct (serviceProbeCancel m); cbn; set_solver. Qed.

Lemma live_probes_app s e1 e2 : live_probes s (e1 ++ e2) = live_probes (live_probes s e1) e2.
Proof. apply fold_left_app. Qed.

Lemma ensureSelected_inv m :
  picker_inv m -> serviceProbeRequest m + 1 < 2 ^ 64 ->
  picker_inv (ensureSelectedServices m).1 /\
  live_probes (probe_set m) (ensureSelectedServices m).2 = probe_set (ensureSelectedServices m).1.
Proof.
  intros HI Hr. unfold ensureSelectedServices. pose proof (cancel_live m) as Hlive.
  destruct (if (selected m <? 0) || _ then None else _) as [id|]; [|done].
  destruct (match serviceState m !! id with Some st => _ | None => _ end); [done|].
  destruct (bool_decide (serviceProbeID m = id) && _); [done|].
  pose proof (cancel_inv m HI) as [I1 I2 I3 I4 I5 I6]. unfold cancelServiceProbe in *. cbn in *.
  rewrite u64_id by lia. split; [split|]; cbn; try done; try lia.
  - intros r [= <-]. split; [done|]. by rewrite lookup_insert_eq.
  - intros j st [[_ <-]|[_ Hj]]%lookup_insert_Some; cbn; [lia|]. specialize (I4 j st Hj). lia.
  - rewrite live_probes_app, Hlive. unfold probe_set, live_probes. cbn. set_solver.
Qed.

Lemma moveTo_inv m i :
  picker_inv m -> serviceProbeRequest m + 1 < 2 ^ 64 -> 0 <= i < zlen (orderedIDs m) ->
  picker_inv (moveTo m i).1 /\ live_probes (probe_set m) (moveTo m i).2 = probe_set (moveTo m i).1.
Proof.
  intros [I1 I2 I3 I4 I5 I6] Hr Hi. unfold moveTo. change (probe_set m) with (probe_set (m <| selected := i |>)). apply (ensureSelected_inv (m <| selected := i |>)); [|done].
  split; [exact I1|split; [exact (proj1 Hi)|left; exact (proj2 Hi)]|exact I3|exact I4|exact I5|exact I6].
Qed.

Lemma scanEvent_inv m d found e done_ :
  picker_inv m -> serviceProbeRequest m + 1 < 2 ^ 64 -> (d = None -> done_ = true) ->
  picker_inv (scanEvent m d found e done_).1 /\
  live_probes (probe_set m) (scanEvent m d found e done_).2 = probe_set (scanEvent m d found e done_).1.
Proof.
  intros HI Hr Hd. unfold scanEvent.
  set (m1 := match d with Some d => addDevice m d | None => m end).
  assert (picker_inv m1) as HI1 by (unfold m1; destruct d; [by apply addDevice_inv|done]).
  assert (serviceProbeRequest m1 = serviceProbeRequest m /\ probe_set m1 = probe_set m) as [Hr1 Hp1].
  { unfold m1, addDevice. destruct d; [|done]. by case_bool_decide. }
  destruct done_.
  - set (m2 := m1 <| scanning := false |> <| scanErr := e |>).
    assert (picker_inv m2) as HI2 by (destruct HI1 as [I1 I2 I3 I4 I5 I6]; by split).
    assert (forall ds m0, serviceProbeRequest (fold_left addDevice ds m0) = serviceProbeRequest m0 /\
      probe_set (fold_left addDevice ds m0) = probe_set m0) as Hfold.
    { induction ds as [|x ds IH]; intros m0; [done|]. cbn. destruct (IH (addDevice m0 x)) as [-> ->].
      unfold addDevice. by case_bool_decide. }
    destruct (Hfold found m2) as [Hr2 Hp2]. pose proof (addDevices_inv m2 found HI2) as HI3.
    change (serviceProbeRequest m2) with (serviceProbeRequest m1) in Hr2. change (probe_set m2) with (probe_set m1) in Hp2.
    destruct (bool_decide (is_Some e) && negb (isCanceled e)); [split; [exact HI3|];
      change (probe_set m = probe_set (fold_left addDevice found m2)); congruence|].
    rewrite <- Hp1, <- Hp2. apply ensureSelected_inv; [done|]. lia.
  - assert ((zlen (orderedIDs m1) <=? selected m1) = false) as ->.
    { destruct d as [d|]; [|by specialize (Hd eq_refl)]. destruct (pk_selected _ HI1) as [_ [H|[H _]]]; [by apply Z.leb_gt|].
      unfold m1 in H. exfalso. revert H. pose proof (addDevice_rows m d (pk_rows _ HI)) as [_ R2 _].
      intros Hn. rewrite Hn in R2. destruct (R2 (dev_ID d)) as [_ Hin]. by apply not_elem_of_nil in Hin; [|unfold addDevice; cbn; rewrite lookup_insert_eq]. }
    destruct (ensureSelected_inv m1 HI1 ltac:(lia)) as [H1 H2]. destruct (ensureSelectedServices m1) as [m2 eff]. split; [done|].
    change (live_probes (probe_set m) (NextScanEvent :: eff)) with (live_probes (probe_set m) eff). by rewrite <- Hp1.
Qed.

Lemma servicesArrived_inv m id r services e :
  picker_inv m -> picker_inv (servicesArrived m id r services e).1 /\
  live_probes (probe_set m) (servicesArrived m id r services e).2 = probe_set (servicesArrived m id r services e).1.
Proof.
  intros [I1 I2 I3 I4 I5 I6]. unfold servicesArrived. destruct (serviceState m !! id) as [st|] eqn:Hst; [|done].
  destruct (Z.eqb_spec (ss_request st) r) as [Hr|]; [cbn [negb]|done].
  set (m1 := m <| serviceState := <[id := mkServicesState false (ss_request st) services e]> (serviceState m) |>).
  assert (forall j x, serviceState m1 !! j = Some x -> 1 <= ss_request x <= serviceProbeRequest m) as Hreq.
  { intros j x Hj. change (serviceState m1) with (<[id := mkServicesState false (ss_request st) services e]> (serviceState m)) in Hj.
    apply lookup_insert_Some in Hj as [[_ <-]|[_ Hj]]; [by apply (I4 id st)|by apply (I4 j)]. }
  destruct (Z.eqb_spec (serviceProbeRequest m1) r) as [Hq|Hq].
  - split; [by split|]. exact (cancel_live m1).
  - split; [|done]. split; try done. intros q Hp. destruct (I3 q Hp) as [-> Hlook]. split; [done|].
    cbn. rewrite lookup_insert_ne; [done|]. intros ->. rewrite Hst in Hlook. injection Hlook as ->. cbn in Hr. by subst r.
Qed.

(** A row that is there is never an index out of range. *)
Lemma selected_row m : picker_inv m -> orderedIDs m <> [] ->
  0 <= selected m /\ exists id d, orderedIDs m !! Z.to_nat (selected m) = Some id /\ devices m !! id = Some d /\ dev_ID d = id.
Proof.
  intros [[R1 R2 R3] [Hs [Hlt|[Hn _]]] _ _ _ _] Hne; [|done]. split; [done|].
  destruct (lookup_lt_is_Some_2 (orderedIDs m) (Z.to_nat (selected m))) as [id Hid]; [unfold zlen in Hlt; lia|].
  destruct (proj1 (R2 id)) as [d Hd]; [by apply list_elem_of_lookup_2 in Hid|].
  exists id, d. by split_and!; [| |apply (R3 id d)].
Qed.

(** Enter quits with the selected row, and never panics. *)
Lemma enterKey_inv m : picker_inv m ->
  exists m' eff, enterKey m = Some (m', eff) /\ picker_inv m' /\ live_probes (probe_set m) eff = probe_set m'.
Proof.
  intros HI. unfold enterKey. case_bool_decide as Hids.
  - destruct HI as [I1 I2 I3 I4 I5 I6].
    destruct (negb (scanning m)); eexists _, _; (split; [reflexivity|]); (split; [by split|reflexivity]).
  - destruct (selected_row m HI Hids) as [Hs (row & d & Hid & Hd & Hdid)].
    destruct (Z.ltb_spec (selected m) 0); [lia|]. rewrite Hid. cbn [mbind option_bind]. rewrite Hd. cbn [default from_option id].
    eexists _, _. split; [reflexivity|]. destruct HI as [I1 I2 I3 I4 I5 I6]. split.
    + split; try done. intros x [= <-]. rewrite Hdid. by apply list_elem_of_lookup_2 in Hid.
    + rewrite live_probes_app. pose proof (cancel_live m) as Hlive. unfold cancelServiceProbe in Hlive. cbn in Hlive |- *.
      by rewrite Hlive.
Qed.

Lemma keyPressed_inv m k : picker_inv m -> serviceProbeRequest m + 1 < 2 ^ 64 ->
  exists m' eff, keyPressed m k = Some (m', eff) /\ picker_inv m' /\ live_probes (probe_set m) eff = probe_set m'.
Proof.
  intros HI Hr.
  assert (forall i, orderedIDs m <> [] -> exists m' eff,
    Some (moveTo m (Z.rem i (zlen (orderedIDs m)))) = Some (m', eff) /\ (0 <= i -> picker_inv m' /\ live_probes (probe_set m) eff = probe_set m')) as Hmove.
  { intros i Hne. destruct (moveTo m _) as [m' eff] eqn:Hm. exists m', eff. split; [done|]. intros Hi.
    assert (0 < zlen (orderedIDs m)) by (destruct (orderedIDs m); [done|rewrite zlen_cons; pose proof (zlen_nonneg l); lia]).
    pose proof (moveTo_inv m (Z.rem i (zlen (orderedIDs m))) HI Hr ltac:(pose proof (Z.rem_bound_pos i (zlen (orderedIDs m))); lia)) as H'.
    by rewrite Hm in H'. }
  assert (0 <= selected m) as Hs by apply (pk_selected _ HI). pose proof (zlen_nonneg (orderedIDs m)) as Hl.
  unfold keyPressed. destruct (_ || bool_decide (k = "Q")).
  { eexists _, _. split; [reflexivity|]. destruct HI as [I1 I2 I3 I4 I5 I6]. split; [by split|reflexivity]. }
  destruct (bool_decide (k = "up") || _); [|destruct (bool_decide (k = "down") || _)].
  - case_bool_decide as Hids; [by exists m, []|].
    destruct (Hmove (selected m + zlen (orderedIDs m) - 1) Hids) as (m' & eff & -> & H). exists m', eff. split; [done|]. apply H.
    destruct (orderedIDs m); [done|]. rewrite zlen_cons in *. pose proof (zlen_nonneg l). lia.
  - case_bool_decide as Hids; [by exists m, []|].
    destruct (Hmove (selected m + 1) Hids) as (m' & eff & -> & H). exists m', eff. split; [done|]. apply H. lia.
  - case_bool_decide; [by apply enterKey_inv|by exists m, []].
Qed.

Lemma Update_inv m msg : picker_inv m -> msg_ok m msg ->
  exists m' eff, Update m msg = Some (m', eff) /\ picker_inv m' /\ live_probes (probe_set m) eff = probe_set m'.
Proof.
  intros HI [Hr Hmsg]. unfold Update. destruct msg as [d found e fin| |w|e|id r services e|motion y|k].
  - eexists _, _. rewrite <- surjective_pairing. split; [reflexivity|]. apply scanEvent_inv; [done..|]. intros ->. by destruct fin.
  - destruct HI as [I1 I2 I3 I4 I5 I6].
    destruct (negb (scanning m)); eexists _, _; (split; [reflexivity|]); (split; [by split|reflexivity]).
  - destruct HI as [I1 I2 I3 I4 I5 I6]. eexists _, _. split; [reflexivity|]. by split.
  - destruct HI as [I1 I2 I3 I4 I5 I6]. eexists _, _. split; [reflexivity|]. by split.
  - eexists _, _. rewrite <- surjective_pairing. split; [reflexivity|]. by apply servicesArrived_inv.
  - destruct motion; cbn [negb]; [|by exists m, []]. unfold pickerDeviceIndexAtY.
    destruct (Z.ltb_spec y pickerDeviceFirstRowY) as [|Hy]; [by exists m, []|].
    set (i := Z.quot (y - pickerDeviceFirstRowY) 2).
    destruct (Z.leb_spec (zlen (orderedIDs m)) i); [by exists m, []|]. destruct (i =? selected m); [by exists m, []|]. cbn [orb].
    eexists _, _. rewrite <- surjective_pairing. split; [reflexivity|]. apply moveTo_inv; [done..|].
    split; [|done]. unfold i. apply Z.quot_pos; lia.
  - by apply keyPressed_inv.
Qed.

Lemma picker_reachable_inv m trace : picker_reachable m trace -> picker_inv m /\ live_probes ∅ trace = probe_set m.
Proof.
  induction 1 as [|m trace msg m' eff _ [HI Hlive] Hok Hup].
  - split; [|reflexivity]. split; try done; [|by cbn; split; [|right]]. split; cbn; [constructor|intros id; split|done].
    + by intros ?%not_elem_of_nil.
    + intros [x Hx]. by rewrite lookup_empty in Hx.
  - destruct (Update_inv m msg HI Hok) as (m2 & eff2 & Hup2 & HI2 & Hlive2). rewrite Hup2 in Hup. injection Hup as <- <-.
    split; [done|]. by rewrite live_probes_app, Hlive.
Qed.

(** * Properties *)

(** C34. In every reachable state the picker cannot panic: whatever message comes next, [Update] succeeds, since the selection
    stays within the rows, or on 0 while there is none; the rows are distinct and each belongs to a known device of that id; at
    most one probe has been started and not cancelled, the one the model holds the cancel function of, and [stop] leaves none;
    and what [chooseDeviceTUI] returns is the device of a listed row. *)
Theorem picker_safe m trace :
  picker_reachable m trace ->
  (forall msg, msg_ok m msg -> is_Some (Update m msg)) /\
  (0 <= selected m /\ (selected m < zlen (orderedIDs m) \/ orderedIDs m = [] /\ selected m = 0)) /\
  (NoDup (orderedIDs m) /\ forall id, id ∈ orderedIDs m -> exists d, devices m !! id = Some d /\ dev_ID d = id) /\
  (live_probes ∅ trace = probe_set m /\ live_probes ∅ (trace ++ (stop m).2) = ∅) /\
  (forall runErr d, chooseDeviceTUI runErr m = inr d -> dev_ID d ∈ orderedIDs m).
Proof.
  intros [HI Hlive]%picker_reachable_inv. split_and!; try apply HI.
  - intros msg Hok. destruct (Update_inv m msg HI Hok) as (m' & eff & -> & _). by eexists.
  - intros id Hid. destruct (pk_rows m HI) as [_ R2 R3]. apply R2 in Hid as [d Hd]. exists d. split; [done|by apply (R3 id)].
  - done.
  - rewrite live_probes_app, Hlive. pose proof (cancel_live m) as Hc. unfold stop. destruct (cancelServiceProbe m) as [m' eff]. cbn.
    rewrite live_probes_app. cbn in Hc. by rewrite Hc.
  - intros runErr d. unfold chooseDeviceTUI. destruct runErr; [done|]. destruct (_ && _); [done|]. destruct (selectionErr m); [done|].
    destruct (canceled m); [done|]. destruct (picked m) eqn:Hp; [|done]. intros [= <-]. by apply (pk_picked m HI).
Qed.

(** ** A concrete run: two devices, down and up again, enter *)

Definition demoRow (id : string) : Device := mkDevice id "" id 0 true [] [] [] 0 None 0.

Definition msg_okb (m : pickerModel) (msg : pickerMsg) : bool :=
  (serviceProbeRequest m + 1 <? 2 ^ 64) && match msg with ScanEvent None _ _ false => false | _ => true end.

(** The messages one after the other, each of them possible. *)
Fixpoint Updates (m : pickerModel) (msgs : list pickerMsg) : option (pickerModel * list pickerEffect) :=
  match msgs with
  | [] => Some (m, [])
  | msg :: msgs =>
      if msg_okb m msg then
        '(m, eff) ← Update m msg;
        '(m', eff') ← Updates m msgs;
        Some (m', eff ++ eff')
      else None
  end.

Lemma Updates_reachable m trace msgs m' eff :
  picker_reachable m trace -> Updates m msgs = Some (m', eff) -> picker_reachable m' (trace ++ eff).
Proof.
  revert m trace eff. induction msgs as [|msg msgs IH]; intros m trace eff Hm Hup; cbn in Hup.
  - injection Hup as <- <-. by rewrite app_nil_r.
  - destruct (msg_okb m msg) eqn:Hok; [|done].
    destruct (Update m msg) as [[m1 eff1]|] eqn:H1; [|done]. cbn in Hup.
    destruct (Updates m1 msgs) as [[m2 eff2]|] eqn:H2; [|done]. injection Hup as <- <-.
    rewrite app_assoc. apply (IH m1); [|done]. apply (PkStep m trace msg m1 eff1); [done| |done].
    unfold msg_okb in Hok. bool2prop. split; [lia|]. by destruct msg as [[?|] ? ? []| | | | | |].
Qed.

Definition demoMsgs : list pickerMsg :=
  [ ScanEvent (Some (demoRow "A")) [] None false; ScanEvent (Some (demoRow "B")) [] None false; Key "down";
    ServicesEvent "A" 1 [] (Some (Sent ContextCanceled)); Key "k" ].

Definition demoPicked : option (pickerModel * list pickerEffect) := Updates newPickerModel (demoMsgs ++ [Key "enter"]).

Lemma picker_safe_witness : exists m trace, demoPicked = Some (m, trace) /\
  dev_ID <$> picked m = Some "A" /\ chooseDeviceTUI None m = inr (demoRow "A") /\ "A" ∈ orderedIDs m.
Proof.
  eexists _, _. split; [vm_compute; reflexivity|]. split; [reflexivity|]. split; [reflexivity|].
  refine (proj2 (proj2 (proj2 (proj2 (picker_safe _ _ _)))) None (demoRow "A") _); [|reflexivity].
  apply (Updates_reachable newPickerModel [] (demoMsgs ++ [Key "enter"])); [constructor|vm_compute; reflexivity].
Defined.

(** Moving away from a row cancels its probe, whose end is then recorded as the
    failure of that device: coming back to the row starts no new probe, and the
    row keeps showing the cancellation. *)
Lemma cancelled_probe_sticks : exists m trace, Updates newPickerModel demoMsgs = Some (m, trace) /\
  trace = [NextScanEvent; Probe "A" 1 (demoRow "A"); NextScanEvent; CancelProbe 1; Probe "B" 2 (demoRow "B")] /\
  orderedIDs m !! Z.to_nat (selected m) = Some "A" /\
  serviceState m !! "A" = Some (mkServicesState false 1 [] (Some (Sent ContextCanceled))).
Proof. eexists _, _. split; [vm_compute; reflexivity|]. by split_and!. Qed.
