(* ===== verification/CommandLine.v ===== *)
(** * The command line
    (cmd/lightningbnb/main.go)

    [run] checks the flags of a subcommand and calls the application with the
    configuration they give.  What the flag package makes of the arguments is the
    outcome of [flags.Parse]; the checks and the configurations are the source's. *)

From S2P Require Export ServerLoop.
From S2P Require Import BleScan AppServices ClientLoop Benchmark.

(** ** Flags *)

(** [flags.Parse]: the values, [flag.ErrHelp] or another error. *)
Inductive parsed (A : Type) := FlagsOK (flags : A) | FlagsHelp | FlagsError (e : error).
Arguments FlagsOK {A} flags.
Arguments FlagsHelp {A}.
Arguments FlagsError {A} e.

Record scanFlags := mkScanFlags { sf_timeout : Z; sf_all : bool }.

Record clientFlags := mkClientFlags {
  cf_listenHost : string;
  cf_listenPort : Z;
  cf_device : string;
  cf_scanTimeout : Z;
  cf_resumeTimeout : Z;
  cf_maxConnections : Z;
  cf_statsInterval : Z;
  cf_compression : bool;
  cf_transportDebug : bool;
  cf_allServices : bool;
  cf_serviceValues : list string
}.

Record serverFlags := mkServerFlags {
  vf_targetHost : string;
  vf_targetPort : Z;
  vf_name : string;
  vf_dialTimeout : Z;
  vf_resumeTimeout : Z;
  vf_maxConnections : Z;
  vf_statsInterval : Z;
  vf_benchmark : bool;
  vf_compression : bool;
  vf_transportDebug : bool;
  vf_preventSleep : bool;
  vf_skipBLEChecks : bool;
  vf_noBLERecovery : bool;
  vf_serverIDFile : string;
  vf_serviceValues : list string
}.

Record servicesFlags := mkServicesFlags { lf_device : string; lf_scanTimeout : Z }.

Record benchmarkFlags := mkBenchmarkFlags {
  bf_device : string;
  bf_scanTimeout : Z;
  bf_resumeTimeout : Z;
  bf_direction : string;
  bf_duration : Z;
  bf_setupTimeout : Z;
  bf_connections : Z;
  bf_statsInterval : Z;
  bf_compression : bool;
  bf_transportDebug : bool
}.

(** The values of flags that are not given. *)
Definition scanDefaults : scanFlags := mkScanFlags (30 * Second) false.
Definition clientDefaults : clientFlags :=
  mkClientFlags "127.0.0.1" 0 "" (30 * Second) (60 * Second) 32 Second false false false [].
Definition serverDefaults : serverFlags :=
  mkServerFlags "localhost" 0 "LightningBNB" (10 * Second) (60 * Second) 32 Second false false false false false false "" [].
Definition servicesDefaults : servicesFlags := mkServicesFlags "" (30 * Second).
Definition benchmarkDefaults : benchmarkFlags :=
  mkBenchmarkFlags "" (30 * Second) (60 * Second) "both" (30 * Second) (30 * Second) 1 Second false false.

(** The flag sets, one [flags.Parse] per subcommand. *)
Record flagSets := mkFlagSets {
  parseScan : list string -> parsed scanFlags;
  parseClient : list string -> parsed clientFlags;
  parseServer : list string -> parsed serverFlags;
  parseServices : list string -> parsed servicesFlags;
  parseBenchmark : list string -> parsed benchmarkFlags
}.

(** ** Configurations *)

(** [app.ClientConfig]: what the session loop uses, and the rest but for the
    readers and writers. *)
Record clientRun := mkClientRun {
  cr_config : ClientConfig;
  cr_ListenHost : string;
  cr_ScanTimeout : Z;
  cr_StatsInterval : Z;
  cr_StatsTUI : bool;
  cr_TransportDebug : bool;
  cr_SuppressListenAddr : bool;
  cr_Benchmark : option BenchmarkClientConfig
}.

Record serverRun := mkServerRun {
  sr_config : ServerConfig;
  sr_Name : string;
  sr_DialTimeout : Z;
  sr_StatsInterval : Z;
  sr_StatsTUI : bool;
  sr_TransportDebug : bool;
  sr_PreventSleep : bool;
  sr_SkipBLEChecks : bool;
  sr_DisableBLERecovery : bool;
  sr_ServerIDFile : string
}.

Inductive appCall :=
  | Scan (timeout : Z) (all : bool)
  | RunClient (cfg : clientRun)
  | RunServer (cfg : serverRun)
  | ListServices (device : string) (scanTimeout : Z) (interactive : bool).

(** What [run] does: print (usage on either stream, the version), then call the
    application or return. *)
Inductive printed := UsageOnError | UsageOnOutput | VersionOnOutput.
Inductive runOutcome := RunCalls (c : appCall) | RunReturns (e : option clientError).

Definition refuse (text : string) : runOutcome := RunReturns (Some (ClientError (ErrNew text))).

(** [if err := flags.Parse(...); err != nil { return flagError(err) }] *)
Definition withFlags {A} (p : parsed A) (k : A -> runOutcome) : runOutcome :=
  match p with
  | FlagsOK flags => k flags
  | FlagsHelp => RunReturns None
  | FlagsError e => RunReturns (Some (ClientError e))
  end.

(** ** The subcommands *)

Definition runScan (f : scanFlags) : runOutcome :=
  if sf_timeout f <=? 0 then refuse "--timeout must be greater than zero" else RunCalls (Scan (sf_timeout f) (sf_all f)).

Definition invalidService (value suffix : string) : error := ErrNew ("invalid --service " +:+ quoted value +:+ suffix).

(** The loop over [serviceValues]. *)
Fixpoint parseClientServices (values : list string) : result (list ClientService) :=
  match values with
  | [] => inr []
  | value :: values =>
      let '(localPortText, remote, ok) := cut (str_bytes value) colon in
      let remote := TrimSpace (bytes_str remote) in
      if negb ok || bool_decide (localPortText = []) || bool_decide (remote = "")
      then inl (invalidService value "; expected LOCAL_PORT:SERVICE")
      else
        match Atoi (bytes_str localPortText) with
        | None => inl (invalidService value "; local port must be a number")
        | Some localPort =>
            match parseClientServices values with
            | inl e => inl e
            | inr services => inr (mkClientService localPort remote :: services)
            end
        end
  end.

Definition deviceRequired : string := "--device is required when stdin is not an interactive terminal".

Definition runClient (f : clientFlags) (interactive statsTUI : bool) : runOutcome :=
  if bool_decide (cf_listenHost f = "") then refuse "--listen-host must not be empty"
  else if (cf_listenPort f <? 0) || (65535 <? cf_listenPort f) then refuse "--listen-port must be between 0 and 65535"
  else if (cf_scanTimeout f <=? 0) || (cf_resumeTimeout f <=? 0) then refuse "scan and resume timeouts must be greater than zero"
  else if (cf_maxConnections f <=? 0) || (65535 <? cf_maxConnections f) then refuse "--max-connections must be between 1 and 65535"
  else if cf_statsInterval f <? 0 then refuse "--stats-interval must not be negative"
  else
    match parseClientServices (cf_serviceValues f) with
    | inl e => RunReturns (Some (ClientError e))
    | inr clientServices =>
        let given := negb (bool_decide (clientServices = [])) in
        if given && negb (cf_listenPort f =? 0) then refuse "--listen-port cannot be combined with --service"
        else if cf_allServices f && given then refuse "--all-services cannot be combined with --service"
        else if cf_allServices f && negb (cf_listenPort f =? 0) then refuse "--listen-port cannot be combined with --all-services"
        else if bool_decide (cf_device f = "") && negb interactive then refuse deviceRequired
        else
          RunCalls (RunClient (mkClientRun
            (mkClientConfig (cf_listenPort f) clientServices (cf_allServices f) (cf_device f) (cf_resumeTimeout f)
              (cf_maxConnections f) (cf_compression f) false interactive)
            (cf_listenHost f) (cf_scanTimeout f) (cf_statsInterval f) statsTUI (cf_transportDebug f) false None))
    end.

Definition runServer (f : serverFlags) (statsTUI : bool) : runOutcome :=
  let services := negb (bool_decide (vf_serviceValues f = [])) in
  if negb (vf_benchmark f) && bool_decide (vf_targetHost f = "") then refuse "--target-host must not be empty"
  else if negb (vf_benchmark f) && negb services && ((vf_targetPort f <? 1) || (65535 <? vf_targetPort f))
  then refuse "--target-port is required and must be between 1 and 65535"
  else if vf_benchmark f && services then refuse "--benchmark cannot be combined with --service"
  else if vf_benchmark f && negb (vf_targetPort f =? 0) then refuse "--benchmark cannot be combined with --target-port"
  else if services && negb (vf_targetPort f =? 0) then refuse "--service cannot be combined with --target-port"
  else if bool_decide (vf_name f = "") then refuse "--name must not be empty"
  else if (vf_dialTimeout f <=? 0) || (vf_resumeTimeout f <=? 0) then refuse "dial and resume timeouts must be greater than zero"
  else if (vf_maxConnections f <=? 0) || (65535 <? vf_maxConnections f) then refuse "--max-connections must be between 1 and 65535"
  else if vf_statsInterval f <? 0 then refuse "--stats-interval must not be negative"
  else
    match ParseServerServices (vf_serviceValues f) with
    | inl e => RunReturns (Some (ClientServiceError e))
    | inr services =>
        RunCalls (RunServer (mkServerRun
          (mkServerConfig (vf_targetHost f) (vf_targetPort f) services (vf_resumeTimeout f) (vf_maxConnections f)
            (vf_benchmark f) (vf_compression f))
          (vf_name f) (vf_dialTimeout f) (vf_statsInterval f) statsTUI (vf_transportDebug f) (vf_preventSleep f)
          (vf_skipBLEChecks f) (vf_noBLERecovery f) (vf_serverIDFile f)))
    end.

Definition runServices (f : servicesFlags) (interactive : bool) : runOutcome :=
  if lf_scanTimeout f <=? 0 then refuse "--scan-timeout must be greater than zero"
  else if bool_decide (lf_device f = "") && negb interactive then refuse deviceRequired
  else RunCalls (ListServices (lf_device f) (lf_scanTimeout f) interactive).

Definition runBenchmark (f : benchmarkFlags) (interactive statsTUI : bool) : runOutcome :=
  if (bf_scanTimeout f <=? 0) || (bf_resumeTimeout f <=? 0) || (bf_duration f <=? 0) || (bf_setupTimeout f <=? 0)
  then refuse "benchmark timeouts and duration must be greater than zero"
  else
    match ValidateBenchmarkDirection (bf_direction f) with
    | Some e => RunReturns (Some (ClientError e))
    | None =>
        match ValidateBenchmarkConnections (bf_direction f) (bf_connections f) with
        | Some e => RunReturns (Some (ClientError e))
        | None =>
            if bf_statsInterval f <? 0 then refuse "--stats-interval must not be negative"
            else if bool_decide (bf_device f = "") && negb interactive then refuse deviceRequired
            else
              RunCalls (RunClient (mkClientRun
                (mkClientConfig 0 [] false (bf_device f) (bf_resumeTimeout f) 32 (bf_compression f) true interactive)
                "127.0.0.1" (bf_scanTimeout f) 0 statsTUI (bf_transportDebug f) true
                (Some (mkBenchmarkConfig (bf_direction f) (bf_duration f) (bf_setupTimeout f) (bf_connections f) (bf_statsInterval f) statsTUI))))
        end
    end.

(** ** run *)

(** [interactive]: stdin is a terminal; [statsTUI]: the error output is one
    ([isTerminalWriter]). *)
Definition run (fs : flagSets) (args : list string) (interactive statsTUI : bool) : list printed * runOutcome :=
  match args with
  | [] => ([UsageOnError], refuse "a subcommand is required")
  | command :: args =>
      if bool_decide (command = "scan") then ([], withFlags (parseScan fs args) runScan)
      else if bool_decide (command = "client") then ([], withFlags (parseClient fs args) (fun f => runClient f interactive statsTUI))
      else if bool_decide (command = "server") then ([], withFlags (parseServer fs args) (fun f => runServer f statsTUI))
      else if bool_decide (command = "services") then ([], withFlags (parseServices fs args) (fun f => runServices f interactive))
      else if bool_decide (command = "benchmark") then ([], withFlags (parseBenchmark fs args) (fun f => runBenchmark f interactive statsTUI))
      else if bool_decide (command ∈ ["version"; "--version"; "-version"]) then ([VersionOnOutput], RunReturns None)
      else if bool_decide (command ∈ ["help"; "--help"; "-h"]) then ([UsageOnOutput], RunReturns None)
      else ([UsageOnError], refuse ("unknown subcommand " +:+ quoted command))
  end.

(** ** flag values *)

(** [stringListFlag.Set]: a repeated flag collects its values. *)
Definition stringListSet (f : list string) (value : string) : list string := f ++ [value].
Definition stringListText (f : list string) : string := String.concat "," f.

(** [main]: the line on the error stream and the exit status. *)
Definition mainExit (outcome : option string) : option string * Z :=
  match outcome with Some text => (Some ("lightningbnb: " +:+ text), 1) | None => (None, 0) end.

(** * What an accepted command line guarantees *)

Record client_run_ok (cfg : clientRun) : Prop := {
  cro_link : config_ok (clientLinkConfig (cr_config cfg));
  cro_listen : cr_ListenHost cfg <> "" /\ 0 <= cc_ListenPort (cr_config cfg) <= 65535;
  cro_scan : 0 < cr_ScanTimeout cfg;
  cro_modes : (cc_Services (cr_config cfg) <> [] -> cc_AllServices (cr_config cfg) = false /\ cc_ListenPort (cr_config cfg) = 0) /\
    (cc_AllServices (cr_config cfg) = true -> cc_ListenPort (cr_config cfg) = 0);
  cro_device : cc_DeviceID (cr_config cfg) <> "" \/ cc_Interactive (cr_config cfg) = true;
  cro_benchmark : match cr_Benchmark cfg with
    | Some b => cc_Benchmark (cr_config cfg) = true /\ cc_Services (cr_config cfg) = [] /\ cc_AllServices (cr_config cfg) = false /\
        0 < bc_Duration b /\ 0 < bc_DialTimeout b /\
        exists ds, benchmarkDirections (bc_Direction b) (bc_Connections b) = inr ds /\ zlen ds <= cc_MaxConnections (cr_config cfg)
    | None => cc_Benchmark (cr_config cfg) = false
    end
}.

Record server_run_ok (cfg : serverRun) : Prop := {
  sro_link : forall hello, config_ok (sessionConfig (sr_config cfg) hello);
  sro_name : sr_Name cfg <> "" /\ 0 < sr_DialTimeout cfg;
  sro_benchmark : sc_Benchmark (sr_config cfg) = true -> serveMode (sr_config cfg) = ServeBenchmark /\ sessionServices (sr_config cfg) = [];
  sro_services : sc_Benchmark (sr_config cfg) = false ->
    serveMode (sr_config cfg) = ServeServices (sc_TargetHost (sr_config cfg)) (sessionServices (sr_config cfg)) /\
    sessionServices (sr_config cfg) <> [] /\ NoDup (Name <$> sessionServices (sr_config cfg));
  sro_targets : forall selector target,
    resolveService (sc_TargetHost (sr_config cfg)) (sessionServices (sr_config cfg)) selector = Some target ->
    exists host port, target = JoinHostPort host (itoa port) /\ host <> "" /\ port_ok port = true
}.

Lemma resolveService_target host services selector target :
  resolveService host services selector = Some target -> exists s, s ∈ services /\ target = serviceTarget host s.
Proof.
  induction services as [|s services IH]; cbn; [done|]. destruct (serviceMatches selector s).
  - intros [= <-]. exists s. split; [by left|done].
  - intros (s' & Hin & ->)%IH. exists s'. split; [by right|done].
Qed.

(** What [RunClient] makes of its configuration before its loop: it is in the
    loop, with one open listener per service unless they wait for the server's
    list, or it has returned — with every listener closed — the error of an
    invalid service, of a [net.Listen] that failed, or of the picker. *)
Definition started (cfg : clientRun) (listen : nat -> err) (chosen : result Device) (st : client) : Prop :=
  let services := if bool_decide (cc_Services (cr_config cfg) = []) then [mkClientService (cc_ListenPort (cr_config cfg)) ""]
                  else cc_Services (cr_config cfg) in
  match cpc st with
  | CpSession =>
      ValidateClientServices (cc_Services (cr_config cfg)) = None /\
      listeners st = (if cc_AllServices (cr_config cfg) then [] else (fun s => mkListener s true) <$> services) /\
      bridgeStarted st = negb (cc_AllServices (cr_config cfg)) /\
      (cc_DeviceID (cr_config cfg) = "" -> exists d, chosen = inr d /\ selectedDevice st = Some d)
  | CpReturned (Some e) =>
      Forall (fun l => ls_open l = false) (listeners st) /\
      ((exists x, ValidateClientServices (cc_Services (cr_config cfg)) = Some x /\ e = ClientServiceError x) \/
       (exists n x s, listen n = Some x /\ services !! n = Some s /\
          e = ClientError (ErrWrap ("listen for service " +:+ quoted (Remote s) +:+ ": ") x "")) \/
       (exists x, cc_DeviceID (cr_config cfg) = "" /\ chosen = inl x /\ e = ClientError x))
  | _ => False
  end.

Lemma openListeners_cases listen l services :
  match openListeners listen l services with
  | (ls, None) => ls = l ++ ((fun s => mkListener s true) <$> services)
  | (ls, Some e) => exists n x s, listen (length l + n)%nat = Some x /\ services !! n = Some s /\
      e = ErrWrap ("listen for service " +:+ quoted (Remote s) +:+ ": ") x ""
  end.
Proof.
  revert l. induction services as [|s services IH]; intros l; cbn [openListeners]; [by rewrite app_nil_r|].
  destruct (listen (length l)) as [x|] eqn:Hl.
  - exists 0%nat, x, s. by rewrite Nat.add_0_r.
  - specialize (IH (l ++ [mkListener s true])). destruct (openListeners _ _ _) as [ls [e|]].
    + destruct IH as (n & x & t & Hn & Ht & ->). rewrite length_app in Hn. cbn [length] in Hn.
      exists (S n), x, t. split_and!; [by replace (length l + S n)%nat with (length l + 1 + n)%nat by lia|done|done].
    + rewrite IH, <- app_assoc. done.
Qed.

(** The checks of [RunClient] that repeat those of [run] never refuse. *)
Lemma prepare_starts cfg listen chosen :
  client_run_ok cfg -> started cfg listen chosen (prepare (cr_config cfg) listen chosen).1.
Proof.
  intros [_ _ _ [M1 M2] Hdev _]. unfold prepare, started.
  destruct (ValidateClientServices (cc_Services (cr_config cfg))) as [x|] eqn:Hv; [split; [constructor|left; by exists x]|].
  set (services := if bool_decide (cc_Services (cr_config cfg) = []) then _ else _).
  pose proof (openListeners_cases listen [] services) as Hopen.
  destruct (cc_AllServices (cr_config cfg)) eqn:Hall; cbn [andb].
  - rewrite M2 by done. case_bool_decide as Hs; cbn [negb]; [|by destruct (M1 Hs)].
    case_bool_decide as Hid; cbn; [|by split_and!].
    destruct Hdev as [Hd| ->]; [done|]. destruct chosen as [e|d]; cbn; [|split_and!; try done; intros _; by exists d].
    split; [constructor|]. right; right. by exists e.
  - destruct (openListeners listen [] services) as [ls [e|]].
    + destruct Hopen as (n & x & s & Hn & Hs & ->). cbn. split; [apply closeListeners_closed|]. right; left. by exists n, x, s.
    + cbn in Hopen. subst ls. case_bool_decide as Hid; [|by split_and!].
      destruct Hdev as [Hd| ->]; [done|]. destruct chosen as [e|d]; cbn [negb].
      * split; [apply closeListeners_closed|]. right; right. by exists e.
      * split_and!; try done. intros _. by exists d.
Qed.

(** The calls of the application that can work. *)
Definition call_ok (c : appCall) : Prop :=
  match c with
  | Scan timeout _ => 0 < timeout
  | RunClient cfg => client_run_ok cfg
  | RunServer cfg => server_run_ok cfg
  | ListServices device timeout interactive => 0 < timeout /\ (device <> "" \/ interactive = true)
  end.

Lemma device_given device interactive :
  bool_decide (device = "") && negb interactive = false -> device <> "" \/ interactive = true.
Proof. destruct interactive; [by right|]. rewrite andb_true_r. intros H. bool2prop. by left. Qed.

Lemma runScan_ok f c : runScan f = RunCalls c -> call_ok c.
Proof. unfold runScan, refuse. case_match; [done|]. intros [= <-]. by bool2prop. Qed.

Lemma runServices_ok f interactive c : runServices f interactive = RunCalls c -> call_ok c.
Proof.
  unfold runServices, refuse. repeat (case_match; [done|]). intros [= <-]. bool2prop. split; [done|]. by apply device_given.
Qed.

Lemma runServer_ok f tui c : runServer f tui = RunCalls c -> call_ok c.
Proof.
  unfold runServer, refuse. repeat (case_match; [done|]). match goal with H : ParseServerServices _ = inr ?l |- _ => rename H into Hp, l into services end.
  intros [= <-]. bool2prop. apply parseServices_ok in Hp as Hs. destruct Hs as (Hok & Hnd & _).
  assert (services = [] <-> vf_serviceValues f = []) as Hempty.
  { unfold ParseServerServices in Hp. destruct (vf_serviceValues f) as [|v vs]; cbn in Hp; [by injection Hp as <-|].
    destruct (parseServerService v); [done|]. case_match; [done|]. case_match; [done|]. by injection Hp as <-. }
  set (sc := mkServerConfig _ _ _ _ _ _ _).
  assert (sc_Benchmark sc = true -> sessionServices sc = []) as Hbench.
  { intros Hb. cbn in Hb. rewrite Hb in *. cbn in *. bool2prop. unfold sessionServices. cbn. rewrite Hb, andb_false_r. by apply Hempty. }
  assert (sc_Benchmark sc = false -> vf_targetHost f <> "" /\ sessionServices sc <> [] /\ NoDup (Name <$> sessionServices sc) /\
    Forall (fun s => port_ok (Port s) = true) (sessionServices sc)) as Hserve.
  { intros Hb. cbn in Hb. rewrite Hb in *. cbn in *. bool2prop. unfold sessionServices. cbn. rewrite Hb. split; [done|].
    rewrite (bool_decide_ext _ _ (iff_sym Hempty)) in *. destruct (decide (services = [])) as [Hs|Hs].
    - rewrite bool_decide_eq_true_2 in * by done. cbn in *.
      split_and!; [done|apply NoDup_singleton|]. apply Forall_singleton. unfold port_ok. cbn. by apply negb_true_iff.
    - rewrite bool_decide_eq_false_2 by done. split_and!; [done..|]. eapply Forall_impl; [exact Hok|]. by intros s []. }
  split; cbn [sr_config sr_Name sr_DialTimeout].
  - intros hello. unfold config_ok, sessionConfig, DefaultReplayWindow, max_u16. cbn. split_and!; lia.
  - split; [done|lia].
  - intros Hb. split; [unfold serveMode; by rewrite Hb|by apply Hbench].
  - intros Hb. destruct (Hserve Hb) as (_ & Hne & Hnd' & _). split; [|done]. unfold serveMode. rewrite Hb.
    by rewrite bool_decide_eq_false_2.
  - intros selector target (s & Hs & ->)%resolveService_target. destruct (sc_Benchmark sc) eqn:Hb.
    + rewrite Hbench in Hs by done. by apply not_elem_of_nil in Hs.
    + destruct (Hserve eq_refl) as (Hh & _ & _ & Hp'). rewrite Forall_forall in Hp'. unfold serviceTarget.
      eexists _, (Port s). split; [reflexivity|]. split; [|by apply Hp'].
      destruct (decide (Host s = "")) as [He|He]; [by rewrite bool_decide_eq_true_2|by rewrite bool_decide_eq_false_2].
Qed.

Lemma runClient_ok f interactive tui c : runClient f interactive tui = RunCalls c -> call_ok c.
Proof.
  unfold runClient, refuse. repeat (case_match; [done|]). intros [= <-]. bool2prop.
  match goal with H : parseClientServices _ = inr ?l |- _ => rename l into services end.
  split; cbn; try done; try lia.
  - unfold config_ok, clientLinkConfig, DefaultReplayWindow, max_u16. cbn. split_and!; lia.
  - split.
    + intros Hs. rewrite (bool_decide_eq_false_2 (services = [])) in * by done. cbn in *. rewrite andb_true_r in *. bool2prop. done.
    + intros Hall. rewrite Hall in *. cbn in *. by bool2prop.
  - by apply device_given.
Qed.

Lemma runBenchmark_ok f interactive tui c : runBenchmark f interactive tui = RunCalls c -> call_ok c.
Proof.
  unfold runBenchmark, refuse. repeat (case_match; [done|]). intros [= <-]. bool2prop.
  split; cbn [cr_config cr_ListenHost cr_ScanTimeout cr_Benchmark]; try done; try lia.
  - by apply device_given.
  - split_and!; try done.
    match goal with H : ValidateBenchmarkConnections _ _ = None |- _ => rename H into Hv end. unfold ValidateBenchmarkConnections in Hv.
    destruct (benchmarkDirections (bf_direction f) (bf_connections f)) as [e|ds] eqn:Hds; [done|]. exists ds. split; [done|].
    by apply benchmarkDirections_count in Hds as [_ Hds].
Qed.

(** Every call [run] makes is one of these. *)
Lemma run_call_ok fs args interactive tui out c : run fs args interactive tui = (out, RunCalls c) -> out = [] /\ call_ok c.
Proof.
  assert (forall A (p : parsed A) k, (forall f, k f = RunCalls c -> call_ok c) -> withFlags p k = RunCalls c -> call_ok c) as Hp.
  { intros A [f| |e] k Hk; cbn; [apply Hk|done|done]. }
  unfold run, refuse. destruct args as [|command args]; [done|].
  repeat (case_bool_decide; [intros [= <- Hr]; split; [done|]; refine (Hp _ _ _ _ Hr)|]); [..|repeat (case_bool_decide; [done|]); done].
  - intros f. apply runScan_ok.
  - intros f. apply runClient_ok.
  - intros f. apply runServer_ok.
  - intros f. apply runServices_ok.
  - intros f. apply runBenchmark_ok.
Qed.

(** * Properties *)

(** C40. Whatever [run] starts can work.  A client it starts has link parameters
    in range, consistent modes and a server to look for, and a benchmark's
    streams fit the stream limit; [RunClient] then reaches its session loop with
    its listeners open, or returns, with all of them closed, the error of a
    service it does not accept ([run] does not check them), of a [net.Listen]
    that failed or of the picker, and nothing else.  A server it starts has
    either the benchmark responder or at least one service, with distinct names,
    every session parameter in range, and dials nothing but a non-empty host and
    a valid port. *)
Theorem accepted_commands fs args interactive tui out c :
  run fs args interactive tui = (out, RunCalls c) ->
  out = [] /\
  match c with
  | Scan timeout _ => 0 < timeout
  | RunClient cfg => client_run_ok cfg /\
      forall listen chosen, started cfg listen chosen (prepare (cr_config cfg) listen chosen).1
  | RunServer cfg => server_run_ok cfg
  | ListServices device timeout inter => 0 < timeout /\ (device <> "" \/ inter = true)
  end.
Proof.
  intros [Hout Hok]%run_call_ok. split; [done|]. destruct c as [timeout all|cfg|cfg|device timeout inter]; try done.
  split; [done|]. intros listen chosen. by apply prepare_starts.
Qed.

(** What the flag package gives for [server --service web:80 --service db:10.0.0.2:5432]. *)
Definition demoServer : serverFlags :=
  mkServerFlags "localhost" 0 "LightningBNB" (10 * Second) (60 * Second) 32 Second false false false false false false ""
    ["web:80"; "db:10.0.0.2:5432"].

Definition demoFlags : flagSets :=
  mkFlagSets (fun _ => FlagsOK scanDefaults) (fun _ => FlagsOK clientDefaults) (fun _ => FlagsOK demoServer)
    (fun _ => FlagsOK servicesDefaults) (fun _ => FlagsOK benchmarkDefaults).

Definition demoServerRun : serverRun :=
  mkServerRun (mkServerConfig "localhost" 0 [mkService "web" "" 80; mkService "db" "10.0.0.2" 5432] (60 * Second) 32 false false)
    "LightningBNB" (10 * Second) Second false false false false false "".

(** [client --service 0:web --device X]: [run] starts it and [RunClient] returns. *)
Definition demoClient : clientFlags :=
  mkClientFlags "127.0.0.1" 0 "X" (30 * Second) (60 * Second) 32 Second false false false ["0:web"].

Definition demoClientFlags : flagSets :=
  mkFlagSets (fun _ => FlagsOK scanDefaults) (fun _ => FlagsOK demoClient) (fun _ => FlagsOK demoServer)
    (fun _ => FlagsOK servicesDefaults) (fun _ => FlagsOK benchmarkDefaults).

Definition demoClientRun : clientRun :=
  mkClientRun (mkClientConfig 0 [mkClientService 0 "web"] false "X" (60 * Second) 32 false false false)
    "127.0.0.1" (30 * Second) Second false false false None.

Lemma accepted_commands_witness :
  run demoFlags ["server"; "--service"; "web:80"; "--service"; "db:10.0.0.2:5432"] false false = ([], RunCalls (RunServer demoServerRun)) /\
  serveMode (sr_config demoServerRun) = ServeServices "localhost" [mkService "web" "" 80; mkService "db" "10.0.0.2" 5432] /\
  run demoClientFlags ["client"; "--service"; "0:web"; "--device"; "X"] false false = ([], RunCalls (RunClient demoClientRun)) /\
  cpc (prepare (cr_config demoClientRun) (fun _ => None) (inr zeroDevice)).1 = CpReturned (Some (ClientServiceError (ErrClientLocalPort 0))) /\
  started demoClientRun (fun _ => None) (inr zeroDevice) (prepare (cr_config demoClientRun) (fun _ => None) (inr zeroDevice)).1.
Proof.
  assert (run demoFlags ["server"; "--service"; "web:80"; "--service"; "db:10.0.0.2:5432"] false false =
    ([], RunCalls (RunServer demoServerRun))) as Hr by (vm_compute; reflexivity).
  assert (run demoClientFlags ["client"; "--service"; "0:web"; "--device"; "X"] false false = ([], RunCalls (RunClient demoClientRun))) as Hc
    by (vm_compute; reflexivity).
  split; [exact Hr|]. split.
  { pose proof (accepted_commands demoFlags _ false false _ _ Hr) as [_ Hok]. exact (proj1 (sro_services _ Hok eq_refl)). }
  split; [exact Hc|]. split; [vm_compute; reflexivity|].
  pose proof (accepted_commands demoClientFlags _ false false _ _ Hc) as [_ [_ Hok]]. apply Hok.
Defined.

(** The values of the flags that are not given are accepted wherever a server is
    named, but for the target, which has no default. *)
Lemma defaults_accepted :
  runScan scanDefaults = RunCalls (Scan (30 * Second) false) /\
  (exists cfg, runClient clientDefaults true false = RunCalls (RunClient cfg)) /\
  runServer serverDefaults false = refuse "--target-port is required and must be between 1 and 65535" /\
  runServices servicesDefaults false = refuse deviceRequired /\
  (exists cfg, runBenchmark benchmarkDefaults true false = RunCalls (RunClient cfg)).
Proof. split_and!; try (vm_compute; reflexivity); by (eexists; vm_compute; reflexivity). Qed.
