(* ===== verification/Format.v ===== *)
(** * Numbers and text as the Go standard library formats them

    What internal/app/traffic.go and internal/app/console.go use of float64
    (IEEE 754 binary64, as in the standard library's [SpecFloat]), of package fmt
    ([%.0f], [%.1f], [%-10s]), of unicode/utf8 and of package strings. *)

From Stdlib Require Import SpecFloat.
From S2P Require Export GoStrings.

(** ** float64 *)

Definition float64 := spec_float.
Definition prec : Z := 53.
Definition emax : Z := 1024.

(** [float64(z)] of an integer, rounded to nearest, ties to even. *)
Definition float_of (z : Z) : float64 := binary_normalize prec emax z 0 false.
Definition fadd : float64 -> float64 -> float64 := SFadd prec emax.
Definition fsub : float64 -> float64 -> float64 := SFsub prec emax.
Definition fmul : float64 -> float64 -> float64 := SFmul prec emax.
Definition fdiv : float64 -> float64 -> float64 := SFdiv prec emax.
Definition flt (x y : float64) : bool := SFltb x y.
Definition fle (x y : float64) : bool := SFleb x y.
Definition one_half : float64 := fdiv (float_of 1) (float_of 2).

(** [int(x)]: towards zero. *)
Definition int_of (x : float64) : Z :=
  match x with
  | S754_finite s m e =>
      let n := if 0 <=? e then Z.pos m * 2 ^ e else Z.pos m / 2 ^ (- e) in if s then - n else n
  | _ => 0
  end.

(** ** fmt *)

(** [m * 2^e * 10^d], rounded to nearest, ties to even. *)
Definition scaled (m : positive) (e : Z) (d : nat) : Z :=
  let n := Z.pos m * 10 ^ Z.of_nat d in
  if 0 <=? e then n * 2 ^ e
  else
    let b := 2 ^ (- e) in
    let q := n / b in
    let r := n mod b in
    if (2 * r <? b) || ((2 * r =? b) && Z.even q) then q else q + 1.

Definition repeat_string (n : Z) (s : string) : string := String.concat "" (replicate (Z.to_nat n) s).

(** [%.<d>f] *)
Definition fixed (d : nat) (x : float64) : string :=
  let text (sign : bool) (n : Z) :=
    let whole := n / 10 ^ Z.of_nat d in
    let frac := itoa (n mod 10 ^ Z.of_nat d) in
    (if sign then "-" else "") +:+ itoa whole +:+
    (if (d =? 0)%nat then "" else "." +:+ repeat_string (Z.of_nat d - slen frac) "0" +:+ frac) in
  match x with
  | S754_zero s => text s 0
  | S754_infinity s => if s then "-Inf" else "+Inf"
  | S754_nan => "NaN"
  | S754_finite s m e => text s (scaled m e d)
  end.

(** ** unicode/utf8 *)

Definition between (lo hi : Z) (b : byte) : bool := (lo <=? byte_z b) && (byte_z b <=? hi).
Definition continuation : byte -> bool := between 128 191.

(** The length of the first rune; a byte that starts none counts as one. *)
Definition rune_len (p : bytes) : nat :=
  match p with
  | [] => 0
  | b :: p =>
      let z := byte_z b in
      if between 194 223 b then match p with x :: _ => if continuation x then 2 else 1 | _ => 1 end
      else if between 224 239 b then
        match p with
        | x :: y :: _ =>
            if between (if z =? 224 then 160 else 128) (if z =? 237 then 159 else 191) x && continuation y then 3 else 1
        | _ => 1
        end
      else if between 240 244 b then
        match p with
        | x :: y :: w :: _ =>
            if between (if z =? 240 then 144 else 128) (if z =? 244 then 143 else 191) x && continuation y && continuation w
            then 4 else 1
        | _ => 1
        end
      else 1
  end.

(** The runes of [p], the first [skip] bytes of which belong to one before it. *)
Fixpoint runes (skip : nat) (p : bytes) : Z :=
  match p with
  | [] => 0
  | b :: rest =>
      match skip with
      | S k => runes k rest
      | O => 1 + runes (Nat.pred (rune_len p)) rest
      end
  end.

Definition RuneCountInString (s : string) : Z := runes 0 (str_bytes s).

(** [%-<width>s] *)
Definition pad_right (width : Z) (s : string) : string := s +:+ repeat_string (width - RuneCountInString s) " ".
(** [%<width>s], here for the output of [%6.1f]. *)
Definition pad_left (width : Z) (s : string) : string := repeat_string (width - RuneCountInString s) " " +:+ s.

(** ** strings *)

(** [strings.Replace(s, old, new, 1)], for an [old] that is not empty. *)
Fixpoint replace1 (old new p : bytes) : bytes :=
  if bool_decide (old `prefix_of` p) then new ++ drop (length old) p
  else match p with [] => [] | b :: p => b :: replace1 old new p end.

Definition Replace1 (s old new : string) : string := bytes_str (replace1 (str_bytes old) (str_bytes new) (str_bytes s)).

(** ** time *)

(** [Duration.Seconds] *)
Definition Seconds (d : Z) : float64 :=
  fadd (float_of (Z.quot d 1000000000)) (fdiv (float_of (Z.rem d 1000000000)) (float_of 1000000000)).

Example fixed_ties : fixed 1 (fdiv (float_of 1) (float_of 4)) = "0.2" /\ fixed 0 (fdiv (float_of 5) (float_of 2)) = "2" /\
  fixed 1 (fdiv (float_of 1) (float_of 3)) = "0.3" /\ RuneCountInString "⇅ │" = 3 /\ Replace1 "TX TX" "TX" "<TX>" = "<TX> TX".
Proof. split_and!; by vm_compute. Qed.
