(* ===== verification/Console.v ===== *)
(** * The runtime console
    (internal/app/console.go, the formatting of internal/app/traffic.go)

    Each method of [runtimeConsole] is one critical section of its mutex: it
    changes the console and writes to the output, a terminal that takes every
    write.  [term] is that terminal, as far as the escape sequences the console
    uses go; the refinement theorem says what is on its screen. *)

From S2P Require Export Format.
From S2P Require Import Traffic LinkBinding.

(** ** internal/app/traffic.go *)

Definition delta (current previous : Z) : Z := if current <? previous then 0 else u64 (current - previous).

Fixpoint scaleBytes (bytes : float64) (unit : string) (units : list string) : float64 * string :=
  match units with
  | next :: units => if fle (float_of 1024) bytes then scaleBytes (fdiv bytes (float_of 1024)) next units else (bytes, unit)
  | [] => (bytes, unit)
  end.

Definition formatBytes (bytes : float64) : string :=
  let '(bytes, unit) := scaleBytes bytes "B" ["KiB"; "MiB"; "GiB"; "TiB"] in
  fixed (if bool_decide (unit = "B") then 0 else 1) bytes +:+ " " +:+ unit.

Definition elapsedSeconds (elapsed : Z) : float64 :=
  let seconds := Seconds elapsed in if fle seconds (float_of 0) then float_of 1 else seconds.

Definition trafficRates (current previous : Traffic.Counter) (elapsed : Z) : float64 * float64 :=
  let seconds := elapsedSeconds elapsed in
  (fdiv (float_of (delta (Traffic.tx current) (Traffic.tx previous))) seconds,
   fdiv (float_of (delta (Traffic.rx current) (Traffic.rx previous))) seconds).

Definition formatTraffic (current previous : Traffic.Counter) (elapsed : Z) : string :=
  let '(txRate, rxRate) := trafficRates current previous elapsed in
  "tx=" +:+ formatBytes (float_of (Traffic.tx current)) +:+ " rx=" +:+ formatBytes (float_of (Traffic.rx current))
  +:+ " tx-rate=" +:+ formatBytes txRate +:+ "/s rx-rate=" +:+ formatBytes rxRate +:+ "/s".

(** ** State *)

Definition trafficBarWidth : Z := 14.
Definition trafficContentWidth : Z := 64.

Record linkHealthState := mkHealth {
  lh_known : bool;
  lh_bound : bool;
  lh_heartbeatPending : bool;
  lh_failures : Z;
  lh_applicationPending : bool;
  lh_lastHeartbeat : Z              (* 0 is the zero Time *)
}.

Record bufferState := mkBuffer { bs_known : bool; bs_queued : Z; bs_opening : Z; bs_active : Z; bs_bytes : Z }.

Record runtimeConsole := mkConsole {
  tui : bool;
  color : bool;
  lines : list string;
  peakRate : float64;
  peakCombinedRate : float64;
  linkHealth : linkHealthState;
  buffers : bufferState;             (* bufferState *)
  healthSession : option nat;
  console_closed : bool
}.

#[export] Instance eta_console : Eta runtimeConsole := fun c =>
  mkConsole (tui c) (color c) (lines c) (peakRate c) (peakCombinedRate c) (linkHealth c) (buffers c) (healthSession c) (console_closed c).

Definition newRuntimeConsole (tui noColor : bool) : runtimeConsole :=
  mkConsole tui (tui && negb noColor) [] (float_of 0) (float_of 0) (mkHealth false false false 0 false 0)
    (mkBuffer false 0 0 0 0) None false.

(** ** Lines *)

Definition esc : string := String (Ascii.ascii_of_nat 27) "".
Definition nl : string := String (Ascii.ascii_of_nat 10) "".
Definition cr : string := String (Ascii.ascii_of_nat 13) "".

Definition paint (c : runtimeConsole) (value code : string) : string :=
  if color c then esc +:+ "[" +:+ code +:+ "m" +:+ value +:+ esc +:+ "[0m" else value.

Definition dashboardTop (state : string) : string :=
  let prefix := "─ LightningBNB traffic · " +:+ pad_right 5 state +:+ " " in
  "╭" +:+ prefix +:+ repeat_string (trafficContentWidth + 2 - RuneCountInString prefix) "─" +:+ "╮".

Definition dashboardLine (content : string) : string :=
  let padding := trafficContentWidth - RuneCountInString content in
  let padding := if padding <? 0 then 0 else padding in
  "│ " +:+ content +:+ repeat_string padding " " +:+ " │".

Definition rateBar (c : runtimeConsole) (rate : float64) : string :=
  let filled :=
    if flt (float_of 0) rate && flt (float_of 0) (peakRate c) then
      let filled := int_of (fadd (fmul (fdiv rate (peakRate c)) (float_of trafficBarWidth)) one_half) in
      let filled := if filled <? 1 then 1 else filled in
      if trafficBarWidth <? filled then trafficBarWidth else filled
    else 0 in
  repeat_string filled "█" +:+ repeat_string (trafficBarWidth - filled) "░".

Definition compressionLine (direction : string) (uncompressed compressed : Z) : string :=
  let savings :=
    if 0 <? uncompressed
    then fmul (fsub (float_of 1) (fdiv (float_of compressed) (float_of uncompressed))) (float_of 100)
    else float_of 0 in
  direction +:+ "  uncompressed " +:+ pad_right 10 (formatBytes (float_of uncompressed)) +:+ " compressed "
  +:+ pad_right 10 (formatBytes (float_of compressed)) +:+ " saved " +:+ pad_left 6 (fixed 1 savings) +:+ "%".

Section Lines.
(** [t.Local().Format("15:04:05")], which depends on the local time zone. *)
Variable localTime : Z -> string.

Definition healthLabel (h : linkHealthState) : string * string :=
  if negb (lh_known h) then ("UNKNOWN", "90")
  else if negb (lh_bound h) then ("OFFLINE", "31")
  else if lh_applicationPending h then ("DEGRADED", "33")
  else if lh_heartbeatPending h || (0 <? lh_failures h) then ("CHECKING", "33")
  else ("HEALTHY", "32").

Definition healthLine (c : runtimeConsole) : string :=
  let '(label, code) := healthLabel (linkHealth c) in
  let lastHeartbeat := if lh_lastHeartbeat (linkHealth c) =? 0 then "--" else localTime (lh_lastHeartbeat (linkHealth c)) in
  let line := dashboardLine ("●" +:+ " link " +:+ pad_right 9 label +:+ " hb last " +:+ lastHeartbeat) in
  if color c then Replace1 line "●" (paint c "●" code) else line.

Definition bufferLine (c : runtimeConsole) : string :=
  let b := buffers c in
  if negb (bs_known b) then dashboardLine "BUF queued -- reqs active -- data --"
  else
    let line := dashboardLine ("BUF queued " +:+ pad_right 4 (itoa (bs_queued b)) +:+ " opening " +:+ pad_right 4 (itoa (bs_opening b))
      +:+ " active " +:+ pad_right 4 (itoa (bs_active b)) +:+ " data " +:+ pad_right 10 (formatBytes (float_of (bs_bytes b)))) in
    if color c then Replace1 line "BUF" (paint c "BUF" "1;35") else line.

Definition trafficLines (c : runtimeConsole) (current : Traffic.Counter) (txRate rxRate : float64) (final : bool) : list string :=
  let combinedRate := fadd txRate rxRate in
  let row label total rate bar :=
    dashboardLine (label +:+ "  total " +:+ pad_right 10 (formatBytes (float_of total)) +:+ " now "
      +:+ pad_right 11 (formatBytes rate +:+ "/s") +:+ " " +:+ bar) in
  let painted label labelCode bar barCode line :=
    if color c then Replace1 (Replace1 line label (paint c label labelCode)) bar (paint c bar barCode) else line in
  let txBar := rateBar c txRate in
  let rxBar := rateBar c rxRate in
  let compression label labelCode uncompressed compressed :=
    let line := dashboardLine (compressionLine label uncompressed compressed) in
    if color c then Replace1 line label (paint c label labelCode) else line in
  [ paint c (dashboardTop (if final then "FINAL" else "LIVE")) "1;36";
    healthLine c;
    bufferLine c;
    painted "TX" "1;33" txBar "33" (row "TX" (Traffic.tx current) txRate txBar);
    painted "RX" "1;32" rxBar "32" (row "RX" (Traffic.rx current) rxRate rxBar) ]
  ++ (if Traffic.compressionEnabled current
      then [ compression "TX" "1;33" (Traffic.txUncompressed current) (Traffic.txCompressed current);
             compression "RX" "1;32" (Traffic.rxUncompressed current) (Traffic.rxCompressed current) ]
      else [])
  ++ [ dashboardLine ("⇅   total " +:+ pad_right 10 (formatBytes (float_of (u64 (Traffic.tx current + Traffic.rx current))))
         +:+ " now " +:+ pad_right 11 (formatBytes combinedRate +:+ "/s") +:+ " peak "
         +:+ pad_right 9 (formatBytes (peakCombinedRate c) +:+ "/s"));
       paint c ("╰" +:+ repeat_string (trafficContentWidth + 2) "─" +:+ "╯") "1;36" ].

Definition trafficLinesFromCurrent (c : runtimeConsole) (previous : list string) : list string :=
  match previous with
  | top :: _ :: _ :: rest => top :: healthLine c :: bufferLine c :: rest
  | _ => previous
  end.

(** ** Operations *)

Fixpoint clearRows (n : nat) : string :=
  match n with
  | O => ""
  | S n => cr +:+ esc +:+ "[2K" +:+ (if (n =? 0)%nat then "" else esc +:+ "[1A") +:+ clearRows n
  end.

Definition clearLocked (c : runtimeConsole) : string := clearRows (length (lines c)).
Definition drawLocked (c : runtimeConsole) : string := String.concat nl (lines c).

(** [Write], the writer of the console's logger: what it writes. *)
Definition Write (c : runtimeConsole) (data : string) : string :=
  if negb (tui c) || bool_decide (lines c = []) || console_closed c then data
  else clearLocked c +:+ data +:+ drawLocked c.

(** [stamp] is the logger's prefix and time. *)
Definition ReportTraffic (c : runtimeConsole) (stamp : string) (current previous : Traffic.Counter) (elapsed : Z) (final : bool)
    : runtimeConsole * string :=
  if negb (tui c) then
    (c, Write c (stamp +:+ (if final then "traffic final" else "traffic") +:+ " " +:+ formatTraffic current previous elapsed +:+ nl))
  else
    let '(txRate, rxRate) := trafficRates current previous elapsed in
    if console_closed c then (c, "")
    else
      let peak := if flt (peakRate c) txRate then txRate else peakRate c in
      let peak := if flt peak rxRate then rxRate else peak in
      let combinedRate := fadd txRate rxRate in
      let combined := if flt (peakCombinedRate c) combinedRate then combinedRate else peakCombinedRate c in
      let c1 := c <| peakRate := peak |> <| peakCombinedRate := combined |> in
      let c2 := c1 <| lines := trafficLines c1 current txRate rxRate final |> in
      (c2, clearLocked c1 +:+ drawLocked c2).

Definition SetLinkSession (c : runtimeConsole) (session : option nat) : runtimeConsole :=
  if negb (tui c) then c else c <| healthSession := session |>.

(** The guard of the status reports. *)
Definition ignored (c : runtimeConsole) (session : option nat) : bool :=
  negb (tui c) || console_closed c || (bool_decide (is_Some session) && negb (bool_decide (healthSession c = session))).

(** Their end: the dashboard, when there is one, with new status rows. *)
Definition redraw (c : runtimeConsole) : runtimeConsole * string :=
  if bool_decide (lines c = []) then (c, "")
  else
    let c' := c <| lines := trafficLinesFromCurrent c (lines c) |> in
    (c', clearLocked c +:+ drawLocked c').

Definition ReportLinkAndBufferFor (c : runtimeConsole) (session : option nat) (snapshot : TransportSnapshot)
    (queued opening active bytes : Z) : runtimeConsole * string :=
  if ignored c session then (c, "")
  else
    redraw (c <| linkHealth := mkHealth true (Bound snapshot) (SnHeartbeatPending snapshot) (HeartbeatConsecutiveFailures snapshot)
                   (0 <? opening) (LastHeartbeat snapshot) |>
              <| buffers := mkBuffer true queued opening active bytes |>).

Definition reportBuffer (c : runtimeConsole) (session : option nat) (queued active bytes : Z) : runtimeConsole * string :=
  if ignored c session then (c, "") else redraw (c <| buffers := mkBuffer true queued 0 active bytes |>).

Definition reportLinkHealth (c : runtimeConsole) (session : option nat) (snapshot : TransportSnapshot) : runtimeConsole * string :=
  if ignored c session then (c, "")
  else
    redraw (c <| linkHealth := mkHealth true (Bound snapshot) (SnHeartbeatPending snapshot) (HeartbeatConsecutiveFailures snapshot)
                   false (LastHeartbeat snapshot) |>).

Definition CloseConsole (c : runtimeConsole) : runtimeConsole * string :=
  if console_closed c then (c, "")
  else (c <| console_closed := true |>, if tui c && negb (bool_decide (lines c = [])) then nl else "").

(** The calls of the program, in the order they take the mutex. *)
Inductive consoleOp :=
  | Log (data : string)
  | Traffic_ (stamp : string) (current previous : Traffic.Counter) (elapsed : Z) (final : bool)
  | SetSession (session : option nat)
  | LinkAndBuffer (session : option nat) (snapshot : TransportSnapshot) (queued opening active bytes : Z)
  | Buffer_ (session : option nat) (queued active bytes : Z)
  | LinkHealth (session : option nat) (snapshot : TransportSnapshot)
  | Close_.

Definition console_step (c : runtimeConsole) (op : consoleOp) : runtimeConsole * string :=
  match op with
  | Log data => (c, Write c data)
  | Traffic_ stamp current previous elapsed final => ReportTraffic c stamp current previous elapsed final
  | SetSession session => (SetLinkSession c session, "")
  | LinkAndBuffer session snapshot queued opening active bytes => ReportLinkAndBufferFor c session snapshot queued opening active bytes
  | Buffer_ session queued active bytes => reportBuffer c session queued active bytes
  | LinkHealth session snapshot => reportLinkHealth c session snapshot
  | Close_ => CloseConsole c
  end.
End Lines.

Example demo_lines :
  trafficLines (fun _ => "12:34:56") (newRuntimeConsole true true)
    (Traffic.mkCounter 1536 (3 * 1024 * 1024) false 0 0 0 0) (float_of 2048) (float_of 512) false =
  [ "╭─ LightningBNB traffic · LIVE  ───────────────────────────────────╮";
    "│ ● link UNKNOWN   hb last --                                      │";
    "│ BUF queued -- reqs active -- data --                             │";
    "│ TX  total 1.5 KiB    now 2.0 KiB/s   ░░░░░░░░░░░░░░              │";
    "│ RX  total 3.0 MiB    now 512 B/s     ░░░░░░░░░░░░░░              │";
    "│ ⇅   total 3.0 MiB    now 2.5 KiB/s   peak 0 B/s                  │";
    "╰──────────────────────────────────────────────────────────────────╯" ].
Proof. vm_compute. reflexivity. Qed.
