(* ===== verification/ConsoleScreen.v ===== *)
(** * What the console shows

    The terminal behind internal/app/console.go as a machine on bytes, with the
    escape sequences the console writes, and the refinement: whatever the order
    of the calls, its screen is the log followed by the current dashboard. *)

From S2P Require Import Traffic LinkBinding.
From S2P Require Export Console.

(** ** The terminal *)

Inductive escState := Text | Esc | Csi (params : bytes).

(** [t_above] are the rows above the cursor, the nearest first; [t_col0]: the
    cursor is on the first column, not behind the row's text. *)
Record term := mkTerm {
  t_above : list bytes;
  t_row : bytes;
  t_below : list bytes;
  t_col0 : bool;
  t_esc : escState
}.

Definition is_control (b : byte) : bool := (byte_z b <? 32) || (byte_z b =? 127).
Definition is_param (b : byte) : bool := between 48 57 b || bool_decide (b = Byte.x3b).

(** One byte; [None]: a sequence or a movement the machine does not know, or
    text that would overwrite other text. *)
Definition term_byte (t : term) (b : byte) : option term :=
  match t_esc t with
  | Text =>
      if bool_decide (b = Byte.x1b) then Some (mkTerm (t_above t) (t_row t) (t_below t) (t_col0 t) Esc)
      else if bool_decide (b = Byte.x0a) then
        Some (mkTerm (t_row t :: t_above t) (default [] (head (t_below t))) (tail (t_below t)) true Text)
      else if bool_decide (b = Byte.x0d) then Some (mkTerm (t_above t) (t_row t) (t_below t) true Text)
      else if is_control b then None
      else if t_col0 t && negb (bool_decide (t_row t = [])) then None
      else Some (mkTerm (t_above t) (t_row t ++ [b]) (t_below t) false Text)
  | Esc =>
      if bool_decide (b = Byte.x5b) then Some (mkTerm (t_above t) (t_row t) (t_below t) (t_col0 t) (Csi [])) else None
  | Csi params =>
      if is_param b then Some (mkTerm (t_above t) (t_row t) (t_below t) (t_col0 t) (Csi (params ++ [b])))
      else if bool_decide (b = Byte.x6d) then Some (mkTerm (t_above t) (t_row t) (t_below t) (t_col0 t) Text)
      else if bool_decide (b = Byte.x4b) && bool_decide (params = [Byte.x32])
      then Some (mkTerm (t_above t) [] (t_below t) (t_col0 t) Text)
      else if bool_decide (b = Byte.x41) && bool_decide (params = [Byte.x31]) && t_col0 t then
        match t_above t with
        | row :: above => Some (mkTerm above row (t_row t :: t_below t) true Text)
        | [] => None
        end
      else None
  end.

Fixpoint term_run (t : term) (p : bytes) : option term :=
  match p with [] => Some t | b :: p => t ← term_byte t b; term_run t p end.

(** What a row shows of a text with styles: [None] if it is not such a text. *)
Fixpoint walk (st : escState) (p : bytes) : option (escState * bytes) :=
  match p with
  | [] => Some (st, [])
  | b :: p =>
      match st with
      | Text =>
          if bool_decide (b = Byte.x1b) then walk Esc p
          else if is_control b then None
          else '(st, v) ← walk Text p; Some (st, b :: v)
      | Esc => if bool_decide (b = Byte.x5b) then walk (Csi []) p else None
      | Csi params =>
          if is_param b then walk (Csi (params ++ [b])) p else if bool_decide (b = Byte.x6d) then walk Text p else None
      end
  end.

(** The text [s] shows [v]. *)
Definition visible (s : string) (v : bytes) : Prop := walk Text (str_bytes s) = Some (Text, v).

(** The screen: the finished rows, then the dashboard with the cursor on its
    last row, or on an empty row when there is none; nothing below. *)
Definition shows (t : term) (log dash : list bytes) : Prop :=
  t_esc t = Text /\ Forall (fun r => r = []) (t_below t) /\ (t_col0 t = true -> t_row t = []) /\
  match dash with
  | [] => t_above t = reverse log /\ t_row t = [] /\ t_col0 t = true
  | _ => t_row t :: t_above t = reverse (log ++ dash)
  end.

(** * The terminal's reaction *)

Lemma term_run_app t p q : term_run t (p ++ q) = t' ← term_run t p; term_run t' q.
Proof. revert t. induction p as [|b p IH]; intros t; [done|]. cbn. destruct (term_byte t b); cbn; [apply IH|done]. Qed.

Lemma walk_app st p q : walk st (p ++ q) = '(st1, v1) ← walk st p; '(st2, v2) ← walk st1 q; Some (st2, v1 ++ v2).
Proof.
  revert st. induction p as [|b p IH]; intros st; cbn.
  { by destruct (walk st q) as [[]|]. }
  destruct st as [| |ps]; repeat (case_match; try done); rewrite ?IH; destruct (walk _ p) as [[st1 v1]|]; cbn; try done;
    by destruct (walk st1 q) as [[]|].
Qed.

(** A text behind the row, or on an empty one. *)
Lemma term_text t st p v :
  t_esc t = st -> walk st p = Some (Text, v) -> (t_col0 t = true -> t_row t = []) ->
  term_run t p = Some (mkTerm (t_above t) (t_row t ++ v) (t_below t) (t_col0 t && bool_decide (v = [])) Text).
Proof.
  revert t st v. induction p as [|b p IH]; intros [a r bl c0 e] st v; cbn [t_esc t_col0 t_row t_above t_below]; intros -> Hw Hc.
  { injection Hw as -> <-. cbn. by rewrite app_nil_r, andb_true_r. }
  cbn in Hw |- *. unfold term_byte. cbn [t_esc t_col0 t_row t_above t_below]. destruct st as [| |ps].
  - case_bool_decide as H1; [by apply (IH (mkTerm a r bl c0 Esc) Esc)|].
    destruct (is_control b) eqn:Hb; [done|].
    rewrite bool_decide_eq_false_2 by (intros ->; done). rewrite bool_decide_eq_false_2 by (intros ->; done).
    destruct (walk Text p) as [[st' v']|] eqn:Hp; [|done]. cbn in Hw. injection Hw as -> <-.
    assert (c0 && negb (bool_decide (r = [])) = false) as ->.
    { destruct c0; [|done]. rewrite (Hc eq_refl). by rewrite bool_decide_eq_true_2. }
    cbn. rewrite (IH (mkTerm a (r ++ [b]) bl false Text) Text v') by done. cbn.
    rewrite andb_false_r, <- app_assoc. done.
  - case_bool_decide; [|done]. by apply (IH (mkTerm a r bl c0 (Csi [])) (Csi [])).
  - destruct (is_param b); [by apply (IH (mkTerm a r bl c0 (Csi (ps ++ [b]))) (Csi (ps ++ [b])))|].
    case_bool_decide; [|done]. by apply (IH (mkTerm a r bl c0 Text) Text).
Qed.

(** ** Strings *)

Lemma str_bytes_app s u : str_bytes (s +:+ u) = str_bytes s ++ str_bytes u.
Proof. induction s as [|a s IH]; [done|]. change (String.String a s +:+ u) with (String.String a (s +:+ u)). by rewrite !str_bytes_cons, IH. Qed.

Lemma str_bytes_concat sep s l :
  str_bytes (String.concat sep (s :: l)) = str_bytes s ++ concat ((fun x => str_bytes sep ++ str_bytes x) <$> l).
Proof.
  revert s. induction l as [|u l IH]; intros s; [by rewrite app_nil_r|].
  change (String.concat sep (s :: u :: l)) with (s +:+ sep +:+ String.concat sep (u :: l)).
  rewrite !str_bytes_app, IH, fmap_cons. cbn [concat]. by rewrite <- app_assoc.
Qed.

Lemma str_bytes_join l : str_bytes (String.concat "" l) = concat (str_bytes <$> l).
Proof. destruct l as [|s l]; [done|]. rewrite str_bytes_concat. cbn. f_equal. Qed.

(** A joined text ends with the separators of all but its last line. *)
Lemma str_bytes_lines front l :
  str_bytes (String.concat nl (front ++ [l])) = str_bytes (String.concat "" ((fun l => l +:+ nl) <$> front)) ++ str_bytes l.
Proof.
  rewrite str_bytes_join. induction front as [|s front IH]; [done|].
  assert (String.concat nl ((s :: front) ++ [l]) = s +:+ nl +:+ String.concat nl (front ++ [l])) as -> by by destruct front.
  rewrite !fmap_cons. cbn [concat]. rewrite !str_bytes_app, IH. by rewrite <- !app_assoc.
Qed.

(** The cursor at the start of an empty row below the log. *)
Definition fresh (t : term) : Prop :=
  t_esc t = Text /\ t_row t = [] /\ t_col0 t = true /\ Forall (fun r => r = []) (t_below t).

Lemma shows_fresh t log : shows t log [] <-> fresh t /\ t_above t = reverse log.
Proof. unfold shows, fresh. split; [intros (? & ? & _ & ? & ? & ?)|intros [(? & ? & ? & ?) ?]]; by split_and!. Qed.

Lemma term_newline t :
  t_esc t = Text -> Forall (fun r => r = []) (t_below t) ->
  exists t', term_run t (str_bytes nl) = Some t' /\ fresh t' /\ t_above t' = t_row t :: t_above t.
Proof.
  destruct t as [a r bl c0 e]. cbn [t_esc t_below t_row t_above]. intros -> Hb.
  eexists. split; [reflexivity|]. split; [|done]. unfold fresh. cbn. split_and!; try done.
  - by destruct Hb.
  - by destruct Hb.
Qed.

(** [clearLocked]: the rows of the dashboard are empty and the cursor is where
    it was before the dashboard was drawn. *)
Lemma term_clear n t d rest :
  t_esc t = Text -> t_row t :: t_above t = d ++ rest -> length d = S n -> Forall (fun r => r = []) (t_below t) ->
  exists t', term_run t (str_bytes (clearRows (S n))) = Some t' /\ fresh t' /\ t_above t' = rest.
Proof.
  revert t d. induction n as [|n IH]; intros [a r bl c0 e] d; cbn [t_esc t_below t_row t_above]; intros -> Hr Hd Hb.
  - destruct d as [|x [|y d]]; try done. injection Hr as -> ->. eexists. split; [reflexivity|].
    split; [|done]. by unfold fresh.
  - destruct d as [|x [|y d]]; try done. injection Hr as -> ->.
    destruct (IH (mkTerm (d ++ rest) y ([] :: bl) true Text) (y :: d)) as (t' & Hrun & Ht'); [done|done|cbn in *; lia|by constructor|].
    exists t'. split; [exact Hrun|done].
Qed.

Lemma shows_clear t log dash :
  shows t log dash -> exists t', term_run t (str_bytes (clearRows (length dash))) = Some t' /\ shows t' log [].
Proof.
  intros Hs. destruct dash as [|v dash]; [by exists t|]. destruct Hs as (He & Hb & Hc & Hd).
  destruct (term_clear (length dash) t (reverse (v :: dash)) (reverse log)) as (t' & Hrun & Hf & Ha); try done.
  - by rewrite Hd, reverse_app.
  - by rewrite length_reverse.
  - exists t'. split; [done|]. by apply shows_fresh.
Qed.

(** Finished rows are written. *)
Lemma shows_rows t log ls vs :
  shows t log [] -> Forall2 visible ls vs ->
  exists t', term_run t (str_bytes (String.concat "" ((fun l => l +:+ nl) <$> ls))) = Some t' /\ shows t' (log ++ vs) [].
Proof.
  intros Hs Hv. revert t log Hs. induction Hv as [|l v ls vs Hl Hv IH]; intros t log Hs.
  { exists t. rewrite app_nil_r. by split. }
  apply shows_fresh in Hs as [(He & Hr & Hc & Hb) Ha].
  rewrite str_bytes_join, !fmap_cons. cbn [concat].
  rewrite !str_bytes_app, !term_run_app, (term_text t Text _ v He Hl) by (by intros; rewrite Hr). rewrite Hr. cbn [mbind option_bind].
  destruct (term_newline (mkTerm (t_above t) ([] ++ v) (t_below t) (t_col0 t && bool_decide (v = [])) Text)) as (t1 & -> & Hf & Ha1); [done|done|].
  cbn [mbind option_bind]. cbn in Ha1. destruct (IH t1 (log ++ [v])) as (t2 & Hrun & Ht2).
  { apply shows_fresh. split; [done|]. by rewrite Ha1, Ha, reverse_app. }
  exists t2. rewrite str_bytes_join in Hrun. split; [exact Hrun|]. by rewrite <- app_assoc in Ht2.
Qed.

(** [drawLocked]. *)
Lemma shows_draw t log ls vs :
  shows t log [] -> Forall2 visible ls vs ->
  exists t', term_run t (str_bytes (String.concat nl ls)) = Some t' /\ shows t' log vs.
Proof.
  intros Hs Hv. destruct (decide (ls = [])) as [->|Hne].
  { inversion Hv; subst. by exists t. }
  destruct (exists_last Hne) as (front & l & ->). apply Forall2_app_inv_l in Hv as (vs1 & vs2 & Hv1 & Hv2 & ->).
  apply Forall2_cons_inv_l in Hv2 as (v & vs3 & Hl & Hv3 & ->). apply Forall2_nil_inv_l in Hv3 as ->.
  destruct (shows_rows t log front vs1 Hs Hv1) as (t1 & Hrun & Hs1).
  rewrite str_bytes_lines, term_run_app, Hrun. cbn [mbind option_bind]. apply shows_fresh in Hs1 as [(He & Hr & Hc & Hb) Ha].
  rewrite (term_text t1 Text _ v He Hl) by (by intros; rewrite Hr). eexists. split; [reflexivity|].
  split; [done|]. split; [done|]. cbn. rewrite Hr. split.
  - intros [_ Hv0]%andb_true_iff. by bool2prop.
  - rewrite app_assoc, reverse_app, Ha. destruct (vs1 ++ [v]) eqn:E; [by destruct vs1|done].
Qed.

(** * Plain and painted text *)

Definition plain (s : string) : Prop := forallb (fun b => negb (is_control b)) (str_bytes s) = true.

Create HintDb plain.

Lemma plain_app s u : plain s -> plain u -> plain (s +:+ u).
Proof. unfold plain. rewrite str_bytes_app, forallb_app. by intros -> ->. Qed.

Lemma plain_visible s : plain s -> visible s (str_bytes s).
Proof.
  unfold plain, visible. induction (str_bytes s) as [|b p IH]; [done|]. cbn. intros [Hb Hp]%andb_true_iff. bool2prop.
  rewrite bool_decide_eq_false_2 by (intros ->; done). rewrite Hb, (IH Hp). done.
Qed.

Lemma plain_join l : Forall plain l -> plain (String.concat "" l).
Proof.
  unfold plain. rewrite str_bytes_join. induction 1 as [|s l Hs _ IH]; [done|]. rewrite fmap_cons. cbn [concat].
  by rewrite forallb_app, Hs.
Qed.

Lemma plain_repeat n s : plain s -> plain (repeat_string n s).
Proof. intros Hs. apply plain_join, Forall_forall. intros x Hx. by apply elem_of_replicate in Hx as [-> _]. Qed.

Lemma plain_pretty_N (x : N) : plain (pretty x).
Proof.
  unfold plain, pretty, pretty_N. destruct (decide (x = 0)%N) as [->|]; [done|].
  destruct (pretty_digits x "") as (p & -> & _ & Hall & _). rewrite app_nil_r. apply forallb_forall. intros b Hb%list_elem_of_In.
  rewrite Forall_forall in Hall. specialize (Hall b Hb). apply digit_byte in Hall. unfold is_control.
  rewrite (proj2 (Z.ltb_ge _ _)) by lia. rewrite (proj2 (Z.eqb_neq _ _)) by lia. done.
Qed.

Lemma plain_itoa z : plain (itoa z).
Proof.
  destruct z as [|x|x]; [done|apply (plain_pretty_N (N.pos x))|].
  change (plain ("-" +:+ pretty (N.pos x))). apply plain_app; [done|apply plain_pretty_N].
Qed.

#[export] Hint Resolve plain_app plain_repeat plain_itoa : plain.
#[export] Hint Extern 1 (plain _) => reflexivity : plain.

Lemma plain_pad_right w s : plain s -> plain (pad_right w s).
Proof. intros. unfold pad_right. auto with plain. Qed.

Lemma plain_pad_left w s : plain s -> plain (pad_left w s).
Proof. intros. unfold pad_left. auto with plain. Qed.

Lemma plain_fixed d x : plain (fixed d x).
Proof.
  assert (forall sign n, plain ((if sign : bool then "-" else "") +:+ itoa (n / 10 ^ Z.of_nat d) +:+
    (if (d =? 0)%nat then "" else "." +:+ repeat_string (Z.of_nat d - slen (itoa (n mod 10 ^ Z.of_nat d))) "0" +:+ itoa (n mod 10 ^ Z.of_nat d)))) as Ht.
  { intros sign n. apply plain_app; [by destruct sign|]. apply plain_app; [apply plain_itoa|]. destruct (d =? 0)%nat; auto 6 with plain. }
  destruct x as [s|s| |s m e]; [apply Ht|by destruct s|done|apply Ht].
Qed.

Lemma plain_formatBytes x : plain (formatBytes x).
Proof.
  unfold formatBytes. cbn [scaleBytes]. repeat (case_match; simplify_eq); repeat apply plain_app; try reflexivity; apply plain_fixed.
Qed.

#[export] Hint Resolve plain_pad_right plain_pad_left plain_fixed plain_formatBytes : plain.

Lemma plain_dashboardLine s : plain s -> plain (dashboardLine s).
Proof. intros. unfold dashboardLine. auto 7 with plain. Qed.

Lemma plain_rateBar c x : plain (rateBar c x).
Proof. unfold rateBar. auto with plain. Qed.

Lemma plain_compressionLine d u v : plain d -> plain (compressionLine d u v).
Proof. intros. unfold compressionLine. auto 12 with plain. Qed.

#[export] Hint Resolve plain_dashboardLine plain_rateBar plain_compressionLine : plain.

(** Painting does not change what is shown. *)
Lemma walk_params ps p : forallb is_param p = true -> walk (Csi ps) (p ++ [Byte.x6d]) = Some (Text, []).
Proof.
  revert ps. induction p as [|b p IH]; intros ps; cbn; [done|]. intros [-> Hp]%andb_true_iff. by apply IH.
Qed.

Lemma visible_app s u v w : visible s v -> visible u w -> visible (s +:+ u) (v ++ w).
Proof. unfold visible. intros Hs Hu. by rewrite str_bytes_app, walk_app, Hs; cbn; rewrite Hu. Qed.

Lemma visible_style code : forallb is_param (str_bytes code) = true -> visible (esc +:+ "[" +:+ code +:+ "m") [].
Proof. intros Hc. unfold visible. rewrite !str_bytes_app. cbn [str_bytes]. exact (walk_params [] _ Hc). Qed.

Lemma paint_visible c s code :
  plain s -> forallb is_param (str_bytes code) = true -> visible (paint c s code) (str_bytes s).
Proof.
  intros Hs Hc. unfold paint. destruct (color c); [|by apply plain_visible].
  pose proof (visible_app _ _ _ _ (visible_style code Hc) (visible_app _ _ _ _ (plain_visible s Hs) (visible_style "0" eq_refl))) as Hv.
  cbn [app] in Hv. rewrite app_nil_r in Hv. unfold visible in *. rewrite !str_bytes_app, <- ?app_assoc in *. exact Hv.
Qed.

(** The first byte of a text that cannot be part of a style. *)
Definition starts_text (s : string) : Prop :=
  match str_bytes s with b :: _ => is_param b = false /\ b <> Byte.x5b /\ b <> Byte.x6d | [] => False end.

Lemma replace1_walk old new p st v :
  plain old -> starts_text old -> visible new (str_bytes old) ->
  walk st p = Some (Text, v) -> walk st (replace1 (str_bytes old) (str_bytes new) p) = Some (Text, v).
Proof.
  intros Ho Hst Hn. revert st v. induction p as [|b p IH]; intros st v Hw.
  { cbn. rewrite bool_decide_eq_false_2; [done|]. intros [k Hk]. unfold starts_text in Hst. by destruct (str_bytes old). }
  cbn [replace1]. case_bool_decide as Hpre.
  - destruct Hpre as [r Hr]. rewrite Hr in Hw |- *. rewrite drop_app_length.
    assert (st = Text) as ->.
    { unfold starts_text in Hst. destruct (str_bytes old) as [|x o]; [done|]. destruct Hst as (H1 & H2 & H3). cbn in Hw.
      destruct st; [done| |]; rewrite ?H1, ?(bool_decide_eq_false_2 _ H2), ?(bool_decide_eq_false_2 _ H3) in Hw; done. }
    rewrite walk_app in Hw |- *. rewrite Hn. rewrite (plain_visible old Ho) in Hw. exact Hw.
  - cbn in Hw |- *. destruct st as [| |ps].
    + case_bool_decide; [by apply IH|]. destruct (is_control b); [done|].
      destruct (walk Text p) as [[st' v']|] eqn:Hp; [|done]. cbn in Hw. injection Hw as -> <-. by rewrite (IH _ _ Hp).
    + case_bool_decide; [by apply IH|done].
    + destruct (is_param b); [by apply IH|]. case_bool_decide; [by apply IH|done].
Qed.

Lemma Replace1_visible c line old code v :
  plain old -> starts_text old -> forallb is_param (str_bytes code) = true ->
  visible line v -> visible (Replace1 line old (paint c old code)) v.
Proof.
  intros Ho Hst Hc Hl. unfold visible, Replace1. rewrite str_bytes_str. apply replace1_walk; [done|done|by apply paint_visible|done].
Qed.

(** * The console without colour *)

(** [c] without colour, with the lines [lp]. *)
Definition uncolored (c : runtimeConsole) (lp : list string) : runtimeConsole := c <| color := false |> <| lines := lp |>.

(** The dashboard of a console, as the terminal shows it. *)
Definition dashboard (c : runtimeConsole) : list bytes :=
  if tui c && negb (console_closed c) then str_bytes <$> lines c else [].

Section Screen.
Variable localTime : Z -> string.
Hypothesis Hlocal : forall z, plain (localTime z).

Lemma healthLine_visible c lp : visible (healthLine localTime c) (str_bytes (healthLine localTime (uncolored c lp))).
Proof.
  destruct c as [tu co ls pr pc h bu hs cl]. unfold healthLine. cbn. destruct (healthLabel h) as [label code] eqn:Hl.
  assert (plain label /\ forallb is_param (str_bytes code) = true) as [Hp Hc].
  { unfold healthLabel in Hl. repeat (case_match; simplify_eq); done. }
  set (line := dashboardLine _). assert (plain line) as Hline.
  { unfold line. apply plain_dashboardLine. repeat (apply plain_app; [auto with plain|]). case_match; auto with plain. }
  destruct co; [|by apply plain_visible]. apply Replace1_visible; [done|done|done|by apply plain_visible].
Qed.

Lemma bufferLine_visible c lp : visible (bufferLine c) (str_bytes (bufferLine (uncolored c lp))).
Proof.
  destruct c as [tu co ls pr pc h bu hs cl]. unfold bufferLine. cbn. destruct (negb (bs_known bu)); [by apply plain_visible|].
  set (line := dashboardLine _). assert (plain line) as Hline by (unfold line; auto 15 with plain).
  destruct co; [|by apply plain_visible]. apply Replace1_visible; [done|done|done|by apply plain_visible].
Qed.

Lemma rateBar_starts c x : starts_text (rateBar c x).
Proof.
  unfold rateBar. set (filled := if _ && _ then _ else 0).
  assert (0 <= filled <= trafficBarWidth) as Hf.
  { unfold filled, trafficBarWidth. destruct (_ && _); [|lia]. set (n := int_of _). clearbody n.
    destruct (Z.ltb_spec n 1); [by change (14 <? 1) with false|]. destruct (Z.ltb_spec 14 n); lia. }
  unfold repeat_string, starts_text. rewrite str_bytes_app, !str_bytes_join.
  destruct (Z.to_nat filled) as [|n] eqn:En; [|done].
  destruct (Z.to_nat (trafficBarWidth - filled)) as [|m] eqn:Em; [unfold trafficBarWidth in *; lia|done].
Qed.

(** Colour changes no line of the dashboard. *)
Lemma trafficLines_visible c lp current txRate rxRate final :
  Forall2 visible (trafficLines localTime c current txRate rxRate final)
    (str_bytes <$> trafficLines localTime (uncolored c lp) current txRate rxRate final).
Proof.
  pose proof (healthLine_visible c lp) as Hh. pose proof (bufferLine_visible c lp) as Hb.
  assert (rateBar (uncolored c lp) txRate = rateBar c txRate /\ rateBar (uncolored c lp) rxRate = rateBar c rxRate) as [Et Er] by by destruct c.
  assert (forall s code, paint (uncolored c lp) s code = s) as Ep by by destruct c.
  assert (color (uncolored c lp) = false /\ peakCombinedRate (uncolored c lp) = peakCombinedRate c) as [Ec Epk] by by destruct c.
  unfold trafficLines. rewrite Et, Er, Ec, Epk, !Ep.
  assert (forall label labelCode rest, plain rest -> plain label -> starts_text label -> forallb is_param (str_bytes labelCode) = true ->
    visible (if color c then Replace1 (dashboardLine rest) label (paint c label labelCode) else dashboardLine rest) (str_bytes (dashboardLine rest))) as H1.
  { intros. destruct (color c); [|by apply plain_visible; auto with plain].
    apply Replace1_visible; [done..|]. by apply plain_visible; auto with plain. }
  assert (forall label labelCode rest bar barCode, plain rest -> plain label -> starts_text label -> forallb is_param (str_bytes labelCode) = true ->
    plain bar -> starts_text bar -> forallb is_param (str_bytes barCode) = true ->
    visible (if color c then Replace1 (Replace1 (dashboardLine rest) label (paint c label labelCode)) bar (paint c bar barCode) else dashboardLine rest)
      (str_bytes (dashboardLine rest))) as H2.
  { intros. destruct (color c); [|by apply plain_visible; auto with plain].
    apply Replace1_visible; [done..|]. apply Replace1_visible; [done..|]. by apply plain_visible; auto with plain. }
  rewrite !fmap_app. repeat apply Forall2_app; [| |rewrite !fmap_cons; repeat apply Forall2_cons_2].
  - rewrite !fmap_cons. repeat apply Forall2_cons_2; [|done|done| | |apply Forall2_nil_2].
    + apply paint_visible; [|done]. unfold dashboardTop. destruct final; auto 8 with plain.
    + apply H2; auto 10 using rateBar_starts with plain; done.
    + apply H2; auto 10 using rateBar_starts with plain; done.
  - destruct (Traffic.compressionEnabled current); [|apply Forall2_nil_2].
    rewrite !fmap_cons. repeat apply Forall2_cons_2; [| |apply Forall2_nil_2]; apply H1; auto with plain; done.
  - apply plain_visible. auto 15 with plain.
  - apply paint_visible; [|done]. auto with plain.
  - apply Forall2_nil_2.
Qed.

Lemma fromCurrent_visible c lp ls lq :
  Forall2 visible ls (str_bytes <$> lq) ->
  Forall2 visible (trafficLinesFromCurrent localTime c ls) (str_bytes <$> trafficLinesFromCurrent localTime (uncolored c lp) lq).
Proof.
  intros Hv. destruct lq as [|l1 [|l2 [|l3 lq]]].
  1-3: repeat (apply Forall2_cons_inv_r in Hv as (? & ? & ? & Hv & ->) || apply Forall2_nil_inv_r in Hv as ->); by repeat apply Forall2_cons_2.
  rewrite !fmap_cons in Hv. apply Forall2_cons_inv_r in Hv as (x1 & y1 & H1 & Hv & ->).
  apply Forall2_cons_inv_r in Hv as (x2 & y2 & H2 & Hv & ->). apply Forall2_cons_inv_r in Hv as (x3 & y3 & H3 & Hv & ->).
  cbn [trafficLinesFromCurrent]. rewrite !fmap_cons. repeat apply Forall2_cons_2; [done|apply healthLine_visible|apply bufferLine_visible|done].
Qed.

(** ** One call *)

(** The rows a call adds to the log of the console without colour. *)
Definition op_rows (c : runtimeConsole) (op : consoleOp) (rows : list bytes) : Prop :=
  match op with
  | Log data => exists ls, data = String.concat "" ((fun l => l +:+ nl) <$> ls) /\ Forall2 visible ls rows
  | Traffic_ stamp current previous elapsed final =>
      plain stamp /\
      rows = if tui c then []
             else [str_bytes (stamp +:+ (if final then "traffic final" else "traffic") +:+ " " +:+ formatTraffic current previous elapsed)]
  | Close_ => rows = dashboard c
  | _ => rows = []
  end.

(** [clearLocked], rows, [drawLocked]. *)
Lemma shows_redraw t log dash ls vs ls' vs' :
  shows t log dash -> Forall2 visible ls vs -> Forall2 visible ls' vs' ->
  exists t', term_run t (str_bytes (clearRows (length dash) +:+ String.concat "" ((fun l => l +:+ nl) <$> ls) +:+ String.concat nl ls')) = Some t' /\
    shows t' (log ++ vs) vs'.
Proof.
  intros Hs Hv Hv'. destruct (shows_clear t log dash Hs) as (t1 & R1 & S1). destruct (shows_rows t1 log ls vs S1 Hv) as (t2 & R2 & S2).
  destruct (shows_draw t2 (log ++ vs) ls' vs' S2 Hv') as (t3 & R3 & S3). exists t3. split; [|done].
  by rewrite !str_bytes_app, !term_run_app, R1; cbn [mbind option_bind]; rewrite term_run_app, R2.
Qed.

Lemma redraw_shows c lp t log :
  shows t log (str_bytes <$> lp) -> Forall2 visible (lines c) (str_bytes <$> lp) ->
  exists lp' t', redraw localTime (uncolored c lp) = (uncolored (redraw localTime c).1 lp', (redraw localTime (uncolored c lp)).2) /\
    Forall2 visible (lines (redraw localTime c).1) (str_bytes <$> lp') /\
    term_run t (str_bytes (redraw localTime c).2) = Some t' /\ shows t' log (str_bytes <$> lp').
Proof.
  intros Hs Hv. unfold redraw. pose proof (Forall2_length _ _ _ Hv) as Hlen. rewrite length_fmap in Hlen.
  change (lines (uncolored c lp)) with lp. destruct (decide (lines c = [])) as [Hn|Hn].
  - assert (lp = []) as -> by by destruct lp; [|rewrite Hn in Hlen].
    rewrite !bool_decide_eq_true_2 by done. exists [], t. cbn. rewrite Hn. by split_and!.
  - assert (lp <> []) as Hlp by by intros ->; destruct (lines c).
    rewrite !bool_decide_eq_false_2 by done. cbn [fst snd].
    exists (trafficLinesFromCurrent localTime (uncolored c lp) lp).
    pose proof (fromCurrent_visible c lp _ _ Hv) as Hv'.
    destruct (shows_redraw t log (str_bytes <$> lp) [] [] _ _ Hs (Forall2_nil_2 _ _ _) Hv') as (t' & Hrun & Hs').
    rewrite app_nil_r in Hs'. exists t'. split_and!; [by destruct c|by destruct c| |done].
    rewrite length_fmap in Hrun. unfold clearLocked, drawLocked. rewrite Hlen. by destruct c.
Qed.

(** The console without colour goes along with [c], and the terminal shows it. *)
Definition agrees (c cp : runtimeConsole) : Prop :=
  exists lp, cp = uncolored c lp /\ Forall2 visible (lines c) (str_bytes <$> lp).

Lemma dashboard_on c : tui c = true -> console_closed c = false -> dashboard c = str_bytes <$> lines c.
Proof. intros Ht Hc. unfold dashboard. by rewrite Ht, Hc. Qed.

Lemma dashboard_off c : tui c = false \/ console_closed c = true -> dashboard c = [].
Proof. unfold dashboard. intros [->| ->]; [done|by rewrite andb_false_r]. Qed.

(** Data written by the logger. *)
Lemma Write_shows c cp t log ls rows :
  agrees c cp -> shows t log (dashboard cp) -> Forall2 visible ls rows ->
  exists t', term_run t (str_bytes (Write c (String.concat "" ((fun l => l +:+ nl) <$> ls)))) = Some t' /\ shows t' (log ++ rows) (dashboard cp).
Proof.
  intros (lp & -> & Hv) Hs Hr. unfold Write. pose proof (Forall2_length _ _ _ Hv) as Hlen. rewrite length_fmap in Hlen.
  destruct (negb (tui c) || bool_decide (lines c = []) || console_closed c) eqn:Hoff.
  - assert (dashboard (uncolored c lp) = []) as Hd.
    { apply orb_true_iff in Hoff as [Hoff|Hoff]; [|by apply dashboard_off; right; destruct c].
      apply orb_true_iff in Hoff as [Hoff|Hoff]; bool2prop; [by apply dashboard_off; left; destruct c|].
      unfold dashboard. change (lines (uncolored c lp)) with lp. rewrite Hoff in Hlen. destruct lp; [by case_match|done]. }
    rewrite Hd in *. by apply shows_rows.
  - bool2prop. assert (dashboard (uncolored c lp) = str_bytes <$> lp) as Hd by by apply dashboard_on; destruct c.
    rewrite Hd in *. destruct (shows_redraw t log _ ls rows (lines c) _ Hs Hr Hv) as (t' & Hrun & Hs'). exists t'.
    split; [|done]. rewrite length_fmap in Hrun. unfold clearLocked, drawLocked. by rewrite Hlen.
Qed.

Lemma redraw_keeps c :
  tui (redraw localTime c).1 = tui c /\ console_closed (redraw localTime c).1 = console_closed c.
Proof. unfold redraw. by destruct (bool_decide _), c. Qed.

Lemma ignored_uncolored c lp s : ignored (uncolored c lp) s = ignored c s.
Proof. by destruct c. Qed.

Lemma report_shows c cp t log (f : runtimeConsole -> runtimeConsole) session :
  (forall c lp, f (uncolored c lp) = uncolored (f c) lp) ->
  (forall c, tui (f c) = tui c /\ console_closed (f c) = console_closed c /\ lines (f c) = lines c) ->
  agrees c cp -> shows t log (dashboard cp) ->
  let step c := if ignored c session then (c, "") else redraw localTime (f c) in
  agrees (step c).1 (step cp).1 /\
  exists t', term_run t (str_bytes (step c).2) = Some t' /\ shows t' (log ++ []) (dashboard (step cp).1).
Proof.
  intros Hf Hk (lp & -> & Hv) Hs step. unfold step. rewrite app_nil_r, ignored_uncolored. destruct (ignored c session) eqn:Hi.
  { split; [by exists lp|]. by exists t. }
  unfold ignored in Hi. bool2prop. destruct (Hk c) as (K1 & K2 & K3).
  assert (dashboard (uncolored c lp) = str_bytes <$> lp) as Hd by (apply dashboard_on; by destruct c). rewrite Hd in Hs.
  destruct (redraw_shows (f c) lp t log Hs ltac:(by rewrite K3)) as (lp' & t' & He & Hv' & Hrun & Hs'). rewrite Hf, He. cbn [fst snd].
  split; [by exists lp'|]. exists t'. split; [done|]. rewrite dashboard_on; [done|..].
  - change (tui (redraw localTime (f c)).1 = true). rewrite (proj1 (redraw_keeps (f c))). congruence.
  - change (console_closed (redraw localTime (f c)).1 = false). rewrite (proj2 (redraw_keeps (f c))). congruence.
Qed.

Lemma traffic_shows c cp t log stamp current previous elapsed final rows :
  agrees c cp -> shows t log (dashboard cp) ->
  op_rows cp (Traffic_ stamp current previous elapsed final) rows ->
  let step c := ReportTraffic localTime c stamp current previous elapsed final in
  agrees (step c).1 (step cp).1 /\
  exists t', term_run t (str_bytes (step c).2) = Some t' /\ shows t' (log ++ rows) (dashboard (step cp).1).
Proof.
  intros Ha Hs [Hst ->] step. unfold step, ReportTraffic. pose proof Ha as (lp & -> & Hv).
  change (tui (uncolored c lp)) with (tui c). change (console_closed (uncolored c lp)) with (console_closed c).
  destruct (tui c) eqn:Ht; cbn [negb].
  - destruct (trafficRates current previous elapsed) as [txRate rxRate]. destruct (console_closed c) eqn:Hc.
    { cbn [fst snd]. split; [done|]. exists t. by rewrite app_nil_r. }
    cbn zeta. cbn [fst snd]. set (peak := if flt _ rxRate then _ else _). set (combined := if flt (peakCombinedRate c) _ then _ else _).
    set (c1 := c <| peakRate := peak |> <| peakCombinedRate := combined |>).
    pose proof (trafficLines_visible c1 lp current txRate rxRate final) as Hl.
    set (lq := trafficLines localTime (uncolored c1 lp) current txRate rxRate final) in *.
    set (c2 := c1 <| lines := trafficLines localTime c1 current txRate rxRate final |>).
    change (agrees c2 (uncolored c2 lq) /\ exists t', term_run t (str_bytes (clearRows (length (lines c)) +:+ String.concat nl (lines c2))) = Some t' /\
      shows t' (log ++ []) (dashboard (uncolored c2 lq))).
    rewrite dashboard_on in Hs by done. change (lines (uncolored c lp)) with lp in Hs.
    split; [by exists lq|]. rewrite dashboard_on by done.
    destruct (shows_redraw t log _ [] [] _ _ Hs (Forall2_nil_2 _ _ _) Hl) as (t' & Hrun & Hs'). exists t'. split; [|done].
    apply Forall2_length in Hv. rewrite length_fmap in Hv, Hrun. by rewrite Hv.
  - cbn [fst snd]. split; [done|].
    set (line := stamp +:+ (if final then "traffic final" else "traffic") +:+ " " +:+ formatTraffic current previous elapsed).
    assert (stamp +:+ (if final then "traffic final" else "traffic") +:+ " " +:+ formatTraffic current previous elapsed +:+ nl =
      String.concat "" ((fun l => l +:+ nl) <$> [line])) as ->.
    { change (String.concat "" _) with (line +:+ nl). apply str_bytes_inj. unfold line. by rewrite !str_bytes_app, <- !app_assoc. }
    apply (Write_shows c (uncolored c lp)); [done..|]. constructor; [|constructor]. apply plain_visible. unfold line, formatTraffic.
    destruct (trafficRates current previous elapsed). destruct final; auto 20 with plain.
Qed.

Lemma console_step_shows c cp t log op rows :
  agrees c cp -> shows t log (dashboard cp) -> op_rows cp op rows ->
  agrees (console_step localTime c op).1 (console_step localTime cp op).1 /\
  exists t', term_run t (str_bytes (console_step localTime c op).2) = Some t' /\
    shows t' (log ++ rows) (dashboard (console_step localTime cp op).1).
Proof.
  intros Ha Hs Hr. destruct op as [data|stamp cur prev el fin|s|s sn q o a b|s q a b|s sn|]; cbn [op_rows] in Hr.
  - destruct Hr as (ls & -> & Hr). cbn [console_step fst snd]. split; [done|]. by apply Write_shows.
  - by apply traffic_shows.
  - subst rows. rewrite app_nil_r. destruct Ha as (lp & -> & Hv). cbn [console_step fst snd]. split.
    + exists lp. split; [|by destruct c as [[] ? ? ? ? ? ? ? ?]]. by destruct c as [[] ? ? ? ? ? ? ? ?].
    + exists t. split; [done|]. by destruct c as [[] ? ? ? ? ? ? ? ?].
  - subst rows. apply (report_shows c cp t log (fun c => c <| linkHealth := mkHealth true (Bound sn) (SnHeartbeatPending sn)
      (HeartbeatConsecutiveFailures sn) (0 <? o) (LastHeartbeat sn) |> <| buffers := mkBuffer true q o a b |>)); by try done.
  - subst rows. by apply (report_shows c cp t log (fun c => c <| buffers := mkBuffer true q 0 a b |>)).
  - subst rows. by apply (report_shows c cp t log (fun c => c <| linkHealth := mkHealth true (Bound sn) (SnHeartbeatPending sn)
      (HeartbeatConsecutiveFailures sn) false (LastHeartbeat sn) |>)).
  - subst rows. cbn [console_step]. destruct Ha as (lp & -> & Hv). unfold CloseConsole.
    change (console_closed (uncolored c lp)) with (console_closed c). destruct (console_closed c) eqn:Hc.
    { cbn [fst snd]. split; [by exists lp|]. exists t. rewrite dashboard_off in * by (right; by destruct c). by rewrite app_nil_r. }
    cbn [fst snd]. split; [by exists lp|]. rewrite (dashboard_off (_ <| console_closed := true |>)) by by right.
    destruct (tui c) eqn:Ht; cbn [andb].
    + rewrite dashboard_on in * by done. change (lines (uncolored c lp)) with lp in *.
      apply Forall2_length in Hv. rewrite length_fmap in Hv. destruct lp as [|l lp].
      { destruct (lines c); [|done]. exists t. by rewrite app_nil_r. }
      rewrite bool_decide_eq_false_2 by (intros E; by rewrite E in Hv). destruct Hs as (He & Hb & Hcol & Hd).
      destruct (term_newline t He Hb) as (t' & Hrun & Hf & Habove). exists t'. split; [done|]. apply shows_fresh. split; [done|]. by rewrite Habove.
    + rewrite dashboard_off in * by (left; by destruct c). exists t. by rewrite app_nil_r.
Qed.

(** ** Any sequence of calls *)

Fixpoint console_run (c : runtimeConsole) (ops : list consoleOp) : runtimeConsole * string :=
  match ops with
  | [] => (c, "")
  | op :: ops =>
      let '(c, out) := console_step localTime c op in
      let '(c, rest) := console_run c ops in (c, out +:+ rest)
  end.

(** The rows that calls add to the log. *)
Fixpoint logged (c : runtimeConsole) (ops : list consoleOp) (rows : list bytes) : Prop :=
  match ops with
  | [] => rows = []
  | op :: ops => exists first rest, rows = first ++ rest /\ op_rows c op first /\ logged (console_step localTime c op).1 ops rest
  end.

Lemma console_run_shows c cp t log ops rows :
  agrees c cp -> shows t log (dashboard cp) -> logged cp ops rows ->
  exists t', term_run t (str_bytes (console_run c ops).2) = Some t' /\ shows t' (log ++ rows) (dashboard (console_run cp ops).1).
Proof.
  revert c cp t log rows. induction ops as [|op ops IH]; intros c cp t log rows Ha Hs Hl.
  { cbn in Hl. subst rows. exists t. by rewrite app_nil_r. }
  destruct Hl as (first & rest & -> & Hop & Hl). destruct (console_step_shows c cp t log op first Ha Hs Hop) as (Ha' & t1 & Hrun & Hs1).
  cbn [console_run]. destruct (console_step localTime c op) as [c1 out]. destruct (console_step localTime cp op) as [cp1 outp].
  cbn [fst snd] in *. destruct (IH c1 cp1 t1 _ rest Ha' Hs1 Hl) as (t2 & Hrun2 & Hs2).
  destruct (console_run c1 ops) as [c2 out2]. destruct (console_run cp1 ops) as [cp2 outp2]. cbn [fst snd] in *.
  exists t2. split; [by rewrite str_bytes_app, term_run_app, Hrun|]. by rewrite app_assoc.
Qed.

(** C39. The terminal shows the log and, below it, the current dashboard: whatever
    calls of the logger, the traffic and health reporters and [Close] come in
    which order, the output leaves the rows that were there, then exactly the
    logged rows, then the lines of the dashboard (none without a terminal or after
    [Close]), with nothing left over from earlier dashboards; and colours change
    nothing of it: the rows are those of the same calls without colour. *)
Theorem console_screen tui noColor ops rows above :
  logged (newRuntimeConsole tui true) ops rows ->
  exists t, term_run (mkTerm above [] [] true Text) (str_bytes (console_run (newRuntimeConsole tui noColor) ops).2) = Some t /\
    shows t (reverse above ++ rows) (dashboard (console_run (newRuntimeConsole tui true) ops).1).
Proof.
  intros Hl. assert (dashboard (newRuntimeConsole tui true) = []) as Hd by by destruct tui.
  apply console_run_shows; [|rewrite Hd; apply shows_fresh; by rewrite reverse_involutive|done].
  exists []. split; [|by apply Forall2_nil_2]. unfold newRuntimeConsole, uncolored. cbn. by rewrite andb_false_r.
Qed.
End Screen.

(** A report about a session that is not the current one changes nothing. *)
Lemma other_session_ignored localTime c session snapshot queued opening active bytes :
  session <> None -> healthSession c <> session ->
  ReportLinkAndBufferFor localTime c session snapshot queued opening active bytes = (c, "") /\
  reportLinkHealth localTime c session snapshot = (c, "") /\ reportBuffer localTime c session queued active bytes = (c, "").
Proof.
  intros Hs Hne. assert (ignored c session = true) as Hi.
  { unfold ignored. rewrite (bool_decide_eq_false_2 (healthSession c = session)) by done.
    rewrite bool_decide_eq_true_2 by by destruct session. by rewrite orb_true_r. }
  unfold ReportLinkAndBufferFor, reportLinkHealth, reportBuffer. by rewrite Hi.
Qed.

(** ** A concrete run *)

Definition demoConsoleOps : list consoleOp :=
  [ Log ("lightningbnb: waiting" +:+ nl);
    SetSession (Some 0%nat);
    Traffic_ "" (Traffic.mkCounter 4096 512 false 0 0 0 0) Traffic.zeroCounter 1000000000 false;
    LinkAndBuffer (Some 0%nat) (transportSnapshot (NewSessionWithID [] (mkConfig 0 0 0 false))) 1 0 2 300;
    Log ("lightningbnb: client connected" +:+ nl);
    Traffic_ "" (Traffic.mkCounter 8192 512 true 8192 4096 0 0) (Traffic.mkCounter 4096 512 false 0 0 0 0) 1000000000 true ].

Lemma console_screen_witness :
  exists t, term_run (mkTerm [] [] [] true Text) (str_bytes (console_run (fun _ => "--") (newRuntimeConsole true false) demoConsoleOps).2) = Some t /\
    bytes_str <$> reverse (t_row t :: t_above t) =
    [ "lightningbnb: waiting";
      "lightningbnb: client connected";
      "╭─ LightningBNB traffic · FINAL ───────────────────────────────────╮";
      "│ ● link OFFLINE   hb last --                                      │";
      "│ BUF queued 1    opening 0    active 2    data 300 B              │";
      "│ TX  total 8.0 KiB    now 4.0 KiB/s   ██████████████              │";
      "│ RX  total 512 B      now 0 B/s       ░░░░░░░░░░░░░░              │";
      "│ TX  uncompressed 8.0 KiB    compressed 4.0 KiB    saved   50.0%  │";
      "│ RX  uncompressed 0 B        compressed 0 B        saved    0.0%  │";
      "│ ⇅   total 8.5 KiB    now 4.0 KiB/s   peak 4.5 KiB/s              │";
      "╰──────────────────────────────────────────────────────────────────╯" ].
Proof.
  destruct (console_screen (fun _ => "--") ltac:(done) true false demoConsoleOps
    [str_bytes "lightningbnb: waiting"; str_bytes "lightningbnb: client connected"] []) as (t & Hrun & He & _ & _ & Hd).
  - eexists [_], [_]. split; [reflexivity|]. split; [exists ["lightningbnb: waiting"]; split; [reflexivity|by repeat constructor]|].
    eexists [], [_]. split; [reflexivity|]. split; [reflexivity|]. eexists [], [_]. split; [reflexivity|]. split; [by vm_compute|].
    eexists [], [_]. split; [reflexivity|]. split; [reflexivity|]. eexists [_], []. split; [reflexivity|].
    split; [exists ["lightningbnb: client connected"]; split; [reflexivity|by repeat constructor]|].
    eexists [], []. split; [reflexivity|]. split; [by vm_compute|]. reflexivity.
  - exists t. split; [exact Hrun|].
    set (dash := dashboard _) in Hd. assert (exists l ls, dash = l :: ls) as (l & ls & Hdash) by (vm_compute; by eexists _, _).
    rewrite Hdash in Hd. rewrite Hd, reverse_involutive, <- Hdash. vm_compute. reflexivity.
Defined.
