(* ===== verification/PickerView.v ===== *)
(** * What the picker draws
    (internal/app/picker.go: View and the render functions)

    The text is the source's; the library that styles it, puts boxes around it
    and joins boxes (lipgloss) is a parameter.  The mouse handler takes the
    terminal row of the pointer for a line of the view; the program does not ask
    for the alternate screen (picker.go:129), so that the two differ by the row
    the view starts at. *)

From S2P Require Import ConsoleScreen GoStrings Format MuxServices.
From S2P Require Export Picker.

Definition spinnerFrames : list string := ["⠋"; "⠙"; "⠹"; "⠸"; "⠼"; "⠴"; "⠦"; "⠧"; "⠇"; "⠏"].

Inductive pickerStyle := StTitle | StHeading | StAccent | StSelected | StBody | StMuted | StError.

(** lipgloss: an inline style, the two panels by width and height, the frame,
    the height of a text, JoinHorizontal at the top, JoinVertical to the left. *)
Record lipgloss := mkLipgloss {
  lg_style : pickerStyle -> string -> string;
  lg_panel : Z -> Z -> string -> string;
  lg_frame : Z -> string -> string;
  lg_height : string -> Z;
  lg_joinTop : list string -> string;
  lg_joinLeft : list string -> string
}.

Definition errorString (e : err) : string := match e with None => "" | Some e => error_text e end.

Section View.
Context (lg : lipgloss) (colored : bool).

(** [pickerStyles.render] *)
Definition render (style : pickerStyle) (value : string) : string := if negb colored then value else lg_style lg style value.

Definition deviceNameLine (device : Device) (isSelected : bool) : string :=
  (if isSelected then render StAccent "❯" else render StMuted "○") +:+ "  " +:+
  render (if isSelected then StSelected else StBody) (deviceDisplayName device) +:+ "  " +:+
  render StBody ("RSSI=" +:+ itoa (RSSI device)).

Definition deviceIDLine (device : Device) : string :=
  "   " +:+ render StMuted ("ID " +:+ (if bool_decide (ServerID device = "") then dev_ID device else ServerID device)).

(** The loop of [renderPickerDeviceContent] from row [index] on. *)
Fixpoint deviceRows (devices : gmap string Device) (selected index : Z) (orderedIDs : list string) : string :=
  match orderedIDs with
  | [] => ""
  | id :: rest =>
      let device := default zeroDevice (devices !! id) in
      deviceNameLine device (index =? selected) +:+ nl +:+ deviceIDLine device +:+
      (if bool_decide (rest = []) then "" else nl) +:+ deviceRows devices selected (index + 1) rest
  end.

Definition renderPickerDeviceContent (orderedIDs : list string) (devices : gmap string Device) (selected : Z) : string :=
  render StHeading "Nearby servers" +:+ nl +:+ nl +:+ deviceRows devices selected 0 orderedIDs.

Definition serviceLine (service : Service) : string :=
  let name := if bool_decide (Name service = "") then "(default)" else Name service in
  render StBody (pad_right 14 name +:+
    (if bool_decide (Host service = "") then " :" +:+ itoa (Port service)
     else " → " +:+ JoinHostPort (Host service) (itoa (Port service)))).

Definition renderPickerServicesContent (orderedIDs : list string) (devices : gmap string Device) (selected : Z)
    (serviceState : gmap string pickerServicesState) : string :=
  let heading := render StHeading "Exposed services" +:+ nl +:+ nl in
  match (if (selected <? 0) || (zlen orderedIDs <=? selected) then None else orderedIDs !! Z.to_nat selected) with
  | None => heading +:+ render StMuted ("Select a server to view" +:+ nl +:+ "its exposed services.")
  | Some deviceID =>
      let heading := heading +:+ render StAccent (deviceDisplayName (default zeroDevice (devices !! deviceID))) +:+ nl +:+ nl in
      let loading := heading +:+ render StMuted ("Connecting to server…" +:+ nl +:+ "Reading service list…") in
      match serviceState !! deviceID with
      | None => loading
      | Some state =>
          if ss_loading state then loading
          else
            match ss_err state with
            | Some e => heading +:+ render StError "! Unable to read services" +:+ nl +:+ render StMuted (error_text e)
            | None =>
                if bool_decide (ss_services state = []) then heading +:+ render StMuted "No exposed services."
                else heading +:+ String.concat nl (serviceLine <$> ss_services state)
            end
      end
  end.

(** The middle part of the view. *)
Definition pickerBody (orderedIDs : list string) (devices : gmap string Device) (selected : Z) (scanning : bool) (errorText : string)
    (serviceState : gmap string pickerServicesState) (layout : pickerLayout) : string :=
  if negb (bool_decide (errorText = "")) then render StError ("! " +:+ errorText)
  else if bool_decide (orderedIDs = []) then
    render StMuted (if scanning then "Waiting for nearby LightningBNB servers…" else "No nearby LightningBNB servers found.")
  else
    let leftContent := renderPickerDeviceContent orderedIDs devices selected in
    let rightContent := renderPickerServicesContent orderedIDs devices selected serviceState in
    let panelHeight := Z.max (lg_height lg leftContent) (lg_height lg rightContent) in
    let leftPanel := lg_panel lg (leftWidth layout) panelHeight leftContent in
    if split_ layout then lg_joinTop lg [leftPanel; " "; lg_panel lg (rightWidth layout) panelHeight rightContent]
    else lg_joinLeft lg [leftPanel; lg_panel lg (leftWidth layout) panelHeight rightContent].

(** What the frame is put around. *)
Definition pickerContent (orderedIDs : list string) (devices : gmap string Device) (selected : Z) (scanning : bool) (frame : Z)
    (errorText : string) (serviceState : gmap string pickerServicesState) (layout : pickerLayout) : string :=
  (render StTitle "◆ LightningBNB" +:+ render StMuted "  server picker") +:+ nl +:+
  render StHeading "Select a nearby server" +:+ nl +:+ nl +:+
  (if scanning
   then render StAccent ("Scanning " +:+ default "" (spinnerFrames !! Z.to_nat frame) +:+ " · " +:+ itoa (zlen orderedIDs) +:+ " server(s) found")
   else render StMuted ("Scan complete · " +:+ itoa (zlen orderedIDs) +:+ " server(s) found")) +:+ nl +:+ nl +:+
  pickerBody orderedIDs devices selected scanning errorText serviceState layout +:+
  nl +:+ render StMuted "↑/↓ or j/k move · hover to inspect · Enter connect · q cancel".

Definition renderPickerViewWithServicesSize (orderedIDs : list string) (devices : gmap string Device) (selected : Z) (scanning : bool)
    (frame : Z) (errorText : string) (serviceState : gmap string pickerServicesState) (windowWidth : Z) : string :=
  let layout := pickerLayoutFor windowWidth in
  lg_frame lg (frameWidth layout) (pickerContent orderedIDs devices selected scanning frame errorText serviceState layout).

(** [pickerModel.View] *)
Definition View (m : pickerModel) : string :=
  renderPickerViewWithServicesSize (orderedIDs m) (devices m) (selected m) (scanning m) (frame m) (errorString (scanErr m))
    (serviceState m) (windowWidth m).
End View.

(** ** The scan's feed

    The goroutine of [newPickerModel]: every device the scanner reports and then
    its end go through a channel of 32 events, unless the scan is canceled. *)

Definition feedCapacity : nat := 32.

Record feed := mkFeed {
  toSend : list pickerMsg;               (* what the scanner still reports *)
  channel : list pickerMsg;
  received : list pickerMsg;             (* by nextScanEvent *)
  scanCanceled : bool
}.

#[export] Instance eta_feed : Eta feed := fun s => mkFeed (toSend s) (channel s) (received s) (scanCanceled s).

Definition newFeed (reported found : list Device) (e : err) : feed :=
  mkFeed (((fun d => ScanEvent (Some d) [] None false) <$> reported) ++ [ScanEvent None found e true]) [] [] false.

Inductive feedTurn := FSend | FSkip | FReceive | FCancel.

(** [select { case events <- event: case <-scanCtx.Done(): }] and its reader. *)
Definition feed_step (s : feed) (t : feedTurn) : option feed :=
  match t with
  | FSend =>
      match toSend s with
      | ev :: rest => if (length (channel s) <? feedCapacity)%nat then Some (s <| toSend := rest |> <| channel := channel s ++ [ev] |>) else None
      | [] => None
      end
  | FSkip => match toSend s with _ :: rest => if scanCanceled s then Some (s <| toSend := rest |>) else None | [] => None end
  | FReceive => match channel s with ev :: rest => Some (s <| channel := rest |> <| received := received s ++ [ev] |>) | [] => None end
  | FCancel => Some (s <| scanCanceled := true |>)
  end.

Inductive feed_reachable (start : feed) : feed -> Prop :=
  | FdInit : feed_reachable start start
  | FdStep s t s' : feed_reachable start s -> feed_step s t = Some s' -> feed_reachable start s'.

(** Events keep their order, none is lost before the scan is canceled, and the
    scanner's goroutine always has a way on. *)
Lemma feed_order reported found e s :
  feed_reachable (newFeed reported found e) s ->
  let all := toSend (newFeed reported found e) in
  received s ++ channel s ++ toSend s `sublist_of` all /\ (scanCanceled s = false -> received s ++ channel s ++ toSend s = all) /\
  (length (channel s) <= feedCapacity)%nat /\
  (toSend s <> [] -> is_Some (feed_step s FSend) \/ is_Some (feed_step s FReceive)).
Proof.
  intros Hr all. assert (forall s, toSend s <> [] -> is_Some (feed_step s FSend) \/ is_Some (feed_step s FReceive)) as Hon.
  { intros s' Hne. cbn [feed_step]. destruct (toSend s') as [|ev rest]; [done|].
    destruct (Nat.ltb_spec (length (channel s')) feedCapacity); [left; by eexists|].
    right. destruct (channel s'); [unfold feedCapacity in *; cbn in *; lia|by eexists]. }
  assert (received s ++ channel s ++ toSend s `sublist_of` all /\ (scanCanceled s = false -> received s ++ channel s ++ toSend s = all) /\
    (length (channel s) <= feedCapacity)%nat) as (H1 & H2 & H3); [|split_and!; [done..|apply Hon]].
  induction Hr as [|s t s' _ (IH1 & IH2 & IH3) Hs].
  { cbn. split_and!; [done|done|unfold feedCapacity; lia]. }
  destruct s as [ts ch rc cn]. destruct t; cbn [feed_step] in Hs; cbn [toSend channel received scanCanceled] in *.
  - destruct ts as [|ev rest]; [done|]. destruct (Nat.ltb_spec (length ch) feedCapacity); [|done]. injection Hs as <-. cbn in *.
    rewrite <- !(assoc_L (++)). cbn. split_and!; [done..|]. rewrite length_app. cbn. lia.
  - destruct ts as [|ev rest]; [done|]. destruct cn; [|done]. injection Hs as <-. cbn. split_and!; [|done|done].
    etrans; [|exact IH1]. apply sublist_app; [done|]. apply sublist_app; [done|]. by apply sublist_cons.
  - destruct ch as [|ev rest]; [done|]. injection Hs as <-. cbn in *. rewrite <- !(assoc_L (++)). cbn. split_and!; [done..|lia].
  - injection Hs as <-. by split_and!.
Qed.

(** * Lines *)

Fixpoint lines_of (s : string) : list string :=
  match s with
  | "" => [""]
  | String c s =>
      if Ascii.eqb c (Ascii.ascii_of_nat 10) then "" :: lines_of s
      else match lines_of s with [] => [] | l :: ls => String c l :: ls end
  end.

(** One line. *)
Definition oneline (s : string) : Prop := lines_of s = [s].

Lemma lines_of_cons s : exists l ls, lines_of s = l :: ls.
Proof.
  induction s as [|c s (l & ls & IH)]; [by eexists _, _|]. cbn. rewrite IH. destruct (Ascii.eqb _ _); by eexists _, _.
Qed.

Lemma lines_nl a b : lines_of (a +:+ nl +:+ b) = lines_of a ++ lines_of b.
Proof.
  induction a as [|c a IH]; [done|]. change (String c a +:+ nl +:+ b) with (String c (a +:+ nl +:+ b)).
  cbn [lines_of]. rewrite IH. destruct (lines_of_cons a) as (l & ls & ->). cbn. by destruct (Ascii.eqb _ _).
Qed.

Lemma oneline_app a b : oneline a -> oneline b -> oneline (a +:+ b).
Proof.
  unfold oneline. intros Ha Hb. induction a as [|c a IH]; [done|]. change (String c a +:+ b) with (String c (a +:+ b)).
  cbn [lines_of] in *. destruct (Ascii.eqb _ _); [done|]. destruct (lines_of a) as [|l ls]; [done|]. injection Ha as -> ->.
  by rewrite IH.
Qed.

Lemma lines_nl_one a b : oneline a -> lines_of (a +:+ nl +:+ b) = a :: lines_of b.
Proof. intros Ha. by rewrite lines_nl, Ha. Qed.

Lemma lines_nl_empty b : lines_of (nl +:+ b) = "" :: lines_of b.
Proof. apply (lines_nl ""). Qed.

Lemma oneline_plain s : plain s -> oneline s.
Proof.
  unfold oneline, plain. induction s as [|c s IH]; [done|]. rewrite str_bytes_cons. cbn [forallb lines_of].
  intros [Hc Hs]%andb_true_iff. rewrite (IH Hs). destruct (Ascii.eqb_spec c (Ascii.ascii_of_nat 10)) as [->|]; [by vm_compute in Hc|done].
Qed.

Create HintDb oneline.
#[export] Hint Resolve oneline_app : oneline.
#[export] Hint Extern 3 (oneline _) => apply oneline_plain; auto with plain; fail : oneline.

Lemma app_empty s : s +:+ "" = s.
Proof. induction s as [|c s IH]; [done|]. change (String c (s +:+ "") = String c s). by rewrite IH. Qed.

(** ** What the library promises *)

(** Styling keeps a text on its line; a panel and the frame put two rows (border
    and padding) above their content and draw each line of it in one row, as long
    as no line so far is too wide; joining boxes keeps the rows of the first. *)
Class LipglossLaws (lg : lipgloss) (fits : Z -> string -> Prop) (panelRow frameRow : Z -> string -> string) := {
  style_line st s : oneline s -> oneline (lg_style lg st s);
  panel_row w h s k l :
    Forall (fits w) (take (S k) (lines_of s)) -> lines_of s !! k = Some l -> lines_of (lg_panel lg w h s) !! (2 + k)%nat = Some (panelRow w l);
  frame_row w s k l :
    Forall (fits w) (take (S k) (lines_of s)) -> lines_of s !! k = Some l -> lines_of (lg_frame lg w s) !! (2 + k)%nat = Some (frameRow w l);
  joinTop_row s rest k l : lines_of s !! k = Some l -> exists t, lines_of (lg_joinTop lg (s :: rest)) !! k = Some (l +:+ t);
  joinLeft_row s rest k l : lines_of s !! k = Some l -> exists t, lines_of (lg_joinLeft lg (s :: rest)) !! k = Some (l +:+ t)
}.

(** The texts of a row stay on their lines. *)
Definition device_oneline (device : Device) : Prop :=
  oneline (deviceDisplayName device) /\ oneline (dev_ID device) /\ oneline (ServerID device).

Section Rows.
Context (lg : lipgloss) (colored : bool) (fits : Z -> string -> Prop) (panelRow frameRow : Z -> string -> string).
Context `{!LipglossLaws lg fits panelRow frameRow}.

Lemma render_oneline st s : oneline s -> oneline (render lg colored st s).
Proof. intros Hs. unfold render. destruct (negb colored); [done|by apply style_line]. Qed.

Lemma deviceNameLine_oneline d b : device_oneline d -> oneline (deviceNameLine lg colored d b).
Proof.
  intros (H1 & H2 & H3). unfold deviceNameLine. destruct b; repeat apply oneline_app;
    try (apply render_oneline); auto with oneline.
Qed.

Lemma deviceIDLine_oneline d : device_oneline d -> oneline (deviceIDLine lg colored d).
Proof.
  intros (H1 & H2 & H3). unfold deviceIDLine. apply oneline_app; [auto with oneline|]. apply render_oneline.
  apply oneline_app; [auto with oneline|]. by case_bool_decide.
Qed.

(** Two lines per device. *)
Definition rowsOf (devices : gmap string Device) (selected index : Z) (ids : list string) : list string :=
  concat (imap (fun i id => let device := default zeroDevice (devices !! id) in
    [deviceNameLine lg colored device (index + Z.of_nat i =? selected); deviceIDLine lg colored device]) ids).

Lemma deviceRows_lines devices selected index ids :
  (forall id, id ∈ ids -> device_oneline (default zeroDevice (devices !! id))) -> ids <> [] ->
  lines_of (deviceRows lg colored devices selected index ids) = rowsOf devices selected index ids.
Proof.
  unfold rowsOf. revert index. induction ids as [|id ids IH]; intros index Hone Hne; [done|]. cbn [deviceRows imap concat].
  set (d := default zeroDevice (devices !! id)). assert (device_oneline d) as Hd by (apply Hone; by left).
  rewrite Z.add_0_r, lines_nl_one by by apply deviceNameLine_oneline. case_bool_decide as Hr.
  - subst ids. cbn [deviceRows imap concat]. change ("" +:+ "") with "". rewrite app_empty, (deviceIDLine_oneline d Hd). done.
  - rewrite lines_nl_one by by apply deviceIDLine_oneline. rewrite (IH (index + 1)); [|set_solver|done].
    cbn [app]. do 2 f_equal. f_equal. apply imap_ext. intros i x _. cbn. by replace (index + 1 + Z.of_nat i) with (index + Z.of_nat (S i)) by lia.
Qed.

Lemma rowsOf_lookup devices selected index ids i id :
  ids !! i = Some id ->
  let device := default zeroDevice (devices !! id) in
  rowsOf devices selected index ids !! (2 * i)%nat = Some (deviceNameLine lg colored device (index + Z.of_nat i =? selected)) /\
  rowsOf devices selected index ids !! (2 * i + 1)%nat = Some (deviceIDLine lg colored device).
Proof.
  unfold rowsOf. revert index i. induction ids as [|x ids IH]; intros index i; [done|]. destruct i as [|i].
  - intros [= ->]. cbn. done.
  - intros Hi. destruct (IH (index + 1) i Hi) as [IH1 IH2]. cbn zeta. cbn [imap concat app].
    replace (2 * S i)%nat with (S (S (2 * i))) by lia. replace (S (S (2 * i)) + 1)%nat with (S (S (2 * i + 1))) by lia.
    cbn [lookup list_lookup]. replace (index + Z.of_nat (S i)) with (index + 1 + Z.of_nat i) by lia.
    rewrite <- IH1, <- IH2.
    assert (forall l l' : list (list string), l = l' -> forall n, concat l !! n = concat l' !! n) as Hc by by intros ? ? ->.
    split; apply Hc, imap_ext; intros j y _; cbn; by replace (index + 1 + Z.of_nat j) with (index + Z.of_nat (S j)) by lia.
Qed.

(** The head of the view: five lines above the panels. *)
Lemma pickerContent_lines ids devices selected scanning frame errorText states layout k l :
  lines_of (pickerBody lg colored ids devices selected scanning errorText states layout) !! k = Some l ->
  oneline (default "" (spinnerFrames !! Z.to_nat frame)) ->
  lines_of (pickerContent lg colored ids devices selected scanning frame errorText states layout) !! (5 + k)%nat = Some l.
Proof.
  intros Hk Hf. unfold pickerContent.
  rewrite lines_nl_one by (apply oneline_app; apply render_oneline; auto with oneline).
  rewrite lines_nl_one by (apply render_oneline; auto with oneline).
  rewrite lines_nl_empty.
  rewrite lines_nl_one by (destruct scanning; apply render_oneline; repeat apply oneline_app; auto with oneline).
  rewrite lines_nl_empty. rewrite lines_nl. cbn [lookup list_lookup]. by apply lookup_app_l_Some.
Qed.
End Rows.

Lemma ensure_selected m : selected (ensureSelectedServices m).1 = selected m.
Proof.
  unfold ensureSelectedServices, cancelServiceProbe. destruct m.
  repeat case_match; try done; by repeat match goal with H : (_, _) = (_, _) |- _ => injection H as <- <- end.
Qed.

Lemma row_index y i : 0 <= i -> pickerDeviceIndexAtY y = Some i <-> y = pickerDeviceFirstRowY + 2 * i \/ y = pickerDeviceFirstRowY + 2 * i + 1.
Proof.
  intros Hi. unfold pickerDeviceIndexAtY, pickerDeviceFirstRowY. destruct (Z.ltb_spec y 11); split; try done; try lia.
  - intros [= <-]. Z.to_euclidean_division_equations. lia.
  - intros Hy. f_equal. Z.to_euclidean_division_equations. lia.
Qed.

(** No line of the view down to row [i] is too wide for its box. *)
Definition unwrapped (lg : lipgloss) (colored : bool) (fits : Z -> string -> Prop) (m : pickerModel) (i : nat) : Prop :=
  let layout := pickerLayoutFor (windowWidth m) in
  Forall (fits (leftWidth layout)) (take (4 + 2 * i) (lines_of (renderPickerDeviceContent lg colored (orderedIDs m) (devices m) (selected m)))) /\
  Forall (fits (frameWidth layout)) (take (11 + 2 * i)
    (lines_of (pickerContent lg colored (orderedIDs m) (devices m) (selected m) (scanning m) (frame m) "" (serviceState m) layout))).

Section Screen.
Context (lg : lipgloss) (colored : bool) (fits : Z -> string -> Prop) (panelRow frameRow : Z -> string -> string).
Context `{!LipglossLaws lg fits panelRow frameRow}.

(** A line of the device panel on the screen. *)
Lemma device_line_drawn m i k l :
  orderedIDs m <> [] -> scanErr m = None -> 0 <= frame m < pickerSpinnerFrames -> (k <= 3 + 2 * i)%nat -> unwrapped lg colored fits m i ->
  lines_of (renderPickerDeviceContent lg colored (orderedIDs m) (devices m) (selected m)) !! k = Some l ->
  exists t, lines_of (View lg colored m) !! (9 + k)%nat =
    Some (frameRow (frameWidth (pickerLayoutFor (windowWidth m))) (panelRow (leftWidth (pickerLayoutFor (windowWidth m))) l +:+ t)).
Proof.
  intros Hne Herr Hf Hk [Hp Hfr] Hl. set (layout := pickerLayoutFor (windowWidth m)) in *.
  assert (forall (P : string -> Prop) n n' ls, (n <= n')%nat -> Forall P (take n' ls) -> Forall P (take n ls)) as Htake.
  { intros P n n' ls Hn Hall. rewrite <- (Nat.min_l n n') by done. rewrite <- take_take. by apply Forall_take. }
  assert (exists t, lines_of (pickerBody lg colored (orderedIDs m) (devices m) (selected m) (scanning m) "" (serviceState m) layout) !! (2 + k)%nat
    = Some (panelRow (leftWidth layout) l +:+ t)) as [t Ht].
  { unfold pickerBody. rewrite (bool_decide_eq_true_2 ("" = "")), (bool_decide_eq_false_2 (orderedIDs m = [])) by done. cbn [negb].
    destruct (split_ layout); [eapply joinTop_row|eapply joinLeft_row]; (eapply panel_row; [eapply Htake; [|exact Hp]; lia|done]). }
  apply (pickerContent_lines lg colored fits panelRow frameRow) with (frame := frame m) in Ht.
  - exists t. unfold View, renderPickerViewWithServicesSize. rewrite Herr. cbn [errorString]. fold layout.
    replace (9 + k)%nat with (2 + (5 + (2 + k)))%nat by lia. eapply frame_row; [|exact Ht]. eapply Htake; [|exact Hfr]. lia.
  - unfold pickerSpinnerFrames in Hf. destruct (Z.to_nat (frame m)) as [|[|[|[|[|[|[|[|[|[|n]]]]]]]]]] eqn:E; try (by vm_compute); lia.
Qed.
End Screen.

(** The two lines of device [i]. *)
Lemma device_lines lg colored fits panelRow frameRow `{!LipglossLaws lg fits panelRow frameRow} m i id :
  orderedIDs m !! i = Some id -> scanErr m = None -> 0 <= frame m < pickerSpinnerFrames ->
  (forall id, id ∈ orderedIDs m -> device_oneline (default zeroDevice (devices m !! id))) -> unwrapped lg colored fits m i ->
  let device := default zeroDevice (devices m !! id) in
  let layout := pickerLayoutFor (windowWidth m) in
  exists t1 t2,
    lines_of (View lg colored m) !! (11 + 2 * i)%nat =
      Some (frameRow (frameWidth layout) (panelRow (leftWidth layout) (deviceNameLine lg colored device (Z.of_nat i =? selected m)) +:+ t1)) /\
    lines_of (View lg colored m) !! (12 + 2 * i)%nat =
      Some (frameRow (frameWidth layout) (panelRow (leftWidth layout) (deviceIDLine lg colored device) +:+ t2)).
Proof.
  intros Hi Herr Hf Hone Hun device layout.
  assert (orderedIDs m <> []) as Hne by by intros Hnil; rewrite Hnil in Hi.
  destruct (rowsOf_lookup lg colored (devices m) (selected m) 0 (orderedIDs m) i id Hi) as [Hn Hd]. rewrite Z.add_0_l in Hn.
  assert (lines_of (renderPickerDeviceContent lg colored (orderedIDs m) (devices m) (selected m)) =
    render lg colored StHeading "Nearby servers" :: "" :: rowsOf lg colored (devices m) (selected m) 0 (orderedIDs m)) as Hlines.
  { unfold renderPickerDeviceContent. rewrite lines_nl_one by (apply (render_oneline lg colored fits panelRow frameRow); auto with oneline).
    rewrite lines_nl_empty. by rewrite (deviceRows_lines lg colored fits panelRow frameRow). }
  destruct (device_line_drawn lg colored fits panelRow frameRow m i (2 + 2 * i) _ Hne Herr Hf ltac:(lia) Hun ltac:(rewrite Hlines; exact Hn)) as [t1 H1].
  destruct (device_line_drawn lg colored fits panelRow frameRow m i (2 + (2 * i + 1)) _ Hne Herr Hf ltac:(lia) Hun ltac:(rewrite Hlines; exact Hd)) as [t2 H2].
  exists t1, t2. replace (11 + 2 * i)%nat with (9 + (2 + 2 * i))%nat by lia.
  replace (12 + 2 * i)%nat with (9 + (2 + (2 * i + 1)))%nat by lia. by split.
Qed.

(** What a movement selects. *)
Lemma motion_selects m y j :
  0 <= j -> pickerDeviceIndexAtY y = Some j ->
  exists m' eff, Update m (Mouse true y) = Some (m', eff) /\ selected m' = (if j <? zlen (orderedIDs m) then j else selected m).
Proof.
  intros Hj Hy. cbn [Update negb]. rewrite Hy. destruct (Z.ltb_spec j (zlen (orderedIDs m))) as [Hlt|Hge].
  - rewrite (proj2 (Z.leb_gt _ _)) by lia. cbn [orb]. destruct (Z.eqb_spec j (selected m)) as [Heq|Hneq]; [by exists m, []|].
    eexists _, _. rewrite <- surjective_pairing. split; [done|]. unfold moveTo. rewrite ensure_selected. by destruct m.
  - rewrite (proj2 (Z.leb_le _ _)) by lia. by exists m, [].
Qed.

Lemma motion_inv m y j m' eff :
  Update m (Mouse true y) = Some (m', eff) -> selected m' = j -> selected m <> j -> pickerDeviceIndexAtY y = Some j.
Proof.
  intros Hup Hs Hns. cbn [Update negb] in Hup. destruct (pickerDeviceIndexAtY y) as [x|]; [|by injection Hup as <- <-].
  destruct (_ || _); [by injection Hup as <- <-|]. injection Hup as Hup. unfold moveTo in Hup.
  pose proof (ensure_selected (m <| selected := x |>)) as He. rewrite Hup in He. cbn in He. destruct m. cbn in *. congruence.
Qed.

(** * Properties *)

(** C35. Where the mouse points.  With no scan error, device texts of one line
    and no line too wide for its box, the name and the identifier of the i-th
    device are drawn, in the device panel in the frame, in the lines 11 + 2i and
    12 + 2i of the view.  When the view starts at the terminal's row [origin], a
    movement of the pointer onto the terminal row of either selects the device
    [(origin + k) / 2] places below it ([k] is 0 on the name, 1 on the
    identifier), and nothing when there is none.  So the mouse points at what is
    drawn when the view starts at the top row, and then only those two rows
    select device i; further down it selects another device. *)
Theorem hover_selects_row lg colored fits panelRow frameRow `{!LipglossLaws lg fits panelRow frameRow} m i id origin :
  orderedIDs m !! i = Some id -> scanErr m = None -> 0 <= frame m < pickerSpinnerFrames ->
  (forall id, id ∈ orderedIDs m -> device_oneline (default zeroDevice (devices m !! id))) -> unwrapped lg colored fits m i ->
  0 <= origin ->
  let device := default zeroDevice (devices m !! id) in
  let layout := pickerLayoutFor (windowWidth m) in
  let line k := pickerDeviceFirstRowY + 2 * Z.of_nat i + k in
  (exists t1 t2,
    lines_of (View lg colored m) !! Z.to_nat (line 0) =
      Some (frameRow (frameWidth layout) (panelRow (leftWidth layout) (deviceNameLine lg colored device (Z.of_nat i =? selected m)) +:+ t1)) /\
    lines_of (View lg colored m) !! Z.to_nat (line 1) =
      Some (frameRow (frameWidth layout) (panelRow (leftWidth layout) (deviceIDLine lg colored device) +:+ t2))) /\
  (forall k, k = 0 \/ k = 1 ->
    let j := Z.of_nat i + (origin + k) / 2 in
    exists m' eff, Update m (Mouse true (origin + line k)) = Some (m', eff) /\
      selected m' = (if j <? zlen (orderedIDs m) then j else selected m)) /\
  (origin = 0 -> forall y m' eff, Update m (Mouse true y) = Some (m', eff) -> selected m' = Z.of_nat i -> selected m <> Z.of_nat i ->
    y = line 0 \/ y = line 1).
Proof.
  intros Hi Herr Hf Hone Hun Ho device layout line. pose proof (lookup_lt_Some _ _ _ Hi) as Hlt.
  split_and!.
  - destruct (device_lines lg colored fits panelRow frameRow m i id) as (t1 & t2 & H1 & H2); [done..|]. exists t1, t2.
    unfold line, pickerDeviceFirstRowY. replace (Z.to_nat _) with (11 + 2 * i)%nat by lia.
    replace (Z.to_nat (11 + 2 * Z.of_nat i + 1)) with (12 + 2 * i)%nat by lia. by split.
  - intros k Hk j. apply motion_selects; [unfold j; Z.to_euclidean_division_equations; lia|].
    unfold line, j, pickerDeviceFirstRowY. rewrite row_index by (Z.to_euclidean_division_equations; lia).
    unfold pickerDeviceFirstRowY. Z.to_euclidean_division_equations. lia.
  - intros _ y m' eff Hup Hs Hns. assert (pickerDeviceIndexAtY y = Some (Z.of_nat i)) as Hy by by eapply motion_inv.
    apply row_index in Hy; [|lia]. unfold line. lia.
Qed.

(** ** A witness *)

(** Boxes drawn with blank rows, joined boxes showing the first. *)
Definition plainBox (s : string) : string := nl +:+ nl +:+ s.
Definition plainLipgloss : lipgloss :=
  mkLipgloss (fun _ s => s) (fun _ _ => plainBox) (fun _ => plainBox) (fun _ => 0) (hd "") (hd "").

#[export] Instance plainLipgloss_laws : LipglossLaws plainLipgloss (fun _ _ => True) (fun _ l => l) (fun _ l => l).
Proof.
  constructor; cbn.
  - done.
  - intros _ _ s k l _ Hk. unfold plainBox. by rewrite !lines_nl_empty.
  - intros _ s k l _ Hk. unfold plainBox. by rewrite !lines_nl_empty.
  - intros s _ k l Hk. exists "". by rewrite app_empty.
  - intros s _ k l Hk. exists "". by rewrite app_empty.
Qed.

Definition demoDevice (id name : string) : Device := mkDevice id "" name (-60) true [] [] [] 0 None 0.

Definition demoPickerView : pickerModel :=
  newPickerModel <| orderedIDs := ["aa"; "bb"] |> <| devices := <["aa" := demoDevice "aa" "desk"]> (<["bb" := demoDevice "bb" "lab"]> ∅) |>.

Lemma demoPickerView_lines : forall id, id ∈ orderedIDs demoPickerView -> device_oneline (default zeroDevice (devices demoPickerView !! id)).
Proof.
  intros id [->|[->|[]%not_elem_of_nil]%elem_of_cons]%elem_of_cons; split; [|split| |split]; vm_compute; reflexivity.
Qed.

(** Two rows down the pointer is on the first device and selects the second. *)
Lemma hover_selects_row_witness :
  lines_of (View plainLipgloss false demoPickerView) !! 11%nat = Some "❯  desk  RSSI=-60" /\
  (exists m' eff, Update demoPickerView (Mouse true 11) = Some (m', eff) /\ selected m' = 0) /\
  (exists m' eff, Update demoPickerView (Mouse true (2 + 11)) = Some (m', eff) /\ selected m' = 1).
Proof.
  split; [vm_compute; reflexivity|]. split.
  - destruct (hover_selects_row plainLipgloss false (fun _ _ => True) (fun _ l => l) (fun _ l => l) demoPickerView 0 "aa" 0) as (_ & H & _).
    + reflexivity.
    + reflexivity.
    + vm_compute. split; [discriminate|reflexivity].
    + exact demoPickerView_lines.
    + split; apply List.Forall_forall; done.
    + lia.
    + apply (H 0). left. reflexivity.
  - destruct (hover_selects_row plainLipgloss false (fun _ _ => True) (fun _ l => l) (fun _ l => l) demoPickerView 0 "aa" 2) as (_ & H & _).
    + reflexivity.
    + reflexivity.
    + vm_compute. split; [discriminate|reflexivity].
    + exact demoPickerView_lines.
    + split; apply List.Forall_forall; done.
    + lia.
    + apply (H 0). left. reflexivity.
Defined.
