(* ===== verification/TransportDebug.v ===== *)
(** * The transport debug lines
    (internal/app/transport_debug.go)

    What [--transport-debug] logs: the difference of two snapshots of the link,
    once a second and when the session is done.  [time.Duration]'s [Round] and
    [String] are the standard library's. *)

From S2P Require Import Traffic LinkBinding.
From S2P Require Export Console.

(** ** time.Duration *)

Definition i64 (z : Z) : Z := (z + 2 ^ 63) mod 2 ^ 64 - 2 ^ 63.
Definition maxDuration : Z := 2 ^ 63 - 1.
Definition minDuration : Z := - 2 ^ 63.

Definition lessThanHalf (x y : Z) : bool := u64 (x + x) <? y.

(** [d.Round(m)] *)
Definition Round (d m : Z) : Z :=
  if m <=? 0 then d
  else
    let r := Z.rem d m in
    if d <? 0 then
      let r := - r in
      if lessThanHalf r m then d + r
      else let d1 := i64 (d - m + r) in if d1 <? d then d1 else minDuration
    else if lessThanHalf r m then d - r
    else let d1 := i64 (d + m - r) in if d <? d1 then d1 else maxDuration.

(** [fmtFrac]: the digits behind the point without trailing zeros, and what is
    before it. *)
Fixpoint fmtFrac (prec : nat) (v : Z) (text : string) : string * Z :=
  match prec with
  | O => (if bool_decide (text = "") then "" else "." +:+ text, v)
  | S prec =>
      let digit := v mod 10 in
      fmtFrac prec (v / 10) (if bool_decide (text = "") && (digit =? 0) then "" else itoa digit +:+ text)
  end.

(** [d.String()] *)
Definition DurationString (d : Z) : string :=
  let u := Z.abs d in
  let text :=
    if u <? 1000000000 then
      if u =? 0 then "0s"
      else if u <? 1000 then itoa u +:+ "ns"
      else if u <? 1000000 then let '(frac, u) := fmtFrac 3 u "" in itoa u +:+ frac +:+ "µs"
      else let '(frac, u) := fmtFrac 6 u "" in itoa u +:+ frac +:+ "ms"
    else
      let '(frac, u) := fmtFrac 9 u "" in
      let seconds := itoa (u mod 60) +:+ frac +:+ "s" in
      let u := u / 60 in
      if 0 <? u then
        let minutes := itoa (u mod 60) +:+ "m" +:+ seconds in
        let u := u / 60 in
        if 0 <? u then itoa u +:+ "h" +:+ minutes else minutes
      else seconds in
  if d <? 0 then "-" +:+ text else text.

Example DurationString_examples :
  DurationString <$> [0; 750; 1500; 250000; 1500000000; 90000000000; 7200000000001; -20000000] =
  ["0s"; "750ns"; "1.5µs"; "250µs"; "1.5s"; "1m30s"; "2h0m0.000000001s"; "-20ms"].
Proof. by vm_compute. Qed.

Example Round_examples : Round 1499 1000 = 1000 /\ Round 1500 1000 = 2000 /\ Round (-1500) 1000 = -2000 /\ Round maxDuration 1000 = maxDuration.
Proof. by vm_compute. Qed.

(** ** The line *)

Definition Microsecond : Z := 1000.

(** The average of the interval's send calls. *)
Definition averageSend (current previous : TransportSnapshot) : Z :=
  let sendCalls' := delta (sendCalls (Stats current)) (sendCalls (Stats previous)) in
  let sendDuration' := i64 (sendDuration (Stats current) - sendDuration (Stats previous)) in
  let sendDuration' := if sendDuration' <? 0 then 0 else sendDuration' in
  if 0 <? sendCalls' then Z.quot sendDuration' (i64 sendCalls') else 0.

Definition formatTransportDebug (current previous : TransportSnapshot) : string :=
  let c := Stats current in
  let p := Stats previous in
  let count (f : transportStats -> Z) := itoa (delta (f c) (f p)) in
  let amount (f : transportStats -> Z) := formatBytes (float_of (delta (f c) (f p))) in
  "mtu=" +:+ itoa (SnPacketMTU current) +:+
  " data-tx=" +:+ count dataTXPackets +:+ "pkts/" +:+ amount dataTXBytes +:+
  " data-rx=" +:+ count dataRXPackets +:+ "pkts/" +:+ amount dataRXBytes +:+
  " ack-tx=" +:+ count ackTXPackets +:+ " ack-rx=" +:+ count ackRXPackets +:+
  " hb-tx=" +:+ count heartbeatTX +:+ " hb-rx=" +:+ count heartbeatRX +:+ " hb-fail=" +:+ count stHeartbeatFailures +:+
  " rtx=" +:+ count retransmissions +:+ " fast-rtx=" +:+ count fastRetransmissions +:+
  " ooo=" +:+ count outOfOrderDataPackets +:+ " rejected=" +:+ count rejectedDataPackets +:+
  " send-api-avg=" +:+ DurationString (Round (averageSend current previous) Microsecond) +:+
  " send-api-max=" +:+ DurationString (Round (maxSendDuration c) Microsecond) +:+
  " outstanding=" +:+ formatBytes (float_of (OutstandingBytes current)) +:+
  " flight=" +:+ formatBytes (float_of (FlightBytes current)) +:+
  " cwnd=" +:+ itoa (FlightLimitPackets current) +:+ "pkts" +:+
  " rx-buffer=" +:+ formatBytes (float_of (BufferedRXBytes current)).

(** [startTransportDebugReporter] after its first snapshot: a tick, the end of
    the session, each with a snapshot, or the end of its context. *)
Inductive debugEvent := DebugTick (current : TransportSnapshot) | DebugDone (current : TransportSnapshot) | DebugParentDone.

Fixpoint transportDebugReporter (previous : TransportSnapshot) (evs : list debugEvent) : list string :=
  match evs with
  | DebugTick current :: evs => ("transport " +:+ formatTransportDebug current previous) :: transportDebugReporter current evs
  | DebugDone current :: _ => ["transport final " +:+ formatTransportDebug current previous]
  | _ => []
  end.

(** * Rounding and averages *)

Lemma i64_id z : - 2 ^ 63 <= z < 2 ^ 63 -> i64 z = z.
Proof. intros Hz. unfold i64. rewrite Z.mod_small by lia. lia. Qed.

(** [Round] gives the nearest multiple, when there is one. *)
Lemma Round_nearest d m :
  0 < m < 2 ^ 62 -> - 2 ^ 62 <= d < 2 ^ 62 -> Z.rem (Round d m) m = 0 /\ 2 * Z.abs (Round d m - d) <= m.
Proof.
  intros Hm Hd. unfold Round, lessThanHalf. rewrite (proj2 (Z.leb_gt _ _)) by lia.
  pose proof (Z.quot_rem' d m) as Hq. set (q := Z.quot d m) in *. set (r := Z.rem d m) in *.
  destruct (Z.ltb_spec d 0) as [Hn|Hn].
  - assert (- m < r <= 0) as Hr by (apply Z.rem_bound_pos_neg; lia).
    rewrite u64_id by lia. destruct (Z.ltb_spec (- r + - r) m).
    + split; [|lia]. replace (d + - r) with (q * m) by lia. by apply Z.rem_mul; lia.
    + rewrite i64_id by lia. rewrite (proj2 (Z.ltb_lt _ _)) by lia. split; [|lia].
      replace (d - m + - r) with ((q - 1) * m) by lia. by apply Z.rem_mul; lia.
  - assert (0 <= r < m) as Hr by (unfold r; apply Z.rem_bound_pos; lia).
    rewrite u64_id by lia. destruct (Z.ltb_spec (r + r) m).
    + split; [|lia]. replace (d - r) with (q * m) by lia. by apply Z.rem_mul; lia.
    + rewrite i64_id by lia. rewrite (proj2 (Z.ltb_lt _ _)) by lia. split; [|lia].
      replace (d + m - r) with ((q + 1) * m) by lia. by apply Z.rem_mul; lia.
Qed.
