(* ===== verification/Listing.v ===== *)
(** * Listing servers and services, and the reporters
    (internal/app/scan.go, list_services.go, the service probe of picker.go,
    traffic.go and transport_debug.go)

    The commands that only look: [Scan] prints the servers a scan found,
    [ListServices] and the picker's probe open a session, ask for its services
    and close everything again.  The reporters are loops over a ticker. *)

From stdpp Require Import sorting.
From S2P Require Import Traffic LinkBinding.
From S2P Require Export BleConnect.
From S2P Require Import AppServices.

(** ** [sortDevices] *)

(** [<=] on Go strings. *)
Fixpoint bytes_leb (p q : bytes) : bool :=
  match p, q with
  | [], _ => true
  | _ :: _, [] => false
  | a :: p, b :: q => if byte_z a <? byte_z b then true else if byte_z b <? byte_z a then false else bytes_leb p q
  end.

(** [!less(j, i)]: [d] may stand before [d']. *)
Definition before (d d' : Device) : Prop :=
  RSSI d' < RSSI d \/ (RSSI d = RSSI d' /\ bytes_leb (str_bytes (dev_ID d)) (str_bytes (dev_ID d')) = true).

#[export] Instance before_dec : RelDecision before.
Proof. intros d d'. unfold before. apply _. Defined.

(** [sort.Slice] with that order. *)
Definition sortDevices (devices : list Device) : list Device := merge_sort before devices.

(** ** [app.Scan] *)

Definition tab : string := String (Ascii.ascii_of_nat 9) "".
Definition row (fields : list string) : string := String.concat tab fields.

Definition boolText (b : bool) : string := if b then "true" else "false".

(** [strings.ReplaceAll(name, "\t", " ")] *)
Definition untabbed (s : string) : string :=
  bytes_str ((fun b => if bool_decide (b = Byte.x09) then Byte.x20 else b) <$> str_bytes s).

Definition printAdvertisement (device : Device) : string :=
  let name := untabbed (dev_Name device) in
  row [dev_ID device; itoa (RSSI device); boolText (LightningBNB device); if bool_decide (name = "") then "(unnamed)" else name;
       String.concat "," (ServiceUUIDs device); String.concat "," (ServiceData device); String.concat "," (ManufacturerData device)].

Definition serverRow (device : Device) : string :=
  row [if bool_decide (ServerID device = "") then "(unavailable)" else ServerID device; dev_ID device; itoa (RSSI device);
       deviceDisplayName device].

(** The lines it prints and its error, for the outcome of the scan and the
    devices it reported. *)
Definition AppScan (all : bool) (scanned : result (list Device)) (reported : list Device) : list string * err :=
  let header := if all then row ["ID"; "RSSI"; "LIGHTNINGBNB"; "NAME"; "SERVICE_UUIDS"; "SERVICE_DATA"; "MANUFACTURER_DATA"]
                            :: (printAdvertisement <$> reported) else [] in
  match scanned with
  | inl e => (header, Some e)
  | inr devices =>
      let devices := sortDevices devices in
      (header ++
       (if bool_decide (devices = []) then [if all then "No BLE advertisements found." else "No LightningBNB servers found."]
        else if all then []
        else row ["SERVER_ID"; "PLATFORM_ID"; "RSSI"; "NAME"] :: (serverRow <$> devices)), None)
  end.

(** ** Asking a server for its services *)

(** What opening and closing a session does, deferred calls included. *)
Inductive sessionCall :=
  | DialBLE (timeout : Z) | CloseBLE
  | OpenLink (cfg : Config) | CloseLink
  | BindLink (timeout : Z)
  | OpenMux (maxStreams : Z) | CloseMux
  | AskServices (timeout : Z).

(** The outcomes of the calls. *)
Record probeEnv := mkProbeEnv {
  pe_connect : err;
  pe_newSession : err;                 (* the random session identity *)
  pe_bind : err;
  pe_services : result (list Service)
}.

Definition ConnectAttemptTimeout : Z := 15 * Second.

(** The calls up to the answer: [texts] wrap the errors of Connect, BindClient
    and Services. *)
Definition askServices (texts : string * string * string) (cfg : Config) (connectTimeout : Z) (env : probeEnv)
    : result (list Service) * list sessionCall :=
  let '(connectText, bindText, servicesText) := texts in
  match pe_connect env with
  | Some e => (inl (ErrWrap connectText e ""), [DialBLE connectTimeout])
  | None =>
      match pe_newSession env with
      | Some e => (inl e, [DialBLE connectTimeout; OpenLink cfg; CloseBLE])
      | None =>
          match pe_bind env with
          | Some e => (inl (ErrWrap bindText e ""), [DialBLE connectTimeout; OpenLink cfg; BindLink (15 * Second); CloseLink; CloseBLE])
          | None =>
              (match pe_services env with inl e => inl (ErrWrap servicesText e "") | inr services => inr services end,
               [DialBLE connectTimeout; OpenLink cfg; BindLink (15 * Second); OpenMux DefaultMaxConnections; AskServices (10 * Second);
                CloseMux; CloseLink; CloseBLE])
          end
      end
  end.

Definition discoverPickerServices : probeEnv -> result (list Service) * list sessionCall :=
  askServices ("connect: ", "handshake: ", "read service list: ")
    (mkConfig DefaultResumeTimeout DefaultReplayWindow DefaultMaxConnections false) ConnectAttemptTimeout.

(** ** [ListServices] *)

Definition serviceRow (service : Service) : string :=
  row [if bool_decide (Name service = "") then "(default)" else Name service;
       if bool_decide (Host service = "") then itoa (Port service) else JoinHostPort (Host service) (itoa (Port service))].

Record servicesEnv := mkServicesEnv {
  sv_chosen : result Device;           (* chooseDevice *)
  sv_found : result Device;            (* adapter.Find *)
  sv_connectedID : string;             (* ble.ConnectedServerID *)
  sv_probe : probeEnv
}.

(** The lines it prints, its error, and its calls once a device is known. *)
Definition ListServices (deviceID : string) (interactive : bool) (env : servicesEnv) : list string * err * list sessionCall :=
  let listFrom (deviceID : string) :=
    let deviceID := if bool_decide (sv_connectedID env = "") then deviceID else sv_connectedID env in
    let '(r, calls) := askServices ("connect to server: ", "connect session: ", "read services: ")
      (mkConfig (60 * Second) DefaultReplayWindow DefaultMaxConnections false) ConnectAttemptTimeout (sv_probe env) in
    match r with
    | inl e => ([], Some e, calls)
    | inr services => (("SERVER_ID=" +:+ deviceID) :: row ["NAME"; "TARGET"] :: (serviceRow <$> services), None, calls)
    end in
  if bool_decide (deviceID = "") then
    if negb interactive then ([], Some (ErrNew "--device is required when stdin is not an interactive terminal"), [])
    else
      match sv_chosen env with
      | inl e => ([], Some e, [])
      | inr device => listFrom (if bool_decide (ServerID device = "") then dev_ID device else ServerID device)
      end
  else
    match sv_found env with
    | inl e => ([], Some (ErrWrap "discover server: " e ""), [])
    | inr _ => listFrom deviceID
    end.

(** ** Reporters *)

(** [runTrafficReporter]: a tick or the end of its context, with the time and
    the counter's snapshot at that moment; a report is the current snapshot, the
    previous one, the time between them and whether it is the final one. *)
Inductive reporterEvent := Tick (now : Z) (current : Traffic.Counter) | Done (now : Z) (current : Traffic.Counter).
Definition report : Type := Traffic.Counter * Traffic.Counter * Z * bool.

Fixpoint trafficReporter (previous : Traffic.Counter) (previousAt : Z) (evs : list reporterEvent) : list report :=
  match evs with
  | [] => []
  | Tick now current :: evs => (current, previous, now - previousAt, false) :: trafficReporter current now evs
  | Done now current :: _ => [(current, previous, now - previousAt, true)]
  end.

(** [startTrafficReporter]: whether a goroutine is started. *)
Definition reporterStarts (interval : Z) (haveCounter haveReport : bool) : bool :=
  negb ((interval <=? 0) || negb haveCounter || negb haveReport).

(** [startLinkHealthReporter]: the snapshots it reports, one at every turn of its
    loop and one more when the session is done. *)
Inductive healthEvent := HealthTick | HealthDone | HealthParentDone.

Fixpoint linkHealthReporter (snapshots : nat -> TransportSnapshot) (k : nat) (evs : list healthEvent) : list TransportSnapshot :=
  snapshots k ::
  match evs with
  | HealthTick :: evs => linkHealthReporter snapshots (S k) evs
  | HealthDone :: _ => [snapshots (S k)]
  | _ => []
  end.

(** [startLinkFailureReporter]: the detach reasons it logs. *)
Fixpoint linkFailures (reported : Z) (snapshots : list TransportSnapshot) : list string :=
  match snapshots with
  | [] => []
  | s :: snapshots =>
      if reported <? DetachCount s then LastDetachReason s :: linkFailures (DetachCount s) snapshots else linkFailures reported snapshots
  end.

(** * Sorting *)

Lemma bytes_leb_total p q : bytes_leb p q = true \/ bytes_leb q p = true.
Proof.
  revert q. induction p as [|a p IH]; intros [|b q]; cbn; [by left..|by right|].
  destruct (Z.ltb_spec (byte_z a) (byte_z b)); [by left|]. destruct (Z.ltb_spec (byte_z b) (byte_z a)); [by right|]. apply IH.
Qed.

Lemma bytes_leb_trans p q r : bytes_leb p q = true -> bytes_leb q r = true -> bytes_leb p r = true.
Proof.
  revert q r. induction p as [|a p IH]; intros [|b q] [|c r]; cbn; try done.
  destruct (Z.ltb_spec (byte_z a) (byte_z b)), (Z.ltb_spec (byte_z b) (byte_z c)); intros H1 H2;
    repeat match goal with H : context [?x <? ?y] |- _ => destruct (Z.ltb_spec x y) end; try done;
    destruct (Z.ltb_spec (byte_z a) (byte_z c)); try done; destruct (Z.ltb_spec (byte_z c) (byte_z a)); try lia.
  by eapply IH.
Qed.

Lemma bytes_leb_antisym p q : bytes_leb p q = true -> bytes_leb q p = true -> p = q.
Proof.
  revert q. induction p as [|a p IH]; intros [|b q]; cbn; try done.
  destruct (Z.ltb_spec (byte_z a) (byte_z b)), (Z.ltb_spec (byte_z b) (byte_z a)); try done; try lia.
  intros H1 H2. f_equal; [apply byte_z_inj; lia|by apply IH].
Qed.

#[export] Instance before_total : Total before.
Proof.
  intros d d'. unfold before. destruct (Z.lt_trichotomy (RSSI d) (RSSI d')) as [H|[H|H]]; [by right; left| |by left; left].
  destruct (bytes_leb_total (str_bytes (dev_ID d)) (str_bytes (dev_ID d'))); [left|right]; by right.
Qed.

#[export] Instance before_trans : Transitive before.
Proof.
  intros d1 d2 d3 [H1|[E1 H1]] [H2|[E2 H2]]; unfold before; try (left; lia).
  right. split; [lia|]. by eapply bytes_leb_trans.
Qed.

(** Only devices with one identifier can stand either way round. *)
Lemma before_antisym d d' : before d d' -> before d' d -> dev_ID d = dev_ID d'.
Proof. intros [H1|[E1 H1]] [H2|[E2 H2]]; try lia. by apply str_bytes_inj, bytes_leb_antisym. Qed.

Lemma sortDevices_perm devices : sortDevices devices ≡ₚ devices.
Proof. apply merge_sort_Permutation. Qed.

(** The order of distinct devices does not depend on the algorithm. *)
Lemma sortDevices_unique devices l :
  NoDup (dev_ID <$> devices) -> l ≡ₚ devices -> StronglySorted before l -> l = sortDevices devices.
Proof.
  intros Hnd Hp Hs. apply (StronglySorted_unique_strong before); [|done|apply (StronglySorted_merge_sort before)|by rewrite sortDevices_perm].
  intros d d' Hd Hd' H1 H2. rewrite Hp in Hd. rewrite sortDevices_perm in Hd'.
  apply list_elem_of_lookup in Hd as [i Hi], Hd' as [j Hj].
  assert (i = j) as ->; [|congruence]. eapply NoDup_lookup; [exact Hnd|by rewrite list_lookup_fmap, Hi|].
  rewrite list_lookup_fmap, Hj. cbn. by rewrite (before_antisym d d').
Qed.

(** ** What a scan finds *)

Lemma scanResults_callback address_string cb rs :
  (scanResults address_string true cb rs).1 = (scanResults address_string true true rs).1.
Proof.
  unfold scanResults. assert (forall st st' : gmap string Device * list Device, st.1 = st'.1 ->
    (fold_left (scanCallback address_string true cb) rs st).1 = (fold_left (scanCallback address_string true true) rs st').1) as H; [|by apply H].
  induction rs as [|r rs IH]; intros [m rep] [m' rep'] Hm; cbn in Hm; [done|]. subst m'. cbn [fold_left]. apply IH. done.
Qed.

Lemma scan_devices address_string cb enable rs o devices reported :
  scan address_string true cb enable rs o = (inr devices, reported) ->
  exists reported', scan address_string true true enable rs o = (inr devices, reported').
Proof.
  unfold scan. destruct enable; [done|]. pose proof (scanResults_callback address_string cb rs) as Hc.
  destruct (scanResults address_string true cb rs) as [m rep], (scanResults address_string true true rs) as [m' rep'].
  cbn in Hc. subst m'. destruct (scanError o); [done|]. intros [= <- <-]. by eexists.
Qed.

(** Probing keeps the devices; all it adds are identities. *)
Lemma Scan_devices devices h probes now :
  Forall2 (fun d d' => dev_ID d' = dev_ID d /\ RSSI d' = RSSI d /\ LightningBNB d' = LightningBNB d) devices (Scan devices h probes now).1.
Proof.
  revert h. induction devices as [|d devices IH]; intros h; [constructor|]. cbn [Scan].
  destruct (identify d h (probes h)) as [r eff]. specialize (IH (S h)). destruct (Scan devices (S h) probes now) as [rest eff'].
  constructor; [by destruct r|exact IH].
Qed.

(** ** Properties *)

(** C30. The scan command prints exactly the servers it found, strongest signal
    first: with a scan that ended and the probes of its devices, the output is a
    header and one row for every LightningBNB server found, each once, ordered by
    falling signal strength and then by identifier — the same rows whatever
    sorting algorithm is used — or the message that there is none. *)
Theorem scan_prints_servers address_string enable rs o devices reported h probes now lines e :
  scan address_string true false enable rs o = (inr devices, reported) ->
  AppScan false (inr (Scan devices h probes now).1) reported = (lines, e) ->
  e = None /\
  ((devices = [] /\ lines = ["No LightningBNB servers found."]) \/
   exists servers, lines = row ["SERVER_ID"; "PLATFORM_ID"; "RSSI"; "NAME"] :: (serverRow <$> servers) /\
     StronglySorted before servers /\ dev_ID <$> servers ≡ₚ dev_ID <$> devices /\ NoDup (dev_ID <$> servers) /\
     Forall (fun d => LightningBNB d = true) servers /\
     forall l, l ≡ₚ (Scan devices h probes now).1 -> StronglySorted before l -> serverRow <$> l = serverRow <$> servers).
Proof.
  intros (reported' & Hscan)%scan_devices. destruct (scan_lists _ _ _ _ _ _ Hscan) as (Hnd & _ & Hlb & _).
  pose proof (Scan_devices devices h probes now) as Hsame. set (probed := (Scan devices h probes now).1) in *.
  assert (dev_ID <$> probed = dev_ID <$> devices) as Hids.
  { clear -Hsame. induction Hsame as [|d d' l l' (H & _) _ IH]; [done|]. by rewrite !fmap_cons, IH, H. }
  assert (sortDevices probed ≡ₚ probed) as Hperm by apply sortDevices_perm.
  unfold AppScan. cbn [app]. case_bool_decide as Hs; intros [= <- <-]; (split; [done|]).
  - left. split; [|done]. rewrite Hs in Hperm. apply Permutation_nil_l in Hperm.
    rewrite <- Hperm in Hids. by destruct devices.
  - right. exists (sortDevices probed). split_and!; [done|apply (StronglySorted_merge_sort before)|by rewrite Hperm, Hids|by rewrite Hperm, Hids| |].
    + rewrite Hperm. apply Forall_forall. intros d' Hd'. apply list_elem_of_lookup in Hd' as [i Hi].
      destruct (Forall2_lookup_r _ _ _ _ _ Hsame Hi) as (d & Hd & _ & _ & ->). apply Hlb. by eapply list_elem_of_lookup_2.
    + intros l Hl Hsl. rewrite (sortDevices_unique probed l); [done| |done|done]. by rewrite Hids.
Qed.

(** Whatever fails, everything that was opened is closed again, the last first. *)
Lemma askServices_closes texts cfg timeout env r calls :
  askServices texts cfg timeout env = (r, calls) ->
  exists opened closed, calls = opened ++ closed /\
    Forall (fun c => c <> CloseBLE /\ c <> CloseLink /\ c <> CloseMux) opened /\
    closed = match pe_connect env with
             | Some _ => []
             | None =>
                 reverse (CloseBLE :: match pe_newSession env with
                                      | Some _ => []
                                      | None => CloseLink :: match pe_bind env with Some _ => [] | None => [CloseMux] end
                                      end)
             end /\
    (forall services, r = inr services <-> pe_connect env = None /\ pe_newSession env = None /\ pe_bind env = None /\ pe_services env = inr services).
Proof.
  unfold askServices. destruct texts as [[t1 t2] t3].
  destruct (pe_connect env) as [e|]; [|destruct (pe_newSession env) as [e|]; [|destruct (pe_bind env) as [e|]]]; intros [= <- <-].
  - eexists [_], []. split_and!; try done; [repeat constructor; done|naive_solver].
  - eexists [_; _], [_]. split_and!; try done; [repeat constructor; done|naive_solver].
  - eexists [_; _; _], [_; _]. split_and!; try done; [repeat constructor; done|naive_solver].
  - eexists [_; _; _; _; _], [_; _; _]. split_and!; try done; [repeat constructor; done|]. destruct (pe_services env); naive_solver.
Qed.

(** ** The traffic reporter *)

(** The reports of a run follow each other without gap or overlap: each starts
    with the snapshot the one before ended with, their times add up, exactly the
    last one is final, and it is there as soon as the context ends. *)
Lemma reporter_chain previous previousAt evs :
  let rs := trafficReporter previous previousAt evs in
  (forall k a b, rs !! k = Some a -> rs !! S k = Some b -> b.1.1.2 = a.1.1.1) /\
  (forall a, rs !! 0%nat = Some a -> a.1.1.2 = previous) /\
  (forall k a, rs !! k = Some a -> a.2 = true -> S k = length rs).
Proof.
  revert previous previousAt. induction evs as [|[now current|now current] evs IH]; intros previous previousAt; cbn zeta; cbn [trafficReporter].
  - by split_and!; intros; rewrite lookup_nil in *.
  - destruct (IH current now) as (I1 & I2 & I3). split_and!.
    + intros [|k] a b Ha Hb; [injection Ha as <-; by apply I2|by apply (I1 k)].
    + by intros a [= <-].
    + intros [|k] a Ha Hf; [by injection Ha as <-|]. cbn. f_equal. by apply (I3 k a).
  - split_and!; [by intros [|k] a b|by intros a [= <-]|by intros [|k]].
Qed.

(** ** A concrete scan *)

Definition demoAdvertisement (address rssi : Z) (uuid : bool) : ScanResult :=
  mkScanResult address "node" rssi (Some (mkPayload uuid [] [] [])).

Definition demoScanned : list ScanResult :=
  [ demoAdvertisement 1 (-70) true; demoAdvertisement 2 (-40) true; demoAdvertisement 3 (-10) false; demoAdvertisement 1 (-60) true ].

Definition demoScanFound : list Device :=
  match (scan itoa true false None demoScanned (ScanStopped None)).1 with inr devices => devices | inl _ => [] end.

Definition demoUnreachable (_ : nat) : probe := mkProbe (ConnectFailed (ErrNew "unreachable")) (inl (ErrNew "")) None.

Definition demoOutput : list string :=
  (AppScan false (inr (Scan demoScanFound 0 demoUnreachable (fun _ => 0)).1) []).1.

Lemma scan_prints_servers_witness :
  demoOutput = [ row ["SERVER_ID"; "PLATFORM_ID"; "RSSI"; "NAME"]; row ["(unavailable)"; "2"; "-40"; "node"];
                 row ["(unavailable)"; "1"; "-60"; "node"] ] /\
  exists servers, demoOutput = row ["SERVER_ID"; "PLATFORM_ID"; "RSSI"; "NAME"] :: (serverRow <$> servers) /\ StronglySorted before servers.
Proof.
  split; [vm_compute; reflexivity|].
  destruct (scan_prints_servers itoa None demoScanned (ScanStopped None) demoScanFound [] 0 demoUnreachable (fun _ => 0) demoOutput None)
    as [_ [[H _]|(servers & H1 & H2 & _)]]; [vm_compute; reflexivity|reflexivity|by vm_compute in H|by exists servers].
Defined.
