(* ===== verification/Platform.v ===== *)
(** * What the platform is asked for
    (internal/app/ble_service_recovery_windows.go and _other.go,
    prevent_sleep_windows.go, _linux.go and _unsupported.go)

    The encoding of the recovery command and the wait for the elevated process;
    the sleep inhibitors.  The operating system answers the calls; on Windows
    the inhibitor is a goroutine that owns the execution state of its thread,
    written here as a machine whose steps interleave with its callers'. *)

From S2P Require Export GoErrors.
From S2P Require Import GoStrings Format.

(** ** [[]rune(s)] *)

Definition low (k : Z) (b : byte) : Z := byte_z b mod 2 ^ k.

(** The first rune of [p], by its length; an invalid byte is U+FFFD. *)
Definition rune_value (p : bytes) : Z :=
  match rune_len p, p with
  | 2%nat, a :: x :: _ => low 5 a * 2 ^ 6 + low 6 x
  | 3%nat, a :: x :: y :: _ => low 4 a * 2 ^ 12 + low 6 x * 2 ^ 6 + low 6 y
  | 4%nat, a :: x :: y :: w :: _ => low 3 a * 2 ^ 18 + low 6 x * 2 ^ 12 + low 6 y * 2 ^ 6 + low 6 w
  | _, a :: _ => if byte_z a <? 128 then byte_z a else 0xFFFD
  | _, [] => 0xFFFD
  end.

Fixpoint string_runes (skip : nat) (p : bytes) : list Z :=
  match p with
  | [] => []
  | _ :: rest =>
      match skip with
      | S k => string_runes k rest
      | O => rune_value p :: string_runes (Nat.pred (rune_len p)) rest
      end
  end.

(** ** [utf16.Encode] *)

Definition utf16_encode_rune (r : Z) : list Z :=
  if ((0 <=? r) && (r <? 0xD800)) || ((0xE000 <=? r) && (r <? 0x10000)) then [r]
  else if (0x10000 <=? r) && (r <=? 0x10FFFF) then
    let r := r - 0x10000 in [0xD800 + Z.land (Z.shiftr r 10) 0x3FF; 0xDC00 + Z.land r 0x3FF]
  else [0xFFFD].

Definition utf16_encode (rs : list Z) : list Z := concat (utf16_encode_rune <$> rs).

(** [binary.LittleEndian.PutUint16] of each. *)
Definition utf16_bytes (us : list Z) : bytes := concat ((fun u => [z_byte (u mod 256); z_byte (u / 256)]) <$> us).

(** ** [base64.StdEncoding.EncodeToString] *)

Definition base64_char (n : Z) : byte :=
  z_byte (if n <? 26 then n + 65 else if n <? 52 then n + 71 else if n <? 62 then n - 4 else if n =? 62 then 43 else 47).

Definition padding : byte := Byte.x3d.

Fixpoint base64_encode (p : bytes) : bytes :=
  match p with
  | [] => []
  | [a] => let a := byte_z a in [base64_char (Z.shiftr a 2); base64_char (Z.shiftl (Z.land a 3) 4); padding; padding]
  | [a; b] =>
      let a := byte_z a in let b := byte_z b in
      [base64_char (Z.shiftr a 2); base64_char (Z.lor (Z.shiftl (Z.land a 3) 4) (Z.shiftr b 4)); base64_char (Z.shiftl (Z.land b 15) 2); padding]
  | a :: b :: c :: p =>
      let a := byte_z a in let b := byte_z b in let c := byte_z c in
      base64_char (Z.shiftr a 2) :: base64_char (Z.lor (Z.shiftl (Z.land a 3) 4) (Z.shiftr b 4)) ::
      base64_char (Z.lor (Z.shiftl (Z.land b 15) 2) (Z.shiftr c 6)) :: base64_char (Z.land c 63) :: base64_encode p
  end.

Definition encodePowerShellCommand (command : string) : string :=
  bytes_str (base64_encode (utf16_bytes (utf16_encode (string_runes 0 (str_bytes command))))).

(** ** The recovery *)

(** The command that restarts the services. *)
Definition recoveryCommand : string :=
  "$ErrorActionPreference='Stop'; " +:+
  "$rtk=Get-Service -Name 'RtkBtManServ' -ErrorAction SilentlyContinue; " +:+
  "if ($null -ne $rtk) { if ($rtk.Status -eq 'Stopped') { Start-Service -Name 'RtkBtManServ' } else { Restart-Service -Name 'RtkBtManServ' -Force } }; " +:+
  "$bt=Get-Service -Name 'bthserv' -ErrorAction Stop; " +:+
  "if ($bt.Status -eq 'Stopped') { Start-Service -Name 'bthserv' } else { Restart-Service -Name 'bthserv' -Force }; " +:+
  "Start-Sleep -Seconds 5".

(** One turn of the wait: the context, then [WaitForSingleObject] and the exit
    code when the process has ended. *)
Inductive waitTurn :=
  | WaitCanceled (e : error)
  | WaitFailed (e : error)
  | WaitTimeout
  | WaitOther (status : string)            (* as %x *)
  | WaitExited (code : result Z).

(** The loop; [None]: still waiting when the turns are over. *)
Fixpoint waitElevated (turns : list waitTurn) : option err :=
  match turns with
  | [] => None
  | WaitCanceled e :: _ => Some (Some e)
  | WaitFailed e :: _ => Some (Some (ErrWrap "wait for elevated recovery: " e ""))
  | WaitExited (inl e) :: _ => Some (Some (ErrWrap "read elevated recovery result: " e ""))
  | WaitExited (inr code) :: _ =>
      Some (if negb (code =? 0) then Some (ErrNew ("elevated recovery exited with code " +:+ itoa code)) else None)
  | WaitOther status :: _ => Some (Some (ErrNew ("wait for elevated recovery returned status 0x" +:+ status)))
  | WaitTimeout :: turns => waitElevated turns
  end.

Inductive elevatedCall := ShellExecute (executable parameters : string) | WaitProcess | CloseHandle.

(** The conversions of the three texts ([UTF16PtrFromString]), the shell's
    answer and the turns of the wait. *)
Record elevatedEnv := mkElevatedEnv {
  ev_texts : err;
  ev_shell : option err;                 (* ShellExecuteExW returned zero, with this error *)
  ev_process : bool;                     (* info.Process <> 0 *)
  ev_turns : list waitTurn
}.

(** Its result, if it returns, and its calls. *)
Definition runElevatedAndWait (executable parameters : string) (env : elevatedEnv) : option err * list elevatedCall :=
  match ev_texts env with
  | Some e => (Some (Some e), [])
  | None =>
      match ev_shell env with
      | Some (Some e) => (Some (Some (ErrWrap "request administrator permission: " e "")), [ShellExecute executable parameters])
      | Some None => (Some (Some (ErrNew "request administrator permission: ShellExecuteExW failed")), [ShellExecute executable parameters])
      | None =>
          if negb (ev_process env)
          then (Some (Some (ErrNew "elevated recovery returned no process handle")), [ShellExecute executable parameters])
          else match waitElevated (ev_turns env) with
               | Some r => (Some r, [ShellExecute executable parameters; WaitProcess; CloseHandle])
               | None => (None, [ShellExecute executable parameters; WaitProcess])
               end
      end
  end.

(** [recoverBluetoothServicesElevated]: the Windows directory, the path of
    PowerShell under it ([filepath.Join]), and the run. *)
Definition recoverBluetoothServicesElevated (windowsDirectory : result string) (join : list string -> string) (env : elevatedEnv)
    : option err * list elevatedCall :=
  match windowsDirectory with
  | inl e => (Some (Some (ErrWrap "locate Windows PowerShell: " e "")), [])
  | inr dir =>
      runElevatedAndWait (join [dir; "System32"; "WindowsPowerShell"; "v1.0"; "powershell.exe"])
        ("-NoProfile -NonInteractive -EncodedCommand " +:+ encodePowerShellCommand recoveryCommand) env
  end.

(** On other platforms. *)
Definition recoverUnavailable : err := Some (ErrNew "Windows Bluetooth service recovery is unavailable on this platform").

(** ** Sleep on Linux *)

Record logindEnv := mkLogindEnv {
  lv_bus : err;
  lv_unixFDs : bool;
  lv_inhibit : result Z                  (* the descriptor *)
}.

(** The inhibitor's file, by its descriptor; [os.NewFile] fails on no
    descriptor that is not negative. *)
Definition acquireLogind (env : logindEnv) : result Z :=
  match lv_bus env with
  | Some e => inl (ErrWrap "connect to system D-Bus: " e "")
  | None =>
      if negb (lv_unixFDs env) then inl (ErrNew "system D-Bus does not support file descriptor passing")
      else
        match lv_inhibit env with
        | inl e => inl (ErrWrap "acquire systemd-logind inhibitor: " e "")
        | inr descriptor =>
            if descriptor <? 0 then inl (ErrNew "systemd-logind returned an invalid inhibitor descriptor") else inr descriptor
        end
  end.

Definition acquireUnsupported : result Z := inl (ErrNew "sleep prevention is unsupported on this platform").

(** * Reading the encoded command back *)

(** RFC 4648 section 4. *)
Definition base64_value (b : byte) : option Z :=
  let z := byte_z b in
  if (65 <=? z) && (z <=? 90) then Some (z - 65)
  else if (97 <=? z) && (z <=? 122) then Some (z - 71)
  else if (48 <=? z) && (z <=? 57) then Some (z + 4)
  else if z =? 43 then Some 62 else if z =? 47 then Some 63 else None.

Fixpoint base64_decode (p : bytes) : option bytes :=
  match p with
  | [] => Some []
  | a :: b :: c :: d :: p =>
      a ← base64_value a; b ← base64_value b;
      let x := z_byte (a * 4 + b / 16) in
      if bool_decide (c = padding) then if bool_decide (d = padding) && bool_decide (p = []) then Some [x] else None
      else
        c ← base64_value c;
        let y := z_byte (b mod 16 * 16 + c / 4) in
        if bool_decide (d = padding) then if bool_decide (p = []) then Some [x; y] else None
        else d ← base64_value d; rest ← base64_decode p; Some (x :: y :: z_byte (c mod 4 * 64 + d) :: rest)
  | _ => None
  end.

(** Little-endian code units. *)
Fixpoint utf16_units (p : bytes) : option (list Z) :=
  match p with
  | [] => Some []
  | a :: b :: p => us ← utf16_units p; Some (byte_z a + 256 * byte_z b :: us)
  | _ => None
  end.

Definition surrogate (lo : Z) (u : Z) : bool := (lo <=? u) && (u <? lo + 0x400).

(** The Unicode standard's UTF-16: a surrogate outside a pair is an error. *)
Fixpoint utf16_decode (us : list Z) : option (list Z) :=
  match us with
  | [] => Some []
  | u :: us' =>
      if surrogate 0xD800 u then
        match us' with
        | v :: us'' =>
            if surrogate 0xDC00 v then rs ← utf16_decode us''; Some ((u - 0xD800) * 0x400 + (v - 0xDC00) + 0x10000 :: rs) else None
        | [] => None
        end
      else if surrogate 0xDC00 u then None
      else rs ← utf16_decode us'; Some (u :: rs)
  end.

(** What PowerShell makes of its argument: the runes of the command. *)
Definition decodePowerShellCommand (encoded : string) : option (list Z) :=
  p ← base64_decode (str_bytes encoded); us ← utf16_units p; utf16_decode us.

(** ** Bits as arithmetic *)

Lemma lor_shiftl a b k : 0 <= k -> 0 <= b < 2 ^ k -> Z.lor (Z.shiftl a k) b = a * 2 ^ k + b.
Proof.
  intros Hk Hb. rewrite <- (Z.shiftl_mul_pow2 a k Hk), <- Z.add_lor_land.
  assert (Z.land (Z.shiftl a k) b = 0) as ->; [|lia]. apply Z.bits_inj'. intros n Hn. rewrite Z.land_spec, Z.bits_0.
  destruct (Z.ltb_spec n k); [by rewrite Z.shiftl_spec_low|].
  rewrite <- (Z.mod_small b (2 ^ k)), Z.mod_pow2_bits_high by lia. by rewrite andb_false_r.
Qed.

Lemma land_mod a k : 0 <= k -> Z.land a (2 ^ k - 1) = a mod 2 ^ k.
Proof. intros Hk. rewrite <- Z.land_ones by done. f_equal. rewrite Z.ones_equiv. lia. Qed.

Lemma base64_char_value n : 0 <= n < 64 -> base64_value (base64_char n) = Some n /\ base64_char n <> padding.
Proof.
  intros Hn.
  assert (forallb (fun k => bool_decide (base64_value (base64_char (Z.of_nat k)) = Some (Z.of_nat k) /\ base64_char (Z.of_nat k) <> padding))
    (List.seq 0 64) = true) as H by by vm_compute.
  rewrite forallb_forall in H. specialize (H (Z.to_nat n)). rewrite in_seq, Z2Nat.id in H by lia.
  specialize (H ltac:(lia)). by apply bool_decide_eq_true in H.
Qed.

(** The four numbers of three bytes, and the bytes they make. *)
Lemma sextets a b c :
  let x := byte_z a in let y := byte_z b in let z := byte_z c in
  Z.shiftr x 2 = x / 4 /\ Z.shiftl (Z.land x 3) 4 = x mod 4 * 16 /\
  Z.lor (Z.shiftl (Z.land x 3) 4) (Z.shiftr y 4) = x mod 4 * 16 + y / 16 /\ Z.shiftl (Z.land y 15) 2 = y mod 16 * 4 /\
  Z.lor (Z.shiftl (Z.land y 15) 2) (Z.shiftr z 6) = y mod 16 * 4 + z / 64 /\ Z.land z 63 = z mod 64.
Proof.
  pose proof (byte_z_range a). pose proof (byte_z_range b). pose proof (byte_z_range c). cbn zeta.
  rewrite !Z.shiftr_div_pow2 by done.
  rewrite !lor_shiftl by (first [done | split; [apply Z.div_pos; lia|apply Z.div_lt_upper_bound; lia]]).
  rewrite !Z.shiftl_mul_pow2 by done.
  change 3 with (2 ^ 2 - 1). change 15 with (2 ^ 4 - 1). change 63 with (2 ^ 6 - 1). rewrite !land_mod by done. split_and!; reflexivity.
Qed.

Lemma z_byte_eq z b : z = byte_z b -> z_byte z = b.
Proof. intros ->. apply z_byte_byte_z. Qed.

Lemma base64_roundtrip : forall p, base64_decode (base64_encode p) = Some p.
Proof.
  fix IH 1. intros [|a [|b [|c p]]]; [done|..].
  - destruct (sextets a a a) as (S1 & S2 & _). cbn [base64_encode]. rewrite S1, S2. pose proof (byte_z_range a).
    destruct (base64_char_value (byte_z a / 4)) as [V1 _]; [Z.to_euclidean_division_equations; lia|].
    destruct (base64_char_value (byte_z a mod 4 * 16)) as [V2 _]; [Z.to_euclidean_division_equations; lia|].
    cbn [base64_decode]. rewrite V1, V2. cbn. do 2 f_equal. apply z_byte_eq. Z.to_euclidean_division_equations. lia.
  - destruct (sextets a b b) as (S1 & _ & S3 & S4 & _). cbn [base64_encode]. rewrite S1, S3, S4.
    pose proof (byte_z_range a). pose proof (byte_z_range b).
    destruct (base64_char_value (byte_z a / 4)) as [V1 _]; [Z.to_euclidean_division_equations; lia|].
    destruct (base64_char_value (byte_z a mod 4 * 16 + byte_z b / 16)) as [V2 _]; [Z.to_euclidean_division_equations; lia|].
    destruct (base64_char_value (byte_z b mod 16 * 4)) as [V3 N3]; [Z.to_euclidean_division_equations; lia|].
    cbn [base64_decode]. rewrite V1, V2. cbn [mbind option_bind]. rewrite (bool_decide_eq_false_2 _ N3), V3. cbn [mbind option_bind].
    rewrite bool_decide_eq_true_2 by done. rewrite bool_decide_eq_true_2 by done.
    f_equal. f_equal; [|f_equal]; apply z_byte_eq; Z.to_euclidean_division_equations; lia.
  - destruct (sextets a b c) as (S1 & _ & S3 & _ & S5 & S6). cbn [base64_encode]. rewrite S1, S3, S5, S6.
    pose proof (byte_z_range a). pose proof (byte_z_range b). pose proof (byte_z_range c).
    destruct (base64_char_value (byte_z a / 4)) as [V1 _]; [Z.to_euclidean_division_equations; lia|].
    destruct (base64_char_value (byte_z a mod 4 * 16 + byte_z b / 16)) as [V2 _]; [Z.to_euclidean_division_equations; lia|].
    destruct (base64_char_value (byte_z b mod 16 * 4 + byte_z c / 64)) as [V3 N3]; [Z.to_euclidean_division_equations; lia|].
    destruct (base64_char_value (byte_z c mod 64)) as [V4 N4]; [Z.to_euclidean_division_equations; lia|].
    cbn [base64_decode]. rewrite V1, V2. cbn [mbind option_bind]. rewrite (bool_decide_eq_false_2 _ N3), V3. cbn [mbind option_bind].
    rewrite (bool_decide_eq_false_2 _ N4), V4. cbn [mbind option_bind]. rewrite (IH p). cbn [mbind option_bind].
    f_equal. f_equal; [|f_equal; [|f_equal]]; apply z_byte_eq; Z.to_euclidean_division_equations; lia.
Qed.

(** ** Code units and runes *)

(** What a rune can be: a code point that is no surrogate. *)
Definition scalar (r : Z) : Prop := 0 <= r < 0xD800 \/ 0xE000 <= r <= 0x10FFFF.

Lemma utf16_units_bytes us : Forall (fun u => 0 <= u < 65536) us -> utf16_units (utf16_bytes us) = Some us.
Proof.
  unfold utf16_bytes. induction 1 as [|u us Hu _ IH]; [done|]. rewrite fmap_cons. cbn [concat app utf16_units]. rewrite IH. cbn.
  do 2 f_equal. rewrite !byte_z_z_byte. Z.to_euclidean_division_equations. lia.
Qed.

Lemma utf16_rune r : scalar r ->
  Forall (fun u => 0 <= u < 65536) (utf16_encode_rune r) /\
  forall us, utf16_decode (utf16_encode_rune r ++ us) = (rs ← utf16_decode us; Some (r :: rs)).
Proof.
  unfold scalar, utf16_encode_rune. intros Hr.
  destruct (((0 <=? r) && (r <? 0xD800)) || ((0xE000 <=? r) && (r <? 0x10000))) eqn:E1.
  - assert (0 <= r < 0xD800 \/ 0xE000 <= r < 0x10000) as Hs.
    { apply orb_true_iff in E1 as [E1|E1]; bool2prop; lia. }
    split; [repeat constructor; lia|]. intros us. cbn [app utf16_decode]. unfold surrogate.
    repeat match goal with |- context [?a <=? ?b] => destruct (Z.leb_spec a b) | |- context [?a <? ?b] => destruct (Z.ltb_spec a b) end; done || lia.
  - assert (0x10000 <= r <= 0x10FFFF) as Hs.
    { apply orb_false_iff in E1 as [E1 E2]. apply andb_false_iff in E1, E2. destruct E1, E2; bool2prop; lia. }
    rewrite (proj2 (Z.leb_le 0x10000 r)), (proj2 (Z.leb_le r 0x10FFFF)) by lia. cbn [andb].
    change 0x3FF with (2 ^ 10 - 1). rewrite !land_mod, Z.shiftr_div_pow2 by done.
    assert ((r - 0x10000) / 2 ^ 10 mod 2 ^ 10 = (r - 0x10000) / 2 ^ 10) as -> by (Z.to_euclidean_division_equations; lia).
    assert (0 <= (r - 0x10000) / 2 ^ 10 < 1024) as H1 by (Z.to_euclidean_division_equations; lia).
    assert (0 <= (r - 0x10000) mod 2 ^ 10 < 1024) as H2 by (Z.to_euclidean_division_equations; lia).
    assert ((r - 0x10000) / 2 ^ 10 * 1024 + (r - 0x10000) mod 2 ^ 10 = r - 0x10000) as H3 by (Z.to_euclidean_division_equations; lia).
    revert H1 H2 H3. generalize ((r - 0x10000) / 2 ^ 10), ((r - 0x10000) mod 2 ^ 10). intros h l Hh Hl Hhl.
    split; [repeat constructor; lia|]. intros us. cbn [app utf16_decode]. unfold surrogate.
    rewrite !(proj2 (Z.leb_le _ _)), !(proj2 (Z.ltb_lt _ _)) by lia. cbn [andb].
    destruct (utf16_decode us); [|done]. cbn. do 2 f_equal. lia.
Qed.

Lemma utf16_roundtrip rs : Forall scalar rs ->
  Forall (fun u => 0 <= u < 65536) (utf16_encode rs) /\ utf16_decode (utf16_encode rs) = Some rs.
Proof.
  unfold utf16_encode. induction 1 as [|r rs Hr _ [IH1 IH2]]; [done|]. rewrite fmap_cons. cbn [concat].
  destruct (utf16_rune r Hr) as [H1 H2]. split; [by apply Forall_app|]. by rewrite H2, IH2.
Qed.

Lemma rune_value_scalar p : scalar (rune_value p).
Proof.
  assert (forall a, scalar (if byte_z a <? 128 then byte_z a else 0xFFFD)) as Hone.
  { intros a. pose proof (byte_z_range a). unfold scalar. destruct (Z.ltb_spec (byte_z a) 128); lia. }
  assert (scalar 0xFFFD) as Hfffd by (unfold scalar; lia).
  unfold rune_value, rune_len. destruct p as [|a p]; [done|].
  destruct (between 194 223 a) eqn:E2.
  { destruct p as [|x p]; [apply Hone|]. destruct (continuation x) eqn:Ex; [|apply Hone].
    unfold continuation, between in *. bool2prop. unfold scalar, low. Z.to_euclidean_division_equations. lia. }
  destruct (between 224 239 a) eqn:E3.
  { destruct p as [|x [|y p]]; try apply Hone.
    destruct (between _ _ x && continuation y) eqn:Ex; [|apply Hone].
    unfold continuation, between in *. apply andb_true_iff in Ex as [Ex Ey]. bool2prop. unfold scalar, low.
    destruct (Z.eqb_spec (byte_z a) 224), (Z.eqb_spec (byte_z a) 237); try lia; Z.to_euclidean_division_equations; lia. }
  destruct (between 240 244 a) eqn:E4; [|apply Hone].
  destruct p as [|x [|y [|w p]]]; try apply Hone.
  destruct (between _ _ x && continuation y && continuation w) eqn:Ex; [|apply Hone].
  unfold continuation, between in *. apply andb_true_iff in Ex as [Ex Ew]. apply andb_true_iff in Ex as [Ex Ey]. bool2prop. unfold scalar, low.
  destruct (Z.eqb_spec (byte_z a) 240), (Z.eqb_spec (byte_z a) 244); try lia; Z.to_euclidean_division_equations; lia.
Qed.

Lemma string_runes_scalar skip p : Forall scalar (string_runes skip p).
Proof.
  revert skip. induction p as [|b p IH]; intros skip; [constructor|]. destruct skip as [|k]; cbn [string_runes]; [|apply IH].
  constructor; [apply rune_value_scalar|apply IH].
Qed.

Lemma string_runes_count skip p : zlen (string_runes skip p) = runes skip p.
Proof.
  revert skip. induction p as [|b p IH]; intros skip; [done|]. destruct skip as [|k]; cbn [string_runes runes]; [|apply IH].
  by rewrite zlen_cons, IH.
Qed.

(** The command of the recovery is text for a command line: one word of letters,
    digits and base64 signs. *)
Lemma recovery_encoded : decodePowerShellCommand (encodePowerShellCommand recoveryCommand) = Some (byte_z <$> str_bytes recoveryCommand).
Proof. vm_compute. reflexivity. Qed.

(** * Properties *)

(** C37. The elevated PowerShell gets the command it was meant to: for every
    string, reading the encoded command back — base64 by RFC 4648, little-endian
    UTF-16 with surrogate pairs — gives exactly the runes of the string. *)
Theorem powershell_roundtrip command :
  decodePowerShellCommand (encodePowerShellCommand command) = Some (string_runes 0 (str_bytes command)).
Proof.
  unfold decodePowerShellCommand, encodePowerShellCommand. rewrite str_bytes_str, base64_roundtrip. cbn [mbind option_bind].
  destruct (utf16_roundtrip (string_runes 0 (str_bytes command)) (string_runes_scalar 0 _)) as [H1 H2].
  rewrite utf16_units_bytes by done. exact H2.
Qed.

(** The handle of the elevated process is closed whenever the run is over, and
    success is reported only for a process that exited with code 0. *)
Lemma runElevated_closes executable parameters env r calls :
  runElevatedAndWait executable parameters env = (Some r, calls) ->
  (WaitProcess ∈ calls -> CloseHandle ∈ calls) /\
  (r = None -> exists pre, WaitExited (inr 0) ∈ ev_turns env /\ ev_turns env = pre ++ WaitExited (inr 0) :: drop (S (length pre)) (ev_turns env) /\
    Forall (fun t => t = WaitTimeout) pre).
Proof.
  unfold runElevatedAndWait. destruct (ev_texts env) as [e|]; [intros [= <- <-]; split; [set_solver|done]|].
  destruct (ev_shell env) as [[e|]|]; [intros [= <- <-]; split; [set_solver|done]..|].
  destruct (ev_process env); cbn [negb]; [|intros [= <- <-]; split; [set_solver|done]].
  destruct (waitElevated (ev_turns env)) as [r'|] eqn:Ew; [|done]. intros [= <- <-]. split; [set_solver|]. intros ->.
  induction (ev_turns env) as [|t ts IH]; [done|]. cbn in Ew. destruct t as [e|e| |status|[e|code]]; try done.
  - destruct (IH Ew) as (pre & H1 & H2 & H3). exists (WaitTimeout :: pre). split_and!; [by right|cbn; by rewrite <- H2|by constructor].
  - destruct (Z.eqb_spec code 0) as [->|]; [|done]. exists []. split_and!; [by left|done|constructor].
Qed.
