(* ===== verification/SleepInhibitor.v ===== *)
(** * The Windows sleep inhibitor
    (internal/app/prevent_sleep_windows.go)

    A goroutine owns the execution state of its thread: it sets it, tells
    [acquireSleepInhibitor] so, and clears it when the channel [done] is closed
    — by [Close], or by [acquireSleepInhibitor] when its context ends first.
    One step is one channel operation or one system call; any number of
    goroutines may call [Close]. *)

From S2P Require Export GoErrors.

(** ** State *)

(** The goroutine [run]; what it sent to [ready] and to [closed]. *)
Inductive inhibitorPc :=
  | IpStart                              (* before SetThreadExecutionState *)
  | IpFailReady (e : error)              (* ready <- the error *)
  | IpFailClosed (e : error)             (* closed <- nil *)
  | IpReady                              (* ready <- nil *)
  | IpWait                               (* <-done *)
  | IpClear                              (* before the second system call *)
  | IpClosed (r : err)                   (* closed <- its result *)
  | IpEnd (sent r : err).

Inductive acquirePc :=
  | AqSelect
  | AqWait                               (* <-closed *)
  | AqGot (e : err)                      (* returned what ready held *)
  | AqCanceled.                          (* returned ctx.Err() *)

Inductive onceState := OnceFree | OnceRunning | OnceDone.

(** A caller of [Close]. *)
Inductive closerPc := ClBefore | ClWait | ClReturned (e : err).

Record inhibitor := mkInhibitor {
  ready : option err;                    (* the channels, one slot each *)
  closed : option err;
  done : bool;                           (* closed *)
  required : bool;                       (* ES_SYSTEM_REQUIRED is set *)
  i_run : inhibitorPc;
  i_acquire : acquirePc;
  closeOnce : onceState;
  closeErr : err;
  closers : list closerPc;
  i_ctx : bool;
  panicked : bool                        (* close of a closed channel *)
}.

#[export] Instance eta_inhibitor : Eta inhibitor := fun s =>
  mkInhibitor (ready s) (closed s) (done s) (required s) (i_run s) (i_acquire s) (closeOnce s) (closeErr s) (closers s) (i_ctx s) (panicked s).

Definition newInhibitor (n : nat) : inhibitor :=
  mkInhibitor None None false false IpStart AqSelect OnceFree None (replicate n ClBefore) false false.

(** ** Steps *)

(** [callSetThreadExecutionState] from the call's result and its last error. *)
Definition callSetThreadExecutionState (result : Z) (callErr : err) (isSuccess : bool) : err :=
  if negb (result =? 0) then None
  else match callErr with
       | Some e => if negb isSuccess then Some e else Some (ErrNew "SetThreadExecutionState returned zero")
       | None => Some (ErrNew "SetThreadExecutionState returned zero")
       end.

Inductive inhibitorTurn :=
  | TRun (r : err)                       (* run; the result of its system call *)
  | TContext
  | TAcquire (ctx : bool)                (* the case its select takes *)
  | TClose (k : nat).

(** [close(inhibitor.done)] *)
Definition closeDone (s : inhibitor) : inhibitor := if done s then s <| panicked := true |> else s <| done := true |>.

Definition full {A} (c : option A) : bool := match c with Some _ => true | None => false end.

Definition run_turn (s : inhibitor) (r : err) : option inhibitor :=
  match i_run s with
  | IpStart =>
      Some match r with
           | Some e => s <| i_run := IpFailReady (ErrWrap "set Windows execution state: " e "") |>
           | None => s <| required := true |> <| i_run := IpReady |>
           end
  | IpFailReady e => if full (ready s) then None else Some (s <| ready := Some (Some e) |> <| i_run := IpFailClosed e |>)
  | IpFailClosed e => if full (closed s) then None else Some (s <| closed := Some None |> <| i_run := IpEnd (Some e) None |>)
  | IpReady => if full (ready s) then None else Some (s <| ready := Some None |> <| i_run := IpWait |>)
  | IpWait => if done s then Some (s <| i_run := IpClear |>) else None
  | IpClear => Some (s <| required := match r with None => false | Some _ => required s end |> <| i_run := IpClosed r |>)
  | IpClosed r => if full (closed s) then None else Some (s <| closed := Some r |> <| i_run := IpEnd None r |>)
  | IpEnd _ _ => None
  end.

Definition acquire_turn (s : inhibitor) (ctx : bool) : option inhibitor :=
  match i_acquire s with
  | AqSelect =>
      if ctx then if i_ctx s then Some ((closeDone s) <| i_acquire := AqWait |>) else None
      else match ready s with Some e => Some (s <| ready := None |> <| i_acquire := AqGot e |>) | None => None end
  | AqWait => match closed s with Some _ => Some (s <| closed := None |> <| i_acquire := AqCanceled |>) | None => None end
  | _ => None
  end.

(** [Close]: only on an inhibitor that was returned. *)
Definition close_turn (s : inhibitor) (k : nat) : option inhibitor :=
  match closers s !! k with
  | Some ClBefore =>
      match i_acquire s with
      | AqGot None =>
          match closeOnce s with
          | OnceFree => Some ((closeDone s) <| closeOnce := OnceRunning |> <| closers := <[k := ClWait]> (closers s) |>)
          | OnceRunning => None
          | OnceDone => Some (s <| closers := <[k := ClReturned (closeErr s)]> (closers s) |>)
          end
      | _ => None
      end
  | Some ClWait =>
      match closed s with
      | Some e => Some (s <| closed := None |> <| closeErr := e |> <| closeOnce := OnceDone |> <| closers := <[k := ClReturned e]> (closers s) |>)
      | None => None
      end
  | _ => None
  end.

Definition inhibitor_step (s : inhibitor) (t : inhibitorTurn) : option inhibitor :=
  match t with
  | TRun r => run_turn s r
  | TContext => if i_ctx s then None else Some (s <| i_ctx := true |>)
  | TAcquire ctx => acquire_turn s ctx
  | TClose k => close_turn s k
  end.

Inductive inhibitor_reachable (n : nat) : inhibitor -> Prop :=
  | IrInit : inhibitor_reachable n (newInhibitor n)
  | IrStep s t s' : inhibitor_reachable n s -> inhibitor_step s t = Some s' -> inhibitor_reachable n s'.

(** * The invariant *)

Definition sentReady (pc : inhibitorPc) : option err :=
  match pc with
  | IpStart | IpFailReady _ | IpReady => None
  | IpFailClosed e => Some (Some e)
  | IpWait | IpClear | IpClosed _ => Some None
  | IpEnd e _ => Some e
  end.

Definition sentClosed (pc : inhibitorPc) : option err := match pc with IpEnd _ r => Some r | _ => None end.

Definition run_ok (s : inhibitor) : Prop :=
  match i_run s with
  | IpStart | IpFailReady _ | IpFailClosed _ => required s = false
  | IpReady | IpWait => required s = true
  | IpClear => required s = true /\ done s = true
  | IpClosed r => (r = None -> required s = false) /\ done s = true
  | IpEnd None r => (r = None -> required s = false) /\ done s = true
  | IpEnd (Some _) r => r = None /\ required s = false
  end.

Record inhibitor_inv (s : inhibitor) : Prop := {
  hi_ready : match i_acquire s with AqGot e => sentReady (i_run s) = Some e /\ ready s = None | _ => ready s = sentReady (i_run s) end;
  hi_closed : match i_acquire s, closeOnce s with
              | AqCanceled, _ => closed s = None /\ is_Some (sentClosed (i_run s))
              | _, OnceDone => closed s = None /\ sentClosed (i_run s) = Some (closeErr s)
              | _, _ => closed s = sentClosed (i_run s)
              end;
  hi_done : done s = match i_acquire s, closeOnce s with (AqWait | AqCanceled), _ => true | _, OnceFree => false | _, _ => true end;
  hi_once : closeOnce s = OnceFree \/ i_acquire s = AqGot None;
  hi_run : run_ok s;
  hi_waits : forall k, closers s !! k = Some ClWait -> closeOnce s = OnceRunning /\ forall j, closers s !! j = Some ClWait -> j = k;
  hi_running : closeOnce s = OnceRunning -> exists k, closers s !! k = Some ClWait;
  hi_returned : forall k e, closers s !! k = Some (ClReturned e) -> closeOnce s = OnceDone /\ e = closeErr s;
  hi_panic : panicked s = false
}.

Lemma newInhibitor_inv n : inhibitor_inv (newInhibitor n).
Proof.
  assert (forall k x, replicate n ClBefore !! k = Some x -> x = ClBefore) as Hr by by intros k x [-> _]%lookup_replicate.
  constructor; try done; cbn; try by left.
  - intros k Hk. by apply Hr in Hk.
  - intros k e Hk. by apply Hr in Hk.
Qed.

Lemma run_turn_inv s r s' : inhibitor_inv s -> run_turn s r = Some s' -> inhibitor_inv s'.
Proof.
  intros [I1 I2 I3 I4 I5 I6 I7 I8 I9]. destruct s as [rd cl dn rq pc aq on ce cs cx pn]. unfold run_turn, run_ok in *. cbn in *.
  destruct pc as [|e|e| | | |r'|sent r']; cbn in *.
  - intros Hs. assert (aq = AqSelect \/ aq = AqWait) as Haq.
    { destruct aq; [by left|by right|by destruct I1|]. by destruct on; apply proj2 in I2; destruct I2. }
    assert (on = OnceFree) as -> by (destruct I4 as [?|Heq]; [done|subst aq; by destruct Haq]).
    destruct r; injection Hs as <-; (constructor; cbn; try done); by destruct Haq as [-> | ->].
  - destruct rd; cbn; [done|]. intros [= <-]. assert (aq = AqSelect \/ aq = AqWait) as Haq.
    { destruct aq; [by left|by right|by destruct I1|]. by destruct on; apply proj2 in I2; destruct I2. }
    assert (on = OnceFree) as -> by (destruct I4 as [?|Heq]; [done|subst aq; by destruct Haq]).
    constructor; cbn; try done; by destruct Haq as [-> | ->].
  - destruct cl; cbn; [done|]. intros [= <-].
    destruct aq; try (by destruct on; apply proj2 in I2; destruct I2);
      (destruct I4 as [-> |H4]; [|try done; injection H4 as ->; by destruct I1]); constructor; cbn; try done; by left.
  - destruct rd; cbn; [done|]. intros [= <-]. assert (aq = AqSelect \/ aq = AqWait) as Haq.
    { destruct aq; [by left|by right|by destruct I1|]. by destruct on; apply proj2 in I2; destruct I2. }
    assert (on = OnceFree) as -> by (destruct I4 as [?|Heq]; [done|subst aq; by destruct Haq]).
    constructor; cbn; try done; by destruct Haq as [-> | ->].
  - destruct dn; [|done]. intros [= <-]. constructor; cbn; try done.
  - destruct I5 as [-> ->]. intros [= <-]. constructor; cbn; try done. by destruct r.
  - destruct cl; cbn; [done|]. intros [= <-]. destruct aq; try (by destruct on; apply proj2 in I2; destruct I2).
    + constructor; cbn; try done; by destruct on, I4.
    + constructor; cbn; try done; by destruct on, I4.
    + constructor; cbn; try done. destruct on; try done. by destruct I2.
  - done.
Qed.

Lemma acquire_turn_inv s c s' : inhibitor_inv s -> acquire_turn s c = Some s' -> inhibitor_inv s'.
Proof.
  intros [I1 I2 I3 I4 I5 I6 I7 I8 I9]. destruct s as [rd cl dn rq pc aq on ce cs cx pn]. unfold acquire_turn, closeDone, run_ok in *. cbn in *.
  destruct aq; try done.
  - assert (on = OnceFree) as -> by by destruct I4. subst dn. destruct c.
    + destruct cx; [|done]. cbn. intros [= <-]. constructor; cbn; try done; try by left.
      unfold run_ok. cbn. destruct pc as [|e|e| | | |r'|[e|] r']; naive_solver.
    + destruct rd as [e|]; [|done]. intros [= <-]. by constructor; cbn; try done; left.
  - assert (on = OnceFree) as -> by by destruct I4. destruct cl as [e|]; [|done]. intros [= <-].
    constructor; cbn; try done; try by left.
Qed.

Lemma close_turn_inv s k s' : inhibitor_inv s -> close_turn s k = Some s' -> inhibitor_inv s'.
Proof.
  intros [I1 I2 I3 I4 I5 I6 I7 I8 I9]. destruct s as [rd cl dn rq pc aq on ce cs cx pn]. unfold close_turn, closeDone, run_ok in *. cbn in *.
  destruct (cs !! k) as [[| |e]|] eqn:Ek; try done; pose proof (lookup_lt_Some _ _ _ Ek) as Hlt.
  - destruct aq as [| |[e|]|]; try done. destruct on; try done.
    + subst dn. cbn. intros [= <-]. constructor; cbn; try done; [by right|..].
      * unfold run_ok. cbn. destruct pc as [|e|e| | | |r'|[e|] r']; naive_solver.
      * assert (forall j, cs !! j <> Some ClWait) as Hno by (intros j Hj; by apply I6 in Hj as [? _]).
        intros j Hj. split; [done|]. assert (forall i, <[k:=ClWait]> cs !! i = Some ClWait -> i = k) as Hi.
        { intros i Hi. destruct (decide (i = k)); [done|]. rewrite list_lookup_insert_ne in Hi by done. by apply Hno in Hi. }
        intros i H2. by rewrite (Hi i H2), (Hi j Hj).
      * intros _. exists k. by apply list_lookup_insert_eq.
      * intros j e Hj. destruct (decide (j = k)) as [->|]; [by rewrite list_lookup_insert_eq in Hj|].
        rewrite list_lookup_insert_ne in Hj by done. by apply I8 in Hj as [? _].
    + intros [= <-]. constructor; cbn; try done.
      * intros j Hj. assert (cs !! j = Some ClWait) as Hj'; [|by apply I6 in Hj' as [? _]].
        destruct (decide (j = k)) as [->|]; [by rewrite list_lookup_insert_eq in Hj|by rewrite list_lookup_insert_ne in Hj].
      * intros j e Hj. destruct (decide (j = k)) as [->|].
        -- rewrite list_lookup_insert_eq in Hj by done. by injection Hj as <-.
        -- rewrite list_lookup_insert_ne in Hj by done. by apply I8 in Hj.
  - destruct (I6 k Ek) as [-> Huniq]. destruct cl as [e|]; [|done]. intros [= <-].
    destruct I4 as [?|Heq]; [done|subst aq]. constructor; cbn; try done; [by right|..].
    + intros j Hj. destruct (decide (j = k)) as [->|Hne]; [by rewrite list_lookup_insert_eq in Hj|].
      rewrite list_lookup_insert_ne in Hj by done. by destruct Hne; apply Huniq.
    + intros j e' Hj. destruct (decide (j = k)) as [->|].
      * rewrite list_lookup_insert_eq in Hj by done. by injection Hj as <-.
      * rewrite list_lookup_insert_ne in Hj by done. by apply I8 in Hj as [? _].
Qed.

Lemma inhibitor_step_inv s t s' : inhibitor_inv s -> inhibitor_step s t = Some s' -> inhibitor_inv s'.
Proof.
  intros HI Hs. destruct t as [r| |c|k]; cbn [inhibitor_step] in Hs.
  - by eapply run_turn_inv.
  - destruct (i_ctx s); [done|]. injection Hs as <-. destruct s. by destruct HI; constructor.
  - by eapply acquire_turn_inv.
  - by eapply close_turn_inv.
Qed.

Lemma inhibitor_reachable_inv n s : inhibitor_reachable n s -> inhibitor_inv s.
Proof. induction 1 as [|s t s' _ IH Hs]; [apply newInhibitor_inv|by eapply inhibitor_step_inv]. Qed.

(** * Progress *)

(** The turns that are taken for sure: those of [run], of the acquiring call and
    of a [Close] that has begun. *)
Definition inhibitor_fair (s : inhibitor) (t : inhibitorTurn) : Prop :=
  match t with TRun _ | TAcquire _ => True | TContext => False | TClose k => closers s !! k = Some ClWait end.

(** Nothing is under way: the inhibitor works and was not closed, or its
    goroutine has ended and every [Close] that began has returned. *)
Definition settled (s : inhibitor) : Prop :=
  (exists e, i_acquire s = AqGot e \/ i_acquire s = AqCanceled) /\ (forall k, closers s !! k <> Some ClWait) /\
  ((i_run s = IpWait /\ done s = false) \/ exists e r, i_run s = IpEnd e r).

Definition runWork (pc : inhibitorPc) : nat :=
  match pc with
  | IpStart => 5 | IpReady => 4 | IpWait => 3 | IpFailReady _ | IpClear => 2 | IpFailClosed _ | IpClosed _ => 1 | IpEnd _ _ => 0
  end.
Definition acquireWork (pc : acquirePc) : nat := match pc with AqSelect => 2 | AqWait => 1 | _ => 0 end.
Definition closerWork (pc : closerPc) : nat := match pc with ClBefore => 2 | ClWait => 1 | ClReturned _ => 0 end.

Definition inhibitorWork (s : inhibitor) : nat :=
  runWork (i_run s) + acquireWork (i_acquire s) + Nat.b2n (negb (i_ctx s)) + sum_list_with closerWork (closers s).

Lemma closerWork_insert l i x y :
  l !! i = Some x -> (closerWork y < closerWork x)%nat -> (sum_list_with closerWork (<[i := y]> l) < sum_list_with closerWork l)%nat.
Proof.
  revert i. induction l as [|z l IH]; intros i; [done|]. destruct i as [|i].
  - change (<[0%nat := y]> (z :: l)) with (y :: l). cbn. intros [= ->]. lia.
  - change (<[S i := y]> (z :: l)) with (z :: <[i := y]> l). cbn [sum_list_with]. intros Hi Hlt. specialize (IH i Hi Hlt). lia.
Qed.

Lemma inhibitorWork_decreases s t s' : inhibitor_step s t = Some s' -> (inhibitorWork s' < inhibitorWork s)%nat.
Proof.
  unfold inhibitorWork. destruct s as [rd cl dn rq pc aq on ce cs cx pn]. destruct t as [r| |c|k]; cbn [inhibitor_step].
  - unfold run_turn. cbn. destruct pc, rd, cl, dn, r; cbn; try done; intros [= <-]; cbn; lia.
  - cbn. destruct cx; [done|]. intros [= <-]. cbn. lia.
  - unfold acquire_turn, closeDone. cbn. destruct aq, c, cx, rd, cl, dn; cbn; try done; intros [= <-]; cbn; lia.
  - unfold close_turn, closeDone. cbn. destruct (cs !! k) as [[| |e]|] eqn:Ek; try done.
    + destruct aq as [| |[e|]|]; try done. destruct on, dn; try done; intros [= <-]; cbn -[insert];
        (match goal with |- context [<[k := ?y]> cs] => pose proof (closerWork_insert cs k ClBefore y Ek ltac:(cbn; lia)) end); lia.
    + destruct cl as [e|]; [|done]. intros [= <-]. cbn -[insert].
      pose proof (closerWork_insert cs k ClWait (ClReturned e) Ek ltac:(cbn; lia)). lia.
Qed.

(** [run] moves unless it waits for [done] or has ended: its channels are free
    when it sends. *)
Lemma run_moves s :
  inhibitor_inv s -> (exists s', run_turn s None = Some s') \/ (i_run s = IpWait /\ done s = false) \/ exists e r, i_run s = IpEnd e r.
Proof.
  intros [I1 I2 I3 I4 I5 I6 I7 I8 I9]. destruct s as [rd cl dn rq pc aq on ce cs cx pn]. unfold run_turn. cbn in *.
  destruct pc as [|e|e| | | |r'|sent r']; cbn in *; try (by left; eexists); try (by right; right; eexists _, _).
  - left. assert (rd = None) as -> by (destruct aq; try done; by destruct I1). by eexists.
  - left. assert (cl = None) as -> by (destruct aq, on; try done; by destruct I2). by eexists.
  - left. assert (rd = None) as -> by (destruct aq; try done; by destruct I1). by eexists.
  - destruct dn; [left; by eexists|]. right. by left.
  - left. assert (cl = None) as -> by (destruct aq, on; try done; by destruct I2). by eexists.
Qed.

Lemma inhibitor_moves s : inhibitor_inv s -> settled s \/ exists t s', inhibitor_fair s t /\ inhibitor_step s t = Some s'.
Proof.
  intros HI. destruct (run_moves s HI) as [[s' Hs]|[[Hpc Hd]|(e & r & Hpc)]]; [right; by exists (TRun None), s'|..];
    destruct HI as [I1 I2 I3 I4 I5 I6 I7 I8 I9]; rewrite Hpc in *; cbn in I1, I2.
  - destruct (i_acquire s) as [| |e|] eqn:Ea.
    + right. exists (TAcquire false). cbn. unfold acquire_turn. rewrite Ea, I1. by eexists.
    + by rewrite Hd in I3.
    + left. split; [exists e; by left|]. split; [|by left]. intros k Hk. destruct (I6 k Hk) as [Ho _]. rewrite Ho in I3. congruence.
    + by rewrite Hd in I3.
  - assert (forall x, closed s = Some x -> closeOnce s = OnceRunning -> exists t s', inhibitor_fair s t /\ inhibitor_step s t = Some s') as Hclose.
    { intros x Hx Ho. destruct (I7 Ho) as [k Hk]. exists (TClose k). cbn. unfold close_turn. rewrite Hk, Hx. by eexists. }
    destruct (i_acquire s) as [| |e'|] eqn:Ea.
    + right. exists (TAcquire false). cbn. unfold acquire_turn. rewrite Ea, I1. by eexists.
    + assert (closeOnce s = OnceFree) as Ho by by destruct I4. rewrite Ho in I2.
      right. exists (TAcquire false). cbn. unfold acquire_turn. rewrite Ea, I2. by eexists.
    + destruct (closeOnce s) eqn:Ho; [| |]; try (left; split; [exists e'; by left|]; split; [|by right; eexists _, _];
        intros k Hk; by destruct (I6 k Hk)). right. by eapply Hclose.
    + left. split; [exists None; by right|]. split; [|by right; eexists _, _].
      intros k Hk. destruct I4 as [Ho|]; [|done]. destruct (I6 k Hk). congruence.
Qed.

(** * Properties *)

(** C36. The sleep inhibitor is released exactly when it should be.  In every
    interleaving: no channel is closed twice; the execution state is required
    while an acquired inhibitor is not closed; when acquiring failed or was
    canceled, and when any [Close] has returned without an error, it is no
    longer required; all calls of [Close] return one error; and the protocol
    cannot hang: every run settles, with every begun [Close] returned. *)
Theorem inhibitor_released n s :
  inhibitor_reachable n s ->
  panicked s = false /\
  (i_acquire s = AqGot None -> done s = false -> required s = true) /\
  (forall e, i_acquire s = AqGot (Some e) -> required s = false) /\
  (i_acquire s = AqCanceled -> exists sent r, i_run s = IpEnd sent r /\ (r = None -> required s = false)) /\
  (forall k e, closers s !! k = Some (ClReturned e) -> i_run s = IpEnd None e /\ (e = None -> required s = false)) /\
  inevitably inhibitor_step inhibitor_fair settled s.
Proof.
  intros Hr. pose proof (inhibitor_reachable_inv _ _ Hr) as HI. pose proof HI as [I1 I2 I3 I4 I5 I6 I7 I8 I9]. unfold run_ok in I5.
  split_and!.
  - done.
  - intros Ha Hd. rewrite Ha, Hd in *. destruct I1 as [I1 _].
    destruct (i_run s) as [| | | | | | |sent r]; cbn in *; try done; try (by destruct I5). injection I1 as ->. by destruct I5.
  - intros e Ha. rewrite Ha in I1. destruct I1 as [I1 _].
    destruct (i_run s) as [| | | | | | |sent r]; cbn in *; try done. injection I1 as ->. by destruct I5.
  - intros Ha. rewrite Ha in I2. destruct I2 as [_ [x Hx]].
    destruct (i_run s) as [| | | | | | |sent r]; cbn in *; try done. exists sent, r. split; [done|]. by destruct sent, I5.
  - intros k e Hk. destruct (I8 k e Hk) as [Ho ->]. rewrite Ho in *. destruct I4 as [|Ha]; [done|]. rewrite Ha in *.
    destruct I1 as [I1 _], I2 as [_ I2]. destruct (i_run s) as [| | | | | | |sent r]; cbn in *; try done.
    injection I1 as ->. injection I2 as ->. by destruct I5.
  - apply (inevitably_work _ _ _ inhibitorWork inhibitor_inv); [apply inhibitorWork_decreases|apply inhibitor_step_inv|apply inhibitor_moves|done].
Qed.

(** ** A witness *)

(** Two callers of [Close]: the first one waits for the goroutine. *)
Definition demoInhibitor : inhibitor :=
  fold_left (fun s t => default s (inhibitor_step s t)) [TRun None; TRun None; TAcquire false; TContext; TClose 0; TRun None; TRun None] (newInhibitor 2).

Lemma inhibitor_released_witness :
  closers demoInhibitor = [ClWait; ClBefore] /\ required demoInhibitor = false /\
  inevitably inhibitor_step inhibitor_fair settled demoInhibitor.
Proof.
  split; [vm_compute; reflexivity|]. split; [vm_compute; reflexivity|]. apply (inhibitor_released 2).
  unfold demoInhibitor. cbn [fold_left].
  assert (forall s t, inhibitor_reachable 2 s -> inhibitor_reachable 2 (default s (inhibitor_step s t))) as Hst.
  { intros s t Hs. destruct (inhibitor_step s t) as [s'|] eqn:E; [|exact Hs]. exact (IrStep 2 s t s' Hs E). }
  repeat apply Hst. apply IrInit.
Defined.
