(* ===== verification/ServerStart.v ===== *)
(** * Around the server loop
    (internal/app/server.go: RunServer up to its loop, and its deferred calls)

    What [RunServer] acquires before the loop of ServerLoop runs — console,
    Bluetooth listener, sleep inhibitor, reporter — and gives back when it
    returns, with the outcome of each call from outside. *)

From S2P Require Import GoStrings.
From S2P Require Export CommandLine.

Inductive serverCall :=
  | SvConsole | SvCloseConsole
  | SvLoadID (path : string)
  | SvStart (name serverID : string) (skipChecks disableRecovery : bool) | SvCloseListener
  | SvInhibit | SvRelease
  | SvReporter (interval : Z) | SvStopReporter
  | SvLog (line : string)
  | SvLoop.

(** The outcomes: the identity and its file, the listener, the inhibitor, the
    errors of closing the last two, and the result of the loop. *)
Record serverEnv := mkServerEnv {
  se_id : result (string * string);
  se_start : err;
  se_inhibitor : err;
  se_release : err;
  se_close : err;
  se_loop : err
}.

Definition advertisingLine (cfg : serverRun) : string :=
  let name := quoted (sr_Name cfg) in
  if sc_Benchmark (sr_config cfg) then "advertising " +:+ name +:+ " in benchmark mode"
  else if negb (bool_decide (sc_Services (sr_config cfg) = [])) then "advertising " +:+ name +:+ "; forwarding configured services"
  else "advertising " +:+ name +:+ "; forwarding TCP streams to " +:+ serverTarget (sr_config cfg).

(** [RunServer]: its calls and its result. *)
Definition RunServer (cfg : serverRun) (env : serverEnv) : list serverCall * err :=
  let load := [SvConsole; SvLoadID (sr_ServerIDFile cfg)] in
  match se_id env with
  | inl e => (load ++ [SvCloseConsole], Some e)
  | inr (serverID, path) =>
      let start := load ++ [SvStart (sr_Name cfg) serverID (sr_SkipBLEChecks cfg) (sr_DisableBLERecovery cfg)] in
      match se_start env with
      | Some e => (start ++ [SvCloseConsole], Some (ErrWrap "start Bluetooth server: " e ""))
      | None =>
          let logged (what : string) (e : err) := match e with Some e => [SvLog (what +:+ error_text e)] | None => [] end in
          let closed := [SvCloseListener] ++ logged "BLE: server cleanup failed: " (se_close env) ++ [SvCloseConsole] in
          let started := start ++ [SvLog ("stable server ID " +:+ serverID +:+ " (stored in " +:+ path +:+ ")")] in
          let serve := [SvLog (advertisingLine cfg); SvReporter (sr_StatsInterval cfg); SvLoop; SvStopReporter] in
          if sr_PreventSleep cfg then
            match se_inhibitor env with
            | Some e => (started ++ [SvInhibit] ++ closed, Some (ErrWrap "prevent system sleep: " e ""))
            | None =>
                (started ++ [SvInhibit; SvLog "automatic system sleep prevention enabled"] ++ serve ++ [SvRelease] ++
                 logged "release system sleep inhibitor: " (se_release env) ++ closed, se_loop env)
            end
          else (started ++ serve ++ closed, se_loop env)
      end
  end.

(** * Everything acquired is given back *)

Inductive held := HConsole | HListener | HInhibitor | HReporter.

#[export] Instance held_eq_dec : EqDecision held.
Proof. solve_decision. Defined.

(** The calls as brackets; [failed]: the acquisitions that fail.  [None]: a
    resource is given back that is not the last one still held. *)
Definition bracket (startFails inhibitFails : bool) (stack : list held) (c : serverCall) : option (list held) :=
  let pop h := match stack with x :: rest => if decide (x = h) then Some rest else None | [] => None end in
  match c with
  | SvConsole => Some (HConsole :: stack)
  | SvStart _ _ _ _ => Some (if startFails then stack else HListener :: stack)
  | SvInhibit => Some (if inhibitFails then stack else HInhibitor :: stack)
  | SvReporter _ => Some (HReporter :: stack)
  | SvCloseConsole => pop HConsole
  | SvCloseListener => pop HListener
  | SvRelease => pop HInhibitor
  | SvStopReporter => pop HReporter
  | SvLoadID _ | SvLog _ | SvLoop => Some stack
  end.

Definition brackets (startFails inhibitFails : bool) (calls : list serverCall) : option (list held) :=
  foldl (fun st c => stack ← st; bracket startFails inhibitFails stack c) (Some []) calls.

Definition failed (e : err) : bool := match e with Some _ => true | None => false end.

(** Whatever fails, what was acquired is given back in the reverse order, the
    loop runs exactly when nothing failed, and its result is what [RunServer]
    returns. *)
Lemma RunServer_releases cfg env :
  let '(calls, r) := RunServer cfg env in
  brackets (failed (se_start env)) (failed (se_inhibitor env)) calls = Some [] /\
  (SvLoop ∈ calls -> r = se_loop env) /\ (SvLoop ∉ calls -> is_Some r).
Proof.
  unfold RunServer. destruct env as [id st inh rel cl lp]. cbn.
  destruct id as [e|[serverID path]]; [split_and!; cbn; [done|set_solver|done]|].
  destruct st as [e|]; [split_and!; cbn; [done|set_solver|done]|].
  destruct (sr_PreventSleep cfg); [destruct inh as [e|]|]; destruct rel, cl; split_and!; cbn; done || set_solver.
Qed.
