(* ===== verification/Tunnel.v ===== *)
(** * A stream through the link

    The layers together: one direction of a mux stream (MuxFlow), whose frames
    the write loop encodes (Frame) and writes to the session of LinkSystem,
    among the frames of any other streams; the read loop of the other side
    reads the session in pieces of any size, parses the frames and delivers
    them.  Window updates come back the same way.  Below, the packets of the link
    are lost, duplicated and reordered, and the two sides detach and rebind.  For
    the callers of [Write], [CloseWrite] and [Read] nothing of this is visible:
    the whole refines the bounded pipe of MuxPipe.  (MuxWire shows that the
    goroutines of a session put a stream's frames on the wire in the order of its
    queue, as the write loop of the tunnel does.)  A run ends when a mux session
    does: an error of the link session's [Read] or [Write], a RESET and a frame the
    peer may not send are not steps here (MuxSession has them). *)

From S2P Require Export LinkSystem MuxPipe.

(** ** One side's write loop and read loop

    What a write loop took from its queues, and the bytes of it the session has
    not accepted yet; what the other side's read loop parsed, and the bytes it
    has read of the next frame. *)
Record lane := mkLane {
  ln_sent : list Frame;
  ln_rest : bytes;
  ln_got : list Frame;
  ln_buf : bytes
}.

#[export] Instance eta_lane : Eta lane := fun x => mkLane (ln_sent x) (ln_rest x) (ln_got x) (ln_buf x).

Definition newLane : lane := mkLane [] [] [] [].

(** The write loop takes a frame once the one before is written. *)
Definition idle (x : lane) : bool := bool_decide (ln_rest x = []).
Definition lane_send (x : lane) (f : Frame) : lane := x <| ln_sent := ln_sent x ++ [f] |> <| ln_rest := encodeFrame f |>.

(** The session took [k] bytes. *)
Definition lane_put (x : lane) (k : nat) : lane := x <| ln_rest := drop k (ln_rest x) |>.

(** [Read] returned [p]. *)
Definition lane_get (x : lane) (p : bytes) : lane := x <| ln_buf := ln_buf x ++ p |>.

(** [ReadFrame] on what was read: a frame; more bytes are needed; an error. *)
Inductive parseResult := PFrame (x : lane) (f : Frame) | PMore | PError (e : error).

Definition lane_parse (x : lane) : parseResult :=
  match ReadFrame (mkReader (ln_buf x) (Sent EOF)) with
  | inr (f, r) => PFrame (x <| ln_got := ln_got x ++ [f] |> <| ln_buf := rd_data r |>) f
  | inl e => if errors_Is e EOF || errors_Is e ErrUnexpectedEOF then PMore else PError e
  end.

(** The frames on their way. *)
Definition in_flight (x : lane) : list Frame := drop (length (ln_got x)) (ln_sent x).

#[export] Instance frame_ok_dec f : Decision (frame_ok f).
Proof. unfold frame_ok. apply _. Defined.

#[global] Arguments encodeFrames : simpl never.

(** The lane between the bytes [σ] the sending session accepted and the bytes
    [ρ] the receiving one returned. *)
Record lane_ok (x : lane) (σ ρ : bytes) : Prop := {
  lo_frames : Forall frame_ok (ln_sent x);
  lo_sent : σ ++ ln_rest x = encodeFrames (ln_sent x);
  lo_got : ρ = encodeFrames (ln_got x) ++ ln_buf x;
  lo_prefix : ln_got x `prefix_of` ln_sent x
}.

Lemma lane_send_ok x f σ ρ :
  idle x = true -> frame_ok f -> lane_ok x σ ρ ->
  lane_ok (lane_send x f) σ ρ /\ in_flight (lane_send x f) = in_flight x ++ [f].
Proof.
  unfold idle. intros Hi Hf [Hs He Hg [fs Hp]]. apply bool_decide_eq_true in Hi. destruct x as [sent rest got buf].
  unfold lane_send, in_flight. cbn in *. subst rest. split.
  - split; cbn; [apply Forall_app; by split; [|constructor]| |done|exists (fs ++ [f]); by rewrite Hp, app_assoc].
    rewrite encodeFrames_app, encodeFrames_cons. rewrite app_nil_r in He. rewrite He. change (encodeFrames []) with (@nil byte).
    by rewrite app_nil_r.
  - rewrite Hp, drop_app_le by (rewrite length_app; lia). done.
Qed.

Lemma lane_put_ok x n σ ρ :
  lane_ok x σ ρ ->
  lane_ok (lane_put x (length (slice_to (ln_rest x) n))) (σ ++ slice_to (ln_rest x) n) ρ /\
  in_flight (lane_put x (length (slice_to (ln_rest x) n))) = in_flight x.
Proof.
  intros [Hs He Hg Hp]. split; [|done]. split; cbn; try done. rewrite <- He, <- app_assoc. f_equal.
  unfold slice_to. rewrite length_take. destruct (Nat.le_gt_cases (Z.to_nat n) (length (ln_rest x))).
  - rewrite Nat.min_l by done. apply take_drop.
  - by rewrite Nat.min_r, take_ge, drop_all, app_nil_r by lia.
Qed.

Lemma lane_get_ok x p σ ρ :
  lane_ok x σ ρ -> lane_ok (lane_get x p) σ (ρ ++ p) /\ in_flight (lane_get x p) = in_flight x.
Proof. intros [Hs He Hg Hp]. split; [|done]. split; cbn; try done. by rewrite Hg, <- app_assoc. Qed.

(** The read loop parses the frames the write loop was given, in order, and
    never fails on what arrived of them. *)
Lemma lane_parse_ok x σ ρ :
  lane_ok x σ ρ -> ρ `prefix_of` σ ->
  match lane_parse x with
  | PFrame x' f => lane_ok x' σ ρ /\ in_flight x = f :: in_flight x'
  | PMore => True
  | PError _ => False
  end.
Proof.
  intros [Hs He Hg [fs Hp]] Hpre. destruct x as [sent rest got buf]. unfold lane_parse, in_flight. cbn in *. subst sent.
  rewrite encodeFrames_app in He. apply Forall_app in Hs as [Hgot Hs].
  assert (buf `prefix_of` encodeFrames fs) as Hb.
  { apply (prefix_app_inv (encodeFrames got)). rewrite <- He, <- Hg. by apply prefix_app_r. }
  destruct Hs as [|f fs Hf Hfs].
  { apply prefix_nil_inv in Hb as ->. by rewrite ReadFrame_short_header. }
  rewrite encodeFrames_cons in Hb. destruct (Z.lt_ge_cases (zlen buf) (zlen (encodeFrame f))) as [Hlt|Hge].
  - rewrite (prefix_app_short _ _ _ Hb) by lia. pose proof (zlen_nonneg buf).
    rewrite ReadFrame_truncated_aux by done. unfold truncation_error.
    by destruct ((zlen buf =? 0) || (zlen buf =? HeaderSize)).
  - destruct (prefix_app_long _ _ _ Hb) as (q & -> & Hq); [done|]. rewrite ReadFrame_encode by done. cbn. split.
    + split; cbn.
      * apply Forall_app. by split; [|constructor].
      * by rewrite encodeFrames_app.
      * rewrite encodeFrames_app, encodeFrames_cons. change (encodeFrames []) with (@nil byte).
        by rewrite app_nil_r, <- app_assoc.
      * exists fs. by rewrite <- app_assoc.
    + rewrite length_app. cbn [length]. rewrite drop_app_length, drop_app_ge by lia.
      by replace (length got + 1 - length got)%nat with 1%nat by lia.
Qed.

Section Tunnel.
Context `{Flate} (compression : bool) (sid : Z).

(** ** State and steps *)

Record tunnel := mkTunnel {
  t_link : link;
  t_writer : Stream;                     (* on side A *)
  t_reader : Stream;                     (* on side B *)
  t_there : lane;                        (* A's write loop, B's read loop *)
  t_back : lane;
  t_updates : list Z;                    (* WINDOW_UPDATEs B's write loop has to send *)
  t_written : bytes;
  t_received : bytes;
  t_failed : err
}.

#[export] Instance eta_tunnel : Eta tunnel := fun t =>
  mkTunnel (t_link t) (t_writer t) (t_reader t) (t_there t) (t_back t) (t_updates t) (t_written t) (t_received t) (t_failed t).

(** Frames that concern this direction. *)
Definition ours_there (f : Frame) : bool :=
  (StreamID f =? sid) && (bool_decide (Type_ f = FrameData) || bool_decide (Type_ f = FrameFIN)).
Definition ours_back (f : Frame) : bool := (StreamID f =? sid) && bool_decide (Type_ f = FrameWindowUpdate).

(** Frames that do not: of other streams, or of this one's other direction. *)
Definition other_there (f : Frame) : bool := negb (StreamID f =? sid) || bool_decide (Type_ f = FrameWindowUpdate).
Definition other_back (f : Frame) : bool :=
  negb (StreamID f =? sid) || bool_decide (Type_ f = FrameData) || bool_decide (Type_ f = FrameFIN).

Inductive tunnelOp :=
  | TWrite (p : bytes) | TCloseWrite | TRead (n : Z)     (* the callers *)
  | TSend                                                (* A's write loop takes a frame of the stream *)
  | TSendOther (f : Frame)                               (* ... or another one *)
  | TSendUpdate                                          (* B's write loop *)
  | TBackOther (f : Frame)
  | TPut | TPutBack                                      (* the write loops write to the sessions *)
  | TGet (n : Z) | TGetBack (n : Z)                      (* the read loops read from them *)
  | TParse | TParseBack                                  (* ... and parse *)
  | TLink (side : bool) (o : op).                        (* everything else the sessions do *)

(** Delivering a frame to the reading end. *)
Definition deliver (t : tunnel) (f : Frame) : tunnel :=
  if negb (ours_there f) then t
  else if bool_decide (Type_ f = FrameFIN)
  then mkTunnel (t_link t) (t_writer t) (receiveFIN (t_reader t)) (t_there t) (t_back t) (t_updates t) (t_written t) (t_received t) (t_failed t)
  else
    let '(s, r) := receiveData compression (t_reader t) (Payload f) in
    mkTunnel (t_link t) (t_writer t) s (t_there t) (t_back t) (t_updates t) (t_written t) (t_received t)
      (match r with inl e => Some e | inr _ => t_failed t end).

(** ... and a window update to the writing end. *)
Definition deliverBack (t : tunnel) (f : Frame) : tunnel :=
  if negb (ours_back f) then t
  else
    let '(s, e) := updateSendWindow (t_writer t) (WindowAmount f) in
    mkTunnel (t_link t) s (t_reader t) (t_there t) (t_back t) (t_updates t) (t_written t) (t_received t)
      (match e with Some e => Some e | None => t_failed t end).

(** [WriteFrame]: a frame that does not validate ends the write loop. *)
Definition send_there (t : tunnel) (f : Frame) : tunnel :=
  match Validate f with Some e => t <| t_failed := Some e |> | None => t <| t_there := lane_send (t_there t) f |> end.

Definition send_back (t : tunnel) (f : Frame) : tunnel :=
  match Validate f with Some e => t <| t_failed := Some e |> | None => t <| t_back := lane_send (t_back t) f |> end.

Definition linkOp (o : op) : bool := match o with OWrite _ | LinkEndpoint.ORead _ => false | _ => true end.

Definition tunnel_step (t : tunnel) (o : tunnelOp) : option tunnel :=
  match o with
  | TWrite p =>
      if zlen p =? 0 then Some t else
      match MuxStream.Write compression (t_writer t) p with
      | (s, WriteQueued n _ _) => Some (t <| t_writer := s |> <| t_written := t_written t ++ slice_to p n |>)
      | (s, _) => Some (t <| t_writer := s |>)
      end
  | TCloseWrite => Some (t <| t_writer := (CloseWrite (t_writer t)).1 |>)
  | TRead n =>
      if n <? 0 then None else
      match MuxStream.Read (t_reader t) n with
      | (s, MuxStream.ReadData p w) =>
          Some (t <| t_reader := s |> <| t_updates := (if 0 <? w then t_updates t ++ [w] else t_updates t) |>
                  <| t_received := t_received t ++ p |>)
      | (s, _) => Some (t <| t_reader := s |>)
      end
  | TSend =>
      if negb (idle (t_there t)) then None else
      match nextOutbound (t_writer t) with
      | (s, Some (f, _)) => Some (send_there (t <| t_writer := s |>) f)
      | (s, None) => Some (t <| t_writer := s |>)
      end
  | TSendOther f => if idle (t_there t) && other_there f && bool_decide (frame_ok f) then Some (send_there t f) else None
  | TSendUpdate =>
      if negb (idle (t_back t)) then None else
      match t_updates t with
      | w :: rest => Some (send_back (t <| t_updates := rest |>) (WindowUpdate sid w))
      | [] => None
      end
  | TBackOther f => if idle (t_back t) && other_back f && bool_decide (frame_ok f) then Some (send_back t f) else None
  | TPut =>
      let o := OWrite (ln_rest (t_there t)) in
      Some (t <| t_there := lane_put (t_there t) (length (oc_written (ep_run (la (t_link t)) o))) |> <| t_link := run_a (t_link t) o |>)
  | TPutBack =>
      let o := OWrite (ln_rest (t_back t)) in
      Some (t <| t_back := lane_put (t_back t) (length (oc_written (ep_run (lb (t_link t)) o))) |> <| t_link := run_b (t_link t) o |>)
  | TGet n =>
      if bool_decide (op_clock (LinkEndpoint.ORead n)) then
        Some (t <| t_there := lane_get (t_there t) (oc_read (ep_run (lb (t_link t)) (LinkEndpoint.ORead n))) |> <| t_link := run_b (t_link t) (LinkEndpoint.ORead n) |>)
      else None
  | TGetBack n =>
      if bool_decide (op_clock (LinkEndpoint.ORead n)) then
        Some (t <| t_back := lane_get (t_back t) (oc_read (ep_run (la (t_link t)) (LinkEndpoint.ORead n))) |> <| t_link := run_a (t_link t) (LinkEndpoint.ORead n) |>)
      else None
  | TParse =>
      match lane_parse (t_there t) with
      | PFrame x f => Some (deliver (t <| t_there := x |>) f)
      | PMore => None
      | PError e => Some (t <| t_failed := Some e |>)
      end
  | TParseBack =>
      match lane_parse (t_back t) with
      | PFrame x f => Some (deliverBack (t <| t_back := x |>) f)
      | PMore => None
      | PError e => Some (t <| t_failed := Some e |>)
      end
  | TLink side o =>
      if linkOp o && allowed (t_link t) side o
      then Some (t <| t_link := (if side then run_a (t_link t) o else run_b (t_link t) o) |>) else None
  end.

(** What the callers observe. *)
Definition t_observe (t : tunnel) (o : tunnelOp) : observation :=
  match o with
  | TWrite p =>
      if zlen p =? 0 then OSilent else
      match (MuxStream.Write compression (t_writer t) p).2 with
      | WriteQueued n _ _ => OWrote (slice_to p n)
      | MuxStream.WriteError e => if localWriteClosed (t_writer t) then OWriteRefused else OEncodeFailed e
      | MuxStream.WriteWait _ _ => OWriteBlocked
      end
  | TCloseWrite => OClosedWrite
  | TRead n =>
      match (MuxStream.Read (t_reader t) n).2 with
      | MuxStream.ReadData p _ => ORead p
      | MuxStream.ReadError (Some (Sent EOF)) => OReadEOF
      | MuxStream.ReadError e => OReadFailed e
      | MuxStream.ReadWait _ _ => OReadBlocked
      end
  | _ => OSilent
  end.

Inductive tunnel_run : tunnel -> list observation -> tunnel -> Prop :=
  | TrDone t : tunnel_run t [] t
  | TrMore t o t' os t'' : tunnel_step t o = Some t' -> tunnel_run t' os t'' -> tunnel_run t (t_observe t o :: os) t''.

(** ** The flow inside the tunnel *)

(** The tunnel as MuxFlow sees it: the lanes are queues of its frames. *)
Definition toFlow (t : tunnel) : flow :=
  mkFlow (t_writer t) (t_reader t) (List.filter ours_there (in_flight (t_there t)))
    ((WindowAmount <$> List.filter ours_back (in_flight (t_back t))) ++ t_updates t)
    (t_written t) (t_received t) (t_failed t).

(** What a stream's writing end queues. *)
Definition stream_frame (f : Frame) : Prop := frame_ok f /\ ours_there f = true.

Record tunnel_ok (t : tunnel) : Prop := {
  ti_link : link_inv (t_link t);
  ti_there : lane_ok (t_there t) (wa (t_link t)) (rb (t_link t));
  ti_back : lane_ok (t_back t) (wb (t_link t)) (ra (t_link t));
  ti_id : id (t_writer t) = sid;
  ti_outbound : Forall stream_frame (outbound (t_writer t))
}.

(** A step of the tunnel is one of the flow, or one its users do not see. *)
Inductive mimics (t : tunnel) (o : tunnelOp) (t' : tunnel) : Prop :=
  | MimicFlow fo : (forall k, fo = FRead k -> 0 <= k) -> toFlow t' = flowRun compression (toFlow t) fo ->
      t_observe t o = observe compression (toFlow t) fo -> mimics t o t'
  | MimicSilent : toFlow t' = toFlow t -> t_observe t o = OSilent -> mimics t o t'.

Context (Hsid : 0 < sid < 2 ^ 32).

Lemma other_there_ours f : other_there f = true -> ours_there f = false.
Proof.
  unfold other_there, ours_there. destruct (StreamID f =? sid); [|done]. cbn. intros Ht%bool_decide_eq_true.
  by rewrite Ht.
Qed.

Lemma other_back_ours f : other_back f = true -> ours_back f = false.
Proof.
  unfold other_back, ours_back. destruct (StreamID f =? sid); [|done]. cbn.
  intros [Ht%bool_decide_eq_true|Ht%bool_decide_eq_true]%orb_true_iff; by rewrite Ht.
Qed.

Lemma mk_stream_frame ty p :
  (ty = FrameData /\ 1 <= zlen p <= MaxDataPayload) \/ (ty = FrameFIN /\ p = []) -> stream_frame (mkFrame ty sid p).
Proof.
  intros Hp. split; [split_and!|]; cbn; try done || lia.
  - destruct Hp as [[-> Hp]|[-> ->]]; unfold Validate; cbn [Type_ StreamID Payload];
      rewrite (proj2 (Z.eqb_neq sid 0)) by lia; [|done]. cbn [andb].
    rewrite !bool_decide_eq_false_2 by done. cbn [orb].
    by rewrite bool_decide_eq_true_2, (proj2 (Z.eqb_neq _ _)), (proj2 (Z.ltb_ge _ _)) by (done || lia).
  - destruct Hp as [[-> Hp]|[-> ->]]; [lia|]. done.
  - unfold ours_there. cbn. rewrite Z.eqb_refl. by destruct Hp as [[-> Hp]|[-> ->]].
Qed.

Lemma update_frame_ok w :
  0 < w < 2 ^ 32 -> frame_ok (WindowUpdate sid w) /\ ours_back (WindowUpdate sid w) = true /\ WindowAmount (WindowUpdate sid w) = w.
Proof.
  intros Hw. unfold frame_ok, Validate, ours_back, WindowAmount, WindowUpdate. cbn [Type_ StreamID Payload].
  assert (0 <= w < 2 ^ 32) as Hr by lia. rewrite be_get_put_id by exact Hr. rewrite zlen_be_put, (Z.eqb_refl sid), (proj2 (Z.eqb_neq sid 0)), (proj2 (Z.eqb_neq w 0)) by lia. cbn.
  split_and!; try done; unfold MaxDataPayload; lia.
Qed.

Lemma Write_outbound s p s' r :
  id s = sid -> Forall stream_frame (outbound s) -> 0 < zlen p -> MuxStream.Write compression s p = (s', r) ->
  id s' = sid /\ Forall stream_frame (outbound s').
Proof.
  intros Hid Ho Hp. unfold MuxStream.Write. destruct (negb (opened s)); [by intros [= <- <-]|].
  destruct (MuxStream.closed s || localWriteClosed s); [by intros [= <- <-]|].
  destruct (Z.ltb_spec 0 (sendWindow s)) as [Hw|]; [|by intros [= <- <-]]. cbn zeta.
  set (n := Z.min _ (sendWindow s)). destruct (if compression then encodeCompressedPayload _ else _) as [e|payload] eqn:E; [by intros [= <- <-]|].
  assert (0 < n <= if compression then MaxDataPayload - 1 else MaxDataPayload) as Hn
    by (unfold n, MaxDataPayload; destruct compression; lia).
  apply (write_frame compression sid) in E as (_ & _ & Hl); [|by rewrite zlen_slice_to by (unfold n in *; lia)].
  unfold enqueueLocked. cbn [scheduled upd]. intros Heq.
  assert (Forall stream_frame (outbound s ++ [mkFrame FrameData (id s) payload])).
  { apply Forall_app. split; [done|]. rewrite Hid. constructor; [apply mk_stream_frame; by left|done]. }
  destruct (scheduled s); by injection Heq as <- <-.
Qed.

Lemma CloseWrite_outbound s :
  id s = sid -> Forall stream_frame (outbound s) ->
  id (CloseWrite s).1 = sid /\ Forall stream_frame (outbound (CloseWrite s).1).
Proof.
  intros Hid Ho. unfold CloseWrite. destruct (_ || _); [done|]. unfold enqueueLocked. cbn [scheduled upd].
  assert (Forall stream_frame (outbound s ++ [mkFrame FrameFIN (id s) []])).
  { apply Forall_app. split; [done|]. rewrite Hid. constructor; [apply mk_stream_frame; by right|done]. }
  by destruct (scheduled s).
Qed.

Lemma nextOutbound_outbound s s' r :
  id s = sid -> Forall stream_frame (outbound s) -> nextOutbound s = (s', r) ->
  id s' = sid /\ Forall stream_frame (outbound s') /\ match r with Some (f, _) => stream_frame f | None => True end.
Proof.
  intros Hid Ho. unfold nextOutbound. destruct (outbound s) as [|f rest] eqn:Eo.
  { intros [= <- <-]. cbn. by rewrite Eo. }
  apply Forall_cons in Ho as [Hf Ho]. cbn zeta. destruct (0 <? zlen rest); by intros [= <- <-].
Qed.

(** *** What the sessions do *)

Lemma write_outcome s p :
  (exists n, oc_written (ep_run s (OWrite p)) = slice_to p n) /\ oc_read (ep_run s (OWrite p)) = [].
Proof. unfold ep_run. destruct (LinkSession.Write _ _ _ _) as [[s' n] r]. cbn. eauto. Qed.

Lemma read_outcome s n : oc_written (ep_run s (LinkEndpoint.ORead n)) = [].
Proof. unfold ep_run. by destruct (LinkSession.Read s n) as [s' [| |]]. Qed.

Lemma linkOp_outcome s o : linkOp o = true -> oc_written (ep_run s o) = [] /\ oc_read (ep_run s o) = [].
Proof. destruct o; try done; intros _; cbn; repeat case_match; by subst. Qed.

Lemma link_prefixes l : link_inv l -> rb l `prefix_of` wa l /\ ra l `prefix_of` wb l.
Proof.
  intros Hl. split; [eexists; by apply link_streams_a|]. eexists. apply (link_streams_a (link_swap l)). by apply link_inv_swap.
Qed.

Lemma allowed_inv l side o :
  allowed l side o = true -> link_inv l -> link_inv (if side then run_a l o else run_b l o).
Proof.
  intros [Hc Hp]%andb_true_iff Hl. apply bool_decide_eq_true in Hc. rewrite forallb_forall in Hp.
  assert (forall p, p ∈ op_packets o -> p ∈ (if side then toA l else toB l)) as Hp'.
  { intros p Hin. apply list_elem_of_In in Hin. by apply Hp, bool_decide_eq_true in Hin. }
  destruct side; [by apply link_inv_run_a|]. apply link_inv_swap, link_inv_run_a; [by apply link_inv_swap|done..].
Qed.

Lemma write_allowed l side p : allowed l side (OWrite p) = true.
Proof. done. Qed.

Lemma read_allowed l side n : 0 <= n -> allowed l side (LinkEndpoint.ORead n) = true.
Proof. intros Hn. unfold allowed. by rewrite bool_decide_eq_true_2. Qed.


(** *** Every step of the tunnel *)

Definition simulated (o : tunnelOp) : Prop := forall t t',
  tunnel_ok t -> flow_inv compression (toFlow t) -> tunnel_step t o = Some t' -> tunnel_ok t' /\ mimics t o t'.

Lemma step_write p : simulated (TWrite p).
Proof.
  intros [l w r th ba up wr rc fl] t' [HL Ht Hb Hid Ho] HF. cbn in HL, Ht, Hb, Hid, Ho. cbn [tunnel_step t_writer t_written].
  destruct (Z.eqb_spec (zlen p) 0) as [Hp|Hp].
  { intros [= <-]. split; [done|]. apply MimicSilent; [done|]. cbn. by rewrite Hp. }
  pose proof (zlen_nonneg p). destruct (MuxStream.Write compression w p) as [s x] eqn:E.
  destruct (Write_outbound w p s x Hid Ho ltac:(lia) E) as [Hid' Ho'].
  assert (toFlow (mkTunnel l s r th ba up (match x with WriteQueued n _ _ => wr ++ slice_to p n | _ => wr end) rc fl)
    = flowRun compression (toFlow (mkTunnel l w r th ba up wr rc fl)) (FWrite p)) as Hf.
  { cbn [flowRun toFlow writer t_writer]. rewrite (proj2 (Z.eqb_neq _ _) Hp), E. by destruct x. }
  assert (t_observe (mkTunnel l w r th ba up wr rc fl) (TWrite p)
    = observe compression (toFlow (mkTunnel l w r th ba up wr rc fl)) (FWrite p)) as Hobs by done.
  intros Heq. assert (t' = mkTunnel l s r th ba up (match x with WriteQueued n _ _ => wr ++ slice_to p n | _ => wr end) rc fl) as ->
    by (destruct x; by injection Heq as <-).
  split; [by split|]. by apply (MimicFlow _ _ _ (FWrite p)).
Qed.

Lemma step_close_write : simulated TCloseWrite.
Proof.
  intros [l w r th ba up wr rc fl] t' [HL Ht Hb Hid Ho] HF [= <-]. cbn in HL, Ht, Hb, Hid, Ho.
  destruct (CloseWrite_outbound w Hid Ho) as [Hid' Ho']. split; [by split|]. by apply (MimicFlow _ _ _ FCloseWrite).
Qed.

Lemma read_flow t n :
  0 <= n -> exists t', tunnel_step t (TRead n) = Some t' /\ toFlow t' = flowRun compression (toFlow t) (FRead n) /\
    t_link t' = t_link t /\ t_writer t' = t_writer t /\ t_there t' = t_there t /\ t_back t' = t_back t.
Proof.
  intros Hn. destruct t as [l w r th ba up wr rc fl]. cbn [tunnel_step t_reader]. rewrite (proj2 (Z.ltb_ge _ _)) by done.
  cbn [flowRun toFlow reader t_reader]. destruct (MuxStream.Read r n) as [s [p u| |]]; (eexists; split; [reflexivity|]); try done.
  split; [|done]. unfold toFlow. cbn. by destruct (0 <? u); rewrite ?app_assoc.
Qed.

Lemma step_read n : simulated (TRead n).
Proof.
  intros t t' [HL Ht Hb Hid Ho] HF Hs. assert (0 <= n) as Hn by (revert Hs; cbn; destruct (Z.ltb_spec n 0); done).
  destruct (read_flow t n Hn) as (t1 & Hs1 & Hf & E1 & E2 & E3 & E4). rewrite Hs in Hs1. injection Hs1 as <-.
  split; [split; congruence|]. apply (MimicFlow _ _ _ (FRead n)); [by intros k [= <-]|done|done].
Qed.

Lemma send_there_ok t f :
  idle (t_there t) = true -> frame_ok f -> tunnel_ok t -> tunnel_ok (send_there t f) /\
  toFlow (send_there t f) = mkFlow (t_writer t) (t_reader t)
    (List.filter ours_there (in_flight (t_there t)) ++ (if ours_there f then [f] else []))
    (updates (toFlow t)) (t_written t) (t_received t) (t_failed t).
Proof.
  intros Hi Hf [HL Ht Hb Hid Ho]. destruct (lane_send_ok _ _ _ _ Hi Hf Ht) as [Ht' Hfl].
  unfold send_there. rewrite (proj1 Hf). split; [by split|]. unfold toFlow. cbn -[in_flight]. by rewrite Hfl, List.filter_app.
Qed.

Lemma send_back_ok t f :
  idle (t_back t) = true -> frame_ok f -> tunnel_ok t -> tunnel_ok (send_back t f) /\
  toFlow (send_back t f) = mkFlow (t_writer t) (t_reader t) (forward (toFlow t))
    ((WindowAmount <$> List.filter ours_back (in_flight (t_back t)) ++ (if ours_back f then [f] else [])) ++ t_updates t)
    (t_written t) (t_received t) (t_failed t).
Proof.
  intros Hi Hf [HL Ht Hb Hid Ho]. destruct (lane_send_ok _ _ _ _ Hi Hf Hb) as [Hb' Hfl].
  unfold send_back. rewrite (proj1 Hf). split; [by split|]. unfold toFlow. cbn -[in_flight]. by rewrite Hfl, List.filter_app.
Qed.

Lemma step_send : simulated TSend.
Proof.
  intros t t' Hok HF. pose proof Hok as [HL Ht Hb Hid Ho]. cbn [tunnel_step].
  destruct (idle (t_there t)) eqn:Ei; [|done]. cbn [negb]. destruct (nextOutbound (t_writer t)) as [s x] eqn:E.
  destruct (nextOutbound_outbound _ _ _ Hid Ho E) as (Hid' & Ho' & Hf).
  assert (tunnel_ok (t <| t_writer := s |>)) as Hok' by (destruct t; by split).
  destruct x as [[f y]|]; intros <-%(inj Some).
  - destruct Hf as [Hf Hours]. destruct (send_there_ok (t <| t_writer := s |>) f) as [Hok2 Hflow]; [by destruct t|done..|].
    split; [done|]. apply (MimicFlow _ _ _ FSend); [done| |done]. rewrite Hflow, Hours. destruct t. cbn in *. by rewrite E.
  - split; [done|]. apply (MimicFlow _ _ _ FSend); [done| |done]. destruct t. cbn in *. by rewrite E.
Qed.

Lemma step_send_other f : simulated (TSendOther f).
Proof.
  intros t t' Hok HF. cbn [tunnel_step]. destruct (idle (t_there t)) eqn:Ei; [|done].
  destruct (other_there f) eqn:Ef; [|done]. case_bool_decide as Hf; [|done]. intros <-%(inj Some).
  destruct (send_there_ok t f Ei Hf Hok) as [Hok' Hflow]. split; [done|]. apply MimicSilent; [|done].
  rewrite Hflow, (other_there_ours _ Ef), app_nil_r. by destruct t.
Qed.

Lemma step_back_other f : simulated (TBackOther f).
Proof.
  intros t t' Hok HF. cbn [tunnel_step]. destruct (idle (t_back t)) eqn:Ei; [|done].
  destruct (other_back f) eqn:Ef; [|done]. case_bool_decide as Hf; [|done]. intros [= <-].
  destruct (send_back_ok t f Ei Hf Hok) as [Hok' Hflow]. split; [done|]. apply MimicSilent; [|done].
  rewrite Hflow, (other_back_ours _ Ef), app_nil_r. by destruct t.
Qed.


Lemma updates_bound f w : flow_inv compression f -> w ∈ updates f -> 0 < w < 2 ^ 32.
Proof.
  intros [_ _ (ds & n & _ & _ & _ & _ & Hsum) _ _ Hsw Hpu Hup] Hin.
  assert (w <= zsum (updates f)) as Hw.
  { clear -Hup Hin. induction Hup as [|x l Hx Hl IH]; [by apply elem_of_nil in Hin|]. cbn. pose proof (zsum_nonneg _ Hl).
    apply elem_of_cons in Hin as [->|Hin]; [|specialize (IH Hin)]; lia. }
  rewrite Forall_forall in Hup. specialize (Hup _ Hin). pose proof (zlen_nonneg (framesBytes compression ds)).
  pose proof (zlen_nonneg (inbound (reader f))). unfold InitialStreamWindow in *. lia.
Qed.

Lemma step_send_update : simulated TSendUpdate.
Proof.
  intros t t' Hok HF. cbn [tunnel_step]. destruct (idle (t_back t)) eqn:Ei; [|done]. cbn [negb].
  destruct (t_updates t) as [|w rest] eqn:Eu; [done|]. intros <-%(inj Some).
  assert (0 < w < 2 ^ 32) as Hw.
  { apply (updates_bound _ _ HF). cbn. rewrite Eu. apply elem_of_app. right. by left. }
  destruct (update_frame_ok w Hw) as (Hf & Hours & Ham).
  destruct (send_back_ok (t <| t_updates := rest |>) (WindowUpdate sid w)) as [Hok' Hflow];
    [by destruct t|done|destruct t, Hok; by split|].
  split; [done|]. apply MimicSilent; [|done]. rewrite Hflow, Hours, fmap_app. destruct t. cbn in Eu. subst. cbn -[WindowAmount].
  by rewrite Ham, <- app_assoc.
Qed.

(** The sessions move bytes; the frames in flight stay. *)
Lemma link_moves_there t l' n p :
  tunnel_ok t -> link_inv l' ->
  wa l' = wa (t_link t) ++ slice_to (ln_rest (t_there t)) n -> rb l' = rb (t_link t) ++ p ->
  wb l' = wb (t_link t) -> ra l' = ra (t_link t) ->
  let t' := t <| t_there := lane_get (lane_put (t_there t) (length (slice_to (ln_rest (t_there t)) n))) p |> <| t_link := l' |> in
  tunnel_ok t' /\ toFlow t' = toFlow t.
Proof.
  intros [HL Ht Hb Hid Ho] Hl E1 E2 E3 E4 t'. destruct (lane_put_ok _ n _ _ Ht) as [Hp Hf1].
  destruct (lane_get_ok _ p _ _ Hp) as [Hg Hf2]. subst t'. destruct t. cbn in *. split; [|done].
  split; cbn; try done; [by rewrite E1, E2|by rewrite E3, E4].
Qed.

Lemma link_moves_back t l' n p :
  tunnel_ok t -> link_inv l' ->
  wb l' = wb (t_link t) ++ slice_to (ln_rest (t_back t)) n -> ra l' = ra (t_link t) ++ p ->
  wa l' = wa (t_link t) -> rb l' = rb (t_link t) ->
  let t' := t <| t_back := lane_get (lane_put (t_back t) (length (slice_to (ln_rest (t_back t)) n))) p |> <| t_link := l' |> in
  tunnel_ok t' /\ toFlow t' = toFlow t.
Proof.
  intros [HL Ht Hb Hid Ho] Hl E1 E2 E3 E4 t'. destruct (lane_put_ok _ n _ _ Hb) as [Hp Hf1].
  destruct (lane_get_ok _ p _ _ Hp) as [Hg Hf2]. subst t'. destruct t. cbn in *. split; [|done].
  split; cbn; try done; [by rewrite E3, E4|by rewrite E1, E2].
Qed.

Lemma lane_get_nil x : lane_get x [] = x.
Proof. destruct x. unfold lane_get. cbn. by rewrite app_nil_r. Qed.

Lemma lane_put_0 x : lane_put x (length (slice_to (ln_rest x) 0)) = x.
Proof. by destruct x. Qed.

Lemma step_put : simulated TPut.
Proof.
  intros t t' Hok HF <-%(inj Some). destruct (write_outcome (la (t_link t)) (ln_rest (t_there t))) as [[n Hw] Hr].
  pose proof (allowed_inv (t_link t) true _ (write_allowed _ _ (ln_rest (t_there t))) (ti_link _ Hok)) as Hl.
  destruct (link_moves_there t _ n [] Hok Hl) as [Hok' Hflow];
    [by cbn [run_a wa]; rewrite Hw|by cbn; rewrite app_nil_r|done|by cbn [run_a ra]; rewrite Hr, app_nil_r|].
  cbn zeta in Hok', Hflow. rewrite lane_get_nil in Hok', Hflow. rewrite Hw. split; [done|]. by apply MimicSilent.
Qed.

Lemma step_put_back : simulated TPutBack.
Proof.
  intros t t' Hok HF <-%(inj Some). destruct (write_outcome (lb (t_link t)) (ln_rest (t_back t))) as [[n Hw] Hr].
  pose proof (allowed_inv (t_link t) false _ (write_allowed _ _ (ln_rest (t_back t))) (ti_link _ Hok)) as Hl.
  destruct (link_moves_back t _ n [] Hok Hl) as [Hok' Hflow];
    [by cbn [run_b run_a link_swap la wa wb]; rewrite Hw|by cbn; rewrite app_nil_r|done
    |by cbn [run_b run_a link_swap la ra rb]; rewrite Hr, app_nil_r|].
  cbn zeta in Hok', Hflow. rewrite lane_get_nil in Hok', Hflow. rewrite Hw. split; [done|]. by apply MimicSilent.
Qed.

Lemma step_get n : simulated (TGet n).
Proof.
  intros t t' Hok HF. cbn [tunnel_step]. case_bool_decide as Hn; [|done]. intros <-%(inj Some).
  pose proof (read_outcome (lb (t_link t)) n) as Hw.
  pose proof (allowed_inv (t_link t) false _ (read_allowed _ _ _ Hn) (ti_link _ Hok)) as Hl.
  destruct (link_moves_there t _ 0 (oc_read (ep_run (lb (t_link t)) (LinkEndpoint.ORead n))) Hok Hl) as [Hok' Hflow];
    [by cbn; rewrite app_nil_r|done|by cbn [run_b run_a link_swap la wa wb]; rewrite Hw, app_nil_r|done|].
  cbn zeta in Hok', Hflow. rewrite lane_put_0 in Hok', Hflow. split; [done|]. by apply MimicSilent.
Qed.

Lemma step_get_back n : simulated (TGetBack n).
Proof.
  intros t t' Hok HF. cbn [tunnel_step]. case_bool_decide as Hn; [|done]. intros <-%(inj Some).
  pose proof (read_outcome (la (t_link t)) n) as Hw.
  pose proof (allowed_inv (t_link t) true _ (read_allowed _ _ _ Hn) (ti_link _ Hok)) as Hl.
  destruct (link_moves_back t _ 0 (oc_read (ep_run (la (t_link t)) (LinkEndpoint.ORead n))) Hok Hl) as [Hok' Hflow];
    [by cbn; rewrite app_nil_r|done|by cbn [run_a wa]; rewrite Hw, app_nil_r|done|].
  cbn zeta in Hok', Hflow. rewrite lane_put_0 in Hok', Hflow. split; [done|]. by apply MimicSilent.
Qed.

Lemma step_link side o : simulated (TLink side o).
Proof.
  intros t t' Hok HF. cbn [tunnel_step]. destruct (linkOp o) eqn:Eo; [|done]. destruct (allowed _ side o) eqn:Ea; [|done].
  intros <-%(inj Some). pose proof (allowed_inv _ _ _ Ea (ti_link _ Hok)) as Hl. destruct Hok as [HL Ht Hb Hid Ho].
  assert (let l' := if side then run_a (t_link t) o else run_b (t_link t) o in
    wa l' = wa (t_link t) /\ wb l' = wb (t_link t) /\ ra l' = ra (t_link t) /\ rb l' = rb (t_link t)) as (E1 & E2 & E3 & E4).
  { destruct side; [destruct (linkOp_outcome (la (t_link t)) o Eo) as [Hw Hr]|destruct (linkOp_outcome (lb (t_link t)) o Eo) as [Hw Hr]];
      cbn [run_b run_a link_swap wa wb ra rb la]; by rewrite ?Hw, ?Hr, !app_nil_r. }
  cbn zeta in E1, E2, E3, E4. split; [|by apply MimicSilent; destruct t].
  revert Hl E1 E2 E3 E4. generalize (if side then run_a (t_link t) o else run_b (t_link t) o). intros l' Hl E1 E2 E3 E4.
  destruct t. cbn in *. split; cbn; congruence || done.
Qed.


Lemma step_parse : simulated TParse.
Proof.
  intros t t' [HL Ht Hb Hid Ho] HF. cbn [tunnel_step].
  pose proof (lane_parse_ok _ _ _ Ht (proj1 (link_prefixes _ HL))) as Hp.
  destruct (lane_parse (t_there t)) as [x f| |e]; [|done..]. destruct Hp as [Hx Hfl]. intros <-%(inj Some).
  destruct t as [l w r th ba up wr rc fl]. cbn in *. unfold deliver. destruct (ours_there f) eqn:Ef; cbn [negb].
  - assert (forall r' fl', tunnel_ok (mkTunnel l w r' x ba up wr rc fl')) as Hok by (intros; by split).
    assert (forward (toFlow (mkTunnel l w r th ba up wr rc fl)) = f :: List.filter ours_there (in_flight x)) as Hfw.
    { unfold toFlow. cbn -[in_flight]. rewrite Hfl. cbn. by rewrite Ef. }
    case_bool_decide as Hfin; [|destruct (receiveData compression _ (Payload f)) as [s y] eqn:E]; (split; [apply Hok|]);
      (apply (MimicFlow _ _ _ FDeliver); [done| |done]); cbn [flowRun]; rewrite Hfw.
    + by rewrite bool_decide_eq_true_2.
    + rewrite bool_decide_eq_false_2 by done. cbn in E. cbn [toFlow reader t_reader]. rewrite E. by destruct y.
  - split; [by split|]. apply MimicSilent; [|done]. unfold toFlow. cbn -[in_flight]. rewrite Hfl. cbn -[in_flight]. by rewrite Ef.
Qed.

Lemma step_parse_back : simulated TParseBack.
Proof.
  intros t t' [HL Ht Hb Hid Ho] HF. cbn [tunnel_step].
  pose proof (lane_parse_ok _ _ _ Hb (proj2 (link_prefixes _ HL))) as Hp.
  destruct (lane_parse (t_back t)) as [x f| |e]; [|done..]. destruct Hp as [Hx Hfl]. intros <-%(inj Some).
  destruct t as [l w r th ba up wr rc fl]. cbn in *. unfold deliverBack. destruct (ours_back f) eqn:Ef; cbn [negb].
  - cbn [t_writer upd]. destruct (updateSendWindow w (WindowAmount f)) as [s e] eqn:E.
    assert (updates (toFlow (mkTunnel l w r th ba up wr rc fl))
      = WindowAmount f :: (WindowAmount <$> List.filter ours_back (in_flight x)) ++ up) as Hup.
    { unfold toFlow. cbn -[in_flight]. rewrite Hfl. cbn. by rewrite Ef. }
    assert (id s = id w /\ outbound s = outbound w) as [Hids Hos].
    { revert E. unfold updateSendWindow. destruct (_ || _); by intros [= <- <-]. }
    split; [split; cbn; congruence || done|]. apply (MimicFlow _ _ _ FUpdate); [done| |done]. cbn [flowRun]. rewrite Hup.
    cbn [toFlow writer t_writer]. by rewrite E.
  - split; [by split|]. apply MimicSilent; [|done]. unfold toFlow. cbn -[in_flight]. rewrite Hfl. cbn -[in_flight]. by rewrite Ef.
Qed.

Lemma step_simulated o : simulated o.
Proof.
  destruct o; [apply step_write|apply step_close_write|apply step_read|apply step_send|apply step_send_other|apply step_send_update
    |apply step_back_other|apply step_put|apply step_put_back|apply step_get|apply step_get_back|apply step_parse|apply step_parse_back
    |apply step_link].
Qed.

Lemma tunnel_run_sim t os t' P :
  tunnel_ok t -> flow_inv compression (toFlow t) -> represents (toFlow t) P -> tunnel_run t os t' ->
  exists P', pipe_run P os P' /\ flow_inv compression (toFlow t') /\ represents (toFlow t') P'.
Proof.
  intros Hok HF HR Hrun. revert P Hok HF HR. induction Hrun as [t|t o t1 os t2 Hs Hrun IH]; intros P Hok HF HR.
  { exists P. by split; [constructor|]. }
  destruct (step_simulated o _ _ Hok HF Hs) as [Hok' [fo Hk Heq Hobs|Heq Hobs]].
  - destruct (step_sim compression _ fo P Hk HF HR) as (P1 & Hps & HR1). rewrite <- Heq in HR1. rewrite <- Hobs in Hps.
    destruct (IH P1) as (P2 & Hr & HR2); [done| |done|].
    { rewrite Heq. by apply flow_inv_run. }
    exists P2. split; [by eapply PpMore|done].
  - destruct (IH P) as (P2 & Hr & HR2); [done|by rewrite Heq..|]. exists P2. split; [|done].
    rewrite Hobs. eapply PpMore; [constructor|done].
Qed.
End Tunnel.

(** Stream [n], open at both ends, over a link and lanes in use. *)
Definition newTunnel (l : link) (there back : lane) (n : Z) : tunnel :=
  mkTunnel l (markOpened (newStream n) None) (Approve (newStream n)).1 there back [] [] [] None.

Lemma newTunnel_ok n sid cfgA cfgB l there back :
  link_reachable sid cfgA cfgB l -> lane_ok there (wa l) (rb l) -> lane_ok back (wb l) (ra l) ->
  List.filter (ours_there n) (in_flight there) = [] -> List.filter (ours_back n) (in_flight back) = [] ->
  tunnel_ok n (newTunnel l there back n) /\ toFlow n (newTunnel l there back n) = newFlow n.
Proof.
  intros Hl Ht Hb Hft Hfb. split; [by split; [eapply link_reachable_inv|..]|].
  unfold toFlow. cbn -[in_flight]. by rewrite Hft, Hfb.
Qed.

Fixpoint tunnelRun `{Flate} (compression : bool) (sid : Z) (t : tunnel) (ops : list tunnelOp) : option (list observation * tunnel) :=
  match ops with
  | [] => Some ([], t)
  | o :: ops =>
      match tunnel_step compression sid t o with
      | Some t' =>
          match tunnelRun compression sid t' ops with
          | Some (os, t'') => Some (t_observe compression t o :: os, t'')
          | None => None
          end
      | None => None
      end
  end.

Lemma tunnelRun_run `{Flate} compression sid t ops os t' :
  tunnelRun compression sid t ops = Some (os, t') -> tunnel_run compression sid t os t'.
Proof.
  revert t os. induction ops as [|o ops IH]; intros t os; cbn [tunnelRun]; [intros [= <- <-]; constructor|].
  destruct (tunnel_step compression sid t o) as [t1|] eqn:E; [|done].
  destruct (tunnelRun compression sid t1 ops) as [[os' t2]|] eqn:E'; [|done]. intros [= <- <-]. eapply TrMore; [done|by apply IH].
Qed.

(** A writes and half-closes, the DATA packet arrives twice and the FIN's first,
    B reads the text and the end of file. *)
Definition demoTunnelOps : list tunnelOp :=
  let data := encodeFrame (mkFrame FrameData 1 (Byte.x00 :: demoText)) in
  let fin := encodeFrame (mkFrame FrameFIN 1 []) in
  [ TLink true (OClientHello 185);
    TLink false (OServerAck 200 [demoHello.1; demoHello.2]);
    TLink false (OAttach 1 200 185 1000);
    TLink true (OClientFinish 185 (normalized demoConfig) demoAck);
    TLink true (OAttach 1 185 185 1000);
    TWrite demoText; TSend; TPut; TLink true (OTake 1 2000);
    TCloseWrite; TSend; TPut; TLink true (OTake 1 2001);
    TLink false (OReceive 1 (Some (dataPacket (zlen data) fin)) 3000);
    TRead 5;
    TLink false (OReceive 1 (Some (dataPacket 0 data)) 3001);
    TLink false (OReceive 1 (Some (dataPacket 0 data)) 3002);
    TGet 10; TGet 100; TParse; TParse; TRead 5; TRead 5 ].

Definition demoTunnelRun : list observation * tunnel :=
  default ([], newTunnel (new_link demoID demoConfig demoConfig) newLane newLane 1)
    (tunnelRun (H := rawFlate) true 1 (newTunnel (new_link demoID demoConfig demoConfig) newLane newLane 1) demoTunnelOps).

Example demoTunnel_delivers :
  List.filter (fun o => match o with OSilent => false | _ => true end) demoTunnelRun.1
  = [OWrote demoText; OClosedWrite; OReadBlocked; ORead demoText; OReadEOF].
Proof. vm_compute. reflexivity. Qed.

(** * Properties *)

(** C2. Through every layer, a stream direction is a bounded FIFO pipe with end
    of file.  The writer's frames are encoded into one session of the link
    among the frames of other streams, accepted in pieces of any size, carried
    by packets that are lost, duplicated, reordered and resent over several
    bindings, read back in pieces of any size, parsed and delivered, and the
    window updates return the same way.  From any reachable link, with other
    frames already on the way, every run shows the callers of [Write],
    [CloseWrite] and [Read] a run of the pipe that starts empty; what was
    written is what was read followed by the pipe's content; and no layer
    reports a protocol error. *)
Theorem tunnel_refines_pipe `{Flate} compression n id cfgA cfgB l there back os t :
  0 < n < 2 ^ 32 -> link_reachable id cfgA cfgB l ->
  lane_ok there (wa l) (rb l) -> lane_ok back (wb l) (ra l) ->
  List.filter (ours_there n) (in_flight there) = [] -> List.filter (ours_back n) (in_flight back) = [] ->
  tunnel_run compression n (newTunnel l there back n) os t ->
  t_failed t = None /\
  exists P, pipe_run (mkPipe [] false) os P /\ t_written t = t_received t ++ p_data P /\
    p_eof P = localWriteClosed (t_writer t).
Proof.
  intros Hn Hl Ht Hb Hft Hfb Hrun.
  destruct (newTunnel_ok n id cfgA cfgB l there back) as [Hok Hf]; [done..|].
  destruct (tunnel_run_sim compression n Hn (newTunnel l there back n) os t (mkPipe [] false)) as (P & Hr & HF & Hw & He);
    rewrite ?Hf; try done; [apply newFlow_inv|].
  split; [apply (fi_failed _ _ HF)|]. by exists P.
Qed.

Lemma tunnel_refines_pipe_witness :
  t_failed demoTunnelRun.2 = None /\
  exists P, pipe_run (mkPipe [] false) demoTunnelRun.1 P /\
    t_written demoTunnelRun.2 = t_received demoTunnelRun.2 ++ p_data P /\
    p_eof P = localWriteClosed (t_writer demoTunnelRun.2).
Proof.
  apply (tunnel_refines_pipe (H := rawFlate) true 1 demoID demoConfig demoConfig (new_link demoID demoConfig demoConfig) newLane newLane);
    [lia|apply LrInit|by split|by split|done|done|].
  apply (tunnelRun_run _ _ _ demoTunnelOps). vm_compute. reflexivity.
Defined.
