(* ===== verification/TunnelLiveness.v ===== *)
(** * A stream through the link makes progress

    The liveness side of Tunnel: from every reachable tunnel whose two sessions
    hold a binding, and with every packet sent before lost, some run of the loops
    alone — write loop, read loops, send loops, receive loops — and the reader's
    [Read] brings everything written to the reader, and then the end of file. *)

From stdpp Require Import relations.
From S2P Require Export LinkLiveness Tunnel.

(** An acknowledged sender has room. *)
Lemma write_progress l p :
  deliverable l -> txBase (la l) = txNext (la l) -> p <> [] ->
  zlen (wa l) + zlen p + 244 * maxFlightWindowPackets < 2 ^ 64 ->
  exists n, 0 < n <= zlen p /\ oc_written (ep_run (la l) (OWrite p)) = slice_to p n /\
    deliverable (run_a l (OWrite p)).
Proof.
  intros (Hi & [ba Hca] & Hcb & HW & Hwrap) Hbase Hp Hb.
  pose proof (li_a _ Hi) as Ha. pose proof (eo_tx _ _ _ _ _ Ha) as Htx.
  pose proof (ts_next _ _ (eo_txs _ _ _ _ _ Ha)) as Hn.
  assert (0 < zlen p) as Hpos by (destruct p; [done|zl]).
  assert (link_inv (run_a l (OWrite p))) as Hi' by (apply link_inv_run_a; [done|done|intros q Hq; by apply elem_of_nil in Hq]).
  destruct (LinkSession.Write (length p) (la l) p 0) as [[s' k] t] eqn:Ew. pose proof Ew as Hspec.
  apply Write_spec_aux in Hspec as (n & -> & Hk & _ & _ & _ & Hc & _); [|done|done]. cbn [Z.add] in *.
  assert (ep_run (la l) (OWrite p) = mkOutcome s' (slice_to p n) [] []) as Hrun by (cbn [ep_run]; by rewrite Ew).
  exists n. split; [split; [|lia]|split; [by rewrite Hrun|]].
  - destruct (length p) as [|f] eqn:El; [by destruct p|]. cbn [LinkSession.Write] in Ew.
    rewrite (proj2 (Z.eqb_neq _ _)) in Ew by lia. destruct (Write_turn (la l) p) as [s1 t1] eqn:Et. pose proof Et as Hturn.
    apply Write_turn_spec in Hturn as (Htx1 & _); [|done|done].
    assert (exists m, 0 < m <= zlen p /\ t1 = Wrote m) as (m & Hm & ->).
    { assert (0 < writeSpace (la l)) as Hs.
      { unfold writeSpace. rewrite Hca, (tx_len _ Htx), Hbase, Z.sub_diag.
        destruct (eo_config _ _ _ _ _ Ha) as (_ & Hrw & _). unfold liveWriteWindow. lia. }
      revert Et. unfold Write_turn, max_u64, maxFlightWindowPackets in *. rewrite (bound_open_a _ _ Hi Hca), (proj2 (Z.ltb_lt _ _) Hs).
      cbn zeta. rewrite (proj2 (Z.ltb_ge _ _)) by lia. intros [= _ <-]. eexists. split; [|done]. lia. }
    apply Write_spec_aux in Ew as (n' & Hn' & Hk' & _); [lia|done|]. zl.
  - split_and!; try done.
    + cbn [run_a la]. rewrite Hrun. cbn [oc_session]. rewrite Hc. by exists ba.
    + rewrite (ts_next _ _ (eo_txs _ _ _ _ _ (li_a _ Hi'))). cbn [run_a wa]. rewrite Hrun. cbn [oc_written].
      rewrite zlen_app, zlen_slice_to by lia. lia.
Qed.

Section Liveness.
Context `{Flate} (compression : bool) (sid : Z) (Hsid : 0 < sid < 2 ^ 32).

(** What the loops do besides a turn of a send loop or a receive loop, and the
    reader's [Read]. *)
Definition loopOp (o : tunnelOp) : bool :=
  match o with TSend | TPut | TGet _ | TGetBack _ | TParse | TRead _ => true | _ => false end.

Definition readTurn (x : turn) : bool := match x with ReadTurn _ => true | _ => false end.

(** The tunnel and the clock: a read or write loop, or a turn of a loop of one of
    the two sessions. *)
Inductive loops_step : Z * tunnel -> Z * tunnel -> Prop :=
  | LoopsOp τ now t o t' : τ <= now -> loopOp o = true -> tunnel_step compression sid t o = Some t' ->
      loops_step (τ, t) (now, t')
  | LoopsA τ now t x : τ <= now -> 0 < now -> readTurn x = false -> turn_ok (toA (t_link t)) x ->
      loops_step (τ, t) (now, t <| t_link := turn_a now (t_link t) x |>)
  | LoopsB τ now t x : τ <= now -> 0 < now -> readTurn x = false -> turn_ok (toB (t_link t)) x ->
      loops_step (τ, t) (now, t <| t_link := turn_b now (t_link t) x |>).

(** Every packet sent so far is lost. *)
Definition lose_packets (t : tunnel) : tunnel := t <| t_link := lose (t_link t) |>.

Definition good (t : tunnel) : Prop := tunnel_ok sid t /\ flow_inv compression (toFlow sid t).

(** Both sides are bound, and the 64-bit offsets are not about to run out. *)
Definition live (t : tunnel) : Prop :=
  is_Some (current (la (t_link t))) /\ is_Some (current (lb (t_link t))) /\
  244 <= ReplayWindow (config (lb (t_link t))) /\
  zlen (wa (t_link t)) + zlen (ln_rest (t_there t)) + zlen (encodeFrames (outbound (t_writer t)))
    + 244 * maxFlightWindowPackets < 2 ^ 64.

Lemma good_step t t' o : good t -> tunnel_step compression sid t o = Some t' -> good t'.
Proof.
  intros [Hok HF] Hs. destruct (step_simulated compression sid Hsid o _ _ Hok HF Hs) as [Hok' Hm]. split; [done|].
  destruct Hm as [fo Hk Heq _|Heq _]; rewrite Heq; [|done]. by apply flow_inv_run.
Qed.

Lemma lose_good t : good t -> good (lose_packets t).
Proof.
  intros [[H1 H2 H3 H4 H5] HF]. unfold lose_packets. destruct t as [l w r x y us wr rc e]. cbn in *.
  split; [|done]. split; cbn; try done. by apply lose_inv.
Qed.

(** An operation of a session's loop, and the same under the tunnel. *)
Lemma link_op_good t (side : bool) o :
  linkOp o = true -> op_clock o -> (forall p, p ∈ op_packets o -> p ∈ (if side then toA (t_link t) else toB (t_link t))) ->
  good t -> good (t <| t_link := if side then run_a (t_link t) o else run_b (t_link t) o |>).
Proof.
  intros Ho Hc Hp Hg. apply (good_step t _ (TLink side o) Hg). cbn [tunnel_step]. rewrite Ho. unfold allowed.
  rewrite bool_decide_eq_true_2 by done. rewrite (proj2 (forallb_forall _ _)); [done|].
  intros p Hin. apply bool_decide_eq_true, Hp. by apply list_elem_of_In.
Qed.

Lemma turn_a_good t now x :
  0 < now -> readTurn x = false -> turn_ok (toA (t_link t)) x -> good t -> good (t <| t_link := turn_a now (t_link t) x |>).
Proof.
  intros Hn Hx Hok Hg. apply (turn_a_ind (fun l => good (t <| t_link := l |>)) now (t_link t) x); try done; [|by destruct t].
  intros l o Ho Hc Hp Hl. apply (link_op_good (t <| t_link := l |>) true o) in Hl; try (by destruct t).
  by destruct x, o.
Qed.

Lemma turn_b_good t now x :
  0 < now -> readTurn x = false -> turn_ok (toB (t_link t)) x -> good t -> good (t <| t_link := turn_b now (t_link t) x |>).
Proof.
  intros Hn Hx Hok Hg. unfold turn_b.
  apply (turn_a_ind (fun l => good (t <| t_link := link_swap l |>)) now (link_swap (t_link t)) x); try done;
    [|by rewrite link_swap_swap; destruct t].
  intros l o Ho Hc Hp Hl. apply (link_op_good (t <| t_link := link_swap l |>) false o) in Hl; try (by destruct t); try (by destruct x, o).
Qed.

Lemma loops_good m m' : loops_step m m' -> good m.2 -> good m'.2.
Proof.
  intros [τ now t o t' _ _ Ho|τ now t x _ Hn Hx Hok|τ now t x _ Hn Hx Hok] Hg; cbn [snd] in *.
  - by eapply good_step.
  - by apply turn_a_good.
  - by apply turn_b_good.
Qed.

Lemma live_deliverable t : good t -> live t -> deliverable (t_link t).
Proof.
  intros [[HL _ _ _ _] _] (Ha & Hb & HW & Hn). split_and!; try done.
  rewrite (ts_next _ _ (eo_txs _ _ _ _ _ (li_a _ HL))).
  pose proof (zlen_nonneg (ln_rest (t_there t))). pose proof (zlen_nonneg (encodeFrames (outbound (t_writer t)))). lia.
Qed.

(** What a step of the link alone leaves. *)
Definition calm (t t' : tunnel) : Prop := toFlow sid t' = toFlow sid t /\ ln_rest (t_there t') = ln_rest (t_there t).

#[export] Instance calm_preorder : PreOrder calm.
Proof. split; [by split|]. intros t1 t2 t3 [] []. split; congruence. Qed.

Lemma move_tunnel τ t τ' l' :
  link_move (τ, t_link t) (τ', l') -> exists t', loops_step (τ, t) (τ', t') /\ t_link t' = l' /\ calm t t'.
Proof.
  inversion 1 as [? ? ? x Hτ Hn Hok|? ? ? x Hτ Hn Hok]; subst; clear H0.
  - destruct x as [|p|n].
    1: exists (t <| t_link := turn_a τ' (t_link t) SendTurn |>).
    2: exists (t <| t_link := turn_a τ' (t_link t) (ReceiveTurn p) |>).
    1,2: split; [by apply LoopsA|by split_and!; destruct t].
    eexists. split; [apply (LoopsOp _ _ _ (TGetBack n)); [done|done|cbn [tunnel_step]; by rewrite bool_decide_eq_true_2]|by destruct t].
  - destruct x as [|p|n].
    1: exists (t <| t_link := turn_b τ' (t_link t) SendTurn |>).
    2: exists (t <| t_link := turn_b τ' (t_link t) (ReceiveTurn p) |>).
    1,2: split; [by apply LoopsB|by split_and!; destruct t].
    eexists. split; [apply (LoopsOp _ _ _ (TGet n)); [done|done|cbn [tunnel_step]; by rewrite bool_decide_eq_true_2]|by destruct t].
Qed.

Lemma moves_tunnel τ t τ' l' :
  good t -> rtc link_move (τ, t_link t) (τ', l') ->
  exists t', rtc loops_step (τ, t) (τ', t') /\ good t' /\ t_link t' = l' /\ calm t t'.
Proof.
  intros Hg Hm. remember (τ, t_link t) as m eqn:Em. remember (τ', l') as m' eqn:Em'.
  revert τ t Hg Em. induction Hm as [m|m [τ1 l1] m2 Hm _ IH]; intros τ t Hg ->.
  { injection Em' as -> <-. exists t. by split_and!. }
  destruct (move_tunnel _ _ _ _ Hm) as (t1 & Hs & Hl & Hc). pose proof (loops_good _ _ Hs Hg) as Hg1. cbn [snd] in Hg1.
  destruct (IH Em' τ1 t1 Hg1) as (t2 & Hs2 & Hg2 & Hl2 & Hc2); [by rewrite Hl|].
  exists t2. split_and!; [by eapply rtc_l|done|done|by etrans].
Qed.

Lemma loop_op τ t o t' : loopOp o = true -> tunnel_step compression sid t o = Some t' -> loops_step (τ, t) (τ, t').
Proof. intros Ho Hs. by eapply LoopsOp. Qed.

Lemma calm_writer t t' : calm t t' -> t_writer t' = t_writer t.
Proof. intros [Hf _]. exact (f_equal writer Hf). Qed.

(** The bytes of the frame being written arrive. *)
Lemma flush τ t :
  good t -> live t ->
  exists τ' t', rtc loops_step (τ, t) (τ', t') /\ good t' /\ live t' /\ toFlow sid t' = toFlow sid t /\
    ln_rest (t_there t') = [] /\ rb (t_link t') = wa (t_link t').
Proof.
  remember (length (ln_rest (t_there t))) as k eqn:Ek. revert τ t Ek.
  induction (lt_wf k) as [k _ IH]. intros τ t -> Hg Hl.
  destruct (link_flush τ (t_link t)) as (τ1 & l1 & Hm & Hd1 & Hw1 & Hrb1 & Hb1); [by apply live_deliverable|].
  destruct (moves_tunnel τ t τ1 l1 Hg Hm) as (t1 & Hs1 & Hg1 & Hl1 & Hc1). pose proof (calm_writer _ _ Hc1) as Hwr.
  destruct Hc1 as [Hf1 Hr1]. destruct Hl as (_ & _ & _ & Hbound). pose proof Hd1 as (_ & Ha & Hb & HW & _).
  assert (live t1) as Hlive1 by (unfold live; rewrite Hl1, Hw1, Hr1, Hwr; done).
  destruct (decide (ln_rest (t_there t1) = [])) as [Hnil|Hne].
  { exists τ1, t1. split_and!; try done. by rewrite Hl1, Hrb1, Hw1. }
  pose proof (zlen_nonneg (encodeFrames (outbound (t_writer t)))).
  destruct (write_progress l1 (ln_rest (t_there t1))) as (n & Hn & Hout & Hd2); [done|done|done|rewrite Hw1, Hr1; lia|].
  set (o := OWrite (ln_rest (t_there t1))) in *. set (t2 := t1 <| t_there := lane_put (t_there t1) (length (slice_to (ln_rest (t_there t1)) n)) |> <| t_link := run_a l1 o |>).
  assert (tunnel_step compression sid t1 TPut = Some t2) as Hs2 by (cbn [tunnel_step]; fold o; by rewrite Hl1, Hout).
  assert (ln_rest (t_there t2) = slice_from (ln_rest (t_there t1)) n) as Hr2.
  { destruct t1. cbn in *. unfold slice_from, slice_to. f_equal. zl. }
  assert (t_link t2 = run_a l1 o) as Hl2 by (by destruct t1).
  assert (toFlow sid t2 = toFlow sid t1) as Hf2 by (by destruct t1).
  assert (t_writer t2 = t_writer t1) as Hw2 by (by destruct t1).
  destruct (IH (length (ln_rest (t_there t2)))) with (τ := τ1) (t := t2) as (τ3 & t3 & Hs3 & Hg3 & Hl3 & Hf3 & Hr3 & Hw3).
  - rewrite <- Hr1, Hr2. zl.
  - done.
  - by eapply good_step.
  - unfold live. rewrite Hl2, Hr2, Hw2, Hwr, zlen_slice_from by lia. destruct Hd2 as (_ & Ha2 & Hb2 & HW2 & _). split_and!; try done.
    cbn [run_a wa]. rewrite Hout, zlen_app, zlen_slice_to, Hw1 by lia. rewrite Hr1 in *. lia.
  - exists τ3, t3. split_and!; try done; [|congruence]. etrans; [done|]. eapply rtc_l; [by apply (loop_op _ _ TPut)|done].
Qed.

(** Everything written to the session and read from it: the next frame is there. *)
Lemma lane_parse_whole x σ f fs :
  lane_ok x σ σ -> ln_rest x = [] -> in_flight x = f :: fs ->
  exists x', lane_parse x = PFrame x' f /\ in_flight x' = fs /\ ln_rest x' = [].
Proof.
  intros [Hs He Hg [gs Hp]] Hr Hf. destruct x as [sent rest got buf]. unfold in_flight in *. cbn in *. subst rest sent.
  rewrite drop_app_length in Hf. subst gs. rewrite app_nil_r, encodeFrames_app in He. rewrite He in Hg.
  apply app_inv_head in Hg. apply Forall_app in Hs as [_ Hs]. apply Forall_cons in Hs as [Hf _].
  unfold lane_parse. cbn [ln_buf]. rewrite <- Hg, encodeFrames_cons, ReadFrame_encode by done.
  eexists. split; [reflexivity|]. cbn. split; [|done]. rewrite length_app. cbn [length].
  rewrite drop_app_ge by lia. by replace (length got + 1 - length got)%nat with 1%nat by lia.
Qed.

Lemma deliver_keeps t f :
  let t' := deliver compression sid t f in
  t_link t' = t_link t /\ t_writer t' = t_writer t /\ t_there t' = t_there t /\ t_written t' = t_written t.
Proof.
  unfold deliver. destruct (negb _); [done|]. case_bool_decide; [done|]. by destruct (receiveData _ _ _).
Qed.

Lemma parse_all τ t :
  good t -> live t -> ln_rest (t_there t) = [] -> rb (t_link t) = wa (t_link t) ->
  exists τ' t', rtc loops_step (τ, t) (τ', t') /\ good t' /\ live t' /\ t_writer t' = t_writer t /\ t_written t' = t_written t /\
    ln_rest (t_there t') = [] /\ in_flight (t_there t') = [].
Proof.
  remember (in_flight (t_there t)) as fs eqn:Ef. revert t Ef. induction fs as [|f fs IH]; intros t Ef Hg Hl Hr Hb.
  { exists τ, t. by split_and!. }
  pose proof (ti_there _ _ (proj1 Hg)) as Hlane. rewrite Hb in Hlane.
  destruct (lane_parse_whole _ _ _ _ Hlane Hr (eq_sym Ef)) as (x & Hp & Hx & Hrx).
  set (t1 := deliver compression sid (t <| t_there := x |>) f).
  assert (tunnel_step compression sid t TParse = Some t1) as Hs1 by (cbn [tunnel_step]; by rewrite Hp).
  assert (t_link t1 = t_link t /\ t_writer t1 = t_writer t /\ t_there t1 = x /\ t_written t1 = t_written t) as (E1 & E2 & E3 & E4).
  { unfold t1. destruct (deliver_keeps (t <| t_there := x |>) f) as (-> & -> & -> & ->). by destruct t. }
  destruct (IH t1) as (τ2 & t2 & Hs2 & Hg2 & Hl2 & Hw2 & Hwr2 & H2); [by rewrite E3|by eapply good_step| |by rewrite E3|by rewrite E1|].
  - destruct Hl as (La & Lb & LW & Ln). unfold live. rewrite E1, E2, E3, Hrx. rewrite Hr in Ln. done.
  - exists τ2, t2. split_and!; [|done|done|congruence|congruence|apply H2|apply H2]. eapply rtc_l; [by apply (loop_op _ _ TParse)|done].
Qed.

(** Frame after frame of the writer's queue. *)
Lemma drain_outbound τ t :
  good t -> live t ->
  exists τ' t', rtc loops_step (τ, t) (τ', t') /\ good t' /\ t_written t' = t_written t /\
    localWriteClosed (t_writer t') = localWriteClosed (t_writer t) /\
    outbound (t_writer t') = [] /\ in_flight (t_there t') = [].
Proof.
  remember (length (outbound (t_writer t))) as k eqn:Ek. revert τ t Ek. induction k as [|k IH]; intros τ t Ek Hg Hl.
  all: destruct (flush τ t Hg Hl) as (τ1 & t1 & Hs1 & Hg1 & Hl1 & Hf1 & Hr1 & Hb1).
  all: destruct (parse_all τ1 t1 Hg1 Hl1 Hr1 Hb1) as (τ2 & t2 & Hs2 & Hg2 & Hl2 & Hw2 & Hwr2 & Hr2 & Hi2).
  all: pose proof (f_equal writer Hf1 : t_writer t1 = t_writer t) as Hw1.
  all: pose proof (f_equal written Hf1 : t_written t1 = t_written t) as Hwr1.
  all: assert (rtc loops_step (τ, t) (τ2, t2)) as Hs by (by etrans).
  { exists τ2, t2. split_and!; try done; [congruence..|]. rewrite Hw2, Hw1. by destruct (outbound (t_writer t)). }
  destruct (outbound (t_writer t2)) as [|f rest] eqn:Eo; [rewrite Hw2, Hw1 in Eo; by rewrite Eo in Ek|].
  destruct (nextOutbound (t_writer t2)) as [s y] eqn:En. pose proof (nextOutbound_closed _ _ _ En) as Hcl.
  assert (exists z, y = Some (f, z) /\ outbound s = rest) as (z & -> & Hrest).
  { revert En. unfold nextOutbound. rewrite Eo. cbn zeta. destruct (0 <? zlen rest); intros [= <- <-]; by eexists. }
  pose proof (ti_outbound _ _ (proj1 Hg2)) as Ho. rewrite Eo in Ho. apply Forall_cons in Ho as [[(Hv & _) _] _].
  set (t3 := t2 <| t_writer := s |> <| t_there := lane_send (t_there t2) f |>).
  assert (tunnel_step compression sid t2 TSend = Some t3) as Hs3.
  { cbn [tunnel_step]. unfold idle. rewrite Hr2, En. cbn. unfold send_there. rewrite Hv. by destruct t2. }
  assert (t_link t3 = t_link t2 /\ t_writer t3 = s /\ ln_rest (t_there t3) = encodeFrame f /\ t_written t3 = t_written t2)
    as (E1 & E2 & E3 & E4) by (by destruct t2).
  destruct (IH τ2 t3) as (τ4 & t4 & Hs4 & Hg4 & Hwr4 & Hc4 & H4).
  - rewrite E2, Hrest. rewrite <- Hw1, <- Hw2, Eo in Ek. by injection Ek.
  - by eapply good_step.
  - destruct Hl2 as (La & Lb & LW & Ln). unfold live. rewrite E1, E2, E3, Hrest. rewrite Eo, Hr2, encodeFrames_cons, zlen_app, zlen_nil in Ln.
    split_and!; try done. lia.
  - exists τ4, t4. split_and!; [|done|congruence|congruence|apply H4|apply H4]. etrans; [exact Hs|].
    eapply rtc_l; [by apply (loop_op _ _ TSend)|done].
Qed.

Lemma run_good t os t' : good t -> tunnel_run compression sid t os t' -> good t'.
Proof. intros Hg Hr. induction Hr as [|t o t1 os t2 Hs _ IH]; [done|]. apply IH. by eapply good_step. Qed.

(** Nothing on its way forward and nothing unread. *)
Lemma flow_drained f :
  flow_inv compression f -> outbound (writer f) = [] -> forward f = [] -> inbound (reader f) = [] ->
  received f = written f /\ (localWriteClosed (writer f) = true -> remoteWriteClosed (reader f) = true).
Proof.
  intros [_ _ (ds & n & Hfr & _ & _ & Hw & _) _ _ _ _ _] Ho Hf Hi. rewrite Ho, Hf in Hfr.
  symmetry in Hfr. apply app_nil in Hfr as [-> Hfin]. rewrite Hi in Hw. cbn in Hw. rewrite app_nil_r in Hw.
  split; [done|]. intros Hc. rewrite Hc in Hfin. by destruct (remoteWriteClosed (reader f)).
Qed.

Lemma tunnel_drains τ t :
  good t -> live t ->
  exists τ' t', rtc loops_step (τ, t) (τ', t') /\ t_written t' = t_written t /\ t_received t' = t_written t /\
    (localWriteClosed (t_writer t) = true -> t_observe compression t' (TRead 1) = OReadEOF).
Proof.
  intros Hg Hl. destruct (drain_outbound τ t Hg Hl) as (τ1 & t1 & Hs1 & Hg1 & Hw1 & Hc1 & Ho1 & Hi1).
  destruct (read_flow compression sid t1 (zlen (inbound (t_reader t1)))) as (t2 & Hs2 & Hf2 & E1 & E2 & E3 & E4); [apply zlen_nonneg|].
  pose proof (good_step _ _ _ Hg1 Hs2) as [_ HF2].
  destruct (read_all compression _ (proj2 Hg1)) as (Hin & Hwr & Hfw). cbn zeta in Hin, Hwr, Hfw.
  change (inbound (reader (toFlow sid t1))) with (inbound (t_reader t1)) in Hin, Hwr, Hfw. rewrite <- Hf2 in Hin, Hwr, Hfw.
  destruct (flow_drained (toFlow sid t2)) as [Hrec Heof]; [done|by cbn; rewrite E2|by rewrite Hfw; unfold toFlow; cbn -[in_flight]; rewrite Hi1|done|].
  assert (t_written t2 = t_written t1) as Hw2.
  { change (written (toFlow sid t2) = written (toFlow sid t1)). rewrite Hf2. by apply passive_written, zlen_nonneg. }
  change (t_received t2 = t_written t2) in Hrec. exists τ1, t2. split_and!; [|congruence|congruence|].
  - eapply rtc_r; [done|]. by apply (loop_op _ _ (TRead (zlen (inbound (t_reader t1))))).
  - intros Hc. change (inbound (t_reader t2) = []) in Hin.
    assert (remoteWriteClosed (t_reader t2) = true) as Hr by (apply Heof; cbn; congruence).
    unfold t_observe, MuxStream.Read. by rewrite Hin, Hr.
Qed.
End Liveness.

(** * Properties *)

(** C4. Through every layer, delivery stays within reach: from every state that
    some run of the tunnel reaches and in which both sessions hold a binding,
    and with every packet sent so far lost, the loops alone — the write loop, the
    read loops, the turns of the sessions' send and receive loops on packets sent
    from now on, under a clock that never goes back — and the reader's [Read]
    bring the reader everything written so far, and if the writer half-closed,
    the next [Read] reports the end of file.  [live] also asks that the
    receiver's replay window hold one packet and that the 64-bit offsets not be
    about to run out. *)
Theorem tunnel_delivers `{Flate} compression n id cfgA cfgB l there back os t τ :
  0 < n < 2 ^ 32 -> link_reachable id cfgA cfgB l ->
  lane_ok there (wa l) (rb l) -> lane_ok back (wb l) (ra l) ->
  List.filter (ours_there n) (in_flight there) = [] -> List.filter (ours_back n) (in_flight back) = [] ->
  tunnel_run compression n (newTunnel l there back n) os t -> live t ->
  exists τ' t', rtc (loops_step compression n) (τ, lose_packets t) (τ', t') /\
    t_written t' = t_written t /\ t_received t' = t_written t /\
    (localWriteClosed (t_writer t) = true -> t_observe compression t' (TRead 1) = OReadEOF).
Proof.
  intros Hn Hl Ht Hb Hft Hfb Hrun Hlive. destruct (newTunnel_ok n id cfgA cfgB l there back) as [Hok Hf]; [done..|].
  assert (good compression n t) as Hg by (eapply run_good; [done| |done]; split; [done|]; rewrite Hf; apply newFlow_inv).
  destruct (tunnel_drains compression n Hn τ (lose_packets t)) as (τ' & t' & Hs & Hw & Hr & He);
    [by apply lose_good|destruct t; exact Hlive|].
  exists τ', t'. destruct t. by split_and!.
Qed.

(** The writer half-closed and its packets were lost. *)
Definition lostTunnelOps : list tunnelOp := take 13 demoTunnelOps.

Definition lostTunnelRun : list observation * tunnel :=
  default ([], newTunnel (new_link demoID demoConfig demoConfig) newLane newLane 1)
    (tunnelRun (H := rawFlate) true 1 (newTunnel (new_link demoID demoConfig demoConfig) newLane newLane 1) lostTunnelOps).

Lemma tunnel_delivers_witness :
  exists τ' t', rtc (loops_step (H := rawFlate) true 1) (5000, lose_packets lostTunnelRun.2) (τ', t') /\
    t_written t' = t_written lostTunnelRun.2 /\ t_received t' = t_written lostTunnelRun.2 /\
    (localWriteClosed (t_writer lostTunnelRun.2) = true -> t_observe (H := rawFlate) true t' (TRead 1) = OReadEOF).
Proof.
  apply (tunnel_delivers (H := rawFlate) true 1 demoID demoConfig demoConfig (new_link demoID demoConfig demoConfig) newLane newLane lostTunnelRun.1);
    [lia|apply LrInit|by split|by split|done|done| |].
  - apply (tunnelRun_run _ _ _ lostTunnelOps). vm_compute. reflexivity.
  - split_and!; [eexists|eexists|..]; vm_compute; reflexivity || discriminate.
Defined.
