(* ===== verification/MuxActions.v ===== *)
(** * What the goroutines of a session do

    [every P m]: each action a program may ever run satisfies [P].  [plain]
    actions are those that neither create a stream nor move a frame of a
    stream's queue; every goroutine but the write loop consists of plain actions,
    of [OpenService]'s [AOpen] on clients and of [handleOpen]'s [AHandleOpen] on
    servers.  MuxWire and MuxIds apply this to properties of their own. *)

From S2P Require Export MuxPool.

(** DATA and FIN frames travel through the streams' queues, all others through
    the control channel. *)
Definition queued (f : Frame) : bool := bool_decide (Type_ f = FrameData) || bool_decide (Type_ f = FrameFIN).

Fixpoint every (P : forall T, action T -> Prop) {R} (m : prog R) : Prop :=
  match m with
  | Ret _ => True
  | Act a k => P _ a /\ forall r, every P (k r)
  end.

Definition plainOp {T} (op : streamOp T) : bool := match op with SNextOutbound => false | _ => true end.

Definition plain {T} (a : action T) : bool :=
  match a with
  | AOpen | AHandleOpen _ | AWriteFrame _ | ATake | ATakeControl => false
  | AControl f => negb (queued f)
  | AStream _ op => plainOp op
  | _ => true
  end.

Lemma every_bind {A B} P (m : prog A) (f : A -> prog B) : every P m -> (forall r, every P (f r)) -> every P (pbind m f).
Proof. intros Hm Hf. induction m as [r|T a k IH]; cbn; [apply Hf|]. destruct Hm as [Ha Hk]. split; auto. Qed.

Create HintDb every.
#[export] Hint Resolve every_bind : every.

Section Every.
Context (P : forall T, action T -> Prop).
Context (Hplain : forall T (a : action T), plain a = true -> P T a).

(** Programs without loops by computation. *)
#[local] Ltac every :=
  repeat match goal with
  | |- every _ (pbind _ _) => apply every_bind; [|intros ?]
  | |- every _ (do _) => split; [by apply Hplain|done]
  | |- every _ (Act _ _) => split; [by apply Hplain|intros ?]
  | |- every _ (Ret _) => done
  | |- every _ (match ?x with _ => _ end) => destruct x
  | |- every _ (if ?x then _ else _) => destruct x
  end; eauto with every.

Lemma every_resetAll ps e : every P (resetAll ps e).
Proof. induction ps; cbn [resetAll]; every. Qed.
#[local] Hint Resolve every_resetAll : every.

Lemma every_shutdown e : every P (shutdown e).
Proof. unfold shutdown. every. Qed.
#[local] Hint Resolve every_shutdown : every.

Lemma every_sendControl f : queued f = false -> every P (sendControl f).
Proof.
  intros Hf. unfold sendControl. apply every_bind; [|intros r; every]. split; [|done].
  apply Hplain. cbn. by rewrite Hf.
Qed.

Lemma every_schedule p : every P (schedule p).
Proof. unfold schedule. every. Qed.

Lemma every_rotate n i : every P (rotate n i).
Proof. induction n; cbn [rotate]; every. Qed.
#[local] Hint Resolve every_schedule every_rotate : every.

Lemma every_removeStream i : every P (removeStream i).
Proof. unfold removeStream. every. Qed.
#[local] Hint Resolve every_removeStream : every.
#[local] Hint Extern 1 (every _ (sendControl _)) => apply every_sendControl; reflexivity : every.

Lemma every_streamReset p e : every P (streamReset p e).
Proof. unfold streamReset. every. Qed.

Lemma every_streamReject p e : every P (streamReject p e).
Proof. unfold streamReject. every. Qed.

Lemma every_streamApprove p : every P (streamApprove p).
Proof. unfold streamApprove. every. Qed.

Lemma every_streamCloseWrite p : every P (streamCloseWrite p).
Proof. unfold streamCloseWrite. every. Qed.

Lemma every_streamClose p : every P (streamClose p).
Proof. unfold streamClose. every. Qed.

Lemma every_streamWaitOpened turns p : every P (streamWaitOpened turns p).
Proof. induction turns; cbn [streamWaitOpened]; every. Qed.

Lemma every_streamRead turns p n : every P (streamRead turns p n).
Proof. induction turns; cbn [streamRead]; every. Qed.

Lemma every_streamWrite c turns p data written : every P (streamWrite c turns p data written).
Proof. revert data written. induction turns; intros; cbn [streamWrite]; every. Qed.
#[local] Hint Resolve every_streamReset every_streamReject every_streamApprove every_streamCloseWrite every_streamClose
  every_streamWaitOpened every_streamRead every_streamWrite : every.

Lemma every_OpenService c turns svc : (client c = true -> P _ AOpen) -> every P (OpenService c turns svc).
Proof.
  intros Hopen. unfold OpenService. destruct (client c) eqn:Hc; [|done]. cbn [negb]. destruct (_ <? _); [done|].
  apply every_bind; [split; [by apply Hopen|done]|intros r; every].
Qed.

Lemma every_Services : every P Services.
Proof. unfold Services. every. Qed.

Lemma every_Accept c : every P (Accept c).
Proof. unfold Accept. every. Qed.

Lemma every_countOpening ps : every P (countOpening ps).
Proof. induction ps; cbn [countOpening]; every. Qed.
#[local] Hint Resolve every_OpenService every_Services every_Accept every_countOpening : every.

Lemma every_Snapshot : every P Snapshot.
Proof. unfold Snapshot. every. Qed.
#[local] Hint Resolve every_Snapshot : every.

Lemma every_runCall c l : (client c = true -> P _ AOpen) -> every P (runCall c l).
Proof. intros Hopen. destruct l; cbn [runCall]; unfold discard, Close; every. Qed.

Lemma every_handleOpen c f : (client c = false -> P _ (AHandleOpen f)) -> every P (handleOpen c f).
Proof.
  intros Hh. unfold handleOpen. destruct (client c) eqn:Hc; [done|]. cbn [orb]. destruct (_ =? _); [done|].
  apply every_bind; [split; [by apply Hh|done]|intros r; every].
Qed.

Lemma every_dispatch c f p : every P (dispatch c f p).
Proof. unfold dispatch. cbv zeta. every. Qed.
#[local] Hint Resolve every_handleOpen every_dispatch : every.

Lemma every_handleFrame c f : (client c = false -> P _ (AHandleOpen f)) -> every P (handleFrame c f).
Proof. intros Hh. unfold handleFrame. every. Qed.
#[local] Hint Resolve every_handleFrame : every.

Lemma every_readLoop c input e : (forall f, client c = false -> P _ (AHandleOpen f)) -> every P (readLoop c input e).
Proof. intros Hh. induction input; cbn [readLoop]; every. Qed.

(** The write loop, when what it does besides is allowed too. *)
Lemma every_nextOutbound p : P _ (AStream p SNextOutbound) -> every P (nextOutbound p).
Proof. intros Hn. unfold nextOutbound. apply every_bind; [by split|]. intros r. every. Qed.

Lemma every_writeLoop turns :
  (forall p, P _ (AStream p SNextOutbound)) -> P _ ATake -> P _ ATakeControl -> (forall f, P _ (AWriteFrame f)) ->
  every P (writeLoop turns).
Proof.
  intros Hn Ht Hc Hw. pose proof (fun p => every_nextOutbound p (Hn p)) as Hnext.
  induction turns as [|turns IH]; [done|]. cbn [writeLoop]. cbv zeta.
  assert (forall f, every P (let! e := do (AWriteFrame f) in
    match e with Some e => shutdown (Some e) | None => writeLoop turns end)) as Hwrite.
  { intros f. apply every_bind; [by split|]. intros [e|]; every. }
  apply every_bind; [by split|]. intros first. apply every_bind; [destruct first; by try split|]. intros r. every.
  all: by split.
Qed.
End Every.
