(* ===== verification/MuxIds.v ===== *)
(** * Stream ids and the stream table

    The ids of a session's streams over its whole life, whatever the peer sends:
    unlike [pool_reachable], [pool_runs] lets a peer open an id again, which
    [handleOpen] refuses only while the stream that has it is still in the
    table. *)

From stdpp Require Import sorting.
From S2P Require Export MuxActions.

(** The branches of an action that succeed. *)
#[local] Ltac exec_cases :=
  repeat match goal with
  | H : locked ?s _ = Some _ |- _ => unfold locked in H; destruct (mu s) eqn:?; [done|]
  | H : (_ <$> ?x) = Some _ |- _ => destruct x eqn:?; cbn in H; [|done]
  | H : (_ ≫= _) = Some _ |- _ => apply bind_Some in H as (? & ? & H)
  | H : match ?x with _ => _ end = Some _ |- _ => destruct x eqn:?; try done
  end; simplify_eq.

Section Ids.
Context `{Flate} (c : Fixed).

(** The pool of MuxPool, with any input [ReadFrame] can deliver. *)
Inductive pool_runs : Session -> list (prog unit) -> Prop :=
  | RunsInit s input e turns :
      initial c s -> Forall incoming input -> pool_runs s [readLoop c input e; writeLoop turns]
  | RunsCall s ms l :
      pool_runs s ms -> pool_runs s (ms ++ [runCall c l])
  | RunsStep s ms i T (a : action T) k o s' r :
      pool_runs s ms -> ms !! i = Some (Act a k) -> exec c o a s = Some (s', r) -> pool_runs s' (<[i := k r]> ms).

(** Only clients open streams of their own, and only servers the peer's. *)
Definition side_ok {T} (a : action T) : Prop :=
  match a with AOpen => client c = true | AHandleOpen _ => client c = false | _ => True end.

Lemma side_plain T (a : action T) : plain a = true -> side_ok a.
Proof. by destruct a. Qed.

Lemma pool_runs_sides s ms : pool_runs s ms -> Forall (every (fun T a => side_ok a)) ms.
Proof.
  induction 1 as [s input e turns|s ms l _ IH|s ms i T a k o s' r _ IH Hm _].
  - constructor; [by apply every_readLoop; [apply side_plain|]|]. constructor; [|done]. by apply every_writeLoop; [apply side_plain|..].
  - apply Forall_app. split; [done|]. constructor; [|done]. by apply every_runCall; [apply side_plain|].
  - apply Forall_insert; [done|]. rewrite Forall_lookup in IH. by apply (IH _ _ Hm).
Qed.

(** ** The table and the ids *)

Definition ids (s : Session) : list Z := id <$> heap s.

Record ids_inv (s : Session) : Prop := {
  ii_size : Z.of_nat (size (streams s)) <= maxStreams c;
  ii_map : forall i p, streams s !! i = Some p -> ids s !! p = Some i;
  ii_client : client c = true ->
    StronglySorted Z.lt (ids s) /\ Forall (fun i => 0 < i /\ i mod 2 = 1) (ids s) /\
    (nextID s <> 0 -> 0 < nextID s < 2 ^ 32 /\ nextID s mod 2 = 1 /\ Forall (fun i => i < nextID s) (ids s))
}.

(** Everything but opening a stream leaves the ids alone and at most takes
    streams out of the table. *)
Record same_ids (s s' : Session) : Prop := {
  si_ids : ids s' = ids s;
  si_next : nextID s' = nextID s;
  si_streams : streams s' ⊆ streams s
}.

Lemma same_ids_refl s s' : heap s' = heap s -> nextID s' = nextID s -> streams s' = streams s -> same_ids s s'.
Proof. intros Hh Hn Hs. split; [by unfold ids; rewrite Hh|done|by rewrite Hs]. Qed.

Lemma runStream_id {T} (op : streamOp T) st : id (runStream c op st).1 = id st.
Proof.
  destruct op; cbn [runStream]; try done.
  - unfold Approve. by repeat case_match.
  - unfold Reject. by repeat case_match.
  - unfold markOpened. destruct (closed st) eqn:?; [done|]. by destruct e.
  - unfold Read. by repeat case_match.
  - unfold Write, enqueueLocked. by repeat (case_match; simplify_eq/=).
  - unfold receiveData. by repeat case_match.
  - unfold updateSendWindow. by repeat case_match.
  - unfold receiveFIN. by repeat case_match.
  - unfold receiveReset. by repeat case_match.
  - unfold CloseWrite, enqueueLocked. by repeat (case_match; simplify_eq/=).
  - unfold MuxStream.Close. by repeat case_match.
  - unfold Reset. by repeat case_match.
  - unfold MuxStream.nextOutbound. by repeat (case_match; simplify_eq/=).
  - by destruct read, write.
Qed.

Lemma select_elem {A} o (l : list A) x : select o l = Some x -> x ∈ l.
Proof. apply list_elem_of_lookup_2. Qed.

Lemma take_same s x : x ∈ takeCases s ++ readyCases s -> same_ids s x.1.
Proof.
  unfold takeCases, readyCases, when. intros Hx. repeat case_match; cbn in Hx;
    repeat (apply elem_of_cons in Hx as [->|Hx]; [by apply same_ids_refl|]); by apply not_elem_of_nil in Hx.
Qed.

Lemma accept_same o s x :
  x ∈ match ioErr o with Some e => [(s, AcceptContext e)] | None => [] end
    ++ when (sdone s) (s, AcceptClosed)
    ++ match accept s with p :: rest => [(s <| accept := rest |>, AcceptStream p)] | [] => [] end ->
  same_ids s x.1.
Proof.
  unfold when. intros Hx. repeat case_match; cbn in Hx;
    repeat (apply elem_of_cons in Hx as [->|Hx]; [by apply same_ids_refl|]); by apply not_elem_of_nil in Hx.
Qed.

Lemma exec_same_ids o T (a : action T) s s' r :
  (match a with AOpen | AHandleOpen _ => False | _ => True end) -> exec c o a s = Some (s', r) -> same_ids s s'.
Proof.
  intros Ha He. destruct a; cbn [exec] in He; try done; unfold scheduleLocked, shutdownLocked in He.
  all: try (apply select_elem in He; by apply (take_same s (s', r)) || apply (accept_same o s (s', r))).
  all: exec_cases; try (by apply same_ids_refl).
  - split; [done|done|apply map_empty_subseteq].
  - split; [done|done|apply delete_subseteq].
  - match goal with E : select _ _ = Some _ |- _ => apply select_elem in E end.
    eapply (take_same s (_, _)), elem_of_app. left. eassumption.
  - match goal with Hp : heap s !! ?p = Some ?st, E : runStream c ?op ?st = (?st', _) |- _ =>
      rename Hp into Hp0; assert (id st' = id st) as Hid by (change st' with (st', r).1; rewrite <- E; apply runStream_id) end.
    split; [|done|done]. unfold ids. cbn. rewrite list_fmap_insert. apply list_insert_id.
    by rewrite list_lookup_fmap, Hp0, Hid.
Qed.

Lemma same_ids_inv s s' : same_ids s s' -> ids_inv s -> ids_inv s'.
Proof.
  intros [Hi Hn Hs] [I1 I2 I3]. split; rewrite ?Hi, ?Hn; try done.
  - etrans; [|exact I1]. by apply inj_le, map_subseteq_size.
  - intros i p Hp. apply I2. by eapply lookup_weaken.
Qed.

(** A new stream under an id the table does not have. *)
Lemma new_stream_inv s s' st :
  heap s' = heap s ++ [st] -> streams s' = <[id st := length (heap s)]> (streams s) ->
  Z.of_nat (size (streams s)) < maxStreams c -> streams s !! id st = None -> ids_inv s ->
  (client c = true -> StronglySorted Z.lt (ids s') /\ Forall (fun i => 0 < i /\ i mod 2 = 1) (ids s') /\
    (nextID s' <> 0 -> 0 < nextID s' < 2 ^ 32 /\ nextID s' mod 2 = 1 /\ Forall (fun i => i < nextID s') (ids s'))) ->
  ids_inv s' /\ streams s ⊆ streams s'.
Proof.
  intros Hh Hs Hlt Hnew [I1 I2 I3] Hc. split; [|rewrite Hs; by apply insert_subseteq]. split; [|  |exact Hc].
  - rewrite Hs, map_size_insert_None by done. lia.
  - unfold ids. rewrite Hs, Hh, fmap_app. intros i p [(<- & <-)|[Hne Hp]]%lookup_insert_Some.
    + rewrite lookup_app_r by by rewrite length_fmap. rewrite length_fmap, Nat.sub_diag. done.
    + pose proof (I2 i p Hp) as Hi. by apply lookup_app_l_Some.
Qed.

Lemma sorted_snoc l x : StronglySorted Z.lt l -> Forall (fun i => i < x) l -> StronglySorted Z.lt (l ++ [x]).
Proof.
  induction 1 as [|y l Hl IH Hy]; intros Hx; cbn; [by repeat constructor|]. apply Forall_cons in Hx as [Hyx Hx].
  constructor; [by apply IH|]. apply Forall_app. by split; [|constructor].
Qed.

Lemma open_inv s s' p :
  client c = true -> ids_inv s -> openLocked c s = (s', inr p) -> ids_inv s' /\ streams s ⊆ streams s'.
Proof.
  intros Hc HI. pose proof HI as [I1 I2 I3]. destruct (I3 Hc) as (Hsort & Hodd & Hnext). unfold openLocked.
  destruct (sclosed s); [done|]. destruct (Z.leb_spec (maxStreams c) (Z.of_nat (size (streams s)))); [done|]. cbn zeta.
  destruct (Z.eqb_spec (nextID s) 0) as [|Hn]; [done|]. destruct (Hnext Hn) as (Hr & Hm & Hlt). intros [= <- <-].
  apply (new_stream_inv _ _ (newStream (nextID s))); try done.
  - destruct (streams s !! id (newStream (nextID s))) as [q|] eqn:Hq; [|done]. apply I2 in Hq. cbn in Hq.
    apply list_elem_of_lookup_2 in Hq. rewrite Forall_forall in Hlt. specialize (Hlt _ Hq). lia.
  - intros _. unfold ids. cbn. rewrite fmap_app. cbn. fold (ids s). split_and!.
    + by apply sorted_snoc.
    + apply Forall_app. split; [done|]. constructor; [lia|done].
    + unfold max_u32. destruct (Z.eqb_spec (nextID s) (2 ^ 32 - 1)) as [|Hne]; [done|]. intros _.
      assert (nextID s <> 2 ^ 32 - 2) by (intros E; by rewrite E in Hm). rewrite u32_id by lia. split_and!; [lia|lia| |].
      * by rewrite <- Zplus_mod_idemp_l, Hm.
      * apply Forall_app. split; [|constructor; [lia|done]]. eapply Forall_impl; [exact Hlt|]. cbn. lia.
Qed.

Lemma handle_open_inv s s' f p :
  client c = false -> ids_inv s -> handleOpenLocked c s f = (s', OpenInserted p) -> ids_inv s' /\ streams s ⊆ streams s'.
Proof.
  intros Hc HI. unfold handleOpenLocked. destruct (sclosed s); [done|].
  case_bool_decide as Hn; [done|]. cbn zeta.
  change (streams (s <| lastID := _ |>)) with (streams s).
  destruct (Z.leb_spec (maxStreams c) (Z.of_nat (size (streams s)))) as [|Hlt]; [done|].
  intros [= <- <-]. apply (new_stream_inv s _ ((newStream (StreamID f)) <| service := bytes_str (Payload f) |>)); try done.
  - cbn. by apply eq_None_not_Some.
  - by rewrite Hc.
Qed.

Lemma exec_ids o T (a : action T) s s' r :
  side_ok a -> exec c o a s = Some (s', r) -> ids_inv s ->
  ids_inv s' /\ (forall i p q, streams s !! i = Some p -> streams s' !! i = Some q -> q = p).
Proof.
  intros Hside He HI.
  assert (same_ids s s' \/ ids_inv s' /\ streams s ⊆ streams s') as [Hsame|[HI' Hsub]].
  { destruct a; try (by left; eapply exec_same_ids; [|exact He]); cbn [exec side_ok] in *; unfold locked in He;
      destruct (mu s); try done; injection He as He.
    - destruct r as [e|p]; [left|right; by eapply open_inv]. revert He. unfold openLocked.
      repeat (case_match; try done); intros; simplify_eq; by apply same_ids_refl.
    - destruct r as [| | |p]; try (right; by eapply handle_open_inv); left; revert He; unfold handleOpenLocked;
        repeat (case_match; try done); intros; simplify_eq; by apply same_ids_refl. }
  - split; [by eapply same_ids_inv|]. intros i p q Hp Hq. eapply lookup_weaken in Hq; [|apply Hsame]. congruence.
  - split; [done|]. intros i p q Hp Hq. eapply lookup_weaken in Hp; [|exact Hsub]. congruence.
Qed.

Lemma initial_ids s : initial c s -> ids_inv s.
Proof.
  intros Hs.
  assert (heap s = [] /\ streams s = ∅ /\ 0 <= maxStreams c /\ (client c = true -> nextID s = 1)) as (Hh & Hst & Hmax & Hn).
  { destruct Hs as [isClient limit compress counter c0 s0 [= <- <-]|limit compress counter sl c0 s0 Heq].
    - cbn. split_and!; try done; [destruct (Z.leb_spec limit 0); lia|by intros ->].
    - unfold newServerWithServices, newSession in Heq. injection Heq as <- <-. cbn.
      split_and!; try done; destruct (Z.leb_spec limit 0); lia. }
  split; unfold ids.
  - by rewrite Hst, map_size_empty.
  - intros i p. by rewrite Hst.
  - intros Hc. rewrite (Hn Hc), Hh. split_and!; by try constructor.
Qed.

Lemma pool_runs_ids s ms : pool_runs s ms -> ids_inv s.
Proof.
  induction 1 as [|s ms l _ IH|s ms i T a k o s' r Hr IH Hm He]; [by apply initial_ids|done|].
  eapply exec_ids; [|exact He|done]. pose proof (pool_runs_sides _ _ Hr) as Hs. rewrite Forall_lookup in Hs.
  apply (Hs _ _ Hm).
Qed.

(** * Properties *)

(** C14. Whatever the peer sends — also an OPEN of an id it has used before — a
    session never has more streams than its limit, its table holds under an id a
    stream with that id, and no step of any goroutine ever gives an id that is in
    the table to another stream; on a client the ids are odd and strictly
    increasing in the order of allocation, so none is used twice, and the next
    one lies above them all until the 32-bit ids are exhausted. *)
Theorem stream_ids s ms :
  pool_runs s ms ->
  Z.of_nat (size (streams s)) <= maxStreams c /\
  (forall i p, streams s !! i = Some p -> id <$> heap s !! p = Some i) /\
  (forall n T (a : action T) k o s' r i p q, ms !! n = Some (Act a k) -> exec c o a s = Some (s', r) ->
     streams s !! i = Some p -> streams s' !! i = Some q -> q = p) /\
  (client c = true ->
     StronglySorted Z.lt (id <$> heap s) /\ Forall (fun i => 0 < i /\ i mod 2 = 1) (id <$> heap s) /\
     (nextID s <> 0 -> 0 < nextID s < 2 ^ 32 /\ nextID s mod 2 = 1 /\ Forall (fun i => i < nextID s) (id <$> heap s))).
Proof.
  intros Hr. pose proof (pool_runs_ids _ _ Hr) as HI. split_and!; [apply HI| | |apply HI].
  - intros i p Hp. rewrite <- list_lookup_fmap. by apply HI.
  - intros n T a k o s' r i p q Hm He. eapply exec_ids; [|exact He|done].
    pose proof (pool_runs_sides _ _ Hr) as Hs. rewrite Forall_lookup in Hs. apply (Hs _ _ Hm).
Qed.

Lemma runPool_runs x evs : pool_runs x.1 x.2 -> pool_runs (runPool c x evs).1 (runPool c x evs).2.
Proof.
  revert x. induction evs as [|ev evs IH]; intros [s ms] Hx; cbn [runPool]; [done|].
  destruct (poolStep c (s, ms) ev) as [[s' ms']|] eqn:He; [|done]. apply IH. cbn in *.
  destruct ev as [l|i o]; cbn in He.
  - injection He as <- <-. by apply RunsCall.
  - destruct (ms !! i) as [[r|T a k]|] eqn:Hm; [done| |done].
    destruct (exec c o a s) as [[s1 t]|] eqn:Hex; [|done]. injection He as <- <-.
    by eapply RunsStep.
Qed.
End Ids.

(** The peer opens stream 1, resets it and opens it again. *)
Definition reopenInput : list Frame := [demoOpen; mkFrame FrameReset 1 []; demoOpen].

Definition demoReopened : Session * list (prog unit) :=
  runPool (H := rawFlate) demoFixed
    ((newSession false 2 false None).2, [readLoop demoFixed reopenInput (Sent EOF); writeLoop 3])
    (replicate 11 (EvStep 0 demoOracle)).

Lemma stream_ids_witness :
  pool_runs (H := rawFlate) demoFixed demoReopened.1 demoReopened.2 /\
  (id <$> heap demoReopened.1) = [1; 1] /\ streams demoReopened.1 !! 1 = Some 1%nat /\
  Z.of_nat (size (streams demoReopened.1)) <= 2.
Proof.
  assert (pool_runs (H := rawFlate) demoFixed demoReopened.1 demoReopened.2) as Hr.
  { apply (runPool_runs (H := rawFlate)), RunsInit; [by eapply (InitNew false 2 false None)|].
    by repeat (constructor; [by split; vm_compute|]). }
  split; [exact Hr|]. split; [vm_compute; reflexivity|]. split; [vm_compute; reflexivity|].
  exact (proj1 (stream_ids (H := rawFlate) demoFixed _ _ Hr)).
Defined.
