(* ===== verification/MuxWire.v ===== *)
(** * What a session puts on the wire

    The order of a stream's frames through the goroutines of MuxPool.  A ghost
    log records what each stream queued; [hands] is a program logic for the one
    goroutine that may hold a frame between a queue and the connection, the
    write loop, and [silent] says that every other goroutine never does.  The
    frames of a stream on the wire are then a prefix of those it queued. *)

From S2P Require Export MuxActions.

(** ** The frame in hand *)

Definition afterStream {T} (op : streamOp T) (h : option Frame) : option (T -> option Frame) :=
  match op in streamOp T return option (T -> option Frame) with
  | SNextOutbound => match h with Some _ => None | None => Some (fun r => fst <$> r) end
  | _ => Some (fun _ => h)
  end.

(** Whether a goroutine with [h] in hand may run an action, and what it has in
    hand then.  A frame that could not be written stays in hand. *)
Definition after {T} (a : action T) (h : option Frame) : option (T -> option Frame) :=
  match a in action T return option (T -> option Frame) with
  | AWriteFrame f => if decide (h = Some f) then Some (fun e => match e with Some _ => h | None => None end) else None
  | ATake => match h with Some _ => None | None => Some (fun t => match t with TakeFrame f => Some f | _ => None end) end
  | ATakeControl => match h with Some _ => None | None => Some (fun t => match t with Some (TakeFrame f) => Some f | _ => None end) end
  | AControl f => if queued f then None else Some (fun _ => h)
  | AStream p op => afterStream op h
  | _ => Some (fun _ => h)
  end.

Fixpoint hands {R} (h : option Frame) (m : prog R) (Q : option Frame -> R -> Prop) : Prop :=
  match m with
  | Ret r => Q h r
  | Act a k => exists g, after a h = Some g /\ forall r, hands (g r) (k r) Q
  end.

(** A goroutine that never touches the frame in hand, whoever holds it. *)
Definition untouched T (a : action T) : Prop := forall h, after a h = Some (fun _ => h).

Definition silent {R} (m : prog R) : Prop := every untouched m.

Lemma plain_untouched T (a : action T) : plain a = true -> untouched T a.
Proof.
  destruct a; try done; unfold untouched; cbn.
  - intros Hf h. by destruct (queued f).
  - by destruct op.
Qed.

Lemma hands_mono {R} (m : prog R) h (Q Q' : option Frame -> R -> Prop) :
  hands h m Q -> (forall h r, Q h r -> Q' h r) -> hands h m Q'.
Proof.
  intros Hm HQ. revert h Hm. induction m as [r|T a k IH]; intros h; [apply HQ|].
  intros (g & Hg & Hk). exists g. eauto.
Qed.

Lemma hands_bind {A B} (m : prog A) (f : A -> prog B) h Q :
  hands h m (fun h r => hands h (f r) Q) -> hands h (pbind m f) Q.
Proof.
  revert h. induction m as [r|T a k IH]; intros h; [done|]. intros (g & Hg & Hk). exists g. eauto.
Qed.

Lemma hands_silent {R} (m : prog R) h : silent m -> hands h m (fun h' _ => h' = h).
Proof.
  induction m as [r|T a k IH]; [done|]. intros [Ha Hk]. eexists. split; [apply Ha|]. intros r. apply IH, Hk.
Qed.

Lemma hands_quiet {A B} (m : prog A) (f : A -> prog B) h Q :
  silent m -> (forall r, hands h (f r) Q) -> hands h (pbind m f) Q.
Proof.
  intros Hm Hf. apply hands_bind. eapply hands_mono; [by apply hands_silent|]. by intros h' r ->.
Qed.

Lemma silent_shutdown e : silent (shutdown e).
Proof. apply every_shutdown, plain_untouched. Qed.

Lemma silent_runCall c l : silent (runCall c l).
Proof. by apply every_runCall; [apply plain_untouched|]. Qed.

Lemma silent_readLoop c input e : silent (readLoop c input e).
Proof. by apply every_readLoop; [apply plain_untouched|]. Qed.

(** ** The write loop *)

Lemma hands_nextOutbound p : hands None (nextOutbound p) (fun h r => h = r).
Proof.
  unfold nextOutbound. apply hands_bind. eexists. split; [reflexivity|]. intros [[f []]|]; cbn [fmap option_fmap option_map fst].
  - apply hands_quiet; [apply every_schedule, plain_untouched|done].
  - apply hands_quiet; [by split|]. intros i. apply hands_quiet; [apply every_removeStream, plain_untouched|done].
  - done.
  - done.
Qed.

Lemma hands_writeLoop turns : hands None (writeLoop turns) (fun _ _ => True).
Proof.
  induction turns as [|turns IH]; [done|]. cbn [writeLoop]. cbv zeta.
  assert (forall f, hands (Some f) (let! e := do (AWriteFrame f) in
    match e with Some e => shutdown (Some e) | None => writeLoop turns end) (fun _ _ => True)) as Hwrite.
  { intros f. cbn. rewrite decide_True by done. eexists. split; [reflexivity|]. intros [e|]; [|done].
    eapply hands_mono; [apply hands_silent, silent_shutdown|done]. }
  eexists. split; [reflexivity|]. intros first. apply hands_bind.
  assert (forall t : takeCase, hands (match t with TakeFrame f => Some f | _ => None end)
    (match t with
     | TakeDone => Ret tt
     | TakeFrame frame => let! e := do (AWriteFrame frame) in match e with Some e => shutdown (Some e) | None => writeLoop turns end
     | TakeReady i =>
         let! (stream, _) := do (ALookup i) in
         match stream with
         | None => writeLoop turns
         | Some p =>
             let! frame := nextOutbound p in
             match frame with
             | Some frame => let! e := do (AWriteFrame frame) in match e with Some e => shutdown (Some e) | None => writeLoop turns end
             | None => writeLoop turns
             end
         end
     end) (fun _ _ => True)) as Htake.
  { intros [|f|i]; [done|apply Hwrite|]. apply hands_quiet; [by split|]. intros [[p|] retired]; cbv beta iota; [|done].
    apply hands_bind. eapply hands_mono; [apply hands_nextOutbound|]. intros h [f|] ->; [apply Hwrite|done]. }
  destruct first as [t|]; cbn [hands].
  - apply Htake.
  - eexists. split; [reflexivity|]. intros t. apply Htake.
Qed.

(** ** What every stream queued *)

Lemma List_filter_none {A} (P : A -> bool) l : (forall x, x ∈ l -> P x = false) -> List.filter P l = [].
Proof.
  intros Hl. induction l as [|x l IH]; [done|]. cbn. rewrite (Hl x) by (by left). apply IH. intros y Hy. apply Hl. by right.
Qed.


Definition ours (i : Z) (f : Frame) : bool := queued f && (StreamID f =? i).

(** The frames a step puts into the queue of the stream at [p]. *)
Definition added (s s' : Session) (p : nat) : list Frame :=
  match heap s !! p, heap s' !! p with
  | Some st, Some st' => drop (length (outbound st)) (outbound st')
  | _, _ => []
  end.

Section Wire.
Context `{Flate} (c : Fixed).

(** [pool_reachable] with the log. *)
Inductive pool_log : Session -> list (prog unit) -> (nat -> list Frame) -> Prop :=
  | LogInit s input e turns :
      initial c s -> Forall incoming input -> NoDup (openIDs c input) ->
      pool_log s [readLoop c input e; writeLoop turns] (fun _ => [])
  | LogCall s ms log l : pool_log s ms log -> pool_log s (ms ++ [runCall c l]) log
  | LogStep s ms log i T (a : action T) k o s' r :
      pool_log s ms log -> ms !! i = Some (Act a k) -> exec c o a s = Some (s', r) ->
      pool_log s' (<[i := k r]> ms) (fun p => log p ++ added s s' p).

Lemma pool_log_reachable s ms log : pool_log s ms log -> pool_reachable c s ms.
Proof. induction 1; [by apply PoolInit|by apply PoolCall|by eapply PoolStep]. Qed.

Lemma pool_reachable_log s ms : pool_reachable c s ms -> exists log, pool_log s ms log.
Proof.
  induction 1 as [| ? ? ? ? [log IH]|? ? ? ? ? ? ? ? ? ? [log IH]]; eexists; [by apply LogInit|by apply LogCall|by eapply LogStep].
Qed.

(** ** The invariant *)

(** What the stream queued is on the wire, in hand, or still in its queue,
    unless a reset emptied it. *)
Definition line_ok (w : list Frame) (queue : list Frame) (st : Stream) : Prop :=
  exists rest, queue = List.filter (ours (id st)) w ++ rest /\ (rest = outbound st \/ outbound st = [] /\ closed st = true).

Record wire_inv (s : Session) (log : nat -> list Frame) (h : option Frame) : Prop := {
  wi_control : Forall (fun f => queued f = false) (control s);
  wi_wire : forall f, f ∈ wire s ++ option_list h -> queued f = true -> StreamID f ∈ id <$> heap s;
  wi_outbound : forall p st, heap s !! p = Some st -> Forall (fun f => ours (id st) f = true) (outbound st);
  wi_line : forall p st, heap s !! p = Some st -> line_ok (wire s ++ option_list h) (log p) st;
  wi_log : forall p, heap s !! p = None -> log p = []
}.

Lemma added_same s s' : heap s' = heap s -> forall p, added s s' p = [].
Proof. intros Hh p. unfold added. rewrite Hh. destruct (heap s !! p); [|done]. apply drop_all. Qed.

(** A step that leaves streams and wire alone; what it has in hand matters
    only when it is a stream's frame. *)
Lemma wire_inv_same s s' log h h' :
  wire_inv s log h -> heap s' = heap s -> wire s' = wire s -> Forall (fun f => queued f = false) (control s') ->
  (forall i, List.filter (ours i) (option_list h') = List.filter (ours i) (option_list h)) ->
  (forall f, f ∈ option_list h' -> queued f = true -> f ∈ option_list h) ->
  wire_inv s' (fun p => log p ++ added s s' p) h'.
Proof.
  intros [] Hh Hw Hc Hf Hq. pose proof (added_same _ _ Hh) as Ha. split; rewrite ?Hh, ?Hw; try done.
  - intros f [Hin|Hin]%elem_of_app Hqf; apply wi_wire0; [apply elem_of_app; by left|done|apply elem_of_app; right; auto|done].
  - intros p st Hp. rewrite Ha, app_nil_r. destruct (wi_line0 p st Hp) as (rest & -> & Hr). exists rest.
    by rewrite !List.filter_app, Hf.
  - intros p Hp. rewrite Ha, app_nil_r. auto.
Qed.

(** A new stream. *)
Lemma wire_inv_new s s' log h st :
  wire_inv s log h -> heap s' = heap s ++ [st] -> outbound st = [] -> wire s' = wire s -> control s' = control s ->
  NoDup (id <$> heap s') -> wire_inv s' (fun p => log p ++ added s s' p) h.
Proof.
  intros [] Hh Ho Hw Hc Hnd.
  assert (id st ∉ id <$> heap s) as Hfresh.
  { rewrite Hh, fmap_app in Hnd. apply NoDup_app in Hnd as (_ & Hd & _). intros Hin. apply (Hd _ Hin). by left. }
  assert (forall p, heap s' !! p = None \/ (p = length (heap s) /\ heap s' !! p = Some st /\ heap s !! p = None) \/ heap s' !! p = heap s !! p) as Hcase.
  { intros p. rewrite Hh. destruct (decide (p < length (heap s))%nat) as [Hlt|Hge]; [right; right; by apply lookup_app_l|].
    destruct (decide (p = length (heap s))) as [->|Hne].
    - right; left. split_and!; [done|by rewrite list_lookup_middle|by apply lookup_ge_None].
    - left. apply lookup_ge_None. rewrite length_app. cbn. lia. }
  assert (forall p, added s s' p = []) as Ha.
  { intros p. unfold added. destruct (Hcase p) as [->|[(_ & -> & ->)| ->]]; [by destruct (heap s !! p)|done|].
    destruct (heap s !! p); [apply drop_all|done]. }
  split; rewrite ?Hw, ?Hc; try done.
  - intros f Hin Hq. rewrite Hh, fmap_app. apply elem_of_app. left. auto.
  - intros p st' Hp. destruct (Hcase p) as [Hn|[(-> & Hn & _)|Heq]]; [congruence| |rewrite Heq in Hp; eauto].
    rewrite Hn in Hp. injection Hp as <-. by rewrite Ho.
  - intros p st' Hp. rewrite Ha, app_nil_r. destruct (Hcase p) as [Hn|[(-> & Hn & Hnone)|Heq]]; [congruence| |rewrite Heq in Hp; eauto].
    rewrite Hn in Hp. injection Hp as <-. exists []. rewrite (wi_log0 _ Hnone), Ho. split; [|by left].
    rewrite app_nil_r. symmetry. apply List_filter_none. intros f Hin. unfold ours. destruct (queued f) eqn:Hq; [|done].
    cbn. apply Z.eqb_neq. intros Heq. apply Hfresh. rewrite <- Heq. auto.
  - intros p Hp. rewrite Ha, app_nil_r. destruct (Hcase p) as [Hn|[(-> & Hn & Hnone)|Heq]]; [|congruence|rewrite Heq in Hp; auto].
    apply wi_log0. rewrite Hh in Hn. apply lookup_ge_None in Hn. rewrite length_app in Hn. apply lookup_ge_None. lia.
Qed.

(** One stream changes. *)
Lemma wire_inv_update s log h h' p st st' :
  wire_inv s log h -> NoDup (id <$> heap s) -> heap s !! p = Some st -> id st' = id st ->
  Forall (fun f => ours (id st) f = true) (outbound st') ->
  (forall i, i <> id st -> List.filter (ours i) (option_list h') = List.filter (ours i) (option_list h)) ->
  (forall f, f ∈ option_list h' -> queued f = true -> f ∈ option_list h \/ StreamID f = id st) ->
  (line_ok (wire s ++ option_list h) (log p) st ->
   line_ok (wire s ++ option_list h') (log p ++ drop (length (outbound st)) (outbound st')) st') ->
  let s' := s <| heap := <[p := st']> (heap s) |> in
  wire_inv s' (fun p => log p ++ added s s' p) h'.
Proof.
  intros [] Hnd Hp Hid Ho Hf Hq Hline s'.
  assert (p < length (heap s))%nat as Hlt by (by eapply lookup_lt_Some).
  assert (heap s' !! p = Some st') as Hp' by (by apply list_lookup_insert_eq).
  assert (forall q, q <> p -> heap s' !! q = heap s !! q) as Hne by (intros q Hqp; by apply list_lookup_insert_ne).
  assert (id <$> heap s' = id <$> heap s) as Hids by (by eapply heap_ids).
  assert (forall q, q <> p -> added s s' q = []) as Ha.
  { intros q Hqp. unfold added. rewrite Hne by done. destruct (heap s !! q); [apply drop_all|done]. }
  split; cbn [control wire]; try done.
  - intros f [Hin|Hin]%elem_of_app Hqf; rewrite Hids.
    + apply wi_wire0; [apply elem_of_app; by left|done].
    + destruct (Hq f Hin Hqf) as [Hin'| ->]; [apply wi_wire0; [apply elem_of_app; by right|done]|].
      apply list_elem_of_fmap. exists st. split; [done|]. by eapply list_elem_of_lookup_2.
  - intros q st1 Hq1. destruct (decide (q = p)) as [->|Hqp]; [|rewrite Hne in Hq1 by done; eauto].
    rewrite Hp' in Hq1. injection Hq1 as <-. by rewrite Hid.
  - intros q st1 Hq1. destruct (decide (q = p)) as [->|Hqp].
    + rewrite Hp' in Hq1. injection Hq1 as <-. unfold added. rewrite Hp, Hp'. auto.
    + rewrite Hne in Hq1 by done. rewrite Ha, app_nil_r by done. destruct (wi_line0 q st1 Hq1) as (rest & -> & Hr). exists rest.
      split; [|done]. change (wire s') with (wire s). rewrite !List.filter_app, Hf; [done|]. intros Heq. apply Hqp.
      by eapply heap_unique.
  - intros q Hq1. destruct (decide (q = p)) as [->|Hqp]; [congruence|]. rewrite Ha, app_nil_r by done.
    apply wi_log0. by rewrite Hne in Hq1.
Qed.

(** *** The critical sections of a stream *)

(** A stream's queue grows at its end, unless the stream is closed. *)
Definition appends (st st' : Stream) : Prop :=
  st' = st \/ exists f, ours (id st) f = true /\ id st' = id st /\ outbound st' = outbound st ++ [f] /\ closed st = false.

Lemma enqueue_appends st st0 ty payload st' b :
  ty = FrameData \/ ty = FrameFIN -> id st0 = id st -> outbound st0 = outbound st -> closed st = false ->
  enqueueLocked st0 (mkFrame ty (id st0) payload) = (st', b) -> appends st st'.
Proof.
  intros Ht Hid Ho Hc. unfold enqueueLocked. intros Heq. right. exists (mkFrame ty (id st0) payload).
  assert (ours (id st) (mkFrame ty (id st0) payload) = true).
  { unfold ours, queued. cbn. rewrite Hid, Z.eqb_refl. by destruct Ht as [->| ->]. }
  destruct (scheduled _); injection Heq as <- _; cbn; rewrite ?Ho; by split_and!.
Qed.

Lemma Write_appends st p st' t : Write (compression c) st p = (st', t) -> appends st st'.
Proof.
  unfold Write. destruct (negb (opened st)); [intros [= <- _]; by left|].
  destruct (closed st || localWriteClosed st) eqn:Hc; [intros [= <- _]; by left|]. apply orb_false_iff in Hc as [Hc _].
  destruct (0 <? sendWindow st); [|intros [= <- _]; by left]. cbn zeta.
  destruct (if compression c then encodeCompressedPayload _ else _) as [e|payload]; [intros [= <- _]; by left|].
  destruct (enqueueLocked _ _) as [s b] eqn:E. intros [= <- _]. eapply enqueue_appends; [| | | |exact E]; [by left|done..].
Qed.

Lemma CloseWrite_appends st st' b : CloseWrite st = (st', b) -> appends st st'.
Proof.
  unfold CloseWrite. destruct (localWriteClosed st || closed st) eqn:Hc; [intros [= <- _]; by left|].
  apply orb_false_iff in Hc as [_ Hc]. destruct (enqueueLocked _ _) as [s b'] eqn:E. intros [= <- _].
  assert (appends st s) as [->|(f & H1 & H2 & H3 & H4)]
    by (eapply (enqueue_appends _ (st <| localWriteClosed := true |>) FrameFIN); [by right|done..|exact E]).
  - exfalso. revert E. unfold enqueueLocked. destruct (scheduled _); intros Heq; apply (f_equal (fun x => length (outbound x.1))) in Heq;
      cbn in Heq; rewrite length_app in Heq; cbn in Heq; lia.
  - right. by exists f.
Qed.

Lemma line_appends w log st st' :
  appends st st' -> line_ok w log st -> line_ok w (log ++ drop (length (outbound st)) (outbound st')) st'.
Proof.
  intros [->|(f & _ & Hid & Ho & Hc)] (rest & -> & Hr).
  { exists rest. by rewrite drop_all, app_nil_r. }
  destruct Hr as [->|[_ Hc']]; [|congruence]. exists (outbound st'). rewrite Hid, Ho, drop_app_length, <- app_assoc. by split; [|left].
Qed.

Lemma outbound_appends st st' :
  appends st st' -> Forall (fun f => ours (id st) f = true) (outbound st) -> Forall (fun f => ours (id st) f = true) (outbound st').
Proof. intros [->|(f & Hf & _ & -> & _)] Ho; [done|]. apply Forall_app. by split; [|constructor]. Qed.

Lemma appends_id st st' : appends st st' -> id st' = id st.
Proof. by intros [->|(f & _ & Hid & _)]. Qed.

Lemma line_next w log st st' r :
  MuxStream.nextOutbound st = (st', r) -> Forall (fun f => ours (id st) f = true) (outbound st) ->
  line_ok (w ++ []) log st ->
  id st' = id st /\ Forall (fun f => ours (id st) f = true) (outbound st') /\
  (forall i, i <> id st -> List.filter (ours i) (option_list (fst <$> r)) = []) /\
  (forall f, f ∈ option_list (fst <$> r) -> StreamID f = id st) /\
  line_ok (w ++ option_list (fst <$> r)) (log ++ drop (length (outbound st)) (outbound st')) st'.
Proof.
  unfold MuxStream.nextOutbound. destruct (outbound st) as [|f rest] eqn:Eo.
  { intros [= <- <-] _ (q & -> & Hr). cbn. split_and!; try done; [by rewrite Eo|by intros f Hf%elem_of_nil|].
    exists q. rewrite Eo in *. cbn. rewrite app_nil_r. by split. }
  intros Heq [Hf Ho]%Forall_cons (q & -> & Hr).
  assert (id st' = id st /\ outbound st' = rest /\ option_list (fst <$> r) = [f]) as (Hid & Ho' & Hl).
  { cbn zeta in Heq. destruct (0 <? zlen rest); by injection Heq as <- <-. }
  rewrite Hl, Ho', Hid. apply andb_true_iff in Hf as Hf'. destruct Hf' as [Hq Hi%Z.eqb_eq]. split_and!; try done.
  - intros i Hne. cbn. unfold ours. rewrite (proj2 (Z.eqb_neq _ _)) by congruence. by rewrite andb_false_r.
  - by intros g ->%list_elem_of_singleton.
  - exists rest. rewrite Hid, Ho'. rewrite Eo in Hr. destruct Hr as [->|[? _]]; [|done]. split; [|by left].
    rewrite drop_ge by (cbn; lia). rewrite !List.filter_app. cbn. by rewrite Hf, !app_nil_r, <- app_assoc.
Qed.

Lemma stream_step s log h p T (op : streamOp T) g o s' r :
  wire_inv s log h -> NoDup (id <$> heap s) -> afterStream op h = Some g -> exec c o (AStream p op) s = Some (s', r) ->
  wire_inv s' (fun q => log q ++ added s s' q) (g r).
Proof.
  intros HI Hnd Hg He. cbn in He. apply bind_Some in He as (st & Hp & He).
  destruct (runStream c op st) as [st' r'] eqn:Er. injection He as <- <-. pose proof (wi_outbound _ _ _ HI _ _ Hp) as Ho.
  assert (appends st st' -> (forall q, g q = h) -> wire_inv (s <| heap := <[p := st']> (heap s) |>)
    (fun q => log q ++ added s (s <| heap := <[p := st']> (heap s) |>) q) (g r')) as Happ.
  { intros Ha Hgh. rewrite Hgh. eapply wire_inv_update; try done; [by apply appends_id|by eapply outbound_appends|by left|].
    by apply line_appends. }
  assert (inbound_op op \/ ~ inbound_op op) as [Hop|Hop] by (destruct op; cbn; tauto).
  - pose proof (runStream_inbound c op st Hop) as (Hid & Hob & _ & Hcl). cbv zeta in *. rewrite Er in *. cbn in Hid, Hob, Hcl.
    assert (g = fun _ => h) as -> by (clear Er Happ; destruct op; try done; by injection Hg as <-).
    eapply wire_inv_update; try done; [by rewrite Hob|by left|]. intros (q & -> & Hr). exists q. rewrite Hob, Hid, drop_all, app_nil_r.
    split; [done|]. destruct Hr as [|[? ?]]; [by left|right; auto].
  - destruct op; try done; cbn in Er, Hg.
    + injection Hg as <-. apply Happ; [|done]. by eapply Write_appends.
    + injection Hg as <-. apply Happ; [|done]. by eapply CloseWrite_appends.
    + injection Hg as <-. unfold Reset in Er. destruct (closed st); injection Er as <- <-; [by apply Happ; [left|]|].
      eapply wire_inv_update; try done; [by left|]. intros (q & -> & Hr). exists q. cbn. rewrite drop_nil, app_nil_r. split; [done|by right].
    + destruct h; [done|]. injection Hg as <-. destruct (wi_line _ _ _ HI _ _ Hp) as (q & Hq & Hr).
      destruct (line_next (wire s) (log p) st st' r' Er Ho) as (Hid & Ho' & Hn & Hs & Hl); [by exists q|].
      eapply wire_inv_update; try done. intros f Hf _. right. by apply Hs.
Qed.

(** *** Every action *)

Ltac exec_cases :=
  repeat match goal with
  | H : locked ?s _ = Some _ |- _ => unfold locked in H; destruct (mu s) eqn:?; [done|]
  | H : (_ <$> ?x) = Some _ |- _ => destruct x eqn:?; cbn in H; [|done]
  | H : (_ ≫= _) = Some _ |- _ => apply bind_Some in H as (? & ? & H)
  | H : match ?x with _ => _ end = Some _ |- _ => destruct x eqn:?; try done
  | H : Some _ = Some _ |- _ => injection H; clear H; intros; subst
  | H : (_, _) = (_, _) |- _ => injection H; clear H; intros; subst
  end.

Lemma openLocked_heap s s' r :
  openLocked c s = (s', r) ->
  wire s' = wire s /\ control s' = control s /\ (heap s' = heap s \/ exists i, heap s' = heap s ++ [newStream i]).
Proof. unfold openLocked. repeat case_match; intros [= <- _]; split_and!; try done; eauto. Qed.

Lemma handleOpenLocked_heap s f s' r :
  handleOpenLocked c s f = (s', r) ->
  wire s' = wire s /\ control s' = control s /\
  (heap s' = heap s \/ exists st, heap s' = heap s ++ [st] /\ outbound st = []).
Proof. unfold handleOpenLocked. cbv zeta. repeat case_match; intros [= <- _]; split_and!; try done; eauto. Qed.

(** What a [select] of the write loop takes. *)
Lemma wire_take s log s' t :
  wire_inv s log None -> (s', t) ∈ takeCases s ++ readyCases s ->
  wire_inv s' (fun p => log p ++ added s s' p) (match t with TakeFrame f => Some f | _ => None end).
Proof.
  intros HI Hin. pose proof (wi_control _ _ _ HI) as Hc. unfold takeCases, readyCases in Hin.
  assert (heap s' = heap s /\ wire s' = wire s /\ Forall (fun f => queued f = false) (control s') /\
    (forall f, t = TakeFrame f -> queued f = false)) as (Hh & Hw & Hc' & Ht).
  { repeat (apply elem_of_app in Hin as [Hin|Hin]).
    - unfold when in Hin. destruct (sdone s); [|by apply elem_of_nil in Hin]. by apply list_elem_of_singleton in Hin as [= -> ->].
    - destruct (control s) as [|f rest] eqn:Ec; [by apply elem_of_nil in Hin|]. apply list_elem_of_singleton in Hin as [= -> ->].
      apply Forall_cons in Hc as [Hf Hrest]. split_and!; try done. by intros g [= <-].
    - destruct (ready s) as [|i rest]; [by apply elem_of_nil in Hin|]. by apply list_elem_of_singleton in Hin as [= -> ->]. }
  eapply wire_inv_same; try done.
  - intros i. destruct t as [|f|]; try done. cbn. unfold ours. by rewrite (Ht f eq_refl).
  - intros f Hf Hq. destruct t as [|f'|]; try by apply elem_of_nil in Hf. apply list_elem_of_singleton in Hf as ->.
    by rewrite (Ht f' eq_refl) in Hq.
Qed.

Lemma wire_write s s' log f :
  wire_inv s log (Some f) -> heap s' = heap s -> control s' = control s -> wire s' = wire s ++ [f] ->
  wire_inv s' (fun p => log p ++ added s s' p) None.
Proof.
  intros [] Hh Hc Hw. pose proof (added_same _ _ Hh) as Ha. split; rewrite ?Hh, ?Hc, ?Hw; cbn; try done.
  - intros g Hin. apply wi_wire0. by rewrite app_nil_r in Hin.
  - intros p st Hp. rewrite Ha, !app_nil_r. by apply wi_line0.
  - intros p Hp. rewrite Ha, app_nil_r. by apply wi_log0.
Qed.

Lemma wire_step s log h T (a : action T) g o s' r :
  wire_inv s log h -> NoDup (id <$> heap s) -> NoDup (id <$> heap s') ->
  after a h = Some g -> exec c o a s = Some (s', r) ->
  wire_inv s' (fun p => log p ++ added s s' p) (g r).
Proof.
  intros HI Hnd Hnd' Hg He. pose proof (wi_control _ _ _ HI) as Hc.
  assert (forall s1, heap s1 = heap s -> wire s1 = wire s -> Forall (fun f => queued f = false) (control s1) ->
    wire_inv s1 (fun p => log p ++ added s s1 p) h) as Hsame by (intros; by eapply wire_inv_same).
  destruct a; cbn [after] in Hg; try (injection Hg as <-); cbn [exec] in He.
  all: try (unfold scheduleLocked, shutdownLocked in He; exec_cases; by apply Hsame).
  - (* AOpen *)
    exec_cases. destruct (openLocked_heap s s' r) as (Hw & Hct & [Hh|[i Hh]]); [done|apply Hsame; by rewrite ?Hct|].
    by eapply wire_inv_new.
  - (* AHandleOpen *)
    exec_cases. destruct (handleOpenLocked_heap s frame s' r) as (Hw & Hct & [Hh|(st & Hh & Ho)]); [done|apply Hsame; by rewrite ?Hct|].
    by eapply wire_inv_new.
  - (* AControl *)
    destruct (queued f) eqn:Hf; [done|]. injection Hg as <-. exec_cases; apply Hsame; try done. cbn. apply Forall_app. by repeat constructor.
  - (* ATakeAccept *)
    apply list_elem_of_lookup_2 in He. unfold when in He. repeat (apply elem_of_app in He as [He|He]).
    + destruct (ioErr o); [|by apply elem_of_nil in He]. apply list_elem_of_singleton in He as [= -> ->]. by apply Hsame.
    + destruct (sdone s); [|by apply elem_of_nil in He]. apply list_elem_of_singleton in He as [= -> ->]. by apply Hsame.
    + destruct (accept s); [by apply elem_of_nil in He|]. apply list_elem_of_singleton in He as [= -> ->]. by apply Hsame.
  - (* ATakeControl *)
    destruct h; [done|]. injection Hg as <-. destruct (select o (takeCases s)) as [[s1 t]|] eqn:Es; injection He as <- <-; [|by apply Hsame].
    eapply wire_take; [done|]. apply elem_of_app. left. by eapply list_elem_of_lookup_2.
  - (* ATake *)
    destruct h; [done|]. injection Hg as <-. eapply wire_take; [done|]. by eapply list_elem_of_lookup_2.
  - (* AWriteFrame *)
    case_decide as Hf; [|done]. subst h. injection Hg as <-. exec_cases; try by apply Hsame. by eapply wire_write.
  - (* AStream *)
    by apply (stream_step s log h p T op g o).
Qed.

(** The write loop is the second goroutine; nobody else holds a frame. *)
Definition ghost_ok (s : Session) (ms : list (prog unit)) (log : nat -> list Frame) (h : option Frame) : Prop :=
  wire_inv s log h /\ (exists m, ms !! 1%nat = Some m /\ hands h m (fun _ _ => True)) /\
  forall j m, j <> 1%nat -> ms !! j = Some m -> silent m.

Lemma initial_wire s : initial c s -> wire_inv s (fun _ => []) None.
Proof.
  intros Hs. assert (heap s = [] /\ wire s = [] /\ Forall (fun f => queued f = false) (control s)) as (Hh & Hw & Hc).
  { destruct Hs as [isClient limit compress counter c0 s0 [= <- <-]|limit compress counter sl c0 s0 Heq]; [done|].
    unfold newServerWithServices, newSession in Heq. injection Heq as <- <-. split_and!; try done. by repeat constructor. }
  split; rewrite ?Hh, ?Hw; try done. intros f Hf. by apply elem_of_nil in Hf.
Qed.

Lemma pool_ids s ms : pool_reachable c s ms -> NoDup (id <$> heap s).
Proof. intros (tss & _ & Hi)%pool_reachable_inv. apply (iv_ids _ _ _ Hi). Qed.

Lemma pool_log_ghost s ms log : pool_log s ms log -> exists h, ghost_ok s ms log h.
Proof.
  induction 1 as [s input e turns Hs Hin Hnd|s ms log l Hl (h & HI & (m & Hm & Hh) & Hsil)|s ms log i T a k o s' r Hl (h & HI & (m & Hm & Hh) & Hsil) Hi He].
  - exists None. split_and!; [by apply initial_wire|eexists; split; [done|apply hands_writeLoop]|].
    intros [|[|j]] m Hj; cbn; try done. intros [= <-]. apply silent_readLoop.
  - exists h. split_and!; [done|exists m; split; [by apply lookup_app_l_Some|done]|].
    intros j m' Hj [Hm'|[_ Hm']]%lookup_app_Some; [by eapply Hsil|]. apply list_lookup_singleton_Some in Hm' as [_ <-]. apply silent_runCall.
  - pose proof (pool_ids _ _ (pool_log_reachable _ _ _ Hl)) as Hnd.
    pose proof (pool_ids _ _ (PoolStep _ _ _ _ _ _ _ _ _ _ (pool_log_reachable _ _ _ Hl) Hi He)) as Hnd'.
    assert (i < length ms)%nat as Hlt by (by eapply lookup_lt_Some).
    destruct (decide (i = 1%nat)) as [->|Hne].
    + rewrite Hi in Hm. injection Hm as <-. destruct Hh as (g & Hg & Hk). exists (g r). split_and!.
      * by eapply wire_step.
      * exists (k r). split; [by apply list_lookup_insert_eq|apply Hk].
      * intros j m Hj Hm. rewrite list_lookup_insert_ne in Hm by done. by eapply Hsil.
    + destruct (Hsil _ _ Hne Hi) as [Ha Hk]. exists h. split_and!.
      * by apply (wire_step s log h T a (fun _ => h) o s' r).
      * exists m. split; [by rewrite list_lookup_insert_ne|done].
      * intros j m' Hj Hm'. destruct (decide (j = i)) as [->|Hji]; [|rewrite list_lookup_insert_ne in Hm' by done; by eapply Hsil].
        rewrite list_lookup_insert_eq in Hm' by done. injection Hm' as <-. apply Hk.
Qed.

(** * Properties *)

(** C13. In every interleaving of the goroutines of a session, whose peer never
    opens an id twice, the frames of a stream reach the connection in the order
    in which [Write] and [CloseWrite] queued them: the DATA and FIN frames with
    the stream's id on the wire are a prefix of those it queued, none lost,
    duplicated, reordered or invented.  While the write loop waits for work the
    rest is exactly the stream's queue; only [Reset] drops frames, all of them,
    so that this holds of an open stream and of a closed one that still has
    frames to send. *)
Theorem wire_in_order s ms log p st :
  pool_log s ms log -> heap s !! p = Some st ->
  List.filter (ours (id st)) (wire s) `prefix_of` log p /\
  (closed st = false \/ outbound st <> [] -> (exists k, ms !! 1%nat = Some (Act ATake k)) ->
   log p = List.filter (ours (id st)) (wire s) ++ outbound st).
Proof.
  intros Hl Hp. destruct (pool_log_ghost _ _ _ Hl) as (h & HI & (m & Hm & Hh) & _).
  destruct (wi_line _ _ _ HI _ _ Hp) as (rest & Hq & Hr). rewrite List.filter_app, <- app_assoc in Hq. split; [by eexists|].
  intros Hc (k & Hk). rewrite Hk in Hm. injection Hm as <-. destruct Hh as (g & Hg & _). destruct h; [done|].
  rewrite Hq. destruct Hr as [->|[Hout Hc']]; [done|]. destruct Hc; congruence.
Qed.
End Wire.
(** The demo of MuxPool, until the write loop waits. *)
Definition demoWritten : Session * list (prog unit) :=
  runPool (H := rawFlate) demoFixed demoScheduled (replicate 12 (EvStep 1 demoOracle)).

Definition demoWriter : Stream := default (newStream 0) (heap demoWritten.1 !! 0%nat).

(** The rest of a program about to take from the queues. *)
Definition afterTake (m : option (prog unit)) : takeCase -> prog unit :=
  match m with
  | Some (Act a k) =>
      match a in action T return (T -> prog unit) -> takeCase -> prog unit with
      | ATake => fun k => k
      | _ => fun _ _ => Ret tt
      end k
  | _ => fun _ => Ret tt
  end.

Lemma wire_in_order_witness :
  exists log, pool_log (H := rawFlate) demoFixed demoWritten.1 demoWritten.2 log /\
    log 0%nat = [mkFrame FrameData 1 demoData] /\ wire demoWritten.1 = [frameOf FrameOpenOK 1 []; mkFrame FrameData 1 demoData].
Proof.
  destruct (pool_reachable_log (H := rawFlate) demoFixed demoWritten.1 demoWritten.2) as [log Hl].
  { apply (runPool_reachable (H := rawFlate)), demoScheduled_reachable. }
  exists log. split; [exact Hl|].
  assert (heap demoWritten.1 !! 0%nat = Some demoWriter) as Hp by (vm_compute; reflexivity).
  assert (demoWritten.2 !! 1%nat = Some (Act ATake (afterTake (demoWritten.2 !! 1%nat)))) as Hm by (vm_compute; reflexivity).
  assert (closed demoWriter = false) as Hc by (vm_compute; reflexivity).
  split; [|vm_compute; reflexivity].
  etransitivity; [exact (proj2 (wire_in_order (H := rawFlate) demoFixed _ _ log 0 demoWriter Hl Hp) (or_introl Hc) (ex_intro _ _ Hm))|].
  vm_compute. reflexivity.
Defined.
